(** * 8cc: character stream, pp-token lexer, token buffers, byte buffer, map

    A shallow embedding of the C sources (the hash table, buffer.c, file.c
    and the tokenizer) and the properties of their specification.

    Conventions of the embedding.
    - A C [int] is a [Z]; a byte read by [getc] is a [Z] in 0..255 and [EOF]
      is -1.  A plain [char] is signed (x86-64, the only target of this
      compiler, which is also compiled by itself): a byte [b >= 128] read
      through a [char *] has the value [b - 256].
    - A pointer to an opaque value is a [Z], [NULL] being 0.
    - A C string is the sequence of its characters before the terminator.
    - A function that can fail an [assert], call the fatal [error], index an
      array out of its bounds or loop forever returns an [option] or a
      [result].  Loops carry a fuel: the size of the table for the map, the
      length of the output for the byte buffer, and for the stream and the
      lexer the weight of the files, which bounds the characters that they
      can still deliver. *)

From Stdlib Require Import ZArith List String Ascii Bool Lia.
From stdpp Require Import base list.
Import ListNotations.

Set Warnings "-register-all".

Local Open Scope Z_scope.

(** The value of a plain (signed) [char] holding the byte [b]. *)
Definition char_of_byte (b : Z) : Z := if 128 <=? b then b - 256 else b.

Definition char_val (a : ascii) : Z := char_of_byte (Z.of_N (N_of_ascii a)).

(** The value of an [int] as [uint32_t], and as [int] again. *)
Definition uint32 (x : Z) : Z := x mod 2 ^ 32.
Definition int32 (x : Z) : Z := (x + 2 ^ 31) mod 2 ^ 32 - 2 ^ 31.

(** ** The scope-chained string map (map.c) *)

Module Map.

(** A slot of the key array: [NULL], [TOMBSTONE] or a pointer to a key. *)
Inductive slot : Type :=
| Empty
| Tombstone
| Key (k : string).

(** [struct Map]; [key = None] is the null key array of [EMPTY_MAP]. *)
Inductive Map : Type := mkMap {
  parent : option Map;
  key : option (list slot);
  val : list Z;
  size : Z;
  nelem : Z;
  nused : Z
}.

Definition INIT_SIZE : Z := 16.

(** [hash]: FNV-1a on 32 bits.  [r ^= *p] converts the signed [char] to
    [uint32_t] before the exclusive or. *)
Fixpoint hash_from (r : Z) (p : string) : Z :=
  match p with
  | EmptyString => r
  | String c p' => hash_from (uint32 (Z.lxor r (uint32 (char_val c)) * 16777619)) p'
  end.

Definition hash (p : string) : Z := hash_from 2166136261 p.

Definition do_make_map (parent : option Map) (size : Z) : Map :=
  {| parent := parent;
     key := Some (replicate (Z.to_nat size) Empty);
     val := replicate (Z.to_nat size) 0;
     size := size; nelem := 0; nused := 0 |}.

Definition make_map : Map := do_make_map None INIT_SIZE.

Definition make_map_parent (parent : Map) : Map := do_make_map (Some parent) INIT_SIZE.

(** The inner loop of [maybe_rehash]: the first null slot from [j]. *)
Fixpoint rehash_insert (fuel : nat) (k : list slot) (v : list Z) (mask j : Z)
    (key_i : slot) (val_i : Z) : option (list slot * list Z) :=
  match fuel with
  | O => None
  | S fuel' =>
      match k !! Z.to_nat j with
      | None => None
      | Some Empty => Some (<[Z.to_nat j := key_i]> k, <[Z.to_nat j := val_i]> v)
      | Some _ => rehash_insert fuel' k v mask (Z.land (j + 1) mask) key_i val_i
      end
  end.

(** The outer loop of [maybe_rehash], over the indices [idx] of the old
    arrays [keys] and [vals]. *)
Fixpoint rehash_loop (keys : list slot) (vals : list Z) (newsize : Z)
    (idx : list nat) (k : list slot) (v : list Z) : option (list slot * list Z) :=
  match idx with
  | [] => Some (k, v)
  | i :: idx' =>
      match keys !! i, vals !! i with
      | Some (Key s), Some x =>
          match rehash_insert (Z.to_nat newsize) k v (newsize - 1)
                  (Z.land (hash s) (newsize - 1)) (Key s) x with
          | Some (k', v') => rehash_loop keys vals newsize idx' k' v'
          | None => None
          end
      | Some (Key _), None => None
      | Some _, _ => rehash_loop keys vals newsize idx' k v
      | None, _ => None
      end
  end.

Definition INT_MAX : Z := 2 ^ 31 - 1.

(** [maybe_rehash].  The C tests [nused < size * 0.7] and
    [nelem < size * 0.35] compare an [int] with a [double]; for integers the
    first is [10 * nused < 7 * size] and the second [20 * nelem < 7 * size]
    (the rounding of 0.7 and 0.35 cannot matter, a power of two times 7 being
    no multiple of 10 or 20).  [int newsize = m->size * 2] must not overflow
    the [int]: where the table is to be doubled and the product is above
    [INT_MAX] there is no result. *)
Definition maybe_rehash (m : Map) : option Map :=
  match key m with
  | None =>
      Some {| parent := parent m;
              key := Some (replicate (Z.to_nat INIT_SIZE) Empty);
              val := replicate (Z.to_nat INIT_SIZE) 0;
              size := INIT_SIZE; nelem := nelem m; nused := nused m |}
  | Some keys =>
      if 10 * nused m <? 7 * size m then Some m
      else if negb (20 * nelem m <? 7 * size m) && (INT_MAX <? size m * 2) then None
      else
        let newsize := if 20 * nelem m <? 7 * size m then size m else size m * 2 in
        match rehash_loop keys (val m) newsize (seq 0 (Z.to_nat (size m)))
                (replicate (Z.to_nat newsize) Empty) (replicate (Z.to_nat newsize) 0) with
        | Some (k, v) =>
            Some {| parent := parent m; key := Some k; val := v;
                    size := newsize; nelem := nelem m; nused := nelem m |}
        | None => None
        end
  end.

(** The loop of [map_get_nostack]. *)
Fixpoint get_loop (fuel : nat) (keys : list slot) (vals : list Z) (mask : Z)
    (k : string) (i : Z) : option Z :=
  match fuel with
  | O => None
  | S fuel' =>
      match keys !! Z.to_nat i with
      | None => None
      | Some Empty => Some 0
      | Some Tombstone => get_loop fuel' keys vals mask k (Z.land (i + 1) mask)
      | Some (Key k') =>
          if String.eqb k' k then vals !! Z.to_nat i
          else get_loop fuel' keys vals mask k (Z.land (i + 1) mask)
      end
  end.

Definition map_get_nostack (m : Map) (k : string) : option Z :=
  match key m with
  | None => Some 0
  | Some keys =>
      get_loop (Z.to_nat (size m)) keys (val m) (size m - 1) k
        (Z.land (hash k) (size m - 1))
  end.

(** [map_get]: a null result of the map itself continues in the parent. *)
Fixpoint map_get (m : Map) (k : string) : option Z :=
  match map_get_nostack m k with
  | None => None
  | Some r =>
      if r =? 0 then
        match m with
        | mkMap (Some p) _ _ _ _ _ => map_get p k
        | mkMap None _ _ _ _ _ => Some 0
        end
      else Some r
  end.

(** The loop of [map_put]. *)
Fixpoint put_loop (fuel : nat) (m : Map) (keys : list slot) (mask : Z)
    (k : string) (v : Z) (i : Z) : option Map :=
  match fuel with
  | O => None
  | S fuel' =>
      match keys !! Z.to_nat i with
      | None => None
      | Some (Key k') =>
          if String.eqb k' k then
            Some {| parent := parent m; key := Some keys;
                    val := <[Z.to_nat i := v]> (val m);
                    size := size m; nelem := nelem m; nused := nused m |}
          else put_loop fuel' m keys mask k v (Z.land (i + 1) mask)
      | Some s =>
          Some {| parent := parent m;
                  key := Some (<[Z.to_nat i := Key k]> keys);
                  val := <[Z.to_nat i := v]> (val m);
                  size := size m; nelem := nelem m + 1;
                  nused := match s with Empty => nused m + 1 | _ => nused m end |}
      end
  end.

Definition map_put (m : Map) (k : string) (v : Z) : option Map :=
  match maybe_rehash m with
  | None => None
  | Some m1 =>
      match key m1 with
      | None => None
      | Some keys =>
          put_loop (Z.to_nat (size m1)) m1 keys (size m1 - 1) k v
            (Z.land (hash k) (size m1 - 1))
      end
  end.

(** The loop of [map_remove]. *)
Fixpoint remove_loop (fuel : nat) (m : Map) (keys : list slot) (mask : Z)
    (k : string) (i : Z) : option Map :=
  match fuel with
  | O => None
  | S fuel' =>
      match keys !! Z.to_nat i with
      | None => None
      | Some Empty => Some m
      | Some Tombstone => remove_loop fuel' m keys mask k (Z.land (i + 1) mask)
      | Some (Key k') =>
          if String.eqb k' k then
            Some {| parent := parent m;
                    key := Some (<[Z.to_nat i := Tombstone]> keys);
                    val := <[Z.to_nat i := 0]> (val m);
                    size := size m; nelem := nelem m - 1; nused := nused m |}
          else remove_loop fuel' m keys mask k (Z.land (i + 1) mask)
      end
  end.

Definition map_remove (m : Map) (k : string) : option Map :=
  match key m with
  | None => Some m
  | Some keys =>
      remove_loop (Z.to_nat (size m)) m keys (size m - 1) k
        (Z.land (hash k) (size m - 1))
  end.

Definition map_len (m : Map) : Z := nelem m.

(** *** Well-formed maps *)

Definition live (s : slot) : bool :=
  match s with Key _ => true | _ => false end.

Definition used (s : slot) : bool :=
  match s with Empty => false | _ => true end.

Fixpoint count_slots (p : slot -> bool) (l : list slot) : Z :=
  match l with
  | [] => 0
  | s :: l' => (if p s then 1 else 0) + count_slots p l'
  end.

(** The invariant of a map: the arrays have [size] slots, a power of two,
    [nelem] counts the keys and [nused] the keys and the tombstones, and a
    null slot is left. *)
Definition wf_table (m : Map) : Prop :=
  match key m with
  | None => nelem m = 0 /\ nused m = 0
  | Some keys =>
      (exists n, 2 <= n /\ size m = 2 ^ n)
      /\ Z.of_nat (length keys) = size m
      /\ Z.of_nat (length (val m)) = size m
      /\ nelem m = count_slots live keys
      /\ nused m = count_slots used keys
      /\ nused m < size m
  end.

Fixpoint wf (m : Map) : Prop :=
  wf_table m
  /\ match m with
     | mkMap (Some p) _ _ _ _ _ => wf p
     | mkMap None _ _ _ _ _ => True
     end.

(** The table can take one more key: it is not to be doubled, or its
    doubled size is an [int]. *)
Definition rehash_fits (m : Map) : Prop :=
  key m = None \/ 10 * nused m < 7 * size m \/ 20 * nelem m < 7 * size m
  \/ size m * 2 <= INT_MAX.

End Map.

(** ** The growable byte buffer (buffer.c) *)

Module Buffer.

(** [Buffer]: [body] holds the [len] bytes written so far, as [char]s. *)
Record Buffer : Type := mkBuffer {
  body : list Z;
  nalloc : Z
}.

Definition INIT_SIZE : Z := 8.

Definition make_buffer : Buffer := {| body := []; nalloc := INIT_SIZE |}.

Definition buf_len (b : Buffer) : Z := Z.of_nat (length (body b)).

Definition buf_body (b : Buffer) : list Z := body b.

(** [realloc_body].  [int newsize = b->nalloc * 2]: the product is that of
    the code while it is an [int], for [nalloc] below [2 ^ 30].  The array
    is doubled only when it is full, so that the functions below are those
    of the code on a buffer that holds fewer than [2 ^ 30] bytes, those to
    be written among them; [IntBuffer] has the functions with the overflow
    of the [int], and [FormatFacts.buffer_appends] their agreement. *)
Definition realloc_body (b : Buffer) : Buffer :=
  {| body := body b; nalloc := nalloc b * 2 |}.

(** The conversion of an [int] to [char]. *)
Definition to_char (c : Z) : Z := char_of_byte (c mod 256).

Definition buf_write (b : Buffer) (c : Z) : Buffer :=
  let b1 := if nalloc b =? buf_len b + 1 then realloc_body b else b in
  {| body := body b1 ++ [to_char c]; nalloc := nalloc b1 |}.

Definition buf_append (b : Buffer) (s : list Z) : Buffer :=
  fold_left buf_write s b.

(** [buf_printf], [out] being the characters that the format produces:
    [vsnprintf] returns their number, and the buffer grows until they fit
    with their terminator. *)
Fixpoint buf_printf_loop (fuel : nat) (b : Buffer) (out : list Z) : option Buffer :=
  match fuel with
  | O => None
  | S fuel' =>
      let avail := nalloc b - buf_len b in
      let written := Z.of_nat (length out) in
      if avail <=? written then buf_printf_loop fuel' (realloc_body b) out
      else Some {| body := body b ++ out; nalloc := nalloc b |}
  end.

Definition buf_printf (b : Buffer) (out : list Z) : option Buffer :=
  buf_printf_loop (S (length out)) b out.

(** [quote]: the escape of a character, if it has one. *)
Definition quote (c : Z) : option (list Z) :=
  if c =? 34 then Some [92; 34]          (* double quote *)
  else if c =? 92 then Some [92; 92]     (* backslash *)
  else if c =? 8 then Some [92; 98]      (* '\b' *)
  else if c =? 12 then Some [92; 102]    (* '\f' *)
  else if c =? 10 then Some [92; 110]    (* '\n' *)
  else if c =? 13 then Some [92; 114]    (* '\r' *)
  else if c =? 9 then Some [92; 116]     (* '\t' *)
  else None.

(** [isprint] in the C locale. *)
Definition isprint (c : Z) : bool := (32 <=? c) && (c <=? 126).

Definition hex_digit (d : Z) : Z := if d <? 10 then 48 + d else 87 + d.

Fixpoint hex_digits (fuel : nat) (n : Z) (acc : list Z) : list Z :=
  match fuel with
  | O => acc
  | S fuel' =>
      let acc' := hex_digit (n mod 16) :: acc in
      if n / 16 =? 0 then acc' else hex_digits fuel' (n / 16) acc'
  end.

(** The conversion [%02x] of an [int] argument, read as [unsigned int]. *)
Definition fmt_02x (n : Z) : list Z :=
  let d := hex_digits 8 (n mod 2 ^ 32) [] in
  if (length d <? 2)%nat then 48 :: d else d.

(** [print]; the [char] argument is promoted to [int] in the calls. *)
Definition print (b : Buffer) (c : Z) : option Buffer :=
  match quote c with
  | Some q => buf_printf b q
  | None =>
      if isprint c then buf_printf b [c]
      else buf_printf b ([92; 120] ++ fmt_02x c)
  end.

(** [quote_cstring]: the characters of [p] up to its terminator.  The
    string returned is the body of the buffer, which [vsnprintf] has
    terminated behind what [print] wrote.  When nothing has been printed the
    body is the array of [make_buffer] as [malloc] gave it, which holds no
    string: there is no result. *)
Fixpoint quote_loop (b : Buffer) (p : list Z) : option Buffer :=
  match p with
  | [] => Some b
  | c :: p' =>
      if c =? 0 then Some b
      else match print b c with
           | Some b' => quote_loop b' p'
           | None => None
           end
  end.

Definition quote_cstring (p : list Z) : option (list Z) :=
  match quote_loop make_buffer p with
  | Some b => if buf_len b =? 0 then None else Some (buf_body b)
  | None => None
  end.

(** [quote_cstring_len]: [p[i]] for [i] from 0 to [len - 1]; no result
    either when nothing has been printed. *)
Fixpoint quote_len_loop (b : Buffer) (p : list Z) (i : nat) (n : nat) : option Buffer :=
  match n with
  | O => Some b
  | S n' =>
      match p !! i with
      | None => None
      | Some c =>
          match print b c with
          | Some b' => quote_len_loop b' p (S i) n'
          | None => None
          end
      end
  end.

Definition quote_cstring_len (p : list Z) (len : Z) : option (list Z) :=
  match quote_len_loop make_buffer p 0 (Z.to_nat len) with
  | Some b => if buf_len b =? 0 then None else Some (buf_body b)
  | None => None
  end.

(** What [print] appends to the buffer for the character [c]. *)
Definition rendered (c : Z) : list Z :=
  match quote c with
  | Some q => q
  | None => if isprint c then [c] else [92; 120] ++ fmt_02x c
  end.

(** The rendering of the byte [b] in the words of the specification: the
    seven escapes, a printable ASCII byte unchanged, and any other byte as
    the four characters backslash, x and its two hexadecimal digits. *)
Definition quote_spec (b : Z) : list Z :=
  if b =? 34 then [92; 34]
  else if b =? 92 then [92; 92]
  else if b =? 8 then [92; 98]
  else if b =? 12 then [92; 102]
  else if b =? 10 then [92; 110]
  else if b =? 13 then [92; 114]
  else if b =? 9 then [92; 116]
  else if (32 <=? b) && (b <=? 126) then [b]
  else [92; 120; hex_digit (b / 16); hex_digit (b mod 16)].

End Buffer.

(** ** The character stream (file.c) *)

Module Stream.

Definition EOF : Z := -1.

(** Character constants. *)
Definition ch (a : ascii) : Z := Z.of_N (N_of_ascii a).
Definition NL : Z := 10.         (* '\n' *)
Definition CR : Z := 13.         (* '\r' *)
Definition BACKSLASH : Z := 92.

(** [File].  [is_file] says that [f->file] is not null; [rest] holds what is
    still to be read: the bytes of the [FILE] (0..255), or the characters of
    the string from [f->p] to its terminator.  [buf] is the push-back buffer,
    the character unread last first, [buflen] being its length.  The name
    and the modification time are left out. *)
Record File : Type := mkFile {
  is_file : bool;
  rest : list Z;
  line : Z;
  column : Z;
  ntok : Z;
  last : Z;
  buf : list Z
}.

(** Modelled from the spec: the declaration [int buf[3]] of 8cc.h, the
    push-back buffer of which at most 3 characters may be ungotten at once. *)
Definition BUF_SIZE : Z := 3.

Definition make_file (bytes : list Z) : File :=
  {| is_file := true; rest := bytes; line := 1; column := 1; ntok := 0;
     last := 0; buf := [] |}.

Definition make_file_string (s : list Z) : File :=
  {| is_file := false; rest := s; line := 1; column := 1; ntok := 0;
     last := 0; buf := [] |}.

Definition set_rest (f : File) (r : list Z) : File :=
  {| is_file := is_file f; rest := r; line := line f; column := column f;
     ntok := ntok f; last := last f; buf := buf f |}.

Definition set_last (f : File) (c : Z) : File :=
  {| is_file := is_file f; rest := rest f; line := line f; column := column f;
     ntok := ntok f; last := c; buf := buf f |}.

Definition set_buf (f : File) (b : list Z) : File :=
  {| is_file := is_file f; rest := rest f; line := line f; column := column f;
     ntok := ntok f; last := last f; buf := b |}.

Definition set_pos (f : File) (l c : Z) : File :=
  {| is_file := is_file f; rest := rest f; line := l; column := c;
     ntok := ntok f; last := last f; buf := buf f |}.

Definition set_ntok (f : File) (n : Z) : File :=
  {| is_file := is_file f; rest := rest f; line := line f; column := column f;
     ntok := n; last := last f; buf := buf f |}.

(** [getc] and [ungetc] of stdio on the bytes of a [FILE]. *)
Definition getc (f : File) : Z * File :=
  match rest f with
  | [] => (EOF, f)
  | b :: r => (b, set_rest f r)
  end.

Definition ungetc (c : Z) (f : File) : File :=
  if c =? EOF then f else set_rest f (c :: rest f).

Definition at_end (lastc : Z) : Z :=
  if (lastc =? NL) || (lastc =? EOF) then EOF else NL.

Definition readc_file (f : File) : Z * File :=
  let '(c, f1) := getc f in
  if c =? EOF then
    let c := at_end (last f1) in (c, set_last f1 c)
  else if c =? CR then
    let '(c2, f2) := getc f1 in
    let f3 := if negb (c2 =? NL) then ungetc c2 f2 else f2 in
    (NL, set_last f3 NL)
  else (c, set_last f1 c).

(** [*f->p]: the character under the cursor, 0 at the terminator. *)
Definition deref (p : list Z) : Z :=
  match p with
  | [] => 0
  | c :: _ => c
  end.

Definition readc_string (f : File) : Z * File :=
  if deref (rest f) =? 0 then
    let c := at_end (last f) in (c, set_last f c)
  else if deref (rest f) =? CR then
    let p1 := tl (rest f) in
    let p2 := if deref p1 =? NL then tl p1 else p1 in
    (NL, set_last (set_rest f p2) NL)
  else
    let c := deref (rest f) in (c, set_last (set_rest f (tl (rest f))) c).

(** The position update at the end of [get]. *)
Definition advance (c : Z) (f : File) : File :=
  if c =? NL then set_pos f (line f + 1) 1
  else if negb (c =? EOF) then set_pos f (line f) (column f + 1)
  else f.

(** [get] on the current file. *)
Definition get_file (f : File) : Z * File :=
  let '(c, f1) :=
    match buf f with
    | c :: b => (c, set_buf f b)
    | [] => if is_file f then readc_file f else readc_string f
    end in
  (c, advance c f1).

(** [unreadc] on the current file; the [assert] on [buflen] can fail. *)
Definition unreadc_file (c : Z) (f : File) : option File :=
  if Z.of_nat (length (buf f)) <? BUF_SIZE then
    let f1 := set_buf f (c :: buf f) in
    Some (if c =? NL then set_pos f1 (line f1 - 1) 1
          else set_pos f1 (line f1) (column f1 - 1))
  else None.

(** The stack [files], the current file first. *)
Definition files_t : Type := list File.

Definition get (fs : files_t) : option (Z * files_t) :=
  match fs with
  | [] => None
  | f :: fs' => let '(c, f') := get_file f in Some (c, f' :: fs')
  end.

Definition unreadc (c : Z) (fs : files_t) : option files_t :=
  if c =? EOF then Some fs
  else
    match fs with
    | [] => None
    | f :: fs' =>
        match unreadc_file c f with
        | Some f' => Some (f' :: fs')
        | None => None
        end
    end.

(** The loop of [readc]. *)
Fixpoint readc_loop (fuel : nat) (fs : files_t) : option (Z * files_t) :=
  match fuel with
  | O => None
  | S fuel' =>
      match get fs with
      | None => None
      | Some (c, fs1) =>
          if c =? EOF then
            if Z.of_nat (length fs1) =? 1 then Some (c, fs1)
            else readc_loop fuel' (tl fs1)
          else if negb (c =? BACKSLASH) then Some (c, fs1)
          else
            match get fs1 with
            | None => None
            | Some (c2, fs2) =>
                if c2 =? NL then readc_loop fuel' fs2
                else
                  match unreadc c2 fs2 with
                  | Some fs3 => Some (c, fs3)
                  | None => None
                  end
            end
      end
  end.

(** What a file can still deliver, an upper bound of the number of turns of
    the loop of [readc] on it. *)
Definition weight_file (f : File) : nat :=
  (length (buf f) + 2 * length (rest f)
   + (if (at_end (last f) =? EOF)%Z then 0 else 1))%nat.

Definition weight (fs : files_t) : nat :=
  fold_right (fun f n => (S (weight_file f) + n)%nat) 1%nat fs.

Definition readc (fs : files_t) : option (Z * files_t) :=
  readc_loop (weight fs) fs.

(** *** Sequences of characters *)

(** The characters that [get] returns on the file [f] before its first
    [EOF]. *)
Fixpoint get_all (fuel : nat) (f : File) : option (list Z) :=
  match fuel with
  | O => None
  | S fuel' =>
      let '(c, f') := get_file f in
      if c =? EOF then Some []
      else match get_all fuel' f' with
           | Some l => Some (c :: l)
           | None => None
           end
  end.

(** The characters that [readc] returns before its first [EOF]. *)
Fixpoint readc_all (fuel : nat) (fs : files_t) : option (list Z) :=
  match fuel with
  | O => None
  | S fuel' =>
      match readc fs with
      | None => None
      | Some (c, fs') =>
          if c =? EOF then Some []
          else match readc_all fuel' fs' with
               | Some l => Some (c :: l)
               | None => None
               end
      end
  end.

(** The input with its line ends canonical, in the words of the
    specification: a carriage return, with the newline that follows it if
    there is one, is one newline. *)
Fixpoint canon (l : list Z) : list Z :=
  match l with
  | [] => []
  | c :: r =>
      if c =? CR then
        NL :: match r with
              | c2 :: r' => if c2 =? NL then canon r' else canon r
              | [] => []
              end
      else c :: canon r
  end.

(** A newline is appended to what does not end in one. *)
Definition with_final_newline (l : list Z) : list Z :=
  if List.last l 0 =? NL then l else l ++ [NL].

(** Line splicing, in the words of the specification: a backslash that
    stands before a newline is left out together with the newline; any other
    backslash stays, and the character after it is looked at again. *)
Fixpoint splice (l : list Z) : list Z :=
  match l with
  | [] => []
  | c :: r =>
      if c =? BACKSLASH then
        match r with
        | c2 :: r' => if c2 =? NL then splice r' else c :: splice r
        | [] => [c]
        end
      else c :: splice r
  end.

(** The bytes of a [FILE], and the pushed-back characters, are not [EOF];
    at most [BUF_SIZE] characters are pushed back. *)
Definition clean_file (f : File) : Prop :=
  Forall (fun c => c <> EOF) (rest f)
  /\ Forall (fun c => c <> EOF) (buf f)
  /\ Z.of_nat (length (buf f)) <= BUF_SIZE.

Definition clean (fs : files_t) : Prop := Forall clean_file fs.

(** No carriage return has been pushed back. *)
Definition no_cr (fs : files_t) : Prop :=
  Forall (fun f => Forall (fun c => c <> CR) (buf f)) fs.

End Stream.

(** ** The pp-token lexer and the token buffers (lex.c) *)

Module Lexer.

Import Stream.

Inductive kind : Type :=
| TIDENT | TKEYWORD | TNUMBER | TCHAR | TSTRING | TEOF | TINVALID
| TNEWLINE | TSPACE.

(** Modelled from the spec: the identifiers of the keyword tokens, declared
    in 8cc.h.  A single-character operator is its byte value, the others
    are in an enumeration disjoint from the bytes. *)
Inductive keyword : Type :=
| Punct (c : Z)
| KHASHHASH | KELLIPSIS
| OP_INC | OP_DEC | OP_ARROW | OP_EQ | OP_NE | OP_LE | OP_GE
| OP_LOGAND | OP_LOGOR | OP_SAL | OP_SAR
| OP_A_ADD | OP_A_SUB | OP_A_MUL | OP_A_DIV | OP_A_MOD
| OP_A_AND | OP_A_OR | OP_A_XOR | OP_A_SAL | OP_A_SAR.

Inductive encoding : Type :=
| ENC_NONE | ENC_CHAR16 | ENC_CHAR32 | ENC_UTF8 | ENC_WCHAR.

(** [Token].  The members [kind], [line] and [column] are [tkind], [tline]
    and [tcolumn] here.  [sval] holds the bytes that the pointer [sval]
    points to, with their terminator.  The pointer to the file and the
    hideset, which the lexer only initialises, are left out. *)
Record Token : Type := mkToken {
  tkind : kind;
  tline : Z;
  tcolumn : Z;
  count : Z;
  bol : bool;
  space : bool;
  id : keyword;
  sval : list Z;
  slen : Z;
  c : Z;
  enc : encoding
}.

(** A template [(Token){ kind }], every other member zero. *)
Definition token0 (k : kind) : Token :=
  {| tkind := k; tline := 0; tcolumn := 0; count := 0; bol := false;
     space := false; id := Punct 0; sval := []; slen := 0; c := 0;
     enc := ENC_NONE |}.

(** A pointer to a token: one of the three static tokens, or the [n]-th
    token obtained from [malloc]. *)
Inductive tokptr : Type :=
| SpaceTok | NewlineTok | EofTok
| Ptr (n : nat).

Record Pos : Type := mkPos { pline : Z; pcolumn : Z }.

(** The global state of file.c and lex.c, and the tokens allocated so far.
    [buffers] has the list pushed last first, and each list its token
    pushed last first. *)
Record State : Type := mkState {
  files : files_t;
  buffers : list (list tokptr);
  pos : Pos;
  heap : list Token;
  space_token : Token;
  newline_token : Token;
  eof_token : Token;
  warnings : nat
}.

Definition set_files (s : State) (fs : files_t) : State :=
  {| files := fs; buffers := buffers s; pos := pos s; heap := heap s;
     space_token := space_token s; newline_token := newline_token s;
     eof_token := eof_token s; warnings := warnings s |}.

Definition set_buffers (s : State) (bs : list (list tokptr)) : State :=
  {| files := files s; buffers := bs; pos := pos s; heap := heap s;
     space_token := space_token s; newline_token := newline_token s;
     eof_token := eof_token s; warnings := warnings s |}.

Definition set_mark (s : State) (p : Pos) : State :=
  {| files := files s; buffers := buffers s; pos := p; heap := heap s;
     space_token := space_token s; newline_token := newline_token s;
     eof_token := eof_token s; warnings := warnings s |}.

Definition set_heap (s : State) (h : list Token) : State :=
  {| files := files s; buffers := buffers s; pos := pos s; heap := h;
     space_token := space_token s; newline_token := newline_token s;
     eof_token := eof_token s; warnings := warnings s |}.

(** The state before [lex_init], and [lex_init] on an opened file. *)
Definition initial : State :=
  {| files := []; buffers := []; pos := mkPos 0 0; heap := [];
     space_token := token0 TSPACE; newline_token := token0 TNEWLINE;
     eof_token := token0 TEOF; warnings := 0 |}.

Definition lex_init (f : File) : State :=
  set_files (set_buffers initial [[]]) [f].

(** *** Results *)

Inductive result (A : Type) : Type :=
| Ok (a : A) (s : State)
| Fatal (msg : string)   (* [error]: the compilation ends *)
| Crash                  (* a failed [assert], an invalid access *)
| Diverge.               (* the loop has not ended *)

Arguments Ok {A} a s.
Arguments Fatal {A} msg.
Arguments Crash {A}.
Arguments Diverge {A}.

Definition M (A : Type) : Type := State -> result A.

Definition ret {A} (a : A) : M A := fun s => Ok a s.

Definition bind {A B} (m : M A) (k : A -> M B) : M B :=
  fun s =>
    match m s with
    | Ok a s' => k a s'
    | Fatal msg => Fatal msg
    | Crash => Crash
    | Diverge => Diverge
    end.

Notation "'do' x <- m ; k" := (bind m (fun x => k))
  (at level 10, x name, m at level 100, k at level 200).
Notation "'run' m ; k" := (bind m (fun _ => k))
  (at level 10, m at level 100, k at level 200).

Definition errorp {A} (msg : string) : M A := fun _ => Fatal msg.

(** [warnp]: the warning is counted and the lexer goes on (warnings are
    not errors unless the driver is told so). *)
Definition warnp (msg : string) : M unit :=
  fun s =>
    Ok tt {| files := files s; buffers := buffers s; pos := pos s;
             heap := heap s; space_token := space_token s;
             newline_token := newline_token s; eof_token := eof_token s;
             warnings := S (warnings s) |}.

Definition on_files {A} (f : files_t -> option (A * files_t)) : M A :=
  fun s =>
    match f (files s) with
    | Some (a, fs) => Ok a (set_files s fs)
    | None => Crash
    end.

Definition readc : M Z := on_files Stream.readc.

Definition unreadc (c : Z) : M unit :=
  on_files (fun fs => match Stream.unreadc c fs with
                      | Some fs' => Some (tt, fs')
                      | None => None
                      end).

Definition current_file : M File :=
  fun s => match files s with
           | f :: _ => Ok f s
           | [] => Crash
           end.

Definition fuel_of (s : State) : nat := S (weight (files s)).

(** *** Tokens *)

Definition load (s : State) (p : tokptr) : option Token :=
  match p with
  | SpaceTok => Some (space_token s)
  | NewlineTok => Some (newline_token s)
  | EofTok => Some (eof_token s)
  | Ptr n => heap s !! n
  end.

Definition store (p : tokptr) (t : Token) : M unit :=
  fun s =>
    match p with
    | SpaceTok =>
        Ok tt {| files := files s; buffers := buffers s; pos := pos s;
                 heap := heap s; space_token := t;
                 newline_token := newline_token s; eof_token := eof_token s;
                 warnings := warnings s |}
    | NewlineTok =>
        Ok tt {| files := files s; buffers := buffers s; pos := pos s;
                 heap := heap s; space_token := space_token s;
                 newline_token := t; eof_token := eof_token s;
                 warnings := warnings s |}
    | EofTok =>
        Ok tt {| files := files s; buffers := buffers s; pos := pos s;
                 heap := heap s; space_token := space_token s;
                 newline_token := newline_token s; eof_token := t;
                 warnings := warnings s |}
    | Ptr n =>
        if (n <? length (heap s))%nat then Ok tt (set_heap s (<[n := t]> (heap s)))
        else Crash
    end.

Definition deref_tok (p : tokptr) : M Token :=
  fun s => match load s p with
           | Some t => Ok t s
           | None => Crash
           end.

Definition with_bol (t : Token) (b : bool) : Token :=
  {| tkind := tkind t; tline := tline t; tcolumn := tcolumn t; count := count t;
     bol := b; space := space t; id := id t; sval := sval t; slen := slen t;
     c := c t; enc := enc t |}.

Definition with_space (t : Token) (b : bool) : Token :=
  {| tkind := tkind t; tline := tline t; tcolumn := tcolumn t; count := count t;
     bol := bol t; space := b; id := id t; sval := sval t; slen := slen t;
     c := c t; enc := enc t |}.

Definition with_column (t : Token) (n : Z) : Token :=
  {| tkind := tkind t; tline := tline t; tcolumn := n; count := count t;
     bol := bol t; space := space t; id := id t; sval := sval t; slen := slen t;
     c := c t; enc := enc t |}.

Definition set_bol (p : tokptr) (b : bool) : M unit :=
  do t <- deref_tok p; store p (with_bol t b).

Definition set_space (p : tokptr) (b : bool) : M unit :=
  do t <- deref_tok p; store p (with_space t b).

Definition set_column (p : tokptr) (n : Z) : M unit :=
  do t <- deref_tok p; store p (with_column t n).

Definition get_pos (delta : Z) : M Pos :=
  do f <- current_file; ret (mkPos (line f) (column f + delta)).

Definition mark : M unit :=
  do p <- get_pos 0; fun s => Ok tt (set_mark s p).

(** [make_token]: a copy of the template at the marked position, counted in
    the current file. *)
Definition make_token (tmpl : Token) : M tokptr :=
  fun s =>
    match files s with
    | [] => Crash
    | f :: fs =>
        let r := {| tkind := tkind tmpl; tline := pline (pos s);
                    tcolumn := pcolumn (pos s); count := ntok f;
                    bol := bol tmpl; space := space tmpl; id := id tmpl;
                    sval := sval tmpl; slen := slen tmpl; c := c tmpl;
                    enc := enc tmpl |} in
        Ok (Ptr (length (heap s)))
           (set_heap (set_files s (set_ntok f (ntok f + 1) :: fs)) (heap s ++ [r]))
    end.

Definition with_sval (t : Token) (p : list Z) : Token :=
  {| tkind := tkind t; tline := tline t; tcolumn := tcolumn t; count := count t;
     bol := bol t; space := space t; id := id t; sval := p; slen := slen t;
     c := c t; enc := enc t |}.

Definition make_ident (p : list Z) : M tokptr :=
  make_token (with_sval (token0 TIDENT) p).

Definition make_strtok (s : list Z) (len : Z) (e : encoding) : M tokptr :=
  make_token {| tkind := TSTRING; tline := 0; tcolumn := 0; count := 0;
                bol := false; space := false; id := Punct 0; sval := s;
                slen := len; c := 0; enc := e |}.

Definition make_keyword (k : keyword) : M tokptr :=
  make_token {| tkind := TKEYWORD; tline := 0; tcolumn := 0; count := 0;
                bol := false; space := false; id := k; sval := [];
                slen := 0; c := 0; enc := ENC_NONE |}.

Definition make_number (s : list Z) : M tokptr :=
  make_token (with_sval (token0 TNUMBER) s).

Definition make_invalid (ch : Z) : M tokptr :=
  make_token {| tkind := TINVALID; tline := 0; tcolumn := 0; count := 0;
                bol := false; space := false; id := Punct 0; sval := [];
                slen := 0; c := ch; enc := ENC_NONE |}.

Definition make_char (ch : Z) (e : encoding) : M tokptr :=
  make_token {| tkind := TCHAR; tline := 0; tcolumn := 0; count := 0;
                bol := false; space := false; id := Punct 0; sval := [];
                slen := 0; c := ch; enc := e |}.

(** *** Characters *)

Import Buffer.

Definition str (s : string) : list Z := map ch (list_ascii_of_string s).

Definition iswhitespace (c : Z) : bool :=
  (c =? 32) || (c =? 9) || (c =? 12) || (c =? 11).

(** <ctype.h> in the C locale. *)
Definition isdigit (c : Z) : bool := (48 <=? c) && (c <=? 57).
Definition isalpha (c : Z) : bool :=
  ((97 <=? c) && (c <=? 122)) || ((65 <=? c) && (c <=? 90)).
Definition isalnum (c : Z) : bool := isalpha c || isdigit c.
Definition isxdigit (c : Z) : bool :=
  isdigit c || ((97 <=? c) && (c <=? 102)) || ((65 <=? c) && (c <=? 70)).

(** [strchr (s, c) != NULL]: the character [(char)c] is looked for in [s]
    and its terminator. *)
Definition strchr (s : list Z) (c : Z) : bool :=
  existsb (Z.eqb (to_char c)) (s ++ [0]).

(** The characters before the terminator. *)
Fixpoint cstr (p : list Z) : list Z :=
  match p with
  | [] => []
  | c :: p' => if c =? 0 then [] else c :: cstr p'
  end.

(** [!strcmp (a, b)] on the characters of two strings. *)
Fixpoint streq (a b : list Z) : bool :=
  match a, b with
  | [], [] => true
  | x :: a', y :: b' => (x =? y) && streq a' b'
  | _, _ => false
  end.

(** Modelled from the spec: the UTF-8 encoder [write_utf8 (buffer,
    codepoint)] of encoding.c, an external collaborator of the lexer. *)
Definition write_utf8 (b : Buffer) (rune0 : Z) : M Buffer :=
  let rune := uint32 rune0 in
  if rune <? 128 then ret (buf_write b rune)
  else if rune <? 2048 then
    ret (buf_write (buf_write b (Z.lor 192 (Z.shiftr rune 6)))
           (Z.lor 128 (Z.land rune 63)))
  else if rune <? 65536 then
    ret (buf_write (buf_write (buf_write b (Z.lor 224 (Z.shiftr rune 12)))
                      (Z.lor 128 (Z.land (Z.shiftr rune 6) 63)))
           (Z.lor 128 (Z.land rune 63)))
  else if rune <? 2097152 then
    ret (buf_write (buf_write (buf_write (buf_write b
             (Z.lor 240 (Z.shiftr rune 18)))
             (Z.lor 128 (Z.land (Z.shiftr rune 12) 63)))
             (Z.lor 128 (Z.land (Z.shiftr rune 6) 63)))
           (Z.lor 128 (Z.land rune 63)))
  else errorp "invalid UCS character".

(** *** Reading characters *)

Definition diverge {A} : M A := fun _ => Diverge.

Definition peek : M Z :=
  do r <- readc; run unreadc r; ret r.

Definition next (expect : Z) : M bool :=
  do c <- readc;
  if c =? expect then ret true
  else run unreadc c; ret false.

Fixpoint skip_line_loop (fuel : nat) : M unit :=
  match fuel with
  | O => diverge
  | S fuel' =>
      do c <- readc;
      if c =? EOF then ret tt
      else if c =? NL then unreadc c
      else skip_line_loop fuel'
  end.

Definition skip_line : M unit := fun s => skip_line_loop (fuel_of s) s.

Fixpoint skip_block_comment_loop (fuel : nat) (maybe_end : bool) : M unit :=
  match fuel with
  | O => diverge
  | S fuel' =>
      do c <- readc;
      if c =? EOF then errorp "premature end of block comment"
      else if (c =? 47) && maybe_end then ret tt
      else skip_block_comment_loop fuel' (c =? 42)
  end.

Definition skip_block_comment : M unit :=
  do p <- get_pos (-2);
  fun s => skip_block_comment_loop (fuel_of s) false s.

Definition do_skip_space : M bool :=
  do c <- readc;
  if c =? EOF then ret false
  else if iswhitespace c then ret true
  else if c =? 47 then
    do star <- next 42;
    if star then run skip_block_comment; ret true
    else
      do slash <- next 47;
      if slash then run skip_line; ret true
      else run unreadc c; ret false
  else run unreadc c; ret false.

Fixpoint skip_space_loop (fuel : nat) : M unit :=
  match fuel with
  | O => diverge
  | S fuel' =>
      do more <- do_skip_space;
      if more then skip_space_loop fuel' else ret tt
  end.

Definition skip_space : M bool :=
  do skipped <- do_skip_space;
  if negb skipped then ret false
  else run (fun s => skip_space_loop (fuel_of s) s); ret true.

Fixpoint skip_char_loop (fuel : nat) (c : Z) : M unit :=
  match fuel with
  | O => diverge
  | S fuel' =>
      if negb (c =? EOF) && negb (c =? 39) then
        do c' <- readc; skip_char_loop fuel' c'
      else ret tt
  end.

Definition skip_char : M unit :=
  do c0 <- readc;
  run (if c0 =? BACKSLASH then do _ <- readc; ret tt else ret tt);
  do c <- readc;
  fun s => skip_char_loop (fuel_of s) c s.

Fixpoint skip_string_loop (fuel : nat) (c : Z) : M unit :=
  match fuel with
  | O => diverge
  | S fuel' =>
      if negb (c =? EOF) && negb (c =? 34) then
        run (if c =? BACKSLASH then do _ <- readc; ret tt else ret tt);
        do c' <- readc; skip_string_loop fuel' c'
      else ret tt
  end.

Definition skip_string : M unit :=
  do c <- readc;
  fun s => skip_string_loop (fuel_of s) c s.

(** *** Numbers, characters, strings, identifiers *)

Fixpoint read_number_loop (fuel : nat) (b : Buffer) (last : Z) : M tokptr :=
  match fuel with
  | O => diverge
  | S fuel' =>
      do c <- readc;
      let flonum := strchr (str "eEpP") last && strchr (str "+-") c in
      if negb (isdigit c) && negb (isalpha c) && negb (c =? 46) && negb flonum then
        run unreadc c;
        make_number (buf_body (buf_write b 0))
      else read_number_loop fuel' (buf_write b c) (to_char c)
  end.

Definition read_number (c : Z) : M tokptr :=
  fun s => read_number_loop (fuel_of s) (buf_write make_buffer c) (to_char c) s.

Definition nextoct : M bool :=
  do c <- peek; ret ((48 <=? c) && (c <=? 55)).

Definition read_octal_char (c : Z) : M Z :=
  let r := c - 48 in
  do oct <- nextoct;
  if negb oct then ret r
  else
    do c1 <- readc;
    let r := Z.lor (Z.shiftl r 3) (c1 - 48) in
    do oct <- nextoct;
    if negb oct then ret r
    else do c2 <- readc; ret (Z.lor (Z.shiftl r 3) (c2 - 48)).

Fixpoint read_hex_loop (fuel : nat) (c r : Z) : M Z :=
  match fuel with
  | O => diverge
  | S fuel' =>
      if (48 <=? c) && (c <=? 57) then
        do c' <- readc; read_hex_loop fuel' c' (int32 (Z.lor (Z.shiftl r 4) (c - 48)))
      else if (97 <=? c) && (c <=? 102) then
        do c' <- readc; read_hex_loop fuel' c' (int32 (Z.lor (Z.shiftl r 4) (c - 97 + 10)))
      else if (65 <=? c) && (c <=? 70) then
        do c' <- readc; read_hex_loop fuel' c' (int32 (Z.lor (Z.shiftl r 4) (c - 65 + 10)))
      else run unreadc c; ret r
  end.

Definition read_hex_char : M Z :=
  do p <- get_pos (-2);
  do c <- readc;
  if negb (isxdigit c) then errorp "\x is not followed by a hexadecimal character"
  else fun s => read_hex_loop (fuel_of s) c 0 s.

Definition is_valid_ucn (c : Z) : bool :=
  if (55296 <=? c) && (c <=? 57343) then false
  else (160 <=? c) || (c =? 36) || (c =? 64) || (c =? 96).

Fixpoint read_universal_loop (n : nat) (r : Z) : M Z :=
  match n with
  | O => ret r
  | S n' =>
      do c0 <- readc;
      let c := to_char c0 in
      if (48 <=? c) && (c <=? 57) then
        read_universal_loop n' (uint32 (Z.lor (Z.shiftl r 4) (c - 48)))
      else if (97 <=? c) && (c <=? 102) then
        read_universal_loop n' (uint32 (Z.lor (Z.shiftl r 4) (c - 97 + 10)))
      else if (65 <=? c) && (c <=? 70) then
        read_universal_loop n' (uint32 (Z.lor (Z.shiftl r 4) (c - 65 + 10)))
      else errorp "invalid universal character"
  end.

Definition read_universal_char (len : Z) : M Z :=
  do p <- get_pos (-2);
  do r <- read_universal_loop (Z.to_nat len) 0;
  if negb (is_valid_ucn r) then errorp "invalid universal character"
  else ret (int32 r).

Definition read_escaped_char : M Z :=
  do p <- get_pos (-1);
  do c <- readc;
  if (c =? 39) || (c =? 34) || (c =? 63) || (c =? 92) then ret c
  else if c =? 97 then ret 7
  else if c =? 98 then ret 8
  else if c =? 102 then ret 12
  else if c =? 110 then ret 10
  else if c =? 114 then ret 13
  else if c =? 116 then ret 9
  else if c =? 118 then ret 11
  else if c =? 101 then ret 27
  else if c =? 120 then read_hex_char
  else if c =? 117 then read_universal_char 4
  else if c =? 85 then read_universal_char 8
  else if (48 <=? c) && (c <=? 55) then read_octal_char c
  else run warnp "unknown escape character"; ret c.

Definition read_char (e : encoding) : M tokptr :=
  do c <- readc;
  do r <- (if c =? BACKSLASH then read_escaped_char else ret c);
  do c2 <- readc;
  if negb (c2 =? 39) then errorp "unterminated char"
  else
    match e with
    | ENC_NONE => make_char (to_char r) e
    | _ => make_char r e
    end.

(** [peek() == 'u' || peek() == 'U'] *)
Definition peek_ucn : M bool :=
  do p1 <- peek;
  if p1 =? 117 then ret true
  else do p2 <- peek; ret (p2 =? 85).

Fixpoint read_string_loop (fuel : nat) (e : encoding) (b : Buffer) : M tokptr :=
  match fuel with
  | O => diverge
  | S fuel' =>
      do c <- readc;
      if c =? EOF then errorp "unterminated string"
      else if c =? 34 then
        let b' := buf_write b 0 in
        make_strtok (buf_body b') (buf_len b') e
      else if negb (c =? BACKSLASH) then read_string_loop fuel' e (buf_write b c)
      else
        do isucs <- peek_ucn;
        do c' <- read_escaped_char;
        if isucs then
          do b' <- write_utf8 b c'; read_string_loop fuel' e b'
        else read_string_loop fuel' e (buf_write b c')
  end.

Definition read_string (e : encoding) : M tokptr :=
  fun s => read_string_loop (fuel_of s) e make_buffer s.

(** [read_ident]: its variable [c] is a [char], also for what [readc]
    returns. *)
Fixpoint read_ident_loop (fuel : nat) (b : Buffer) : M tokptr :=
  match fuel with
  | O => diverge
  | S fuel' =>
      do c0 <- readc;
      let c := to_char c0 in
      if isalnum c || negb (Z.land c 128 =? 0) || (c =? 95) || (c =? 36) then
        read_ident_loop fuel' (buf_write b c)
      else
        do ucn <- (if c =? BACKSLASH then peek_ucn else ret false);
        if ucn then
          do r <- read_escaped_char;
          do b' <- write_utf8 b r;
          read_ident_loop fuel' b'
        else
          run unreadc c;
          make_ident (buf_body (buf_write b 0))
  end.

Definition read_ident (c : Z) : M tokptr :=
  fun s => read_ident_loop (fuel_of s) (buf_write make_buffer c) s.

(** *** Punctuators and the token dispatch *)

Definition some_tok (m : M tokptr) : M (option tokptr) :=
  do t <- m; ret (Some t).

Definition read_hash_digraph : M (option tokptr) :=
  do gt <- next 62;
  if gt then some_tok (make_keyword (Punct 125))
  else
    do colon <- next 58;
    if colon then
      do percent <- next 37;
      if percent then
        do colon2 <- next 58;
        if colon2 then some_tok (make_keyword KHASHHASH)
        else run unreadc 37; some_tok (make_keyword (Punct 35))
      else some_tok (make_keyword (Punct 35))
    else ret None.

Definition read_rep (expect : Z) (t1 els : keyword) : M tokptr :=
  do b <- next expect; make_keyword (if b then t1 else els).

Definition read_rep2 (expect1 : Z) (t1 : keyword) (expect2 : Z) (t2 els : keyword)
    : M tokptr :=
  do b1 <- next expect1;
  if b1 then make_keyword t1
  else do b2 <- next expect2; make_keyword (if b2 then t2 else els).

Definition in_range (lo hi c : Z) : bool := (lo <=? c) && (c <=? hi).

(** The cases of the [switch] that lead to [read_ident]. *)
Definition ident_start (c : Z) : bool :=
  in_range 97 116 c || in_range 118 122 c || in_range 65 75 c
  || in_range 77 84 c || in_range 86 90 c || (c =? 95) || (c =? 36)
  || in_range 128 253 c.

(** The cases of the [switch] that are a keyword of one character. *)
Definition single_punct (c : Z) : bool :=
  (c =? 40) || (c =? 41) || (c =? 44) || (c =? 59) || (c =? 91) || (c =? 93)
  || (c =? 123) || (c =? 125) || (c =? 63) || (c =? 126).

Definition do_read_token : M tokptr :=
  do sp <- skip_space;
  if sp then ret SpaceTok
  else
    run mark;
    do c <- readc;
    if c =? NL then ret NewlineTok
    else if c =? 58 then
      do b <- next 62; make_keyword (Punct (if b then 93 else 58))
    else if c =? 35 then
      do b <- next 35; make_keyword (if b then KHASHHASH else Punct 35)
    else if c =? 43 then read_rep2 43 OP_INC 61 OP_A_ADD (Punct 43)
    else if c =? 42 then read_rep 61 OP_A_MUL (Punct 42)
    else if c =? 61 then read_rep 61 OP_EQ (Punct 61)
    else if c =? 33 then read_rep 61 OP_NE (Punct 33)
    else if c =? 38 then read_rep2 38 OP_LOGAND 61 OP_A_AND (Punct 38)
    else if c =? 124 then read_rep2 124 OP_LOGOR 61 OP_A_OR (Punct 124)
    else if c =? 94 then read_rep 61 OP_A_XOR (Punct 94)
    else if c =? 34 then read_string ENC_NONE
    else if c =? 39 then read_char ENC_NONE
    else if c =? 47 then
      do b <- next 61; make_keyword (if b then OP_A_DIV else Punct 47)
    else if ident_start c then read_ident c
    else if in_range 48 57 c then read_number c
    else if (c =? 76) || (c =? 85) then
      let e := if c =? 76 then ENC_WCHAR else ENC_CHAR32 in
      do dq <- next 34;
      if dq then read_string e
      else
        do sq <- next 39;
        if sq then read_char e else read_ident c
    else if c =? 117 then
      do dq <- next 34;
      if dq then read_string ENC_CHAR16
      else
        do sq <- next 39;
        if sq then read_char ENC_CHAR16
        else
          do eight <- next 56;
          if eight then
            do dq8 <- next 34;
            if dq8 then read_string ENC_UTF8
            else run unreadc 56; read_ident c
          else read_ident c
    else if c =? 46 then
      do p <- peek;
      if isdigit p then read_number c
      else
        do dot <- next 46;
        if dot then
          do dot2 <- next 46;
          if dot2 then make_keyword KELLIPSIS
          else make_ident (str ".." ++ [0])
        else make_keyword (Punct 46)
    else if single_punct c then make_keyword (Punct c)
    else if c =? 45 then
      do b1 <- next 45;
      if b1 then make_keyword OP_DEC
      else
        do b2 <- next 62;
        if b2 then make_keyword OP_ARROW
        else
          do b3 <- next 61;
          if b3 then make_keyword OP_A_SUB else make_keyword (Punct 45)
    else if c =? 60 then
      do b1 <- next 60;
      if b1 then read_rep 61 OP_A_SAL OP_SAL
      else
        do b2 <- next 61;
        if b2 then make_keyword OP_LE
        else
          do b3 <- next 58;
          if b3 then make_keyword (Punct 91)
          else
            do b4 <- next 37;
            if b4 then make_keyword (Punct 123) else make_keyword (Punct 60)
    else if c =? 62 then
      do b1 <- next 61;
      if b1 then make_keyword OP_GE
      else
        do b2 <- next 62;
        if b2 then read_rep 61 OP_A_SAR OP_SAR else make_keyword (Punct 62)
    else if c =? 37 then
      do tok <- read_hash_digraph;
      match tok with
      | Some t => ret t
      | None => read_rep 61 OP_A_MOD (Punct 37)
      end
    else if c =? EOF then ret EofTok
    else make_invalid (to_char c).

(** *** The token buffers and [lex] *)

Definition token_buffer_stash (buf : list tokptr) : M unit :=
  fun s => Ok tt (set_buffers s (buf :: buffers s)).

Definition token_buffer_unstash : M unit :=
  fun s =>
    match buffers s with
    | [] => Crash
    | _ :: bs => Ok tt (set_buffers s bs)
    end.

Definition is_eof (k : kind) : bool :=
  match k with TEOF => true | _ => false end.

Definition is_space (k : kind) : bool :=
  match k with TSPACE => true | _ => false end.

Definition unget_token (tok : tokptr) : M unit :=
  do t <- deref_tok tok;
  if is_eof (tkind t) then ret tt
  else fun s =>
    match buffers s with
    | [] => Crash
    | buf :: bs => Ok tt (set_buffers s ((tok :: buf) :: bs))
    end.

(** The loop of [lex] that skips the space tokens. *)
Fixpoint lex_loop (fuel : nat) (tok : tokptr) : M tokptr :=
  match fuel with
  | O => diverge
  | S fuel' =>
      do t <- deref_tok tok;
      if is_space (tkind t) then
        do tok' <- do_read_token;
        run set_space tok' true;
        lex_loop fuel' tok'
      else ret tok
  end.

Definition lex : M tokptr :=
  fun s =>
    match buffers s with
    | [] => Crash
    | (tok :: buf) :: bs => Ok tok (set_buffers s (buf :: bs))
    | [] :: bs =>
        if (1 <? length (buffers s))%nat then Ok EofTok s
        else
          (do f <- current_file;
           let bol := column f =? 1 in
           do tok0 <- do_read_token;
           do tok <- (fun s1 => lex_loop (fuel_of s1) tok0 s1);
           run set_bol tok bol;
           ret tok) s
    end.

(** *** Conditional inclusion *)

(** Modelled from the spec: [is_ident (tok, s)], the token is the
    identifier [s] (a function of the preprocessor). *)
Definition is_ident (t : Token) (s : string) : bool :=
  match tkind t with
  | TIDENT => streq (cstr (sval t)) (str s)
  | _ => false
  end.

Fixpoint skip_cond_incl_loop (fuel : nat) (nest : Z) : M unit :=
  match fuel with
  | O => diverge
  | S fuel' =>
      do f <- current_file;
      let bol := column f =? 1 in
      do _ <- skip_space;
      do c <- readc;
      if c =? EOF then ret tt
      else if c =? 39 then run skip_char; skip_cond_incl_loop fuel' nest
      else if c =? 34 then run skip_string; skip_cond_incl_loop fuel' nest
      else if negb (c =? 35) || negb bol then skip_cond_incl_loop fuel' nest
      else
        do f1 <- current_file;
        let col := column f1 - 1 in
        do tok <- lex;
        do t <- deref_tok tok;
        match tkind t with
        | TIDENT =>
            if (nest =? 0)
               && (is_ident t "else" || is_ident t "elif" || is_ident t "endif")
            then
              run unget_token tok;
              do hash <- make_keyword (Punct 35);
              run set_bol hash true;
              run set_column hash col;
              unget_token hash
            else
              let nest' :=
                if is_ident t "if" || is_ident t "ifdef" || is_ident t "ifndef"
                then nest + 1
                else if negb (nest =? 0) && is_ident t "endif" then nest - 1
                else nest in
              run skip_line;
              skip_cond_incl_loop fuel' nest'
        | _ => skip_cond_incl_loop fuel' nest
        end
  end.

Definition skip_cond_incl : M unit :=
  fun s => skip_cond_incl_loop (fuel_of s) 0 s.

(** The tokens that [n] calls of [lex] return, each as it is when it is
    returned. *)
Fixpoint lex_n (n : nat) (s : State) : result (list Token) :=
  match n with
  | O => Ok [] s
  | S n' =>
      match lex s with
      | Ok p s1 =>
          match load s1 p with
          | Some t =>
              match lex_n n' s1 with
              | Ok ts s2 => Ok (t :: ts) s2
              | Fatal msg => Fatal msg
              | Crash => Crash
              | Diverge => Diverge
              end
          | None => Crash
          end
      | Fatal msg => Fatal msg
      | Crash => Crash
      | Diverge => Diverge
      end
  end.


(** A character of a pp-number that follows the character [last], in the
    words of the specification: a digit, a letter, a period, or a sign
    after one of e, E, p and P. *)
Definition pp_char (last c : Z) : bool :=
  isdigit c || isalpha c || (c =? 46)
  || (((last =? 101) || (last =? 69) || (last =? 112) || (last =? 80))
      && ((c =? 43) || (c =? 45))).

(** The longest sequence of such characters at the head of [l], and what
    follows it. *)
Fixpoint pp_span (last : Z) (l : list Z) : list Z * list Z :=
  match l with
  | [] => ([], [])
  | c :: r =>
      if pp_char last c then
        let '(body, tail) := pp_span c r in (c :: body, tail)
      else ([], l)
  end.

(** A computation that leaves the token buffers as they are. *)
Definition keeps_buffers {A} (m : M A) : Prop :=
  forall (s : State) (a : A) (s' : State), m s = Ok a s' -> buffers s' = buffers s.

(** A character from 1 to 127 that is no backslash and no carriage
    return: [readc] returns it as it is. *)
Definition plain (c : Z) : Prop := 0 < c < 128 /\ c <> BACKSLASH /\ c <> CR.

End Lexer.

(** ** The map as its lookups see it *)

Module MapView.
Import Map.

(** Where the loop of [map_get_nostack] stops: [Some (Some j)] at the slot
    [j] that holds the key, [Some None] at a null slot.  [map_get_nostack]
    returns [val[j]] in the first case and [NULL] in the second. *)
Fixpoint find_loop (fuel : nat) (keys : list slot) (mask : Z) (k : string) (i : Z)
    : option (option nat) :=
  match fuel with
  | O => None
  | S fuel' =>
      match keys !! Z.to_nat i with
      | None => None
      | Some Empty => Some None
      | Some Tombstone => find_loop fuel' keys mask k (Z.land (i + 1) mask)
      | Some (Key k') =>
          if String.eqb k' k then Some (Some (Z.to_nat i))
          else find_loop fuel' keys mask k (Z.land (i + 1) mask)
      end
  end.

Definition find (keys : list slot) (size : Z) (k : string) : option (option nat) :=
  find_loop (Z.to_nat size) keys (size - 1) k (Z.land (hash k) (size - 1)).

(** A slot that a lookup of [k] passes: a tombstone or another key. *)
Definition passes (k : string) (s : slot) : bool :=
  match s with
  | Empty => false
  | Tombstone => true
  | Key k' => negb (String.eqb k' k)
  end.

(** The key [k] is settled in a table when every slot that holds it is the
    slot at which a lookup finds it: it is in one slot at most, and no null
    slot lies between its hash and its slot. *)
Definition settled (k : string) (m : Map) : Prop :=
  match key m with
  | None => True
  | Some keys =>
      forall i : nat, keys !! i = Some (Key k) -> find keys (size m) k = Some (Some i)
  end.

(** The key [k] is in one slot of the table at most. *)
Definition once (k : string) (m : Map) : Prop :=
  match key m with
  | None => True
  | Some keys =>
      forall i j : nat, keys !! i = Some (Key k) -> keys !! j = Some (Key k) -> i = j
  end.

(** No slot of the table holds the key [k]. *)
Definition absent (k : string) (m : Map) : Prop :=
  match key m with
  | None => True
  | Some keys => forall i : nat, keys !! i <> Some (Key k)
  end.

(** No slot of the table is a tombstone: nothing has been removed since the
    table was made or rehashed. *)
Definition no_tombstone (m : Map) : Prop :=
  match key m with
  | None => True
  | Some keys => forall i : nat, keys !! i <> Some Tombstone
  end.

(** A table without tombstones in which every key is settled, as the tables
    are that have only been written. *)
Definition tidy (m : Map) : Prop :=
  wf_table m /\ no_tombstone m /\ forall k : string, settled k m.

(** The table is small for its elements: it has the 16 slots of a new table
    at most, or 40 / 7 slots for an element at most, as after a doubling. *)
Definition compact (m : Map) : Prop :=
  size m <= 16 \/ 7 * size m <= 40 * nelem m.

(** A sequence of calls of [map_put]. *)
Fixpoint puts (m : Map) (ps : list (string * Z)) : option Map :=
  match ps with
  | [] => Some m
  | (k, v) :: ps' =>
      match map_put m k v with
      | Some m' => puts m' ps'
      | None => None
      end
  end.

(** The value that the sequence has given to [k] last, [NULL] if none. *)
Fixpoint last_put (ps : list (string * Z)) (k : string) (d : Z) : Z :=
  match ps with
  | [] => d
  | (k', v) :: ps' => last_put ps' k (if String.eqb k' k then v else d)
  end.

End MapView.

(** ** The vector of pointers (vector.c) *)

Module Vector.

Definition MIN_SIZE : Z := 8.

Definition INT_MAX : Z := 2 ^ 31 - 1.

(** [Vector]: [body] holds the [len] elements of the vector, the cells of
    the array that have been written; [nalloc] is the number of the cells
    that are allocated. *)
Record Vector : Type := mkVector {
  body : list Z;
  nalloc : Z
}.

Definition vec_len (v : Vector) : Z := Z.of_nat (length (body v)).

Definition vec_body (v : Vector) : list Z := body v.

Definition max (a b : Z) : Z := if a >? b then a else b.

(** The loop of [roundup]; [r *= 2] on an [int] must not overflow. *)
Fixpoint roundup_loop (fuel : nat) (n r : Z) : option Z :=
  match fuel with
  | O => None
  | S fuel' =>
      if n >? r then
        if r * 2 <=? INT_MAX then roundup_loop fuel' n (r * 2) else None
      else Some r
  end.

Definition roundup (n : Z) : option Z :=
  if n =? 0 then Some 0 else roundup_loop 32 n 1.

Definition do_make_vector (size : Z) : option Vector :=
  match roundup size with
  | Some size' => Some {| body := []; nalloc := size' |}
  | None => None
  end.

Definition make_vector : option Vector := do_make_vector 0.

Definition extend (vec : Vector) (delta : Z) : option Vector :=
  if vec_len vec + delta <=? nalloc vec then Some vec
  else
    match roundup (vec_len vec + delta) with
    | Some r => Some {| body := body vec; nalloc := max r MIN_SIZE |}
    | None => None
    end.

(** [vec_push]; the cell [body[len]] must be one of the allocated cells. *)
Definition vec_push (vec : Vector) (elem : Z) : option Vector :=
  match extend vec 1 with
  | Some v =>
      if vec_len v <? nalloc v then Some {| body := body v ++ [elem]; nalloc := nalloc v |}
      else None
  | None => None
  end.

Definition make_vector1 (e : Z) : option Vector :=
  match do_make_vector 0 with
  | Some r => vec_push r e
  | None => None
  end.

(** [vec_copy]; [memcpy] writes [len] cells of the new array. *)
Definition vec_copy (src : Vector) : option Vector :=
  match do_make_vector (vec_len src) with
  | Some r =>
      if vec_len src <=? nalloc r then Some {| body := body src; nalloc := nalloc r |}
      else None
  | None => None
  end.

Definition vec_append (a b : Vector) : option Vector :=
  match extend a (vec_len b) with
  | Some a' =>
      if vec_len a' + vec_len b <=? nalloc a'
      then Some {| body := body a' ++ body b; nalloc := nalloc a' |}
      else None
  | None => None
  end.

(** [vec_pop]: the [assert] fails on an empty vector. *)
Definition vec_pop (vec : Vector) : option (Z * Vector) :=
  if 0 <? vec_len vec then
    match body vec !! Z.to_nat (vec_len vec - 1) with
    | Some x => Some (x, {| body := take (Z.to_nat (vec_len vec - 1)) (body vec);
                            nalloc := nalloc vec |})
    | None => None
    end
  else None.

Definition vec_get (vec : Vector) (index : Z) : option Z :=
  if (0 <=? index) && (index <? vec_len vec) then body vec !! Z.to_nat index
  else None.

Definition vec_set (vec : Vector) (index : Z) (val : Z) : option Vector :=
  if (0 <=? index) && (index <? vec_len vec)
  then Some {| body := <[Z.to_nat index := val]> (body vec); nalloc := nalloc vec |}
  else None.

Definition vec_head (vec : Vector) : option Z :=
  if 0 <? vec_len vec then body vec !! 0%nat else None.

Definition vec_tail (vec : Vector) : option Z :=
  if 0 <? vec_len vec then body vec !! Z.to_nat (vec_len vec - 1) else None.

(** The loop of [vec_reverse]: [r->body[i] = vec->body[vec->len - i - 1]]
    for [i] from 0 to [len - 1]; [dst] holds the cells written so far. *)
Fixpoint reverse_loop (n : nat) (i : Z) (vec : Vector) (dst : list Z) (room : Z)
    : option (list Z) :=
  match n with
  | O => Some dst
  | S n' =>
      if i <? room then
        match body vec !! Z.to_nat (vec_len vec - i - 1) with
        | Some x => reverse_loop n' (i + 1) vec (dst ++ [x]) room
        | None => None
        end
      else None
  end.

Definition vec_reverse (vec : Vector) : option Vector :=
  match do_make_vector (vec_len vec) with
  | Some r =>
      match reverse_loop (Z.to_nat (vec_len vec)) 0 vec [] (nalloc r) with
      | Some b => Some {| body := b; nalloc := nalloc r |}
      | None => None
      end
  | None => None
  end.

(** The elements of the vector are in allocated cells. *)
Definition vec_ok (v : Vector) : Prop := vec_len v <= nalloc v.

End Vector.

(** ** The formatting functions of buffer.c *)

Module Format.
Import Buffer.

(** The buffer has a free cell behind its bytes: [buf_write] writes inside
    the array, and [vsnprintf] has room for its terminator. *)
Definition buf_ok (b : Buffer) : Prop := buf_len b < nalloc b.

(** [vformat], [out] being the characters that the format produces: the
    loop of [buf_printf] on a new buffer. *)
Definition vformat (out : list Z) : option (list Z) :=
  match buf_printf_loop (S (length out)) make_buffer out with
  | Some b => Some (buf_body b)
  | None => None
  end.

Definition format (out : list Z) : option (list Z) := vformat out.

(** [quote_char]; the conversion [%c] writes its argument as a [char]. *)
Definition quote_char (c : Z) : option (list Z) :=
  if c =? 92 then Some [92; 92]
  else if c =? 39 then Some [92; 39]
  else format [to_char c].

(** The characters are printable ASCII. *)
Definition printable (l : list Z) : Prop := Forall (fun c => isprint c = true) l.

(** The values of a [char]. *)
Definition is_char (c : Z) : Prop := -128 <= c < 128.

(** The reading of what [print] writes, with which the quoting is shown to
    lose nothing: the value of a hexadecimal digit, the character of an
    escape, and the character that the head of a quoted text stands for,
    with the rest of the text. *)
Definition unhex (d : Z) : Z := if d <? 58 then d - 48 else d - 87.

Definition unescape (e : Z) : Z :=
  if e =? 98 then 8
  else if e =? 102 then 12
  else if e =? 110 then 10
  else if e =? 114 then 13
  else if e =? 116 then 9
  else e.

Definition unquote_head (l : list Z) : option (Z * list Z) :=
  match l with
  | [] => None
  | c :: r =>
      if negb (c =? 92) then Some (c, r)
      else
        match r with
        | [] => None
        | e :: r1 =>
            if negb (e =? 120) then Some (unescape e, r1)
            else
              match r1 with
              | h1 :: h2 :: r2 =>
                  if negb (h1 =? 102) then Some (unhex h1 * 16 + unhex h2, r2)
                  else
                    match r2 with
                    | _ :: _ :: _ :: _ :: l1 :: l2 :: r3 =>
                        Some (unhex l1 * 16 + unhex l2 - 256, r3)
                    | _ => None
                    end
              | _ => None
              end
        end
  end.

End Format.

(** ** The buffer with the [int] of its size *)

(** The functions of buffer.c that grow the array, with what the code has
    beside the bytes: the product [nalloc * 2] is an [int], and a byte is
    written into a cell of the array. *)
Module IntBuffer.
Import Buffer.

Definition INT_MAX : Z := 2 ^ 31 - 1.

(** [realloc_body]: no result when [b->nalloc * 2] overflows the [int]. *)
Definition realloc_body (b : Buffer) : option Buffer :=
  if nalloc b * 2 <=? INT_MAX then Some {| body := body b; nalloc := nalloc b * 2 |}
  else None.

(** [buf_write]; [body[len]] must be a cell of the array. *)
Definition buf_write (b : Buffer) (c : Z) : option Buffer :=
  match (if nalloc b =? buf_len b + 1 then realloc_body b else Some b) with
  | Some b1 =>
      if buf_len b1 <? nalloc b1
      then Some {| body := body b1 ++ [to_char c]; nalloc := nalloc b1 |}
      else None
  | None => None
  end.

Fixpoint buf_append (b : Buffer) (s : list Z) : option Buffer :=
  match s with
  | [] => Some b
  | c :: s' =>
      match buf_write b c with
      | Some b' => buf_append b' s'
      | None => None
      end
  end.

(** The loop of [buf_printf] and of [vformat], [out] being the characters
    that the format produces; [vsnprintf] takes the room [avail] as a
    [size_t], which must not be negative. *)
Fixpoint buf_printf_loop (fuel : nat) (b : Buffer) (out : list Z) : option Buffer :=
  match fuel with
  | O => None
  | S fuel' =>
      let avail := nalloc b - buf_len b in
      let written := Z.of_nat (length out) in
      if avail <? 0 then None
      else if avail <=? written then
        match realloc_body b with
        | Some b1 => buf_printf_loop fuel' b1 out
        | None => None
        end
      else Some {| body := body b ++ out; nalloc := nalloc b |}
  end.

Definition buf_printf (b : Buffer) (out : list Z) : option Buffer :=
  buf_printf_loop (S (length out)) b out.

Definition vformat (out : list Z) : option (list Z) :=
  match buf_printf_loop (S (length out)) make_buffer out with
  | Some b => Some (buf_body b)
  | None => None
  end.

Definition format (out : list Z) : option (list Z) := vformat out.

End IntBuffer.

(** ** More of the lexer (lex.c) *)

Module LexerMore.
Import Stream Buffer Lexer.

(** The input is at its end: one file is left, and it has nothing more to
    deliver. *)
Definition at_end_state (s : State) : Prop :=
  exists f : File,
    files s = [f] /\ buf f = [] /\ rest f = [] /\ at_end (last f) = EOF.

(** The file after [unreadc] has pushed the character [c] back. *)
Definition pushed (c : Z) (f : File) : File :=
  if c =? NL then set_pos (set_buf f (c :: buf f)) (line f - 1) 1
  else set_pos (set_buf f (c :: buf f)) (line f) (column f - 1).

(** A character of an identifier, among the plain characters. *)
Definition ident_char (c : Z) : bool := isalnum c || (c =? 95) || (c =? 36).





(** The number that a hexadecimal digit stands for, by the three cases of
    [read_hex_char]. *)
Definition hex_digit (c : Z) : Z :=
  if (48 <=? c) && (c <=? 57) then c - 48
  else if (97 <=? c) && (c <=? 102) then c - 97 + 10
  else c - 65 + 10.

(** The number that a sequence of hexadecimal digits writes. *)
Definition hex_value (l : list Z) : Z :=
  fold_left (fun r c => 16 * r + hex_digit c) l 0.

(** An octal digit, as [nextoct] tests it. *)
Definition octal (c : Z) : bool := (48 <=? c) && (c <=? 55).

(** The number that a sequence of octal digits writes. *)
Definition oct_value (l : list Z) : Z :=
  fold_left (fun r c => 8 * r + (c - 48)) l 0.

End LexerMore.

(** ** The keys that a map holds *)

Module MapKeys.
Import Map.

(** A slot of the table holds the key [k]. *)
Definition present (k : string) (m : Map) : Prop :=
  match key m with
  | None => False
  | Some keys => exists i : nat, keys !! i = Some (Key k)
  end.

(** The number of different strings of a list: a string counts where it
    occurs last. *)
Fixpoint distinct (l : list string) : nat :=
  match l with
  | [] => 0
  | k :: l' => if existsb (String.eqb k) l' then distinct l' else S (distinct l')
  end.

End MapKeys.

(** ** Lines of input (lex.c) *)

Module Lines.
Import Stream Buffer Lexer LexerMore.

(** The file [f] has still to deliver the characters [l], at most one of
    which is pushed back, and its counters are at line [ln] and column
    [col]. *)
Definition at_pos (f : File) (l : list Z) (ln col : Z) : Prop :=
  (length (buf f) <= 1)%nat /\ buf f ++ rest f = l /\ line f = ln /\ column f = col.

(** A blank, a tab, a form feed or a vertical tab. *)
Definition blank (c : Z) : Prop := c = 32 \/ c = 9 \/ c = 12 \/ c = 11.

(** What stands between two tokens of a line: a blank, or a block comment
    with its body, which holds no newline and no end of comment. *)
Inductive gap : Type :=
| Blank (c : Z)
| Comment (chs : list Z).

Definition gap_chars (g : gap) : list Z :=
  match g with
  | Blank c => [c]
  | Comment chs => 47 :: 42 :: chs ++ [42; 47]
  end.

Definition gaps_chars (gs : list gap) : list Z := concat (map gap_chars gs).

Definition wf_gap (g : gap) : Prop :=
  match g with
  | Blank c => blank c
  | Comment chs =>
      Forall plain chs /\ Forall (fun c => c <> NL) chs
      /\ forall l1 l2 : list Z, chs <> l1 ++ 42 :: 47 :: l2
  end.

(** The static tokens have the kinds that lex.c gives them. *)
Definition static_ok (s : State) : Prop :=
  tkind (space_token s) = TSPACE /\ tkind (newline_token s) = TNEWLINE.

(** The file is of a size that the integers of the code hold: its line
    number and its count of tokens are below 2^30 and it has fewer than
    2^30 characters left, so that no line number, column, count of tokens
    or size of a buffer leaves the range of [int] while it is read. *)
Definition int_sized (f : File) : Prop :=
  0 <= line f < 2 ^ 30 /\ 0 <= ntok f < 2 ^ 30
  /\ Z.of_nat (length (rest f)) < 2 ^ 30.

(** The tokens that [make_ident] and [make_keyword] make, with their
    flags. *)
Definition ident_token (ln col cnt : Z) (b sp : bool) (name : list Z) : Token :=
  {| tkind := TIDENT; tline := ln; tcolumn := col; count := cnt; bol := b;
     space := sp; id := Punct 0; sval := name ++ [0]; slen := 0; c := 0;
     enc := ENC_NONE |}.

Definition keyword_token (ln col cnt : Z) (b sp : bool) (k : keyword) : Token :=
  {| tkind := TKEYWORD; tline := ln; tcolumn := col; count := cnt; bol := b;
     space := sp; id := k; sval := []; slen := 0; c := 0; enc := ENC_NONE |}.

(** *** The lines that [skip_cond_incl] passes *)

(** A piece of text: a character, a string literal with its body, or a
    character literal with its first character and the rest of its body. *)
Inductive item : Type :=
| Ch (c : Z)
| Str (body : list Z)
| Chr (c : Z) (body : list Z).

Definition item_chars (i : item) : list Z :=
  match i with
  | Ch c => [c]
  | Str body => 34 :: body ++ [34]
  | Chr c body => 39 :: c :: body ++ [39]
  end.

(** A character of text outside literals: plain, and no newline, slash or
    quote. *)
Definition text_char (c : Z) : Prop :=
  plain c /\ c <> NL /\ c <> 47 /\ c <> 34 /\ c <> 39.

Definition wf_item (i : item) : Prop :=
  match i with
  | Ch c => text_char c
  | Str body => Forall plain body /\ Forall (fun c => c <> 34) body
  | Chr c body => plain c /\ Forall plain body /\ Forall (fun c => c <> 39) body
  end.

(** The first character of the text that is no white space is a #. *)
Fixpoint starts_directive (its : list item) : bool :=
  match its with
  | Ch c :: its' => if iswhitespace c then starts_directive its' else c =? 35
  | _ => false
  end.

(** A line of a skipped group: text that does not begin with #, up to the
    newline that ends it (string literals may hold newlines); or a
    directive: white space, #, white space, a name, and the rest of the
    line. *)
Inductive cline : Type :=
| Text (its : list item)
| Directive (sp1 sp2 name tail : list Z).

Definition line_chars (l : cline) : list Z :=
  match l with
  | Text its => concat (map item_chars its) ++ [NL]
  | Directive sp1 sp2 name tail => sp1 ++ 35 :: sp2 ++ name ++ tail ++ [NL]
  end.

Definition text_of (ls : list cline) : list Z := concat (map line_chars ls).

(** A name: an identifier of plain characters whose first character takes
    [do_read_token] to [read_ident] at once (a letter other than u, L and
    U, an underscore or a dollar sign). *)
Definition wf_name (name : list Z) : Prop :=
  exists (c0 : Z) (chars : list Z),
    name = c0 :: chars /\ plain c0 /\ ident_start c0 = true
    /\ Forall plain chars /\ Forall (fun c => ident_char c = true) chars.

Definition wf_line (l : cline) : Prop :=
  match l with
  | Text its => Forall wf_item its /\ starts_directive its = false
  | Directive sp1 sp2 name tail =>
      Forall blank sp1 /\ Forall blank sp2 /\ wf_name name
      /\ Forall plain tail /\ Forall (fun c => c <> NL) tail
      /\ ident_char (hd NL tail) = false
  end.

Definition is_name (name : list Z) (s : string) : bool := streq name (str s).

(** The nesting counter after a directive, in the words of the
    specification: it is incremented by #if, #ifdef and #ifndef and
    decremented by #endif at positive nesting; there is none after an
    #else, #elif or #endif at nesting 0, where the skipping ends. *)
Definition nest_step (nest : nat) (name : list Z) : option nat :=
  match nest with
  | O =>
      if is_name name "else" || is_name name "elif" || is_name name "endif"
      then None
      else if is_name name "if" || is_name name "ifdef" || is_name name "ifndef"
      then Some 1%nat
      else Some O
  | S n =>
      if is_name name "if" || is_name name "ifdef" || is_name name "ifndef"
      then Some (S nest)
      else if is_name name "endif" then Some n
      else Some nest
  end.

(** The nesting counter after the lines [ls]; text does not change it. *)
Fixpoint nesting (nest : nat) (ls : list cline) : option nat :=
  match ls with
  | [] => Some nest
  | Text _ :: ls' => nesting nest ls'
  | Directive _ _ name _ :: ls' =>
      match nest_step nest name with
      | Some n => nesting n ls'
      | None => None
      end
  end.

(** The names of the directives among the lines. *)
Fixpoint directive_names (ls : list cline) : list (list Z) :=
  match ls with
  | [] => []
  | Text _ :: ls' => directive_names ls'
  | Directive _ _ name _ :: ls' => name :: directive_names ls'
  end.

(** *** Lines of words *)















End Lines.

(** * Theorems *)

Module MapFacts.
Import Map.

Lemma land_mask (x n : Z) : 0 <= n -> Z.land x (2 ^ n - 1) = x mod 2 ^ n.
Proof.
  intros Hn. rewrite <- Z.land_ones by assumption.
  f_equal. rewrite Z.ones_equiv. lia.
Qed.

Lemma next_mod (i n : Z) : 0 <= n -> Z.land (i + 1) (2 ^ n - 1) = (i + 1) mod 2 ^ n.
Proof. apply land_mask. Qed.

Lemma mod_range (x n : Z) : 0 <= n -> 0 <= x mod 2 ^ n < 2 ^ n.
Proof. intros Hn. apply Z.mod_pos_bound. apply Z.pow_pos_nonneg; lia. Qed.

Lemma lookup_in_range (keys : list slot) (i : Z) :
  0 <= i < Z.of_nat (length keys) -> exists s, keys !! Z.to_nat i = Some s.
Proof.
  intros Hi. destruct (keys !! Z.to_nat i) eqn:E; eauto.
  apply lookup_ge_None in E. lia.
Qed.

Lemma step_ahead (i n : Z) (d : nat) :
  0 <= n -> 0 <= i < 2 ^ n ->
  ((i + 1) mod 2 ^ n + Z.of_nat d) mod 2 ^ n = (i + Z.of_nat (S d)) mod 2 ^ n.
Proof.
  intros Hn Hi. rewrite Zplus_mod_idemp_l. f_equal. lia.
Qed.

Lemma count_slots_nonneg p l : 0 <= count_slots p l.
Proof. induction l as [|s l IH]; simpl; [lia|]. destruct (p s); lia. Qed.

Lemma count_slots_le p l : count_slots p l <= Z.of_nat (length l).
Proof. induction l as [|s l IH]; simpl; [lia|]. destruct (p s); lia. Qed.

Lemma live_le_used l : count_slots live l <= count_slots used l.
Proof. induction l as [|s l IH]; simpl; [lia|]. destruct s; simpl; lia. Qed.

Lemma count_slots_insert p (l : list slot) (j : nat) (s s' : slot) :
  l !! j = Some s ->
  count_slots p (<[j := s']> l)
  = count_slots p l - (if p s then 1 else 0) + (if p s' then 1 else 0).
Proof.
  revert j. induction l as [|x l IH]; intros [|j] H; simpl in *; try discriminate.
  - injection H as ->. lia.
  - rewrite (IH j H). lia.
Qed.

Lemma count_slots_replicate p (n : nat) :
  p Empty = false -> count_slots p (replicate n Empty) = 0.
Proof. intros H. induction n; simpl; [reflexivity|]. rewrite H. lia. Qed.

Lemma exists_empty (l : list slot) :
  count_slots used l < Z.of_nat (length l) -> exists e, l !! e = Some Empty.
Proof.
  induction l as [|s l IH]; simpl; intros H; [lia|].
  destruct s; simpl in H.
  - exists 0%nat. reflexivity.
  - destruct IH as [e He]; [lia|]. exists (S e). exact He.
  - destruct IH as [e He]; [lia|]. exists (S e). exact He.
Qed.

(** An index [e] is [d] steps ahead of [i] for some [d] below the size. *)
Lemma ahead_exists (i n : Z) (e : nat) :
  0 <= n -> 0 <= i < 2 ^ n -> Z.of_nat e < 2 ^ n ->
  exists d : nat, Z.of_nat d < 2 ^ n /\ Z.to_nat ((i + Z.of_nat d) mod 2 ^ n) = e.
Proof.
  intros Hn Hi He.
  exists (Z.to_nat ((Z.of_nat e - i) mod 2 ^ n)).
  pose proof (mod_range (Z.of_nat e - i) n Hn) as Hr.
  rewrite Z2Nat.id by lia. split; [lia|].
  rewrite Zplus_mod_idemp_r.
  replace (i + (Z.of_nat e - i)) with (Z.of_nat e) by lia.
  rewrite Z.mod_small by lia. lia.
Qed.


Section Probe.

Variable keys : list slot.
Variable n : Z.
Hypothesis Hn : 0 <= n.
Hypothesis Hlen : Z.of_nat (length keys) = 2 ^ n.

Lemma next_in_range (i : Z) : 0 <= Z.land (i + 1) (2 ^ n - 1) < 2 ^ n.
Proof. rewrite next_mod by assumption. apply mod_range; assumption. Qed.

Lemma slot_at (i : Z) : 0 <= i < 2 ^ n -> exists s, keys !! Z.to_nat i = Some s.
Proof. intros Hi. apply lookup_in_range. lia. Qed.

Lemma ahead_zero (i : Z) : 0 <= i < 2 ^ n -> (i + Z.of_nat 0) mod 2 ^ n = i.
Proof. intros Hi. rewrite Z.add_0_r. apply Z.mod_small. lia. Qed.

Lemma ahead_succ (i : Z) (d : nat) :
  0 <= i < 2 ^ n ->
  (Z.land (i + 1) (2 ^ n - 1) + Z.of_nat d) mod 2 ^ n = (i + Z.of_nat (S d)) mod 2 ^ n.
Proof. intros Hi. rewrite next_mod by assumption. apply step_ahead; assumption. Qed.

(** [map_get_nostack] ends when a null slot is ahead. *)
Lemma get_loop_total (vals : list Z) (k : string) (d : nat) :
  Z.of_nat (length vals) = 2 ^ n ->
  forall (fuel : nat) (i : Z),
    (d < fuel)%nat -> 0 <= i < 2 ^ n ->
    keys !! Z.to_nat ((i + Z.of_nat d) mod 2 ^ n) = Some Empty ->
    exists r, get_loop fuel keys vals (2 ^ n - 1) k i = Some r.
Proof.
  intros Hv. induction d as [|d IH]; intros fuel i Hf Hi He.
  - destruct fuel as [|fuel]; [lia|]. rewrite ahead_zero in He by assumption.
    simpl. rewrite He. eauto.
  - destruct fuel as [|fuel]; [lia|]. simpl.
    destruct (slot_at i Hi) as [s Hs]. rewrite Hs.
    rewrite <- ahead_succ in He by assumption.
    destruct s as [| |k'].
    + eauto.
    + apply IH; [lia|apply next_in_range|exact He].
    + destruct (String.eqb k' k).
      * destruct (vals !! Z.to_nat i) eqn:E; eauto.
        apply lookup_ge_None in E. lia.
      * apply IH; [lia|apply next_in_range|exact He].
Qed.

(** [map_put] ends when a null slot is ahead: it writes the slot [j], which
    was null, a tombstone or the key, and a lookup from the same start then
    reads the value at [j]. *)
Lemma put_loop_spec (m : Map) (k : string) (v : Z) (d : nat) :
  Z.of_nat (length (val m)) = 2 ^ n ->
  forall (fuel : nat) (i : Z),
    (d < fuel)%nat -> 0 <= i < 2 ^ n ->
    keys !! Z.to_nat ((i + Z.of_nat d) mod 2 ^ n) = Some Empty ->
    exists (m' : Map) (j : nat) (s : slot),
      put_loop fuel m keys (2 ^ n - 1) k v i = Some m'
      /\ keys !! j = Some s
      /\ (s = Empty \/ s = Tombstone \/ s = Key k)
      /\ parent m' = parent m
      /\ key m' = Some (<[j := Key k]> keys)
      /\ val m' = <[j := v]> (val m)
      /\ size m' = size m
      /\ nelem m' = nelem m + (if live s then 0 else 1)
      /\ nused m' = nused m + (if used s then 0 else 1)
      /\ get_loop fuel (<[j := Key k]> keys) (<[j := v]> (val m)) (2 ^ n - 1) k i
         = Some v.
Proof.
  intros Hv. induction d as [|d IH]; intros fuel i Hf Hi He.
  - destruct fuel as [|fuel]; [lia|]. rewrite ahead_zero in He by assumption.
    exists {| parent := parent m; key := Some (<[Z.to_nat i := Key k]> keys);
              val := <[Z.to_nat i := v]> (val m); size := size m;
              nelem := nelem m + 1; nused := nused m + 1 |}, (Z.to_nat i), Empty.
    simpl. rewrite He. simpl.
    repeat split; auto.
    rewrite list_lookup_insert_eq by lia. rewrite String.eqb_refl.
    apply list_lookup_insert_eq. lia.
  - destruct fuel as [|fuel]; [lia|].
    destruct (slot_at i Hi) as [s Hs].
    rewrite <- ahead_succ in He by assumption.
    destruct s as [| |k'].
    + exists {| parent := parent m; key := Some (<[Z.to_nat i := Key k]> keys);
                val := <[Z.to_nat i := v]> (val m); size := size m;
                nelem := nelem m + 1; nused := nused m + 1 |}, (Z.to_nat i), Empty.
      simpl. rewrite Hs. simpl. repeat split; auto.
      rewrite list_lookup_insert_eq by lia. rewrite String.eqb_refl.
      apply list_lookup_insert_eq. lia.
    + exists {| parent := parent m; key := Some (<[Z.to_nat i := Key k]> keys);
                val := <[Z.to_nat i := v]> (val m); size := size m;
                nelem := nelem m + 1; nused := nused m |}, (Z.to_nat i), Tombstone.
      simpl. rewrite Hs. simpl. repeat split; auto; try lia.
      rewrite list_lookup_insert_eq by lia. rewrite String.eqb_refl.
      apply list_lookup_insert_eq. lia.
    + destruct (String.eqb k' k) eqn:Ek.
      * apply String.eqb_eq in Ek. subst k'.
        exists {| parent := parent m; key := Some keys;
                  val := <[Z.to_nat i := v]> (val m); size := size m;
                  nelem := nelem m; nused := nused m |}, (Z.to_nat i), (Key k).
        simpl. rewrite Hs, String.eqb_refl. simpl.
        rewrite (list_insert_id keys _ _ Hs). rewrite Hs, String.eqb_refl.
        repeat split; auto; try lia.
        apply list_lookup_insert_eq. lia.
      * destruct (IH fuel (Z.land (i + 1) (2 ^ n - 1))) as (m' & j & s & Hp & Hj & Hs' & R);
          [lia|apply next_in_range|exact He|].
        exists m', j, s. simpl. rewrite Hs, Ek.
        destruct R as (? & ? & ? & ? & ? & ? & Hg).
        repeat split; auto.
        assert (Hne : j <> Z.to_nat i).
        { intros ->. rewrite Hs in Hj. injection Hj as <-.
          destruct Hs' as [?|[?|Heq]]; try discriminate.
          injection Heq as ->. rewrite String.eqb_refl in Ek. discriminate. }
        rewrite list_lookup_insert_ne by exact Hne. rewrite Hs, Ek. exact Hg.
Qed.

(** [map_remove] ends when a null slot is ahead: the map is unchanged, or a
    slot that held the key is a tombstone. *)
Lemma remove_loop_spec (m : Map) (k : string) (d : nat) :
  forall (fuel : nat) (i : Z),
    (d < fuel)%nat -> 0 <= i < 2 ^ n ->
    keys !! Z.to_nat ((i + Z.of_nat d) mod 2 ^ n) = Some Empty ->
    exists m' : Map,
      remove_loop fuel m keys (2 ^ n - 1) k i = Some m'
      /\ (m' = m
          \/ exists j : nat,
               keys !! j = Some (Key k)
               /\ parent m' = parent m
               /\ key m' = Some (<[j := Tombstone]> keys)
               /\ val m' = <[j := 0]> (val m)
               /\ size m' = size m
               /\ nelem m' = nelem m - 1
               /\ nused m' = nused m).
Proof.
  induction d as [|d IH]; intros fuel i Hf Hi He.
  - destruct fuel as [|fuel]; [lia|]. rewrite ahead_zero in He by assumption.
    exists m. simpl. rewrite He. auto.
  - destruct fuel as [|fuel]; [lia|]. simpl.
    destruct (slot_at i Hi) as [s Hs]. rewrite Hs.
    rewrite <- ahead_succ in He by assumption.
    destruct s as [| |k'].
    + exists m. auto.
    + apply IH; [lia|apply next_in_range|exact He].
    + destruct (String.eqb k' k) eqn:Ek.
      * apply String.eqb_eq in Ek. subst k'.
        eexists. split; [reflexivity|]. right. exists (Z.to_nat i). simpl.
        repeat split; auto.
      * apply IH; [lia|apply next_in_range|exact He].
Qed.

End Probe.


(** The inner loop of [maybe_rehash] finds a null slot when one is ahead. *)
Lemma rehash_insert_spec (k : list slot) (v : list Z) (n : Z) (s : slot) (x : Z)
    (d : nat) :
  0 <= n -> Z.of_nat (length k) = 2 ^ n ->
  forall (fuel : nat) (j : Z),
    (d < fuel)%nat -> 0 <= j < 2 ^ n ->
    k !! Z.to_nat ((j + Z.of_nat d) mod 2 ^ n) = Some Empty ->
    exists e : nat,
      k !! e = Some Empty
      /\ rehash_insert fuel k v (2 ^ n - 1) j s x = Some (<[e := s]> k, <[e := x]> v).
Proof.
  intros Hn Hlen. induction d as [|d IH]; intros fuel j Hf Hj He.
  - destruct fuel as [|fuel]; [lia|]. rewrite ahead_zero in He by assumption.
    exists (Z.to_nat j). simpl. rewrite He. auto.
  - destruct fuel as [|fuel]; [lia|]. simpl.
    destruct (lookup_in_range k j) as [t Ht]; [lia|]. rewrite Ht.
    rewrite <- ahead_succ in He by assumption.
    destruct t.
    + exists (Z.to_nat j). auto.
    + apply IH; [lia|apply next_in_range; assumption|exact He].
    + apply IH; [lia|apply next_in_range; assumption|exact He].
Qed.

Lemma rehash_insert_total (k : list slot) (v : list Z) (n : Z) (s : slot) (x j : Z) :
  0 <= n -> Z.of_nat (length k) = 2 ^ n ->
  count_slots used k < 2 ^ n -> 0 <= j < 2 ^ n ->
  exists e : nat,
    k !! e = Some Empty
    /\ rehash_insert (Z.to_nat (2 ^ n)) k v (2 ^ n - 1) j s x
       = Some (<[e := s]> k, <[e := x]> v).
Proof.
  intros Hn Hlen Hc Hj.
  destruct (exists_empty k) as [e He]; [lia|].
  assert (Hlt : Z.of_nat e < 2 ^ n).
  { apply lookup_lt_Some in He. lia. }
  destruct (ahead_exists j n e Hn Hj Hlt) as (d & Hd & Hde).
  apply (rehash_insert_spec k v n s x d); try assumption; [lia|].
  rewrite Hde. exact He.
Qed.

(** The outer loop of [maybe_rehash] moves every key of the slots [l], the
    slots of the old array from the index [length pre] on. *)
Lemma rehash_loop_spec (keys : list slot) (vals : list Z) (n : Z) :
  0 <= n -> length vals = length keys ->
  forall (l pre k : list slot) (v : list Z),
    keys = pre ++ l ->
    Z.of_nat (length k) = 2 ^ n ->
    count_slots used k + count_slots live l < 2 ^ n ->
    exists (k' : list slot) (v' : list Z),
      rehash_loop keys vals (2 ^ n) (seq (length pre) (length l)) k v = Some (k', v')
      /\ length k' = length k
      /\ length v' = length v
      /\ count_slots used k' = count_slots used k + count_slots live l
      /\ count_slots live k' = count_slots live k + count_slots live l.
Proof.
  intros Hn Hv l. induction l as [|s l IH]; intros pre k v Hk Hlen Hc.
  - exists k, v. simpl. repeat split; lia.
  - assert (Hs : keys !! length pre = Some s).
    { rewrite Hk. apply list_lookup_middle. reflexivity. }
    assert (Hx : exists x, vals !! length pre = Some x).
    { destruct (vals !! length pre) eqn:E; eauto.
      apply lookup_ge_None in E. apply lookup_lt_Some in Hs. lia. }
    destruct Hx as [x Hx].
    assert (Hk' : keys = (pre ++ [s]) ++ l) by (rewrite <- app_assoc; exact Hk).
    assert (Hl' : length (pre ++ [s]) = S (length pre)).
    { rewrite length_app. simpl. lia. }
    pose proof (count_slots_nonneg live l) as Hnn.
    simpl in Hc. simpl length. simpl seq. simpl rehash_loop. rewrite Hs, Hx.
    destruct s as [| |ks]; simpl in Hc.
    + destruct (IH (pre ++ [Empty]) k v Hk' Hlen) as (k' & v' & H1 & H2); [lia|].
      rewrite Hl' in H1. exists k', v'. split; [exact H1|]. simpl. exact H2.
    + destruct (IH (pre ++ [Tombstone]) k v Hk' Hlen) as (k' & v' & H1 & H2); [lia|].
      rewrite Hl' in H1. exists k', v'. split; [exact H1|]. simpl. exact H2.
    + destruct (rehash_insert_total k v n (Key ks) x (Z.land (hash ks) (2 ^ n - 1)))
        as (e & He & Hins); try assumption; try lia.
      { rewrite land_mask by assumption. apply mod_range; assumption. }
      rewrite Hins.
      pose proof (count_slots_insert used k e Empty (Key ks) He) as Hu.
      pose proof (count_slots_insert live k e Empty (Key ks) He) as Hli.
      simpl in Hu, Hli.
      destruct (IH (pre ++ [Key ks]) (<[e := Key ks]> k) (<[e := x]> v) Hk')
        as (k' & v' & H1 & H2 & H3 & H4 & H5).
      { rewrite length_insert. exact Hlen. }
      { lia. }
      rewrite Hl' in H1. exists k', v'. split; [exact H1|].
      rewrite length_insert in H2. rewrite length_insert in H3.
      simpl. repeat split; lia.
Qed.

(** A table of fewer than [2 ^ 30] slots can be doubled. *)
Lemma size_fits (m : Map) : size m < 2 ^ 30 -> rehash_fits m.
Proof.
  intros H. unfold rehash_fits, INT_MAX. do 3 right.
  change (2 ^ 30) with 1073741824 in H. change (2 ^ 31) with 2147483648. lia.
Qed.

Lemma maybe_rehash_fits (m m1 : Map) : maybe_rehash m = Some m1 -> rehash_fits m.
Proof.
  unfold maybe_rehash, rehash_fits. destruct (key m); [|auto].
  destruct (10 * nused m <? 7 * size m) eqn:E1; [apply Z.ltb_lt in E1; auto|].
  destruct (20 * nelem m <? 7 * size m) eqn:E2; [apply Z.ltb_lt in E2; auto|].
  simpl. destruct (INT_MAX <? size m * 2) eqn:E3; [discriminate|].
  apply Z.ltb_ge in E3. auto.
Qed.

Lemma map_put_fits (m m' : Map) (k : string) (v : Z) :
  map_put m k v = Some m' -> rehash_fits m.
Proof.
  unfold map_put. destruct (maybe_rehash m) as [m1|] eqn:E; [|discriminate].
  intros _. exact (maybe_rehash_fits m m1 E).
Qed.

(** [maybe_rehash] keeps the invariant and leaves the table less than 0.7
    full, when the doubling of the size does not overflow; the new table has
    16 slots, or the size it had, or 40 / 7 times its elements at most. *)
Lemma maybe_rehash_wf (m : Map) :
  wf_table m -> rehash_fits m ->
  exists (m1 : Map) (keys1 : list slot),
    maybe_rehash m = Some m1
    /\ wf_table m1
    /\ key m1 = Some keys1
    /\ parent m1 = parent m
    /\ nelem m1 = nelem m
    /\ 10 * nused m1 < 7 * size m1
    /\ (size m1 = 16 \/ size m1 = size m \/ 7 * size m1 <= 40 * nelem m1).
Proof.
  unfold wf_table, maybe_rehash. destruct (key m) as [keys|] eqn:Ekey.
  - intros ((n & Hn & Hsize) & Hlk & Hlv & Hne & Hnu & Hlt) Hfit.
    destruct (10 * nused m <? 7 * size m) eqn:Efull.
    + exists m, keys. rewrite Ekey. apply Z.ltb_lt in Efull.
      repeat split; eauto.
    + apply Z.ltb_ge in Efull.
      assert (Hguard : negb (20 * nelem m <? 7 * size m) && (INT_MAX <? size m * 2)
                       = false).
      { unfold rehash_fits in Hfit. rewrite Ekey in Hfit.
        destruct Hfit as [Hf|[Hf|[Hf|Hf]]]; [discriminate|lia| |].
        - apply Z.ltb_lt in Hf. rewrite Hf. reflexivity.
        - apply Z.ltb_ge in Hf. rewrite Hf. apply andb_false_r. }
      rewrite Hguard.
      pose proof (live_le_used keys) as Hle.
      pose proof (count_slots_nonneg live keys) as Hnn.
      set (newsize := if 20 * nelem m <? 7 * size m then size m else size m * 2).
      assert (Hnew : exists n', 2 <= n' /\ newsize = 2 ^ n' /\ nelem m < newsize
                                /\ 10 * nelem m < 7 * newsize
                                /\ (newsize = size m \/ 7 * newsize <= 40 * nelem m)).
      { unfold newsize. destruct (20 * nelem m <? 7 * size m) eqn:E.
        - apply Z.ltb_lt in E. exists n. repeat split; try lia.
        - apply Z.ltb_ge in E. exists (n + 1). rewrite Z.pow_add_r by lia.
          repeat split; lia. }
      destruct Hnew as (n' & Hn' & Hnew & Hroom & Hfill & Hgrow).
      clearbody newsize. subst newsize.
      destruct (rehash_loop_spec keys (val m) n') with
        (l := keys) (pre := @nil slot)
        (k := replicate (Z.to_nat (2 ^ n')) Empty)
        (v := replicate (Z.to_nat (2 ^ n')) 0)
        as (k' & v' & H1 & H2 & H3 & H4 & H5); try lia.
      { reflexivity. }
      { rewrite length_replicate. lia. }
      { rewrite count_slots_replicate by reflexivity. lia. }
      rewrite count_slots_replicate in H4, H5 by reflexivity.
      rewrite length_replicate in H2. rewrite length_replicate in H3.
      simpl length in H1. simpl seq in H1.
      assert (Hsz : Z.to_nat (size m) = length keys) by lia.
      rewrite Hsz. rewrite H1.
      eexists. exists k'. split; [reflexivity|]. simpl.
      split; [|repeat split; lia].
      split; [exists n'; split; [lia|reflexivity]|]. repeat split; lia.
  - intros [Hne Hnu] _. eexists. eexists. split; [reflexivity|]. simpl.
    unfold INIT_SIZE. split; [|repeat split; lia].
    split; [exists 4; split; [lia|reflexivity]|]. repeat split; lia.
Qed.


Lemma start_in_range (k : string) (n : Z) :
  0 <= n -> 0 <= Z.land (hash k) (2 ^ n - 1) < 2 ^ n.
Proof. intros Hn. rewrite land_mask by assumption. apply mod_range; assumption. Qed.

(** On a well-formed table the probing loops meet a null slot. *)
Lemma empty_ahead (keys : list slot) (n i : Z) :
  0 <= n -> Z.of_nat (length keys) = 2 ^ n -> count_slots used keys < 2 ^ n ->
  0 <= i < 2 ^ n ->
  exists d : nat,
    (d < Z.to_nat (2 ^ n))%nat
    /\ keys !! Z.to_nat ((i + Z.of_nat d) mod 2 ^ n) = Some Empty.
Proof.
  intros Hn Hlen Hc Hi.
  destruct (exists_empty keys) as [e He]; [lia|].
  assert (Hlt : Z.of_nat e < 2 ^ n) by (apply lookup_lt_Some in He; lia).
  destruct (ahead_exists i n e Hn Hi Hlt) as (d & Hd & Hde).
  exists d. split; [lia|]. rewrite Hde. exact He.
Qed.

(** [map_get_nostack] returns on every well-formed map. *)
Lemma map_get_nostack_total (m : Map) (k : string) :
  wf_table m -> exists r, map_get_nostack m k = Some r.
Proof.
  unfold wf_table, map_get_nostack. destruct (key m) as [keys|]; [|eauto].
  intros ((n & Hn & Hsize) & Hlk & Hlv & Hne & Hnu & Hlt).
  rewrite Hsize in *.
  destruct (empty_ahead keys n (Z.land (hash k) (2 ^ n - 1))) as (d & Hd & He);
    try lia.
  { apply start_in_range. lia. }
  apply (get_loop_total keys n) with (d := d); try assumption; try lia.
  apply start_in_range. lia.
Qed.

(** [map_get] returns on every well-formed chain of maps. *)
Lemma map_get_total (k : string) : forall m : Map, wf m -> exists r, map_get m k = Some r.
Proof.
  fix IH 1. intros [par key0 val0 size0 nelem0 nused0] [Ht Hp].
  destruct (map_get_nostack_total _ k Ht) as [r Hr].
  simpl map_get. rewrite Hr.
  destruct (r =? 0); [|eauto].
  destruct par as [p|]; [|eauto].
  exact (IH p Hp).
Qed.

(** [map_put] returns on a well-formed map whose table can take one more
    key, a well-formed map in which a slot holds the key with the value, and
    which a lookup finds. *)
Lemma map_put_spec (m : Map) (k : string) (v : Z) :
  wf_table m -> rehash_fits m ->
  exists (m' : Map) (keys' : list slot) (j : nat),
    map_put m k v = Some m'
    /\ wf_table m'
    /\ parent m' = parent m
    /\ key m' = Some keys'
    /\ keys' !! j = Some (Key k)
    /\ val m' !! j = Some v
    /\ nelem m <= nelem m' <= nelem m + 1
    /\ map_get_nostack m' k = Some v.
Proof.
  intros Hwf Hfit.
  destruct (maybe_rehash_wf m Hwf Hfit)
    as (m1 & keys1 & Hr & Hwf1 & Hk1 & Hp1 & Hn1 & Hfill & _).
  unfold map_put. rewrite Hr, Hk1.
  unfold wf_table in Hwf1. rewrite Hk1 in Hwf1.
  destruct Hwf1 as ((n & Hn & Hsize) & Hlk & Hlv & Hne & Hnu & Hlt).
  rewrite Hsize in *.
  assert (H4 : 4 <= 2 ^ n).
  { change 4 with (2 ^ 2). apply Z.pow_le_mono_r; lia. }
  destruct (empty_ahead keys1 n (Z.land (hash k) (2 ^ n - 1))) as (d & Hd & He);
    try lia.
  { apply start_in_range. lia. }
  destruct (put_loop_spec keys1 n) with (m := m1) (k := k) (v := v) (d := d)
    (fuel := Z.to_nat (2 ^ n)) (i := Z.land (hash k) (2 ^ n - 1))
    as (m' & j & s & Hput & Hj & Hs & Hpar & Hkey & Hval & Hsz & Hnel & Hnus & Hget);
    try assumption; try lia.
  { apply start_in_range. lia. }
  assert (Hjlt : (j < length keys1)%nat) by (apply lookup_lt_Some in Hj; exact Hj).
  exists m', (<[j := Key k]> keys1), j.
  rewrite Hput.
  pose proof (count_slots_insert live keys1 j s (Key k) Hj) as Hcl.
  pose proof (count_slots_insert used keys1 j s (Key k) Hj) as Hcu.
  simpl in Hcl, Hcu.
  split; [reflexivity|]. split.
  { unfold wf_table. rewrite Hkey, Hval, Hsz, Hsize.
    rewrite !length_insert.
    split; [exists n; split; [lia|reflexivity]|].
    repeat split; try lia.
    - rewrite Hnel, Hcl, Hne. destruct (live s); lia.
    - rewrite Hnus, Hcu, Hnu. destruct (used s); lia.
    - rewrite Hnus. destruct (used s); lia. }
  split; [congruence|]. split; [exact Hkey|].
  split; [apply list_lookup_insert_eq; exact Hjlt|].
  split; [rewrite Hval; apply list_lookup_insert_eq; lia|].
  split; [rewrite Hnel, Hn1; destruct (live s); lia|].
  unfold map_get_nostack. rewrite Hkey, Hval, Hsz, Hsize. exact Hget.
Qed.

(** [map_remove] returns on every well-formed map and keeps the invariant. *)
Lemma map_remove_spec (m : Map) (k : string) :
  wf_table m ->
  exists m' : Map,
    map_remove m k = Some m' /\ wf_table m' /\ parent m' = parent m.
Proof.
  intros Hwf. unfold map_remove. pose proof Hwf as Hwf0.
  unfold wf_table in Hwf. destruct (key m) as [keys|] eqn:Ekey; [|eauto].
  destruct Hwf as ((n & Hn & Hsize) & Hlk & Hlv & Hne & Hnu & Hlt).
  rewrite Hsize in *.
  destruct (empty_ahead keys n (Z.land (hash k) (2 ^ n - 1))) as (d & Hd & He);
    try lia.
  { apply start_in_range. lia. }
  destruct (remove_loop_spec keys n) with (m := m) (k := k) (d := d)
    (fuel := Z.to_nat (2 ^ n)) (i := Z.land (hash k) (2 ^ n - 1))
    as (m' & Hrem & Hcase); try assumption; try lia.
  { apply start_in_range. lia. }
  exists m'. split; [exact Hrem|].
  destruct Hcase as [->|(j & Hj & Hpar & Hkey & Hval & Hsz & Hnel & Hnus)].
  - split; [exact Hwf0|reflexivity].
  - split; [|exact Hpar].
    pose proof (count_slots_insert live keys j (Key k) Tombstone Hj) as Hcl.
    pose proof (count_slots_insert used keys j (Key k) Tombstone Hj) as Hcu.
    simpl in Hcl, Hcu.
    unfold wf_table. rewrite Hkey, Hval, Hsz, Hsize. rewrite !length_insert.
    split; [exists n; split; [lia|reflexivity]|].
    repeat split; lia.
Qed.

Lemma make_map_wf : wf make_map.
Proof.
  split; [|exact I]. unfold wf_table. simpl.
  repeat split; try reflexivity. exists 4. split; [lia|reflexivity].
Qed.

Lemma make_map_parent_wf (p : Map) : wf p -> wf (make_map_parent p).
Proof.
  intros Hp. split; [|exact Hp]. unfold wf_table. simpl.
  repeat split; try reflexivity. exists 4. split; [lia|reflexivity].
Qed.


(** The operations keep the invariant of a chain of maps. *)
Lemma map_put_wf (m m' : Map) (k : string) (v : Z) :
  wf m -> map_put m k v = Some m' -> wf m'.
Proof.
  intros Hwf Hput.
  assert (Ht : wf_table m) by (destruct m; exact (proj1 Hwf)).
  destruct (map_put_spec m k v Ht (map_put_fits m m' k v Hput))
    as (m1 & keys' & j & H1 & H2 & H3 & _).
  rewrite Hput in H1. injection H1 as <-.
  destruct m as [par ? ? ? ? ?], m' as [par' ? ? ? ? ?]. simpl in H3. subst par'.
  split; [exact H2|exact (proj2 Hwf)].
Qed.

Lemma map_remove_wf (m m' : Map) (k : string) :
  wf m -> map_remove m k = Some m' -> wf m'.
Proof.
  intros Hwf Hrem.
  assert (Ht : wf_table m) by (destruct m; exact (proj1 Hwf)).
  destruct (map_remove_spec m k Ht) as (m1 & H1 & H2 & H3).
  rewrite Hrem in H1. injection H1 as <-.
  destruct m as [par ? ? ? ? ?], m' as [par' ? ? ? ? ?]. simpl in H3. subst par'.
  split; [exact H2|exact (proj2 Hwf)].
Qed.

(** C10.  On a well-formed map of fewer than [2 ^ 30] slots, so that
    [m->size * 2] is an [int], [map_put (m, k, NULL)] returns, and then
    [map_get (m, k)] does not return the binding: it gives what the parent
    gives for [k], or a miss when there is no parent.  The binding still is
    in a slot of the key array, with the null value, and [map_len] is the
    number of the slots that hold a key, this one among them. *)
Theorem map_put_null_reads_as_absent (m : Map) (k : string) :
  wf m -> size m < 2 ^ 30 ->
  exists (m' : Map) (keys' : list slot) (j : nat),
    map_put m k 0 = Some m'
    /\ map_get m' k = match parent m with
                      | Some p => map_get p k
                      | None => Some 0
                      end
    /\ key m' = Some keys'
    /\ keys' !! j = Some (Key k)
    /\ val m' !! j = Some 0
    /\ map_len m' = count_slots live keys'
    /\ 1 <= map_len m'.
Proof.
  intros Hwf Hsize.
  assert (Ht : wf_table m) by (destruct m; exact (proj1 Hwf)).
  destruct (map_put_spec m k 0 Ht (size_fits m Hsize))
    as (m' & keys' & j & Hput & Hwf' & Hpar & Hkey & Hj & Hv & Hn & Hget).
  exists m', keys', j.
  assert (Hlen : map_len m' = count_slots live keys').
  { unfold wf_table in Hwf'. rewrite Hkey in Hwf'. unfold map_len. tauto. }
  assert (Hone : 1 <= count_slots live keys').
  { pose proof (count_slots_insert live keys' j (Key k) Empty Hj) as Hc.
    pose proof (count_slots_nonneg live (<[j := Empty]> keys')) as Hnn.
    simpl in Hc. lia. }
  repeat split; try assumption; try lia.
  destruct m' as [par' key' val' size' nelem' nused']. simpl in Hpar. subst par'.
  simpl map_get. rewrite Hget. simpl.
  destruct (parent m); reflexivity.
Qed.

(** A map whose parent binds the key "a" to 7. *)
Lemma map_put_null_reads_as_absent_witness :
  exists p : Map,
    map_put make_map "a" 7 = Some p
    /\ wf (make_map_parent p)
    /\ size (make_map_parent p) < 2 ^ 30
    /\ exists (m' : Map) (keys' : list slot) (j : nat),
         map_put (make_map_parent p) "a" 0 = Some m'
         /\ map_get m' "a" = Some 7
         /\ key m' = Some keys'
         /\ keys' !! j = Some (Key "a")
         /\ val m' !! j = Some 0
         /\ map_len m' = count_slots live keys'
         /\ 1 <= map_len m'.
Proof.
  eexists. split; [vm_compute; reflexivity|].
  assert (Hwf : wf (make_map_parent
    {| parent := None;
       key := Some (<[12%nat := Key "a"]> (replicate 16 Empty));
       val := <[12%nat := 7]> (replicate 16 0);
       size := 16; nelem := 1; nused := 1 |})).
  { split; [|split; [|exact I]]; unfold wf_table; simpl;
      (split; [exists 4; split; [lia|reflexivity]|]); repeat split; lia. }
  split; [exact Hwf|]. split; [reflexivity|].
  exact (map_put_null_reads_as_absent _ "a" Hwf eq_refl).
Defined.

(** C1.  The keys "a" and "q" have the same hash modulo 16.  After
    put (a, 1), put (q, 2), remove (a), put (q, 3), the second binding of
    "q" is in the tombstone that "a" left, before the first one, which is
    still in its slot: [map_get] returns 3, and after remove (q) it returns
    2 instead of a miss. *)
Theorem map_remove_leaves_stale_binding :
  exists m1 m2 m3 m4 m5 : Map,
    map_put make_map "a" 1 = Some m1
    /\ map_put m1 "q" 2 = Some m2
    /\ map_remove m2 "a" = Some m3
    /\ map_put m3 "q" 3 = Some m4
    /\ map_get m4 "q" = Some 3
    /\ map_len m4 = 2
    /\ map_remove m4 "q" = Some m5
    /\ parent m5 = None
    /\ map_get m5 "q" = Some 2
    /\ map_len m5 = 1.
Proof.
  do 5 eexists.
  repeat (split; [vm_compute; reflexivity|]).
  vm_compute; reflexivity.
Qed.

End MapFacts.

Module BufferFacts.
Import Buffer.

(** [buf_printf] returns: the buffer has grown until the output fits. *)
Lemma buf_printf_loop_spec (out : list Z) :
  forall (fuel : nat) (b : Buffer),
    buf_len b < nalloc b ->
    Z.of_nat (length out) - (nalloc b - buf_len b) + 1 < Z.of_nat fuel ->
    (0 < fuel)%nat ->
    exists b',
      buf_printf_loop fuel b out = Some b'
      /\ body b' = body b ++ out
      /\ buf_len b' < nalloc b'.
Proof.
  induction fuel as [|fuel IH]; intros b Hb Hf Hpos; [lia|].
  simpl. destruct (nalloc b - buf_len b <=? Z.of_nat (length out)) eqn:E.
  - apply Z.leb_le in E.
    destruct (IH (realloc_body b)) as (b' & H1 & H2 & H3).
    + unfold realloc_body, buf_len in *. simpl. lia.
    + unfold realloc_body, buf_len in *. simpl. lia.
    + lia.
    + exists b'. auto.
  - apply Z.leb_gt in E. eexists. split; [reflexivity|]. simpl.
    split; [reflexivity|]. unfold buf_len in *. simpl.
    rewrite length_app. lia.
Qed.

Lemma buf_printf_spec (b : Buffer) (out : list Z) :
  buf_len b < nalloc b ->
  exists b',
    buf_printf b out = Some b'
    /\ body b' = body b ++ out
    /\ buf_len b' < nalloc b'.
Proof.
  intros Hb. apply buf_printf_loop_spec; [exact Hb| |lia]. lia.
Qed.

(** What [print] appends for the character [c]. *)
Lemma print_spec (b : Buffer) (c : Z) :
  buf_len b < nalloc b ->
  exists b',
    print b c = Some b'
    /\ body b' = body b ++ match quote c with
                           | Some q => q
                           | None => if isprint c then [c]
                                     else [92; 120] ++ fmt_02x c
                           end
    /\ buf_len b' < nalloc b'.
Proof.
  intros Hb. unfold print. destruct (quote c) as [q|].
  - apply buf_printf_spec. exact Hb.
  - destruct (isprint c); apply buf_printf_spec; exact Hb.
Qed.

Lemma below_256 (P : Z -> Prop) :
  (forall n : nat, (n < 256)%nat -> P (Z.of_nat n)) ->
  forall b : Z, 0 <= b < 256 -> P b.
Proof.
  intros H b Hb. rewrite <- (Z2Nat.id b) by lia. apply H. lia.
Qed.

(** The conversion [%02x] of a character: two digits for a character from
    0 to 127, and eight digits, six of them f, for a negative character. *)
Lemma fmt_02x_char (b : Z) :
  0 <= b < 256 ->
  fmt_02x (char_of_byte b)
  = if b <? 128 then [hex_digit (b / 16); hex_digit (b mod 16)]
    else [102; 102; 102; 102; 102; 102; hex_digit (b / 16); hex_digit (b mod 16)].
Proof.
  revert b. apply below_256. intros n Hn.
  do 256 (destruct n as [|n]; [vm_compute; reflexivity|]). lia.
Qed.


Lemma print_rendered (b : Buffer) (c : Z) :
  buf_len b < nalloc b ->
  exists b',
    print b c = Some b'
    /\ body b' = body b ++ rendered c
    /\ buf_len b' < nalloc b'.
Proof. exact (print_spec b c). Qed.

(** A byte below 128 is rendered as the specification says. *)
Lemma rendered_ascii (b : Z) :
  0 <= b < 128 -> rendered (char_of_byte b) = quote_spec b.
Proof.
  intros Hb. assert (H : 0 <= b < 256) by lia. revert b H Hb.
  apply (below_256 (fun b => 0 <= b < 128 -> rendered (char_of_byte b) = quote_spec b)).
  intros n Hn.
  do 128 (destruct n as [|n]; [intros _; vm_compute; reflexivity|]). lia.
Qed.

(** A byte from 128 on, a negative [char], is rendered with ten characters. *)
Lemma rendered_high (b : Z) :
  128 <= b < 256 ->
  rendered (char_of_byte b)
  = [92; 120; 102; 102; 102; 102; 102; 102; hex_digit (b / 16); hex_digit (b mod 16)].
Proof.
  intros Hb. unfold rendered.
  assert (Hc : char_of_byte b = b - 256).
  { unfold char_of_byte. destruct (128 <=? b) eqn:E; [reflexivity|]. apply Z.leb_gt in E. lia. }
  assert (Hq : quote (char_of_byte b) = None).
  { rewrite Hc. unfold quote.
    repeat match goal with
           | |- context [?x =? ?y] => destruct (Z.eqb_spec x y); [lia|]
           end. reflexivity. }
  assert (Hp : isprint (char_of_byte b) = false).
  { rewrite Hc. unfold isprint. destruct (Z.leb_spec 32 (b - 256)); [lia|reflexivity]. }
  rewrite Hq, Hp. rewrite fmt_02x_char by lia.
  destruct (Z.ltb_spec b 128); [lia|]. reflexivity.
Qed.

(** [quote_cstring] returns the renderings of the characters of a string. *)
Lemma quote_loop_spec (p : list Z) :
  Forall (fun c => c <> 0) p ->
  forall b : Buffer,
    buf_len b < nalloc b ->
    exists b',
      quote_loop b p = Some b'
      /\ body b' = body b ++ concat (map rendered p)
      /\ buf_len b' < nalloc b'.
Proof.
  induction 1 as [|c p Hc Hp IH]; intros b Hb.
  - exists b. simpl. rewrite app_nil_r. auto.
  - simpl. destruct (Z.eqb_spec c 0) as [|_]; [contradiction|].
    destruct (print_rendered b c Hb) as (b1 & H1 & H2 & H3). rewrite H1.
    destruct (IH b1 H3) as (b' & H4 & H5 & H6).
    exists b'. rewrite H4, H5, H2, <- app_assoc. auto.
Qed.

(** [print] writes one character at least. *)
Lemma rendered_nonempty (c : Z) : rendered c <> [].
Proof.
  unfold rendered. destruct (quote c) as [q|] eqn:E.
  - unfold quote in E.
    repeat match type of E with
           | (if ?x =? ?y then _ else _) = _ =>
               destruct (x =? y); [injection E as <-; discriminate|]
           end.
    discriminate.
  - destruct (isprint c); discriminate.
Qed.

Lemma concat_rendered_nonempty (p : list Z) :
  p <> [] -> (Z.of_nat (length (concat (map rendered p))) =? 0) = false.
Proof.
  intros Hp. destruct p as [|c p]; [contradiction|]. simpl.
  pose proof (rendered_nonempty c) as Hc. destruct (rendered c); [contradiction|].
  reflexivity.
Qed.

Lemma quote_cstring_spec (p : list Z) :
  Forall (fun c => c <> 0) p -> p <> [] ->
  quote_cstring p = Some (concat (map rendered p)).
Proof.
  intros Hp Hne. unfold quote_cstring.
  destruct (quote_loop_spec p Hp make_buffer) as (b' & H1 & H2 & _).
  { vm_compute. reflexivity. }
  rewrite H1. unfold buf_body, buf_len. rewrite H2. simpl app.
  rewrite (concat_rendered_nonempty p Hne). reflexivity.
Qed.

Lemma quote_cstring_empty : quote_cstring [] = None.
Proof. reflexivity. Qed.

Lemma quote_len_loop_spec (p : list Z) :
  forall (n i : nat) (b : Buffer),
    (i + n <= length p)%nat ->
    buf_len b < nalloc b ->
    exists b',
      quote_len_loop b p i n = Some b'
      /\ body b' = body b ++ concat (map rendered (take n (drop i p)))
      /\ buf_len b' < nalloc b'.
Proof.
  induction n as [|n IH]; intros i b Hi Hb.
  - exists b. simpl. rewrite app_nil_r. auto.
  - simpl. destruct (p !! i) as [c|] eqn:E.
    2:{ apply lookup_ge_None in E. lia. }
    destruct (print_rendered b c Hb) as (b1 & H1 & H2 & H3). rewrite H1.
    destruct (IH (S i) b1) as (b' & H4 & H5 & H6); [lia|exact H3|].
    exists b'. rewrite H4, H5, H2, <- app_assoc.
    rewrite (drop_S p c i E). simpl. auto.
Qed.

Lemma quote_cstring_len_spec (p : list Z) (len : Z) :
  0 < len <= Z.of_nat (length p) ->
  quote_cstring_len p len = Some (concat (map rendered (take (Z.to_nat len) p))).
Proof.
  intros Hl. unfold quote_cstring_len.
  destruct (quote_len_loop_spec p (Z.to_nat len) 0 make_buffer) as (b' & H1 & H2 & _).
  { lia. }
  { vm_compute. reflexivity. }
  rewrite H1. unfold buf_body, buf_len. rewrite H2. simpl app. rewrite drop_0.
  rewrite concat_rendered_nonempty; [reflexivity|].
  destruct p as [|c p]; [simpl in Hl; lia|].
  destruct (Z.to_nat len) as [|n] eqn:E; [lia|]. discriminate.
Qed.

(** C9.  The byte 0x80, the [char] -128, is not rendered by the four
    characters of [quote_spec]: [print] passes the negative [char] to the
    conversion [%02x], which writes the eight digits of its value as an
    [unsigned int]. *)
Theorem quote_cstring_high_byte :
  quote_cstring [char_of_byte 128]
  = Some [92; 120; 102; 102; 102; 102; 102; 102; 56; 48]
  /\ quote_cstring_len [char_of_byte 128] 1
     = Some [92; 120; 102; 102; 102; 102; 102; 102; 56; 48]
  /\ quote_spec 128 = [92; 120; 56; 48].
Proof. repeat split; vm_compute; reflexivity. Qed.

End BufferFacts.

Module StreamFacts.
Import Stream.

(** *** The weight of a file decreases with every character read *)

Lemma at_end_cases (x : Z) : at_end x = EOF \/ at_end x = NL.
Proof. unfold at_end. destruct ((x =? NL) || (x =? EOF)); auto. Qed.

Lemma at_end_NL : at_end NL = EOF.
Proof. reflexivity. Qed.

Lemma at_end_EOF : at_end EOF = EOF.
Proof. reflexivity. Qed.

Lemma flag_le_1 (x : Z) : ((if (at_end x =? EOF)%Z then 0 else 1) <= 1)%nat.
Proof. destruct (at_end x =? EOF); lia. Qed.

Lemma readc_file_weight (f f' : File) (c : Z) :
  buf f = [] -> readc_file f = (c, f') ->
  buf f' = []
  /\ (weight_file f' <= weight_file f)%nat
  /\ (c <> EOF -> weight_file f' < weight_file f)%nat.
Proof.
  intros Hb. unfold readc_file, getc, weight_file.
  destruct (rest f) as [|b r] eqn:Er; simpl.
  - intros H. injection H as <- <-. simpl. rewrite Hb, Er. simpl.
    destruct (at_end_cases (last f)) as [E|E]; rewrite E; simpl.
    + split; [reflexivity|]. split; [lia|]. intros Hc. contradiction.
    + split; [reflexivity|]. split; lia.
  - destruct (b =? EOF) eqn:Eb.
    + intros H. injection H as <- <-. simpl. rewrite Hb. simpl.
      destruct (at_end_cases (last f)) as [E|E]; rewrite E; simpl.
      * split; [reflexivity|]. split; [lia|]. intros Hc. contradiction.
      * split; [reflexivity|]. split; lia.
    + destruct (b =? CR) eqn:Ec.
      * destruct r as [|c2 r']; simpl.
        -- intros H. injection H as <- <-. simpl. rewrite Hb. simpl. split; [reflexivity|]. split; lia.
        -- unfold ungetc. destruct (c2 =? NL) eqn:En; simpl.
           ++ intros H. injection H as <- <-. simpl. rewrite Hb. simpl.
              split; [reflexivity|]. split; lia.
           ++ destruct (c2 =? EOF); intros H; injection H as <- <-; simpl;
                rewrite Hb; simpl; (split; [reflexivity|]); split; lia.
      * intros H. injection H as <- <-. simpl. rewrite Hb. simpl.
        pose proof (flag_le_1 b). split; [reflexivity|]. split; lia.
Qed.

Lemma readc_string_weight (f f' : File) (c : Z) :
  buf f = [] -> readc_string f = (c, f') ->
  buf f' = []
  /\ (weight_file f' <= weight_file f)%nat
  /\ (c <> EOF -> weight_file f' < weight_file f)%nat.
Proof.
  intros Hb. unfold readc_string, weight_file.
  destruct (deref (rest f) =? 0) eqn:E0.
  - intros H. injection H as <- <-. simpl. rewrite Hb. simpl.
    destruct (at_end_cases (last f)) as [E|E]; rewrite E; simpl.
    + split; [reflexivity|]. split; [lia|]. intros Hc. contradiction.
    + split; [reflexivity|]. split; lia.
  - destruct (rest f) as [|b r] eqn:Er; [discriminate|]. simpl deref. simpl tl.
    destruct (b =? CR) eqn:Ec.
    + intros H. injection H as <- <-. simpl. rewrite Hb. simpl.
      destruct r as [|c2 r']; simpl; [split; [reflexivity|]; split; lia|].
      destruct (c2 =? NL); simpl; (split; [reflexivity|]); split; lia.
    + intros H. injection H as <- <-. simpl. rewrite Hb. simpl.
      pose proof (flag_le_1 b). split; [reflexivity|]. split; lia.
Qed.

Lemma advance_weight (c : Z) (f : File) : weight_file (advance c f) = weight_file f.
Proof.
  unfold advance. destruct (c =? NL); [reflexivity|].
  destruct (negb (c =? EOF)); reflexivity.
Qed.

Lemma get_file_weight (f f' : File) (c : Z) :
  get_file f = (c, f') ->
  (weight_file f' <= weight_file f)%nat
  /\ (c <> EOF -> weight_file f' < weight_file f)%nat.
Proof.
  unfold get_file. destruct (buf f) as [|x b] eqn:Eb.
  - destruct (is_file f).
    + destruct (readc_file f) as [c1 f1] eqn:E. intros H. injection H as <- <-.
      rewrite advance_weight. apply (readc_file_weight f f1 c1 Eb) in E. tauto.
    + destruct (readc_string f) as [c1 f1] eqn:E. intros H. injection H as <- <-.
      rewrite advance_weight. apply (readc_string_weight f f1 c1 Eb) in E. tauto.
  - intros H. injection H as <- <-. rewrite advance_weight.
    unfold weight_file. simpl. rewrite Eb. simpl. lia.
Qed.

Lemma weight_pos (fs : files_t) : (1 <= weight fs)%nat.
Proof. destruct fs; simpl; lia. Qed.

Lemma get_weight (fs fs' : files_t) (c : Z) :
  get fs = Some (c, fs') ->
  (weight fs' <= weight fs)%nat
  /\ (c <> EOF -> weight fs' < weight fs)%nat
  /\ (weight (tl fs') < weight fs)%nat
  /\ length fs' = length fs.
Proof.
  unfold get. destruct fs as [|f fs0]; [discriminate|].
  destruct (get_file f) as [c1 f1] eqn:E. intros H. injection H as <- <-.
  apply get_file_weight in E. simpl. pose proof (weight_pos fs0). lia.
Qed.

(** *** The fuel of [readc] *)

Lemma readc_loop_fuel :
  forall (n m : nat) (fs : files_t),
    (weight fs <= n)%nat -> (weight fs <= m)%nat ->
    readc_loop n fs = readc_loop m fs.
Proof.
  induction n as [|n IH]; intros m fs Hn Hm.
  - pose proof (weight_pos fs). lia.
  - destruct m as [|m]; [pose proof (weight_pos fs); lia|].
    simpl. destruct (get fs) as [[c fs1]|] eqn:E1; [|reflexivity].
    destruct (get_weight _ _ _ E1) as (Hle & Hlt & Htl & _).
    destruct (Z.eqb_spec c EOF) as [Hc|Hc].
    + destruct (Z.of_nat (length fs1) =? 1); [reflexivity|].
      apply IH; lia.
    + destruct (negb (c =? BACKSLASH)); [reflexivity|].
      destruct (get fs1) as [[c2 fs2]|] eqn:E2; [|reflexivity].
      destruct (get_weight _ _ _ E2) as (Hle2 & _).
      destruct (c2 =? NL); [|reflexivity].
      specialize (Hlt Hc). apply IH; lia.
Qed.

Lemma readc_unfold (fs : files_t) :
  readc fs =
  match get fs with
  | None => None
  | Some (c, fs1) =>
      if c =? EOF then
        if Z.of_nat (length fs1) =? 1 then Some (c, fs1) else readc (tl fs1)
      else if negb (c =? BACKSLASH) then Some (c, fs1)
      else
        match get fs1 with
        | None => None
        | Some (c2, fs2) =>
            if c2 =? NL then readc fs2
            else
              match unreadc c2 fs2 with
              | Some fs3 => Some (c, fs3)
              | None => None
              end
        end
  end.
Proof.
  unfold readc. pose proof (weight_pos fs) as Hp.
  destruct (weight fs) as [|n] eqn:Ew; [lia|].
  simpl. destruct (get fs) as [[c fs1]|] eqn:E1; [|reflexivity].
  destruct (get_weight _ _ _ E1) as (Hle & Hlt & Htl & _).
  destruct (Z.eqb_spec c EOF) as [Hc|Hc].
  - destruct (Z.of_nat (length fs1) =? 1); [reflexivity|].
    apply readc_loop_fuel; lia.
  - destruct (negb (c =? BACKSLASH)); [reflexivity|].
    destruct (get fs1) as [[c2 fs2]|] eqn:E2; [|reflexivity].
    destruct (get_weight _ _ _ E2) as (Hle2 & _).
    destruct (c2 =? NL); [|reflexivity].
    specialize (Hlt Hc). apply readc_loop_fuel; lia.
Qed.


(** *** What [get] does to a file *)

Lemma get_file_buf (f f' : File) (c : Z) :
  get_file f = (c, f') -> buf f' = tl (buf f).
Proof.
  unfold get_file. destruct (buf f) as [|x b] eqn:Eb.
  - destruct (is_file f).
    + destruct (readc_file f) as [c1 f1] eqn:E. intros H. injection H as <- <-.
      apply (readc_file_weight f f1 c1 Eb) in E.
      unfold advance. destruct (c1 =? NL); [tauto|].
      destruct (negb (c1 =? EOF)); simpl; tauto.
    + destruct (readc_string f) as [c1 f1] eqn:E. intros H. injection H as <- <-.
      apply (readc_string_weight f f1 c1 Eb) in E.
      unfold advance. destruct (c1 =? NL); [tauto|].
      destruct (negb (c1 =? EOF)); simpl; tauto.
  - intros H. injection H as <- <-.
    unfold advance. destruct (x =? NL); [reflexivity|].
    destruct (negb (x =? EOF)); reflexivity.
Qed.

Lemma get_file_newline (f f' : File) :
  get_file f = (NL, f') -> column f' = 1.
Proof.
  unfold get_file.
  destruct (match buf f with
            | [] => if is_file f then readc_file f else readc_string f
            | c :: b => (c, set_buf f b)
            end) as [c1 f1].
  intros H. injection H as -> <-. reflexivity.
Qed.

Lemma Forall_tl {A} (P : A -> Prop) (l : list A) : Forall P l -> Forall P (tl l).
Proof. intros H. destruct H; simpl; auto. Qed.

Lemma readc_file_rest (P : Z -> Prop) (f f' : File) (c : Z) :
  Forall P (rest f) -> readc_file f = (c, f') -> Forall P (rest f').
Proof.
  unfold readc_file, getc, ungetc. intros HP.
  destruct (rest f) as [|b r] eqn:Er; simpl.
  - intros H. injection H as <- <-. simpl. rewrite Er. constructor.
  - inversion HP as [|? ? Hb Hr]; subst.
    destruct (b =? EOF); [intros H; injection H as <- <-; exact Hr|].
    destruct (b =? CR).
    + destruct r as [|c2 r']; simpl.
      * intros H. injection H as <- <-. constructor.
      * destruct (c2 =? NL); simpl.
        -- intros H. injection H as <- <-. simpl. inversion Hr; assumption.
        -- destruct (c2 =? EOF); intros H; injection H as <- <-; simpl;
             [inversion Hr; assumption|exact Hr].
    + intros H. injection H as <- <-. exact Hr.
Qed.

Lemma readc_string_rest (P : Z -> Prop) (f f' : File) (c : Z) :
  Forall P (rest f) -> readc_string f = (c, f') -> Forall P (rest f').
Proof.
  unfold readc_string. intros HP.
  destruct (deref (rest f) =? 0); [intros H; injection H as <- <-; exact HP|].
  destruct (deref (rest f) =? CR).
  - destruct (deref (tl (rest f)) =? NL); intros H; injection H as <- <-; simpl;
      repeat apply Forall_tl; exact HP.
  - intros H. injection H as <- <-. simpl. apply Forall_tl. exact HP.
Qed.

Lemma advance_fields (c : Z) (f : File) :
  rest (advance c f) = rest f /\ buf (advance c f) = buf f
  /\ last (advance c f) = last f /\ is_file (advance c f) = is_file f.
Proof.
  unfold advance. destruct (c =? NL); [auto|].
  destruct (negb (c =? EOF)); auto.
Qed.

Lemma get_file_clean (f f' : File) (c : Z) :
  clean_file f -> get_file f = (c, f') -> clean_file f'.
Proof.
  intros (Hr & Hb & Hl) H. pose proof (get_file_buf _ _ _ H) as Hbuf.
  unfold clean_file. rewrite Hbuf. split; [|split].
  - revert H. unfold get_file. destruct (buf f) as [|x b].
    + destruct (is_file f).
      * destruct (readc_file f) as [c1 f1] eqn:E. intros H. injection H as <- <-.
        destruct (advance_fields c1 f1) as (-> & _).
        exact (readc_file_rest _ _ _ _ Hr E).
      * destruct (readc_string f) as [c1 f1] eqn:E. intros H. injection H as <- <-.
        destruct (advance_fields c1 f1) as (-> & _).
        exact (readc_string_rest _ _ _ _ Hr E).
    + intros H. injection H as <- <-.
      destruct (advance_fields x (set_buf f b)) as (-> & _). exact Hr.
  - apply Forall_tl. exact Hb.
  - destruct (buf f); simpl in *; lia.
Qed.

Lemma get_clean (fs fs' : files_t) (c : Z) :
  clean fs -> get fs = Some (c, fs') -> clean fs' /\ clean (tl fs').
Proof.
  unfold get, clean. destruct fs as [|f fs0]; [discriminate|].
  destruct (get_file f) as [c1 f1] eqn:E. intros Hc H. injection H as <- <-.
  inversion Hc as [|? ? Hf H0]; subst. simpl. split; [|exact H0].
  constructor; [|exact H0]. exact (get_file_clean _ _ _ Hf E).
Qed.

(** At its end a clean file stays at its end. *)
Lemma get_file_eof_stable (f f' : File) :
  clean_file f -> get_file f = (EOF, f') -> get_file f' = (EOF, f').
Proof.
  intros (Hr & Hb & _). unfold get_file.
  destruct (buf f) as [|x b] eqn:Eb.
  2:{ intros H. injection H as -> _. inversion Hb; contradiction. }
  destruct (is_file f) eqn:Ef.
  - unfold readc_file, getc, ungetc.
    destruct (rest f) as [|b r] eqn:Er; simpl.
    + destruct (at_end_cases (last f)) as [E|E]; rewrite E; [|discriminate].
      intros H. injection H as <-. simpl. rewrite Eb, Ef. simpl. rewrite Er. simpl.
      reflexivity.
    + inversion Hr as [|? ? Hne _]; subst.
      destruct (Z.eqb_spec b EOF) as [|_]; [contradiction|].
      destruct (b =? CR).
      * destruct r as [|c2 r']; simpl; [discriminate|].
        destruct (c2 =? NL); simpl; [discriminate|].
        destruct (c2 =? EOF); discriminate.
      * simpl. intros H. injection H as -> _. contradiction.
  - unfold readc_string.
    destruct (deref (rest f) =? 0) eqn:E0.
    + destruct (at_end_cases (last f)) as [E|E]; rewrite E; [|discriminate].
      intros H. injection H as <-. simpl. rewrite Eb, Ef. simpl. rewrite E0. simpl.
      reflexivity.
    + destruct (deref (rest f) =? CR); [discriminate|].
      simpl. intros H. injection H as He _.
      destruct (rest f) as [|b r]; [discriminate|]. simpl in He. subst b.
      inversion Hr; contradiction.
Qed.

(** [get] reads back what [unreadc] has pushed, and restores the file. *)
Lemma unreadc_get_file (c : Z) (f f1 : File) :
  c <> EOF -> (c = NL -> column f = 1) ->
  unreadc_file c f = Some f1 -> get_file f1 = (c, f).
Proof.
  intros Hc Hnl. unfold unreadc_file.
  destruct (Z.of_nat (length (buf f)) <? BUF_SIZE); [|discriminate].
  intros H. injection H as <-. unfold get_file, advance.
  destruct f as [isf r l col nt la b]. simpl in *.
  destruct (Z.eqb_spec c NL) as [En|En]; simpl.
  - rewrite (proj2 (Z.eqb_eq c NL) En). unfold set_pos, set_buf. simpl.
    rewrite (Hnl En). do 2 f_equal. lia.
  - rewrite (proj2 (Z.eqb_neq c NL) En).
    destruct (Z.eqb_spec c EOF) as [|_]; [contradiction|]. simpl.
    unfold set_pos, set_buf. simpl. do 2 f_equal. lia.
Qed.

Lemma unreadc_file_ok (c : Z) (f : File) :
  Z.of_nat (length (buf f)) < BUF_SIZE -> exists f1, unreadc_file c f = Some f1.
Proof.
  intros H. unfold unreadc_file.
  destruct (Z.ltb_spec (Z.of_nat (length (buf f))) BUF_SIZE); [eauto|lia].
Qed.


(** *** [unreadc] after [readc] *)

Lemma unreadc_top (c : Z) (f : File) (fs : files_t) :
  c <> EOF ->
  unreadc c (f :: fs) = match unreadc_file c f with
                        | Some f' => Some (f' :: fs)
                        | None => None
                        end.
Proof.
  intros Hc. unfold unreadc. destruct (Z.eqb_spec c EOF); [contradiction|reflexivity].
Qed.

Lemma unreadc_eof (fs : files_t) : unreadc EOF fs = Some fs.
Proof. reflexivity. Qed.

Lemma get_top (f : File) (fs : files_t) :
  get (f :: fs) = let '(c, f') := get_file f in Some (c, f' :: fs).
Proof. reflexivity. Qed.

(** After [get] has returned [c], [unreadc c] is accepted and [get] returns
    [c] again, in the state that the first [get] left. *)
Lemma get_unreadc_get (fs fs1 : files_t) (c : Z) :
  clean fs -> get fs = Some (c, fs1) -> c <> EOF ->
  exists fs2, unreadc c fs1 = Some fs2 /\ get fs2 = Some (c, fs1).
Proof.
  intros Hcl Hg Hc. destruct fs as [|f fs0]; [discriminate|].
  rewrite get_top in Hg. destruct (get_file f) as [c1 f1] eqn:E.
  injection Hg as -> <-.
  inversion Hcl as [|? ? (Hr & Hb & Hl) _]; subst.
  pose proof (get_file_buf _ _ _ E) as Hbuf.
  destruct (unreadc_file_ok c f1) as [f2 Hf2].
  { rewrite Hbuf. unfold BUF_SIZE in *. destruct (buf f); simpl in *; lia. }
  exists (f2 :: fs0). rewrite unreadc_top by assumption. rewrite Hf2.
  split; [reflexivity|]. rewrite get_top.
  rewrite (unreadc_get_file c f1 f2 Hc); [reflexivity| |exact Hf2].
  intros ->. exact (get_file_newline _ _ E).
Qed.

Lemma get_nonempty (fs fs1 : files_t) (c : Z) :
  get fs = Some (c, fs1) -> exists f1 fs0, fs1 = f1 :: fs0.
Proof.
  destruct fs as [|f fs0]; [discriminate|]. rewrite get_top.
  destruct (get_file f) as [c1 f1]. intros H. injection H as _ <-. eauto.
Qed.

Lemma get_eof_stable (fs fs1 : files_t) :
  clean fs -> get fs = Some (EOF, fs1) -> get fs1 = Some (EOF, fs1).
Proof.
  intros Hcl Hg. destruct fs as [|f fs0]; [discriminate|].
  rewrite get_top in Hg. destruct (get_file f) as [c1 f1] eqn:E.
  injection Hg as -> <-. inversion Hcl as [|? ? Hf _]; subst.
  rewrite get_top. rewrite (get_file_eof_stable _ _ Hf E). reflexivity.
Qed.

(** On clean files, after [readc] has returned a character [c],
    [unreadc c] is accepted and [readc] returns [c] again, in the very
    state that the first [readc] left: the line and the column are
    those after the first [readc]. *)
Lemma readc_unreadc_readc (c : Z) (fs1 : files_t) :
  c <> EOF ->
  forall (n : nat) (fs : files_t),
    (weight fs <= n)%nat -> clean fs ->
    readc fs = Some (c, fs1) ->
    exists fs2, unreadc c fs1 = Some fs2 /\ readc fs2 = Some (c, fs1).
Proof.
  intros Hc. induction n as [|n IH]; intros fs Hw Hcl.
  { pose proof (weight_pos fs). lia. }
  rewrite readc_unfold.
  destruct (get fs) as [[c0 fsA]|] eqn:E1; [|discriminate].
  destruct (get_weight _ _ _ E1) as (Hle & Hlt & Htl & _).
  destruct (get_clean _ _ _ Hcl E1) as [HclA HclT].
  destruct (Z.eqb_spec c0 EOF) as [H0|H0].
  - destruct (Z.of_nat (length fsA) =? 1).
    + intros H. injection H as <- _. contradiction.
    + apply IH; [lia|exact HclT].
  - destruct (Z.eqb_spec c0 BACKSLASH) as [Hb|Hb]; simpl.
    + subst c0.
      destruct (get fsA) as [[c2 fsB]|] eqn:E2; [|discriminate].
      destruct (get_weight _ _ _ E2) as (Hle2 & _).
      destruct (get_clean _ _ _ HclA E2) as [HclB _].
      destruct (get_nonempty _ _ _ E2) as (fB1 & fsB1 & HfsB).
      destruct (Z.eqb_spec c2 NL) as [Hn|Hn].
      * apply IH; [specialize (Hlt H0); lia|exact HclB].
      * destruct (unreadc c2 fsB) as [fs3|] eqn:E3; [|discriminate].
        intros H. injection H as <- <-.
        (* the backslash is pushed back onto [fs3] *)
        assert (Hcl3 : clean fs3 /\ get fs3 = Some (c2, fsB)
                       /\ (weight fs3 <= weight fs)%nat).
        { destruct (Z.eqb_spec c2 EOF) as [He|He].
          - subst c2. rewrite unreadc_eof in E3. injection E3 as <-.
            split; [exact HclB|]. split; [exact (get_eof_stable _ _ HclA E2)|lia].
          - destruct (get_unreadc_get _ _ _ HclA E2 He) as (fs3' & H3 & H4).
            rewrite E3 in H3. injection H3 as <-.
            split; [|split; [exact H4|]].
            + subst fsB. rewrite unreadc_top in E3 by assumption.
              destruct (unreadc_file c2 fB1) as [fB1'|] eqn:EfB; [|discriminate].
              injection E3 as <-.
              inversion HclB as [|? ? (Hr & Hbf & Hl) Hrest]; subst.
              constructor; [|exact Hrest].
              unfold unreadc_file in EfB.
              destruct (Z.ltb_spec (Z.of_nat (length (buf fB1))) BUF_SIZE); [|discriminate].
              injection EfB as <-.
              destruct (c2 =? NL); (split; [exact Hr|]); simpl;
                (split; [constructor; assumption|lia]).
            + destruct (get_weight _ _ _ H4) as (Hw4 & _).
              subst fsB. rewrite unreadc_top in E3 by assumption.
              destruct (unreadc_file c2 fB1) as [fB1'|] eqn:EfB; [|discriminate].
              injection E3 as <-.
              unfold unreadc_file in EfB.
              destruct (Z.of_nat (length (buf fB1)) <? BUF_SIZE); [|discriminate].
              injection EfB as <-.
              try specialize (Hlt H0).
              destruct (c2 =? NL); simpl weight in *; unfold weight_file in *;
                simpl in *; lia. }
        destruct Hcl3 as (Hcl3 & Hg3 & Hw3).
        (* [fs3] has been obtained from [fsA] by one [get] and at most one
           [unreadc]: its buffer is not full *)
        assert (Hroom : exists fs4, unreadc BACKSLASH fs3 = Some fs4
                                    /\ get fs4 = Some (BACKSLASH, fs3)).
        { destruct fs as [|f fs0]; [discriminate|].
          rewrite get_top in E1. destruct (get_file f) as [cA fA] eqn:EA.
          injection E1 as -> <-.
          rewrite get_top in E2. destruct (get_file fA) as [cB fB] eqn:EB.
          injection E2 as -> <-.
          pose proof (get_file_buf _ _ _ EA) as HbA.
          pose proof (get_file_buf _ _ _ EB) as HbB.
          inversion Hcl as [|? ? (_ & _ & Hl) _]; subst.
          assert (Hlen : Z.of_nat (length (buf fB)) <= 1).
          { rewrite HbB, HbA. unfold BUF_SIZE in Hl.
            destruct (buf f) as [|? [|? ?]]; simpl in *; lia. }
          destruct (Z.eqb_spec c2 EOF) as [He|He].
          - subst c2. rewrite unreadc_eof in E3. injection E3 as <-.
            destruct (unreadc_file_ok BACKSLASH fB) as [f4 Hf4].
            { unfold BUF_SIZE. lia. }
            exists (f4 :: fs0). rewrite unreadc_top by discriminate. rewrite Hf4.
            split; [reflexivity|]. rewrite get_top.
            rewrite (unreadc_get_file BACKSLASH fB f4); [reflexivity|discriminate|discriminate|exact Hf4].
          - rewrite unreadc_top in E3 by assumption.
            destruct (unreadc_file c2 fB) as [fB'|] eqn:EfB; [|discriminate].
            injection E3 as <-.
            assert (Hlen' : Z.of_nat (length (buf fB')) <= 2).
            { unfold unreadc_file in EfB.
              destruct (Z.of_nat (length (buf fB)) <? BUF_SIZE); [|discriminate].
              injection EfB as <-. destruct (c2 =? NL); simpl; lia. }
            destruct (unreadc_file_ok BACKSLASH fB') as [f4 Hf4].
            { unfold BUF_SIZE. lia. }
            exists (f4 :: fs0). rewrite unreadc_top by discriminate. rewrite Hf4.
            split; [reflexivity|]. rewrite get_top.
            rewrite (unreadc_get_file BACKSLASH fB' f4); [reflexivity|discriminate|discriminate|exact Hf4]. }
        destruct Hroom as (fs4 & Hu4 & Hg4).
        exists fs4. split; [exact Hu4|].
        rewrite readc_unfold, Hg4. simpl. rewrite Hg3.
        destruct (Z.eqb_spec c2 NL); [contradiction|]. rewrite E3. reflexivity.
    + intros H. injection H as <- <-.
      destruct (get_unreadc_get _ _ _ Hcl E1 H0) as (fs2 & H2 & H3).
      exists fs2. split; [exact H2|].
      rewrite readc_unfold, H3.
      destruct (Z.eqb_spec c0 EOF); [contradiction|].
      destruct (Z.eqb_spec c0 BACKSLASH); [contradiction|]. reflexivity.
Qed.


(** *** Splicing *)

(** A backslash and a newline at the cursor of the current file are
    consumed by [readc], which goes on after them, on the next line. *)
Lemma readc_splice (f : File) (fs : files_t) (r : list Z) :
  buf f = [] -> rest f = BACKSLASH :: NL :: r ->
  readc (f :: fs)
  = readc ({| is_file := is_file f; rest := r; line := line f + 1; column := 1;
              ntok := ntok f; last := NL; buf := [] |} :: fs).
Proof.
  intros Hb Hr. rewrite readc_unfold.
  destruct f as [isf rs l col nt la b]. simpl in Hb, Hr. subst b rs.
  destruct isf; reflexivity.
Qed.

(** *** Carriage returns *)

Lemma get_file_not_cr (f f' : File) (c : Z) :
  Forall (fun x => x <> CR) (buf f) -> get_file f = (c, f') ->
  c <> CR /\ Forall (fun x => x <> CR) (buf f').
Proof.
  intros Hb H. rewrite (get_file_buf _ _ _ H). split; [|apply Forall_tl; exact Hb].
  revert H. unfold get_file. destruct (buf f) as [|x b].
  - destruct (is_file f).
    + unfold readc_file, getc, ungetc.
      destruct (rest f) as [|y r]; simpl.
      * intros H. injection H as <- _.
        destruct (at_end_cases (last f)) as [E|E]; rewrite E; discriminate.
      * destruct (y =? EOF).
        -- intros H. injection H as <- _.
           destruct (at_end_cases (last f)) as [E|E]; rewrite E; discriminate.
        -- destruct (Z.eqb_spec y CR).
           ++ destruct r as [|c2 r']; simpl; [intros H; injection H as <- _; discriminate|].
              destruct (c2 =? NL); simpl; [intros H; injection H as <- _; discriminate|].
              destruct (c2 =? EOF); intros H; injection H as <- _; discriminate.
           ++ intros H. injection H as <- _. assumption.
    + unfold readc_string.
      destruct (deref (rest f) =? 0).
      * intros H. injection H as <- _.
        destruct (at_end_cases (last f)) as [E|E]; rewrite E; discriminate.
      * destruct (Z.eqb_spec (deref (rest f)) CR).
        -- intros H. injection H as <- _. discriminate.
        -- intros H. injection H as <- _. assumption.
  - intros H. injection H as <- _. inversion Hb; assumption.
Qed.

Lemma get_not_cr (fs fs' : files_t) (c : Z) :
  no_cr fs -> get fs = Some (c, fs') -> c <> CR /\ no_cr fs' /\ no_cr (tl fs').
Proof.
  unfold no_cr. destruct fs as [|f fs0]; [discriminate|]. rewrite get_top.
  destruct (get_file f) as [c1 f1] eqn:E. intros Hn H. injection H as <- <-.
  inversion Hn as [|? ? Hf H0]; subst.
  destruct (get_file_not_cr _ _ _ Hf E) as [Hc Hb].
  split; [exact Hc|]. split; [constructor; assumption|exact H0].
Qed.

Lemma unreadc_no_cr (c : Z) (fs fs' : files_t) :
  c <> CR -> no_cr fs -> unreadc c fs = Some fs' -> no_cr fs'.
Proof.
  intros Hc Hn. unfold unreadc. destruct (c =? EOF).
  - intros H. injection H as <-. exact Hn.
  - destruct fs as [|f fs0]; [discriminate|].
    unfold unreadc_file. destruct (Z.of_nat (length (buf f)) <? BUF_SIZE); [|discriminate].
    intros H. injection H as <-. inversion Hn as [|? ? Hf H0]; subst.
    constructor; [|exact H0].
    destruct (c =? NL); simpl; constructor; assumption.
Qed.

(** [readc] never returns a carriage return. *)
Lemma readc_not_cr (c : Z) (fs' : files_t) :
  forall (n : nat) (fs : files_t),
    (weight fs <= n)%nat -> no_cr fs ->
    readc fs = Some (c, fs') -> c <> CR /\ no_cr fs'.
Proof.
  induction n as [|n IH]; intros fs Hw Hn.
  { pose proof (weight_pos fs). lia. }
  rewrite readc_unfold.
  destruct (get fs) as [[c0 fsA]|] eqn:E1; [|discriminate].
  destruct (get_weight _ _ _ E1) as (Hle & Hlt & Htl & _).
  destruct (get_not_cr _ _ _ Hn E1) as (Hc0 & HnA & HnT).
  destruct (Z.eqb_spec c0 EOF) as [H0|H0].
  - destruct (Z.of_nat (length fsA) =? 1).
    + intros H. injection H as <- <-. auto.
    + apply IH; [lia|exact HnT].
  - destruct (negb (c0 =? BACKSLASH)).
    + intros H. injection H as <- <-. auto.
    + destruct (get fsA) as [[c2 fsB]|] eqn:E2; [|discriminate].
      destruct (get_weight _ _ _ E2) as (Hle2 & _).
      destruct (get_not_cr _ _ _ HnA E2) as (Hc2 & HnB & _).
      destruct (c2 =? NL).
      * apply IH; [specialize (Hlt H0); lia|exact HnB].
      * destruct (unreadc c2 fsB) as [fs3|] eqn:E3; [|discriminate].
        intros H. injection H as <- <-. split; [exact Hc0|].
        exact (unreadc_no_cr _ _ _ Hc2 HnB E3).
Qed.

(** *** The characters of a file *)

Lemma last_cons {A} (a d : A) (l : list A) : List.last (a :: l) d = List.last l a.
Proof.
  revert a d. induction l as [|b l IH]; intros a d; [reflexivity|].
  change (List.last (a :: b :: l) d) with (List.last (b :: l) d).
  rewrite (IH b d). symmetry. apply IH.
Qed.

Lemma canon_Forall (P : Z -> Prop) (l : list Z) :
  P NL -> Forall P l -> Forall P (canon l).
Proof.
  intros HNL. remember (length l) as k eqn:Hk.
  assert (Hle : (length l <= k)%nat) by lia. clear Hk.
  revert l Hle. induction k as [|k IH]; intros l Hle Hl.
  - destruct l; [constructor|simpl in Hle; lia].
  - destruct l as [|c r]; [constructor|]. simpl in Hle.
    inversion Hl as [|? ? Hc Hr]; subst. simpl.
    destruct (c =? CR).
    + constructor; [exact HNL|]. destruct r as [|c2 r']; [constructor|].
      simpl in Hle. inversion Hr; subst.
      destruct (c2 =? NL); apply IH; simpl; try lia; assumption.
    + constructor; [exact Hc|]. apply IH; [lia|exact Hr].
Qed.

(** The tail that the reader adds at the end of the input. *)
Lemma get_all_end (f : File) (fuel : nat) :
  buf f = [] -> rest f = [] -> (2 <= fuel)%nat ->
  get_all fuel f = Some (if at_end (last f) =? EOF then [] else [NL]).
Proof.
  intros Hb Hr Hf. destruct fuel as [|[|fuel]]; try lia.
  destruct f as [isf rs l col nt la b]. simpl in Hb, Hr. subst b rs.
  destruct (at_end_cases la) as [E|E];
    destruct isf; simpl; unfold get_file, readc_file, readc_string, getc; simpl;
    rewrite E; reflexivity.
Qed.

Lemma canon_plain (c : Z) (r : list Z) : c <> CR -> canon (c :: r) = c :: canon r.
Proof. intros H. simpl. destruct (Z.eqb_spec c CR); [contradiction|reflexivity]. Qed.

Lemma canon_cr (r : list Z) :
  canon (CR :: r)
  = NL :: canon (match r with
                 | c2 :: r' => if c2 =? NL then r' else r
                 | [] => []
                 end).
Proof.
  destruct r as [|c2 r']; [reflexivity|].
  change (canon (CR :: c2 :: r')) with (NL :: if c2 =? NL then canon r' else canon (c2 :: r')).
  destruct (c2 =? NL); reflexivity.
Qed.

Lemma get_all_step (fuel : nat) (f f' : File) (c : Z) :
  get_file f = (c, f') -> c <> EOF ->
  get_all (S fuel) f = match get_all fuel f' with
                       | Some l => Some (c :: l)
                       | None => None
                       end.
Proof.
  intros H Hc. simpl. rewrite H.
  destruct (Z.eqb_spec c EOF); [contradiction|reflexivity].
Qed.

(** One character that is no carriage return. *)
Lemma get_file_plain (f : File) (c : Z) (r : list Z) :
  buf f = [] -> rest f = c :: r ->
  c <> EOF -> (is_file f = false -> c <> 0) -> c <> CR ->
  get_file f = (c, advance c (set_last (set_rest f r) c)).
Proof.
  intros Hb Hr He H0 Hcr. destruct f as [isf rs l col nt la b].
  simpl in Hb, Hr, H0. subst b rs.
  unfold get_file, readc_file, readc_string, getc. simpl.
  destruct isf.
  - destruct (Z.eqb_spec c EOF); [contradiction|].
    destruct (Z.eqb_spec c CR); [contradiction|]. reflexivity.
  - destruct (Z.eqb_spec c 0) as [E|_]; [elim (H0 eq_refl E)|].
    destruct (Z.eqb_spec c CR); [contradiction|]. reflexivity.
Qed.

(** A carriage return, with the newline after it. *)
Lemma get_file_cr (f : File) (r : list Z) :
  buf f = [] -> rest f = CR :: r -> Forall (fun c => c <> EOF) r ->
  get_file f
  = (NL, advance NL (set_last (set_rest f (match r with
                                           | c2 :: r' => if c2 =? NL then r' else r
                                           | [] => []
                                           end)) NL)).
Proof.
  intros Hb Hr He. destruct f as [isf rs l col nt la b].
  simpl in Hb, Hr. subst b rs.
  unfold get_file, readc_file, readc_string, getc, ungetc. simpl.
  destruct isf.
  - destruct r as [|c2 r']; [reflexivity|]. simpl.
    inversion He as [|? ? Hc2 _]; subst.
    destruct (c2 =? NL); [reflexivity|]. simpl.
    destruct (Z.eqb_spec c2 EOF); [contradiction|]. reflexivity.
  - destruct r as [|c2 r']; [reflexivity|]. simpl.
    destruct (c2 =? NL); reflexivity.
Qed.

Lemma last_set_last (f : File) (c : Z) : last (set_last f c) = c.
Proof. reflexivity. Qed.

(** The characters of a file: its input with canonical line ends, and a
    newline when the input does not end in one. *)
Lemma get_all_canon (isf : bool) :
  forall (k : nat) (l : list Z) (f : File) (fuel : nat),
    (length l <= k)%nat ->
    is_file f = isf -> buf f = [] -> rest f = l ->
    Forall (fun c => c <> EOF /\ (isf = false -> c <> 0)) l ->
    (2 * length l + 2 <= fuel)%nat ->
    get_all fuel f
    = Some (canon l ++ if at_end (List.last (canon l) (last f)) =? EOF then [] else [NL]).
Proof.
  induction k as [|k IH]; intros l f fuel Hk Hf Hb Hr Hl Hfuel.
  - destruct l; [|simpl in Hk; lia]. simpl. apply get_all_end; auto; lia.
  - destruct l as [|c r]; [simpl; apply get_all_end; auto; lia|].
    simpl in Hk, Hfuel. inversion Hl as [|? ? [Hc H0] Hrl]; subst.
    destruct fuel as [|fuel]; [lia|].
    assert (Hre : Forall (fun c => c <> EOF) r).
    { eapply Forall_impl; [exact Hrl|]. intros ? [? _]. assumption. }
    destruct (Z.eq_dec c CR) as [Ecr|Ecr].
    + subst c. rewrite (get_all_step fuel _ _ _ (get_file_cr f r Hb Hr Hre))
        by discriminate.
      rewrite canon_cr.
      set (r2 := match r with
                 | c2 :: r' => if c2 =? NL then r' else r
                 | [] => []
                 end).
      assert (Hr2 : (length r2 <= length r)%nat
                    /\ Forall (fun c => c <> EOF /\ (is_file f = false -> c <> 0)) r2).
      { unfold r2. destruct r as [|c2 r']; [auto|].
        destruct (c2 =? NL); [|auto]. inversion Hrl; subst. simpl. split; [lia|assumption]. }
      destruct Hr2 as [Hlen2 HF2].
      destruct (advance_fields NL (set_last (set_rest f r2) NL)) as (A1 & A2 & A3 & A4).
      rewrite (IH r2 _ fuel); try assumption; try lia; try congruence;
        try (rewrite A2; exact Hb).
      rewrite A3, last_set_last, app_comm_cons, last_cons. reflexivity.
    + rewrite (get_all_step fuel _ _ _ (get_file_plain f c r Hb Hr Hc H0 Ecr))
        by assumption.
      rewrite canon_plain by assumption.
      destruct (advance_fields c (set_last (set_rest f r) c)) as (A1 & A2 & A3 & A4).
      rewrite (IH r _ fuel); try assumption; try lia; try congruence;
        try (rewrite A2; exact Hb).
      rewrite A3, last_set_last, app_comm_cons, last_cons. reflexivity.
Qed.

Lemma final_newline (d : list Z) :
  Forall (fun c => c <> EOF) d ->
  d ++ (if at_end (List.last d 0) =? EOF then [] else [NL]) = with_final_newline d.
Proof.
  intros Hd. unfold with_final_newline, at_end.
  assert (Hl : List.last d 0 <> EOF).
  { clear -Hd. assert (H0 : 0 <> EOF) by discriminate. revert H0. generalize 0.
    induction Hd as [|c d Hc Hd IH]; intros z Hz; [exact Hz|].
    rewrite last_cons. apply IH. exact Hc. }
  destruct (Z.eqb_spec (List.last d 0) NL) as [E|E]; simpl.
  - apply app_nil_r.
  - destruct (Z.eqb_spec (List.last d 0) EOF); [contradiction|]. reflexivity.
Qed.

(** The characters of a [FILE] with the bytes [l]. *)
Lemma get_all_make_file (l : list Z) :
  Forall (fun b => 0 <= b < 256) l ->
  get_all (S (weight_file (make_file l))) (make_file l)
  = Some (with_final_newline (canon l)).
Proof.
  intros Hl.
  rewrite (get_all_canon true (length l) l); try reflexivity.
  - simpl last. rewrite final_newline; [reflexivity|].
    apply canon_Forall; [discriminate|].
    eapply Forall_impl; [exact Hl|]. unfold EOF. intros; lia.
  - eapply Forall_impl; [exact Hl|]. unfold EOF. intros; split; [lia|discriminate].
  - unfold weight_file. simpl. lia.
Qed.

(** The characters of a string [s], in which no [char] is [EOF]. *)
Lemma get_all_make_file_string (s : list Z) :
  Forall (fun c => c <> 0 /\ c <> EOF) s ->
  get_all (S (weight_file (make_file_string s))) (make_file_string s)
  = Some (with_final_newline (canon s)).
Proof.
  intros Hs.
  rewrite (get_all_canon false (length s) s); try reflexivity.
  - simpl last. rewrite final_newline; [reflexivity|].
    apply canon_Forall; [discriminate|].
    eapply Forall_impl; [exact Hs|]. intros ? [_ ?]. assumption.
  - eapply Forall_impl; [exact Hs|]. intros ? [? ?]. auto.
  - unfold weight_file. simpl. lia.
Qed.


Lemma canon_no_cr (l : list Z) : Forall (fun c => c <> CR) (canon l).
Proof.
  remember (length l) as k eqn:Hk.
  assert (Hle : (length l <= k)%nat) by lia. clear Hk.
  revert l Hle. induction k as [|k IH]; intros l Hle.
  - destruct l; [constructor|simpl in Hle; lia].
  - destruct l as [|c r]; [constructor|]. simpl in Hle.
    destruct (Z.eq_dec c CR) as [->|Hc].
    + rewrite canon_cr. constructor; [discriminate|]. apply IH.
      destruct r as [|c2 r']; [simpl; lia|].
      destruct (c2 =? NL); simpl in *; lia.
    + rewrite canon_plain by assumption. constructor; [exact Hc|]. apply IH. lia.
Qed.

Lemma get_inv (f : File) (fs0 fs' : files_t) (c : Z) :
  get (f :: fs0) = Some (c, fs') ->
  exists f', fs' = f' :: fs0 /\ get_file f = (c, f').
Proof.
  rewrite get_top. destruct (get_file f) as [c1 f1]. intros H.
  injection H as <- <-. eauto.
Qed.

Lemma get_some (f : File) (fs0 : files_t) :
  exists c f', get (f :: fs0) = Some (c, f' :: fs0) /\ get_file f = (c, f').
Proof. rewrite get_top. destruct (get_file f) as [c1 f1]. eauto. Qed.

Lemma clean_unreadc_file (c : Z) (f f' : File) :
  c <> EOF -> clean_file f -> Z.of_nat (length (buf f)) <= 2 ->
  unreadc_file c f = Some f' -> clean_file f'.
Proof.
  intros Hc (Hr & Hb & _) Hl. unfold unreadc_file.
  destruct (Z.of_nat (length (buf f)) <? BUF_SIZE); [|discriminate].
  intros H. injection H as <-. unfold clean_file, BUF_SIZE.
  destruct (c =? NL); simpl; (split; [exact Hr|]);
    (split; [constructor; assumption|lia]).
Qed.

(** [readc] returns on clean files. *)
Lemma readc_total :
  forall (n : nat) (fs : files_t),
    (weight fs <= n)%nat -> fs <> [] -> clean fs ->
    exists c fs', readc fs = Some (c, fs') /\ fs' <> [] /\ clean fs'.
Proof.
  induction n as [|n IH]; intros fs Hw Hne Hcl.
  { pose proof (weight_pos fs). lia. }
  rewrite readc_unfold.
  destruct fs as [|f fs0]; [contradiction|].
  destruct (get_some f fs0) as (c0 & fA & E1 & EA). rewrite E1.
  destruct (get_weight _ _ _ E1) as (Hle & Hlt & Htl & Hlen).
  destruct (get_clean _ _ _ Hcl E1) as [HclA HclT].
  destruct (Z.eqb_spec c0 EOF) as [H0|H0].
  - destruct (Z.eqb_spec (Z.of_nat (length (fA :: fs0))) 1) as [E|E].
    + eexists _, _. split; [reflexivity|]. split; [discriminate|exact HclA].
    + apply IH; [lia| |exact HclT]. simpl in *. destruct fs0; [simpl in E; lia|discriminate].
  - destruct (negb (c0 =? BACKSLASH)).
    + eexists _, _. split; [reflexivity|]. split; [discriminate|exact HclA].
    + destruct (get_some fA fs0) as (c2 & fB & E2 & EB). rewrite E2.
      destruct (get_weight _ _ _ E2) as (Hle2 & _).
      destruct (get_clean _ _ _ HclA E2) as [HclB _].
      destruct (c2 =? NL) eqn:En.
      * apply IH; [specialize (Hlt H0); lia|discriminate|exact HclB].
      * destruct (Z.eqb_spec c2 EOF) as [He|He].
        -- subst c2. rewrite unreadc_eof. eexists _, _. split; [reflexivity|].
           split; [discriminate|exact HclB].
        -- destruct (get_unreadc_get _ _ _ HclA E2 He) as (fs3 & H3 & H4).
           rewrite H3. eexists _, _. split; [reflexivity|].
           rewrite unreadc_top in H3 by assumption.
           destruct (unreadc_file c2 fB) as [fB'|] eqn:EfB; [|discriminate].
           injection H3 as <-. split; [discriminate|].
           inversion HclB as [|? ? HclfB Hrest]; subst.
           constructor; [|exact Hrest].
           apply (clean_unreadc_file c2 fB fB' He HclfB); [|exact EfB].
           pose proof (get_file_buf _ _ _ EA) as HbA.
           pose proof (get_file_buf _ _ _ EB) as HbB.
           inversion Hcl as [|? ? (_ & _ & Hl0) _]; subst.
           rewrite HbB, HbA. unfold BUF_SIZE in Hl0.
           destruct (buf f) as [|? [|? ?]]; simpl in *; lia.
Qed.

(** *** The characters that [readc] delivers *)

Lemma splice_plain (c : Z) (r : list Z) :
  c <> BACKSLASH -> splice (c :: r) = c :: splice r.
Proof. intros H. simpl. destruct (Z.eqb_spec c BACKSLASH); [contradiction|reflexivity]. Qed.

Lemma splice_pair (r : list Z) : splice (BACKSLASH :: NL :: r) = splice r.
Proof. reflexivity. Qed.

Lemma splice_kept (c2 : Z) (r : list Z) :
  c2 <> NL -> splice (BACKSLASH :: c2 :: r) = BACKSLASH :: splice (c2 :: r).
Proof.
  intros H. change (splice (BACKSLASH :: c2 :: r))
    with (if c2 =? NL then splice r else BACKSLASH :: splice (c2 :: r)).
  destruct (Z.eqb_spec c2 NL); [contradiction|reflexivity].
Qed.

Lemma splice_Forall (P : Z -> Prop) (l : list Z) : Forall P l -> Forall P (splice l).
Proof.
  remember (length l) as k eqn:Hk.
  assert (Hle : (length l <= k)%nat) by lia. clear Hk.
  revert l Hle. induction k as [|k IH]; intros l Hle Hl.
  - destruct l; [constructor|simpl in Hle; lia].
  - destruct l as [|c r]; [constructor|]. simpl in Hle.
    inversion Hl as [|? ? Hc Hr]; subst.
    destruct (Z.eq_dec c BACKSLASH) as [->|Hb].
    + destruct r as [|c2 r']; [repeat constructor; assumption|].
      simpl in Hle. inversion Hr; subst.
      destruct (Z.eq_dec c2 NL) as [->|Hn].
      * rewrite splice_pair. apply IH; [lia|assumption].
      * rewrite splice_kept by assumption. constructor; [assumption|].
        apply IH; [simpl; lia|assumption].
    + rewrite splice_plain by assumption. constructor; [assumption|].
      apply IH; [lia|assumption].
Qed.

(** The sequence ends in a newline when no backslash stands before the
    newline that ends the input. *)
Lemma splice_final_newline (d : list Z) :
  (forall d' : list Z, d <> d' ++ [BACKSLASH]) ->
  exists e : list Z, splice (d ++ [NL]) = e ++ [NL].
Proof.
  remember (length d) as k eqn:Hk.
  assert (Hle : (length d <= k)%nat) by lia. clear Hk.
  revert d Hle. induction k as [|k IH]; intros d Hle Hd.
  - destruct d; [exists []; reflexivity|simpl in Hle; lia].
  - destruct d as [|c r]; [exists []; reflexivity|]. simpl in Hle. simpl app.
    destruct (Z.eq_dec c BACKSLASH) as [->|Hb].
    + destruct r as [|c2 r']; [destruct (Hd [] eq_refl)|].
      simpl in Hle. simpl app.
      destruct (Z.eq_dec c2 NL) as [->|Hn].
      * rewrite splice_pair. apply IH; [lia|].
        intros d' ->. apply (Hd (BACKSLASH :: NL :: d')). reflexivity.
      * rewrite splice_kept by assumption.
        destruct (IH (c2 :: r')) as [e He]; [simpl; lia| |].
        { intros d' E. apply (Hd (BACKSLASH :: d')). rewrite E. reflexivity. }
        simpl app in He. rewrite He. exists (BACKSLASH :: e). reflexivity.
    + rewrite splice_plain by assumption.
      destruct (IH r) as [e He]; [lia| |].
      { intros d' ->. apply (Hd (c :: d')). reflexivity. }
      rewrite He. exists (c :: e). reflexivity.
Qed.

(** A backslash and a newline at the end of the input are left out with
    the rest. *)
Lemma splice_final_pair (d : list Z) : splice (d ++ [BACKSLASH; NL]) = splice d.
Proof.
  remember (length d) as k eqn:Hk.
  assert (Hle : (length d <= k)%nat) by lia. clear Hk.
  revert d Hle. induction k as [|k IH]; intros d Hle.
  - destruct d; [reflexivity|simpl in Hle; lia].
  - destruct d as [|c r]; [reflexivity|]. simpl in Hle. simpl app.
    destruct (Z.eq_dec c BACKSLASH) as [->|Hb].
    + destruct r as [|c2 r']; [reflexivity|]. simpl in Hle. simpl app.
      destruct (Z.eq_dec c2 NL) as [->|Hn].
      * rewrite !splice_pair. apply IH. lia.
      * rewrite !splice_kept by assumption. f_equal.
        apply (IH (c2 :: r')). simpl. lia.
    + rewrite !splice_plain by assumption. f_equal. apply IH. lia.
Qed.

Lemma canon_length (l : list Z) : (length (canon l) <= length l)%nat.
Proof.
  remember (length l) as k eqn:Hk.
  assert (Hle : (length l <= k)%nat) by lia.
  rewrite Hk. clear Hk.
  revert l Hle. induction k as [|k IH]; intros l Hle.
  - destruct l; [simpl; lia|simpl in Hle; lia].
  - destruct l as [|c r]; [simpl; lia|]. simpl in Hle.
    destruct (Z.eq_dec c CR) as [->|Hc].
    + rewrite canon_cr. destruct r as [|c2 r']; [simpl; lia|].
      simpl in Hle. destruct (c2 =? NL).
      * pose proof (IH r' ltac:(lia)). simpl. lia.
      * pose proof (IH (c2 :: r') ltac:(simpl; lia)). simpl in *. lia.
    + rewrite canon_plain by assumption. pose proof (IH r ltac:(lia)). simpl. lia.
Qed.

Lemma with_final_newline_ends (l : list Z) :
  exists d : list Z, with_final_newline l = d ++ [NL].
Proof.
  unfold with_final_newline. destruct (Z.eqb_spec (List.last l 0) NL) as [E|E].
  - destruct (exists_last (l := l)) as (d & x & ->).
    + intros ->. discriminate.
    + rewrite last_last in E. subst x. exists d. reflexivity.
  - exists l. reflexivity.
Qed.

(** The first turn of [get_all]. *)
Lemma get_all_inv (fa : nat) (f f' : File) (c : Z) (l : list Z) :
  get_all fa f = Some l -> get_file f = (c, f') ->
  (c = EOF /\ l = [])
  \/ (c <> EOF
      /\ exists (fa' : nat) (l' : list Z),
           fa = S fa' /\ l = c :: l' /\ get_all fa' f' = Some l').
Proof.
  destruct fa as [|fa]; [discriminate|]. intros H E.
  destruct (Z.eq_dec c EOF) as [Hc|Hc].
  - left. split; [exact Hc|]. subst c.
    change (get_all (S fa) f)
      with (let '(c, f') := get_file f in
            if c =? EOF then Some []
            else match get_all fa f' with
                 | Some l => Some (c :: l)
                 | None => None
                 end) in H.
    rewrite E in H. change (EOF =? EOF) with true in H. cbv iota in H.
    injection H as <-. reflexivity.
  - right. split; [exact Hc|].
    rewrite (get_all_step fa _ _ _ E Hc) in H.
    destruct (get_all fa f') as [l'|] eqn:Eg; [|discriminate].
    injection H as <-. exists fa, l'. auto.
Qed.

(** One call of [readc] on the only file, whose characters are [l]: it
    returns the head of [splice l], or [EOF] when [splice l] is empty, and
    leaves a file whose characters give the tail. *)
Lemma readc_head :
  forall (n : nat) (f : File) (l : list Z) (fa : nat),
    (weight [f] <= n)%nat -> clean_file f -> get_all fa f = Some l ->
    exists (c : Z) (f' : File),
      readc [f] = Some (c, [f']) /\ clean_file f'
      /\ ((c = EOF /\ splice l = [] /\ readc [f'] = Some (EOF, [f']))
          \/ (c <> EOF
              /\ exists (l' : list Z) (fa' : nat),
                   splice l = c :: splice l' /\ get_all fa' f' = Some l'
                   /\ (length l' < length l)%nat)).
Proof.
  induction n as [|n IH]; intros f l fa Hw Hcl Hg.
  { pose proof (weight_pos [f]). lia. }
  assert (Hcls : clean [f]) by (constructor; [exact Hcl|constructor]).
  rewrite readc_unfold.
  destruct (get_some f []) as (c0 & fA & E1 & EA). rewrite E1.
  destruct (get_weight _ _ _ E1) as (Hle & Hlt & _).
  pose proof (get_file_clean _ _ _ Hcl EA) as HclA.
  assert (HclsA : clean [fA]) by (constructor; [exact HclA|constructor]).
  destruct (get_all_inv fa f fA c0 l Hg EA) as [[-> ->]|(Hc0 & fa1 & l1 & -> & -> & Hg1)].
  - change (EOF =? EOF) with true. cbv iota.
    change (Z.of_nat (length [fA]) =? 1) with true. cbv iota.
    exists EOF, fA. split; [reflexivity|]. split; [exact HclA|]. left.
    split; [reflexivity|]. split; [reflexivity|].
    rewrite readc_unfold, (get_eof_stable _ _ Hcls E1). reflexivity.
  - destruct (Z.eqb_spec c0 EOF) as [|_]; [contradiction|].
    destruct (Z.eqb_spec c0 BACKSLASH) as [->|Hb]; simpl negb; cbv iota.
    2:{ exists c0, fA. split; [reflexivity|]. split; [exact HclA|]. right.
        split; [exact Hc0|]. exists l1, fa1. rewrite splice_plain by assumption.
        split; [reflexivity|]. split; [exact Hg1|]. simpl. lia. }
    destruct (get_some fA []) as (c2 & fB & E2 & EB). rewrite E2.
    destruct (get_weight _ _ _ E2) as (Hle2 & _).
    pose proof (get_file_clean _ _ _ HclA EB) as HclB.
    destruct (get_all_inv fa1 fA fB c2 l1 Hg1 EB)
      as [[-> ->]|(Hc2 & fa2 & l2 & -> & -> & Hg2)].
    + change (EOF =? NL) with false. cbv iota. rewrite unreadc_eof.
      exists BACKSLASH, fB. split; [reflexivity|]. split; [exact HclB|]. right.
      split; [discriminate|]. exists [], 1%nat.
      split; [reflexivity|]. split; [|simpl; lia].
      simpl. rewrite (get_file_eof_stable _ _ HclA EB). reflexivity.
    + destruct (Z.eqb_spec c2 NL) as [->|Hn].
      * rewrite splice_pair.
        destruct (IH fB l2 fa2) as (c & f' & H1 & H2 & H3);
          [specialize (Hlt Hc0); lia|exact HclB|exact Hg2|].
        exists c, f'. split; [exact H1|]. split; [exact H2|].
        destruct H3 as [H3|(H3 & l' & fa' & H4 & H5 & H6)]; [left; exact H3|].
        right. split; [exact H3|]. exists l', fa'. split; [exact H4|].
        split; [exact H5|]. simpl. lia.
      * destruct (get_unreadc_get _ _ _ HclsA E2 Hc2) as (fs3 & H3 & H4).
        rewrite H3.
        rewrite unreadc_top in H3 by assumption.
        destruct (unreadc_file c2 fB) as [f3|] eqn:Ef3; [|discriminate].
        injection H3 as <-.
        exists BACKSLASH, f3. split; [reflexivity|].
        assert (Hcl3 : clean_file f3).
        { apply (clean_unreadc_file c2 fB f3 Hc2 HclB); [|exact Ef3].
          pose proof (get_file_buf _ _ _ EA) as HbA.
          pose proof (get_file_buf _ _ _ EB) as HbB.
          destruct Hcl as (_ & _ & Hl0). rewrite HbB, HbA. unfold BUF_SIZE in Hl0.
          destruct (buf f) as [|? [|? ?]]; simpl in *; lia. }
        split; [exact Hcl3|]. right. split; [discriminate|].
        exists (c2 :: l2), (S fa2). rewrite splice_kept by assumption.
        split; [reflexivity|]. split; [|simpl; lia].
        rewrite get_top in H4. destruct (get_file f3) as [c3 f4] eqn:E4.
        injection H4 as -> ->.
        rewrite (get_all_step fa2 _ _ _ E4 Hc2), Hg2. reflexivity.
Qed.

(** The characters that [readc] returns on the only file before [EOF]:
    those of the file, spliced. *)
Lemma readc_all_splice :
  forall (k : nat) (l : list Z) (f : File) (fa fr : nat),
    (length l <= k)%nat -> clean_file f -> get_all fa f = Some l ->
    (length l < fr)%nat ->
    readc_all fr [f] = Some (splice l).
Proof.
  induction k as [|k IH]; intros l f fa fr Hk Hcl Hg Hfr;
    (destruct fr as [|fr]; [lia|]);
    destruct (readc_head (weight [f]) f l fa (le_n _) Hcl Hg)
      as (c & f' & H1 & H2 & [(-> & H3 & _)|(Hc & l' & fa' & H3 & H4 & H5)]);
    simpl; rewrite H1.
  - rewrite H3. reflexivity.
  - lia.
  - rewrite H3. reflexivity.
  - destruct (Z.eqb_spec c EOF); [contradiction|].
    rewrite (IH l' f' fa' fr) by (try assumption; lia). rewrite H3. reflexivity.
Qed.

Lemma with_final_newline_length (l : list Z) :
  (length (with_final_newline l) <= S (length l))%nat.
Proof.
  unfold with_final_newline. destruct (List.last l 0 =? NL); [lia|].
  rewrite length_app. simpl. lia.
Qed.

Lemma with_final_newline_Forall (P : Z -> Prop) (l : list Z) :
  P NL -> Forall P l -> Forall P (with_final_newline l).
Proof.
  intros Hn Hl. unfold with_final_newline.
  destruct (List.last l 0 =? NL); [exact Hl|].
  apply Forall_app. split; [exact Hl|]. constructor; [exact Hn|constructor].
Qed.

(** What [readc] delivers on a [FILE] with the bytes [l]. *)
Lemma readc_all_make_file (l : list Z) :
  Forall (fun b => 0 <= b < 256) l ->
  readc_all (S (S (length l))) [make_file l]
  = Some (splice (with_final_newline (canon l))).
Proof.
  intros Hl.
  apply (readc_all_splice (S (length l)) _ _ (S (weight_file (make_file l)))).
  - pose proof (with_final_newline_length (canon l)). pose proof (canon_length l). lia.
  - split; [|split; [constructor|simpl; unfold BUF_SIZE; lia]].
    simpl. eapply List.Forall_impl; [|exact Hl]. unfold EOF. intros; lia.
  - apply get_all_make_file. exact Hl.
  - pose proof (with_final_newline_length (canon l)). pose proof (canon_length l). lia.
Qed.

(** What [readc] delivers on a string [s], in which no [char] is [EOF]. *)
Lemma readc_all_make_file_string (s : list Z) :
  Forall (fun c => c <> 0 /\ c <> EOF) s ->
  readc_all (S (S (length s))) [make_file_string s]
  = Some (splice (with_final_newline (canon s))).
Proof.
  intros Hs.
  apply (readc_all_splice (S (length s)) _ _ (S (weight_file (make_file_string s)))).
  - pose proof (with_final_newline_length (canon s)). pose proof (canon_length s). lia.
  - split; [|split; [constructor|simpl; unfold BUF_SIZE; lia]].
    simpl. eapply List.Forall_impl; [|exact Hs]. intros ? [_ ?]. assumption.
  - apply get_all_make_file_string. exact Hs.
  - pose proof (with_final_newline_length (canon s)). pose proof (canon_length s). lia.
Qed.

(** C4, as amended.  On a [FILE] with any bytes, and on a string in which
    no [char] has the value of [EOF], the characters that [readc] returns
    before [EOF] are [splice (with_final_newline (canon l))]: the input [l]
    with a carriage return, and the newline that follows it if there is one,
    made one newline; then with one newline appended when it does not end in
    one; then with every backslash that stands before a newline left out
    together with that newline.  Below [readc], [get] delivers
    [with_final_newline (canon l)].  No carriage return is in either
    sequence.  The sequence of [readc] ends in a newline unless a backslash
    stands before the last newline of the sequence of [get]; when one does,
    the two are left out with the rest.  On every non-empty stack of clean
    files with no carriage return pushed back, [readc] returns, and what it
    returns is no carriage return. *)
Theorem readers_canonical :
  (forall l : list Z,
      Forall (fun b => 0 <= b < 256) l ->
      readc_all (S (S (length l))) [make_file l]
      = Some (splice (with_final_newline (canon l)))
      /\ get_all (S (weight_file (make_file l))) (make_file l)
         = Some (with_final_newline (canon l)))
  /\ (forall s : list Z,
         Forall (fun c => c <> 0 /\ c <> EOF) s ->
         readc_all (S (S (length s))) [make_file_string s]
         = Some (splice (with_final_newline (canon s)))
         /\ get_all (S (weight_file (make_file_string s))) (make_file_string s)
            = Some (with_final_newline (canon s)))
  /\ (forall l : list Z,
         Forall (fun c => c <> CR) (with_final_newline (canon l))
         /\ Forall (fun c => c <> CR) (splice (with_final_newline (canon l)))
         /\ exists d : list Z, with_final_newline (canon l) = d ++ [NL])
  /\ (forall l d : list Z,
         with_final_newline (canon l) = d ++ [NL] ->
         (forall d' : list Z, d <> d' ++ [BACKSLASH]) ->
         exists e : list Z, splice (with_final_newline (canon l)) = e ++ [NL])
  /\ (forall l d : list Z,
         with_final_newline (canon l) = d ++ [BACKSLASH; NL] ->
         splice (with_final_newline (canon l)) = splice d)
  /\ (forall (fs : files_t),
         fs <> [] -> clean fs -> no_cr fs ->
         exists c fs',
           readc fs = Some (c, fs') /\ c <> CR
           /\ fs' <> [] /\ clean fs' /\ no_cr fs').
Proof.
  assert (Hcr : forall l : list Z, Forall (fun c => c <> CR) (with_final_newline (canon l))).
  { intros l. apply with_final_newline_Forall; [discriminate|apply canon_no_cr]. }
  split.
  { intros l Hl. split; [apply readc_all_make_file|apply get_all_make_file]; exact Hl. }
  split.
  { intros s Hs.
    split; [apply readc_all_make_file_string|apply get_all_make_file_string]; exact Hs. }
  split.
  { intros l. split; [apply Hcr|]. split; [apply splice_Forall, Hcr|].
    apply with_final_newline_ends. }
  split.
  { intros l d -> Hd. apply splice_final_newline. exact Hd. }
  split.
  { intros l d ->. apply splice_final_pair. }
  intros fs Hne Hcl Hn.
  destruct (readc_total (weight fs) fs) as (c & fs' & H1 & H2 & H3); auto.
  destruct (readc_not_cr c fs' (weight fs) fs) as [H4 H5]; auto.
  exists c, fs'. auto.
Qed.

(** The file "x\r\ny\r" of the specification: [readc] delivers x, newline,
    y, newline. *)
Lemma readers_canonical_witness :
  Forall (fun b => 0 <= b < 256) [120; 13; 10; 121; 13]
  /\ readc_all 7 [make_file [120; 13; 10; 121; 13]] = Some [120; 10; 121; 10]
  /\ get_all (S (weight_file (make_file [120; 13; 10; 121; 13])))
       (make_file [120; 13; 10; 121; 13])
     = Some [120; 10; 121; 10].
Proof.
  assert (H : Forall (fun b => 0 <= b < 256) [120; 13; 10; 121; 13]).
  { repeat constructor; lia. }
  split; [exact H|].
  exact (proj1 readers_canonical [120; 13; 10; 121; 13] H).
Defined.

(** C4, as it is stated, fails: [readc] removes the backslash and the
    newline that end the file "a\\\n", and the only character that it
    delivers before [EOF] is the letter a. *)
Lemma readc_sequence_without_final_newline :
  exists l : list Z,
    readc_all 8 [make_file [97; BACKSLASH; NL]] = Some l
    /\ List.last l 0 <> NL.
Proof. exists [97]. split; [vm_compute; reflexivity|discriminate]. Qed.

(** C5.  The string "\\\xff\n": [readc] returns the backslash, its
    lookahead being the [char] -1 of the byte 0xff, which [readc_string]
    returns as if it were [EOF] and which [unreadc] therefore does not push
    back.  After [unreadc] of the backslash, [readc] finds the backslash
    before the newline, splices them and returns [EOF]. *)
Theorem readc_unreadc_readc_high_byte :
  exists fs1 fs2 fs3 : files_t,
    readc [make_file_string [BACKSLASH; char_of_byte 255; NL]] = Some (BACKSLASH, fs1)
    /\ unreadc BACKSLASH fs1 = Some fs2
    /\ readc fs2 = Some (EOF, fs3).
Proof.
  do 3 eexists. split; [vm_compute; reflexivity|].
  split; vm_compute; reflexivity.
Qed.

End StreamFacts.

Module LexerFacts.
Import Stream Buffer Lexer.

(** *** The monad *)

Lemma bind_ok {A B} (m : M A) (k : A -> M B) (s s' : State) (b : B) :
  bind m k s = Ok b s' -> exists a s1, m s = Ok a s1 /\ k a s1 = Ok b s'.
Proof.
  unfold bind. destruct (m s) as [a s1| | |]; try discriminate. eauto.
Qed.

Ltac bind_inv H :=
  let a := fresh "a" in
  let s1 := fresh "s" in
  let H1 := fresh "H" in
  apply bind_ok in H; destruct H as (a & s1 & H1 & H).

(** *** The flags of a token *)

Lemma store_load (p : tokptr) (t : Token) (s s' : State) :
  store p t s = Ok tt s' -> load s' p = Some t /\ buffers s' = buffers s /\ files s' = files s.
Proof.
  unfold store. destruct p as [| | |n].
  - intros H. injection H as <-. auto.
  - intros H. injection H as <-. auto.
  - intros H. injection H as <-. auto.
  - destruct (Nat.ltb_spec n (length (heap s))) as [Hlt|Hlt]; [|discriminate].
    intros H. injection H as <-. simpl. split; [|auto].
    apply list_lookup_insert_eq. assumption.
Qed.

Lemma deref_tok_ok (p : tokptr) (s s' : State) (t : Token) :
  deref_tok p s = Ok t s' -> s' = s /\ load s p = Some t.
Proof.
  unfold deref_tok. destruct (load s p); [|discriminate].
  intros H. injection H as <- <-. auto.
Qed.


(** C2.  When the token buffers hold more than one list and the list on
    top is empty, [lex] returns the [EOF] token and leaves the state as it
    is: no character is read, and every further call does the same.  When
    the list on top is not empty, [lex] pops its top element and returns
    it. *)
Theorem lex_token_buffers :
  (forall (s : State) (bs : list (list tokptr)),
      buffers s = [] :: bs -> bs <> [] -> lex s = Ok EofTok s)
  /\ (forall (s : State) (tok : tokptr) (buf : list tokptr) (bs : list (list tokptr)),
         buffers s = (tok :: buf) :: bs ->
         lex s = Ok tok (set_buffers s (buf :: bs)))
  /\ (forall (s : State) (l : list tokptr),
         buffers s <> [] ->
         exists s1, token_buffer_stash l s = Ok tt s1
                    /\ buffers s1 = l :: buffers s
                    /\ files s1 = files s
                    /\ token_buffer_unstash s1 = Ok tt s).
Proof.
  split; [|split].
  - intros s bs Hb Hne. unfold lex. rewrite Hb.
    destruct bs; [contradiction|]. reflexivity.
  - intros s tok buf bs Hb. unfold lex. rewrite Hb. reflexivity.
  - intros s l Hne. eexists. split; [reflexivity|]. simpl.
    repeat split. unfold token_buffer_unstash. simpl. destruct s; reflexivity.
Qed.

(** A stashed list that is exhausted, on the file "x". *)
Lemma lex_token_buffers_witness :
  lex (set_buffers (lex_init (make_file [120])) [[]; []])
  = Ok EofTok (set_buffers (lex_init (make_file [120])) [[]; []]).
Proof.
  apply (proj1 lex_token_buffers _ [[]]); [reflexivity|discriminate].
Defined.


(** *** What reads characters leaves the token buffers alone *)

Create HintDb kb.

Lemma kb_ret {A} (a : A) : keeps_buffers (ret a).
Proof. intros s a' s' H. injection H as _ <-. reflexivity. Qed.

Lemma kb_bind {A B} (m : M A) (k : A -> M B) :
  keeps_buffers m -> (forall a, keeps_buffers (k a)) -> keeps_buffers (bind m k).
Proof.
  intros Hm Hk s b s' H. bind_inv H.
  rewrite (Hk _ _ _ _ H), (Hm _ _ _ H0). reflexivity.
Qed.

Lemma kb_errorp {A} (msg : string) : keeps_buffers (@errorp A msg).
Proof. intros s a s' H. discriminate. Qed.

Lemma kb_diverge {A} : keeps_buffers (@diverge A).
Proof. intros s a s' H. discriminate. Qed.

Lemma kb_fuel {A} (loop : nat -> M A) :
  (forall n, keeps_buffers (loop n)) -> keeps_buffers (fun s => loop (fuel_of s) s).
Proof. intros H s a s' E. exact (H _ _ _ _ E). Qed.

Lemma kb_on_files {A} (f : files_t -> option (A * files_t)) : keeps_buffers (on_files f).
Proof.
  intros s a s' H. unfold on_files in H.
  destruct (f (files s)) as [[a0 fs]|]; [|discriminate].
  injection H as _ <-. reflexivity.
Qed.

Lemma kb_readc : keeps_buffers readc.
Proof. apply kb_on_files. Qed.

Lemma kb_unreadc (c : Z) : keeps_buffers (unreadc c).
Proof. apply kb_on_files. Qed.

Lemma kb_warnp (msg : string) : keeps_buffers (warnp msg).
Proof. intros s a s' H. inversion H. reflexivity. Qed.

Lemma kb_current_file : keeps_buffers current_file.
Proof.
  intros s a s' H. unfold current_file in H.
  destruct (files s); [discriminate|]. injection H as _ <-. reflexivity.
Qed.

Lemma kb_deref_tok (p : tokptr) : keeps_buffers (deref_tok p).
Proof. intros s a s' H. apply deref_tok_ok in H. destruct H as [-> _]. reflexivity. Qed.

Lemma kb_store (p : tokptr) (t : Token) : keeps_buffers (store p t).
Proof. intros s [] s' H. apply store_load in H. tauto. Qed.

Lemma kb_make_token (t : Token) : keeps_buffers (make_token t).
Proof.
  intros s a s' H. unfold make_token in H.
  destruct (files s); [discriminate|]. injection H as _ <-. reflexivity.
Qed.

Lemma kb_set_mark (p : Pos) : keeps_buffers (fun s => Ok tt (set_mark s p)).
Proof. intros s a s' H. inversion H. reflexivity. Qed.

#[local] Hint Resolve kb_readc kb_unreadc kb_warnp kb_current_file kb_deref_tok
  kb_store kb_make_token kb_set_mark : kb.

Ltac kb :=
  repeat first
    [ assumption
    | apply kb_ret
    | apply kb_errorp
    | apply kb_diverge
    | solve [auto with kb]
    | apply kb_bind; [|intro]
    | match goal with
      | |- keeps_buffers (if ?b then _ else _) => destruct b
      | |- keeps_buffers (match ?x with _ => _ end) => destruct x
      end ].

Lemma kb_get_pos (d : Z) : keeps_buffers (get_pos d).
Proof. unfold get_pos. kb. Qed.

Lemma kb_mark : keeps_buffers mark.
Proof. unfold mark. kb. Qed.

Lemma kb_set_bol (p : tokptr) (b : bool) : keeps_buffers (set_bol p b).
Proof. unfold set_bol. kb. Qed.

Lemma kb_set_space (p : tokptr) (b : bool) : keeps_buffers (set_space p b).
Proof. unfold set_space. kb. Qed.

Lemma kb_make_keyword (k : keyword) : keeps_buffers (make_keyword k).
Proof. unfold make_keyword. kb. Qed.

Lemma kb_make_ident (p : list Z) : keeps_buffers (make_ident p).
Proof. unfold make_ident. kb. Qed.

Lemma kb_make_number (p : list Z) : keeps_buffers (make_number p).
Proof. unfold make_number. kb. Qed.

Lemma kb_make_strtok (p : list Z) (n : Z) (e : encoding) : keeps_buffers (make_strtok p n e).
Proof. unfold make_strtok. kb. Qed.

Lemma kb_make_char (c : Z) (e : encoding) : keeps_buffers (make_char c e).
Proof. unfold make_char. kb. Qed.

Lemma kb_make_invalid (c : Z) : keeps_buffers (make_invalid c).
Proof. unfold make_invalid. kb. Qed.

Lemma kb_write_utf8 (b : Buffer) (r : Z) : keeps_buffers (write_utf8 b r).
Proof. unfold write_utf8. kb. Qed.

#[local] Hint Resolve kb_get_pos kb_mark kb_set_bol kb_set_space kb_make_keyword
  kb_make_ident kb_make_number kb_make_strtok kb_make_char kb_make_invalid
  kb_write_utf8 : kb.

Lemma kb_peek : keeps_buffers peek.
Proof. unfold peek. kb. Qed.

Lemma kb_next (c : Z) : keeps_buffers (next c).
Proof. unfold next. kb. Qed.

#[local] Hint Resolve kb_peek kb_next : kb.

Ltac by_loop L :=
  let s := fresh "s" in
  let a := fresh "a" in
  let s' := fresh "s" in
  let H := fresh "H" in
  intros s a s' H; eapply L; exact H.

Lemma kb_skip_line_loop (n : nat) : keeps_buffers (skip_line_loop n).
Proof. induction n; simpl; kb. Qed.

Lemma kb_skip_line : keeps_buffers skip_line.
Proof. by_loop kb_skip_line_loop. Qed.

Lemma kb_skip_block_comment_loop (n : nat) (b : bool) :
  keeps_buffers (skip_block_comment_loop n b).
Proof. revert b. induction n; intros b; simpl; kb; try apply IHn. Qed.

Lemma kb_skip_block_comment : keeps_buffers skip_block_comment.
Proof. unfold skip_block_comment. kb. by_loop kb_skip_block_comment_loop. Qed.

#[local] Hint Resolve kb_skip_line kb_skip_block_comment : kb.

Lemma kb_do_skip_space : keeps_buffers do_skip_space.
Proof. unfold do_skip_space. kb. Qed.

#[local] Hint Resolve kb_do_skip_space : kb.

Lemma kb_skip_space_loop (n : nat) : keeps_buffers (skip_space_loop n).
Proof. induction n; simpl; kb. Qed.

Lemma kb_skip_space : keeps_buffers skip_space.
Proof. unfold skip_space. kb. by_loop kb_skip_space_loop. Qed.

Lemma kb_skip_char_loop (n : nat) (c : Z) : keeps_buffers (skip_char_loop n c).
Proof. revert c. induction n; intros c; simpl; kb; try apply IHn. Qed.

Lemma kb_skip_char : keeps_buffers skip_char.
Proof. unfold skip_char. kb. by_loop kb_skip_char_loop. Qed.

Lemma kb_skip_string_loop (n : nat) (c : Z) : keeps_buffers (skip_string_loop n c).
Proof. revert c. induction n; intros c; simpl; kb; try apply IHn. Qed.

Lemma kb_skip_string : keeps_buffers skip_string.
Proof. unfold skip_string. kb. by_loop kb_skip_string_loop. Qed.

#[local] Hint Resolve kb_skip_space kb_skip_char kb_skip_string : kb.

Lemma kb_read_number_loop (n : nat) (b : Buffer) (l : Z) :
  keeps_buffers (read_number_loop n b l).
Proof. revert b l. induction n; intros b l; simpl; kb; try apply IHn. Qed.

Lemma kb_read_number (c : Z) : keeps_buffers (read_number c).
Proof. by_loop kb_read_number_loop. Qed.

Lemma kb_nextoct : keeps_buffers nextoct.
Proof. unfold nextoct. kb. Qed.

#[local] Hint Resolve kb_nextoct : kb.

Lemma kb_read_octal_char (c : Z) : keeps_buffers (read_octal_char c).
Proof. unfold read_octal_char. kb. Qed.

Lemma kb_read_hex_loop (n : nat) (c r : Z) : keeps_buffers (read_hex_loop n c r).
Proof. revert c r. induction n; intros c r; simpl; kb; try apply IHn. Qed.

Lemma kb_read_hex_char : keeps_buffers read_hex_char.
Proof. unfold read_hex_char. kb. by_loop kb_read_hex_loop. Qed.

Lemma kb_read_universal_loop (n : nat) (r : Z) : keeps_buffers (read_universal_loop n r).
Proof. revert r. induction n; intros r; simpl; kb; try apply IHn. Qed.

Lemma kb_read_universal_char (len : Z) : keeps_buffers (read_universal_char len).
Proof. unfold read_universal_char. kb. apply kb_read_universal_loop. Qed.

#[local] Hint Resolve kb_read_octal_char kb_read_hex_char kb_read_universal_char : kb.

Lemma kb_read_escaped_char : keeps_buffers read_escaped_char.
Proof. unfold read_escaped_char. kb. Qed.

Lemma kb_peek_ucn : keeps_buffers peek_ucn.
Proof. unfold peek_ucn. kb. Qed.

#[local] Hint Resolve kb_read_escaped_char kb_peek_ucn : kb.

Lemma kb_read_char (e : encoding) : keeps_buffers (read_char e).
Proof. unfold read_char. kb. Qed.

Lemma kb_read_string_loop (n : nat) (e : encoding) (b : Buffer) :
  keeps_buffers (read_string_loop n e b).
Proof. revert b. induction n; intros b; simpl; kb; try apply IHn. Qed.

Lemma kb_read_string (e : encoding) : keeps_buffers (read_string e).
Proof. by_loop kb_read_string_loop. Qed.

Lemma kb_read_ident_loop (n : nat) (b : Buffer) : keeps_buffers (read_ident_loop n b).
Proof. revert b. induction n; intros b; simpl; kb; try apply IHn. Qed.

Lemma kb_read_ident (c : Z) : keeps_buffers (read_ident c).
Proof. by_loop kb_read_ident_loop. Qed.

#[local] Hint Resolve kb_read_number kb_read_char kb_read_string kb_read_ident : kb.

Lemma kb_read_hash_digraph : keeps_buffers read_hash_digraph.
Proof. unfold read_hash_digraph, some_tok. kb. Qed.

Lemma kb_read_rep (c : Z) (a b : keyword) : keeps_buffers (read_rep c a b).
Proof. unfold read_rep. kb. Qed.

Lemma kb_read_rep2 (c1 : Z) (a : keyword) (c2 : Z) (b e : keyword) :
  keeps_buffers (read_rep2 c1 a c2 b e).
Proof. unfold read_rep2. kb. Qed.

#[local] Hint Resolve kb_read_hash_digraph kb_read_rep kb_read_rep2 : kb.

Lemma kb_do_read_token : keeps_buffers do_read_token.
Proof. unfold do_read_token. kb. Qed.

#[local] Hint Resolve kb_do_read_token : kb.

Lemma kb_lex_loop (n : nat) (p : tokptr) : keeps_buffers (lex_loop n p).
Proof. revert p. induction n; intros p; simpl; kb; try apply IHn. Qed.

(** [lex] with nothing pushed back reads from the stream and pushes
    nothing. *)
Lemma lex_from_stream (s : State) :
  buffers s = [[]] ->
  lex s = (do f <- current_file;
           do tok0 <- do_read_token;
           do tok <- (fun s1 => lex_loop (fuel_of s1) tok0 s1);
           run set_bol tok (column f =? 1);
           ret tok) s.
Proof. intros Hb. unfold lex. rewrite Hb. reflexivity. Qed.

Lemma lex_keeps_empty_buffer (s s' : State) (p : tokptr) :
  buffers s = [[]] -> lex s = Ok p s' -> buffers s' = [[]].
Proof.
  intros Hb. rewrite (lex_from_stream s Hb). rewrite <- Hb.
  match goal with
  | |- ?m s = _ -> _ => assert (K : keeps_buffers m)
  end.
  { kb. by_loop kb_lex_loop. }
  apply K.
Qed.


(** *** The end of [skip_cond_incl] *)

(** The directive and the synthesized token are pushed back: [lex] returns
    the synthesized token, then the directive. *)
Lemma unget_directive (s s' : State) (tok : tokptr) (t : Token) (col : Z) :
  buffers s = [[]] -> load s tok = Some t -> tkind t = TIDENT ->
  (run unget_token tok;
   do hash <- make_keyword (Punct 35);
   run set_bol hash true;
   run set_column hash col;
   unget_token hash) s = Ok tt s' ->
  exists (hash : tokptr) (th : Token),
    buffers s' = [[hash; tok]]
    /\ load s' hash = Some th
    /\ tkind th = TKEYWORD /\ id th = Punct 35 /\ bol th = true /\ tcolumn th = col
    /\ load s' tok = Some t.
Proof.
  intros Hb Hl Hk H.
  unfold bind, unget_token, bind, deref_tok in H. rewrite Hl, Hk in H. simpl in H.
  rewrite Hb in H. unfold make_keyword, make_token in H. simpl in H.
  destruct (files s) as [|f fs] eqn:Ef; [discriminate|].
  unfold set_bol, set_column, bind, deref_tok, store in H. simpl in H.
  rewrite lookup_app_r in H by lia. rewrite Nat.sub_diag in H. simpl in H.
  assert (Hlt : (length (heap s) <? length (heap s ++ [
     {| tkind := TKEYWORD; tline := pline (pos s); tcolumn := pcolumn (pos s);
        count := ntok f; bol := false; space := false; id := Punct 35;
        sval := []; slen := 0; c := 0; enc := ENC_NONE |}]))%nat = true).
  { apply Nat.ltb_lt. rewrite length_app. simpl. lia. }
  rewrite Hlt in H. simpl in H.
  rewrite list_lookup_insert_eq in H by (rewrite length_app; simpl; lia).
  simpl in H. rewrite length_insert in H. rewrite Hlt in H. simpl in H.
  rewrite list_lookup_insert_eq in H
    by (rewrite length_insert, length_app; simpl; lia).
  simpl in H. injection H as <-. simpl.
  eexists (Ptr (length (heap s))), _. split; [reflexivity|].
  split; [simpl; apply list_lookup_insert_eq; rewrite length_insert, length_app; simpl; lia|].
  repeat split.
  destruct tok as [| | |n]; simpl in *; try assumption.
  assert (Hn : (n < length (heap s))%nat) by (apply lookup_lt_Some in Hl; exact Hl).
  rewrite !list_lookup_insert_ne by lia.
  rewrite lookup_app_l by lia. exact Hl.
Qed.

Lemma lex_pushed_back (s : State) (hash tok : tokptr) :
  buffers s = [[hash; tok]] ->
  lex s = Ok hash (set_buffers s [[tok]])
  /\ lex (set_buffers s [[tok]]) = Ok tok (set_buffers s [[]]).
Proof. intros Hb. unfold lex. rewrite Hb. simpl. split; reflexivity. Qed.

Lemma skip_cond_incl_loop_exit :
  forall (fuel : nat) (nest : Z) (s s' : State),
    buffers s = [[]] ->
    skip_cond_incl_loop fuel nest s = Ok tt s' ->
    buffers s' = [[]]
    \/ exists (hash tok : tokptr) (th ti : Token),
         buffers s' = [[hash; tok]]
         /\ load s' hash = Some th
         /\ tkind th = TKEYWORD /\ id th = Punct 35 /\ bol th = true
         /\ load s' tok = Some ti
         /\ (is_ident ti "else" || is_ident ti "elif" || is_ident ti "endif") = true.
Proof.
  induction fuel as [|fuel IH]; intros nest s s' Hb H; [discriminate|].
  simpl in H.
  bind_inv H. apply kb_current_file in H0. rewrite Hb in H0.
  bind_inv H. apply kb_skip_space in H1. rewrite H0 in H1.
  bind_inv H. apply kb_readc in H2. rewrite H1 in H2.
  destruct (a1 =? EOF).
  { injection H as <-. left. exact H2. }
  destruct (a1 =? 39).
  { bind_inv H. apply kb_skip_char in H3. rewrite H2 in H3. exact (IH _ _ _ H3 H). }
  destruct (a1 =? 34).
  { bind_inv H. apply kb_skip_string in H3. rewrite H2 in H3. exact (IH _ _ _ H3 H). }
  destruct (negb (a1 =? 35) || negb (column a =? 1)).
  { exact (IH _ _ _ H2 H). }
  bind_inv H. apply kb_current_file in H3. rewrite H2 in H3.
  bind_inv H. apply (lex_keeps_empty_buffer _ _ _ H3) in H4.
  bind_inv H. apply deref_tok_ok in H5. destruct H5 as [-> Hl].
  destruct (tkind a4) eqn:Ek; try exact (IH _ _ _ H4 H).
  destruct ((nest =? 0)
            && (is_ident a4 "else" || is_ident a4 "elif" || is_ident a4 "endif")) eqn:Ec.
  - apply andb_true_iff in Ec. destruct Ec as [_ Ec].
    destruct (unget_directive _ _ _ _ _ H4 Hl Ek H)
      as (hash & th & B1 & B2 & B3 & B4 & B5 & _ & B6).
    right. exists hash, a3, th, a4. repeat split; assumption.
  - bind_inv H. apply kb_skip_line in H5. rewrite H4 in H5.
    exact (IH _ _ _ H5 H).
Qed.


(** C3.  When [get] gives a backslash and then a newline, [readc] consumes
    both and returns what it returns after them; so it does for a backslash
    and a newline at the cursor of the current file, the line counter being
    one more after them.  The input "a\\\nb\n", as a file and as a
    string, gives the identifier ab at line 1 and column 1 with [bol] set,
    then a newline token, then the [EOF] token, and [readc] delivers the
    characters a, b and the newline. *)
Theorem splice_invisible :
  (forall fs fs1 fs2 : files_t,
      get fs = Some (BACKSLASH, fs1) -> get fs1 = Some (NL, fs2) ->
      Stream.readc fs = Stream.readc fs2)
  /\ (forall (f : File) (fs : files_t) (r : list Z),
      buf f = [] -> rest f = BACKSLASH :: NL :: r ->
      Stream.readc (f :: fs)
      = Stream.readc ({| is_file := is_file f; rest := r; line := line f + 1;
                         column := 1; ntok := ntok f; last := NL; buf := [] |} :: fs))
  /\ (forall mk : list Z -> File,
         mk = make_file \/ mk = make_file_string ->
         readc_all 8 [mk (str "a" ++ [BACKSLASH; NL] ++ str "b" ++ [NL])]
         = Some (str "ab" ++ [NL])
         /\ exists (ts : list Token) (s : State),
              lex_n 3 (lex_init (mk (str "a" ++ [BACKSLASH; NL] ++ str "b" ++ [NL])))
              = Ok ts s
              /\ map (fun t => (tkind t, cstr (sval t), tline t, tcolumn t, bol t)) ts
                 = [(TIDENT, str "ab", 1, 1, true);
                    (TNEWLINE, [], 0, 0, true);
                    (TEOF, [], 0, 0, true)]).
Proof.
  split.
  { intros fs fs1 fs2 H1 H2. rewrite StreamFacts.readc_unfold, H1. simpl.
    rewrite H2. reflexivity. }
  split; [exact StreamFacts.readc_splice|].
  intros mk [->| ->].
  - split; [vm_compute; reflexivity|].
    do 2 eexists. split; vm_compute; reflexivity.
  - split; [vm_compute; reflexivity|].
    do 2 eexists. split; vm_compute; reflexivity.
Qed.

(** The file "\\\nb\n". *)
Lemma splice_invisible_witness :
  Stream.readc [make_file [BACKSLASH; NL; 98; NL]]
  = Stream.readc [{| is_file := true; rest := [98; NL]; line := 2; column := 1;
                     ntok := 0; last := NL; buf := [] |}].
Proof.
  exact (proj1 (proj2 splice_invisible) (make_file [BACKSLASH; NL; 98; NL]) []
           [98; NL] eq_refl eq_refl).
Defined.

(** *** Pp-numbers on plain characters *)

Lemma readc_plain (s : State) (f : File) (fs : files_t) (c : Z) (r : list Z) :
  files s = f :: fs -> buf f = [] -> rest f = c :: r -> plain c ->
  readc s = Ok c (set_files s (advance c (set_last (set_rest f r) c) :: fs)).
Proof.
  intros Hf Hb Hr (Hc & Hbs & Hcr).
  unfold readc, on_files. rewrite Hf, StreamFacts.readc_unfold, StreamFacts.get_top.
  rewrite (StreamFacts.get_file_plain f c r Hb Hr); try assumption;
    try (unfold EOF; lia); try (intros _; lia).
  destruct (Z.eqb_spec c EOF) as [E|_]; [unfold EOF in E; lia|].
  destruct (Z.eqb_spec c BACKSLASH) as [E|_]; [contradiction|]. reflexivity.
Qed.

Lemma to_char_small (c : Z) : 0 <= c < 128 -> to_char c = c.
Proof.
  intros Hc. unfold to_char, char_of_byte. rewrite Z.mod_small by lia.
  destruct (Z.leb_spec 128 c); [lia|reflexivity].
Qed.



Lemma advance_ntok (c : Z) (f : File) : ntok (advance c f) = ntok f.
Proof.
  unfold advance. destruct (c =? NL); [reflexivity|].
  destruct (negb (c =? EOF)); reflexivity.
Qed.



(** The two numbers of the specification. *)
Lemma pp_number_examples :
  (exists (t : Token) (s : State),
      lex_n 1 (lex_init (make_file (str "1.5e+10f"))) = Ok [t] s
      /\ tkind t = TNUMBER /\ sval t = str "1.5e+10f" ++ [0])
  /\ (exists (t : Token) (s : State),
         lex_n 1 (lex_init (make_file (str ".32e."))) = Ok [t] s
         /\ tkind t = TNUMBER /\ sval t = str ".32e." ++ [0]).
Proof.
  split; do 2 eexists; (split; [vm_compute; reflexivity|]); split; reflexivity.
Qed.

(** C8.  The file "1e", a null byte, "+ x": after the letter e,
    [strchr ("+-", c)] finds the null byte in the terminator of its string,
    so the null byte is taken into the number, and after the null byte
    [strchr ("eEpP", last)] finds it in the same way, so the sign is taken
    too.  The number token holds the five bytes 1, e, 0, + and the
    terminator, and the next token is the identifier x at column 6. *)
Theorem read_number_takes_null_byte :
  exists (t1 t2 : Token) (s : State),
    lex_n 2 (lex_init (make_file (str "1e" ++ [0] ++ str "+ x"))) = Ok [t1; t2] s
    /\ tkind t1 = TNUMBER /\ sval t1 = [49; 101; 0; 43; 0]
    /\ tkind t2 = TIDENT /\ cstr (sval t2) = str "x" /\ tcolumn t2 = 6
    /\ pp_span 49 ([101; 0] ++ str "+ x") = ([101], [0] ++ str "+ x").
Proof.
  do 3 eexists. split; [vm_compute; reflexivity|].
  repeat split.
Qed.

End LexerFacts.

Module MapViewFacts.
Import Map MapView MapFacts.

(** [map_get_nostack] reads the value of the slot that [find_loop] gives. *)
Lemma get_find (vals : list Z) (keys : list slot) (mask : Z) (k : string) :
  forall (fuel : nat) (i : Z),
    get_loop fuel keys vals mask k i
    = match find_loop fuel keys mask k i with
      | Some (Some j) => vals !! j
      | Some None => Some 0
      | None => None
      end.
Proof.
  induction fuel as [|fuel IH]; intros i; simpl; [reflexivity|].
  destruct (keys !! Z.to_nat i) as [[| |k']|]; try reflexivity; try apply IH.
  destruct (String.eqb k' k); [reflexivity|apply IH].
Qed.

Lemma find_sound (keys : list slot) (mask : Z) (k : string) :
  forall (fuel : nat) (i : Z) (j : nat),
    find_loop fuel keys mask k i = Some (Some j) -> keys !! j = Some (Key k).
Proof.
  induction fuel as [|fuel IH]; intros i j; simpl; [discriminate|].
  destruct (keys !! Z.to_nat i) as [[| |k']|] eqn:E; try discriminate; try apply IH.
  destruct (String.eqb k' k) eqn:Ek; [|apply IH].
  intros H. injection H as <-. apply String.eqb_eq in Ek. subst k'. exact E.
Qed.

(** A slot that the lookup passes can be replaced by another such slot. *)
Lemma find_loop_pass (keys : list slot) (mask : Z) (k : string) (j : nat) (s s' : slot) :
  keys !! j = Some s -> passes k s = true -> passes k s' = true ->
  forall (fuel : nat) (i : Z),
    find_loop fuel (<[j := s']> keys) mask k i = find_loop fuel keys mask k i.
Proof.
  intros Hj Hs Hs'. pose proof (lookup_lt_Some _ _ _ Hj) as Hlt.
  induction fuel as [|fuel IH]; intros i; simpl; [reflexivity|].
  destruct (decide (j = Z.to_nat i)) as [E|E].
  - rewrite <- E. rewrite list_lookup_insert_eq by exact Hlt. rewrite Hj.
    destruct s as [| |k1]; destruct s' as [| |k2]; simpl in Hs, Hs'; try discriminate;
      rewrite ?negb_true_iff in *; rewrite ?Hs, ?Hs'; apply IH.
  - rewrite list_lookup_insert_ne by exact E.
    destruct (keys !! Z.to_nat i) as [[| |k']|]; try reflexivity; try apply IH.
    destruct (String.eqb k' k); [reflexivity|apply IH].
Qed.

(** A null slot that becomes a slot to pass leaves what was found. *)
Lemma find_loop_fill (keys : list slot) (mask : Z) (k : string) (j : nat) (s' : slot)
    (x : nat) :
  keys !! j = Some Empty -> passes k s' = true ->
  forall (fuel : nat) (i : Z),
    find_loop fuel keys mask k i = Some (Some x) ->
    find_loop fuel (<[j := s']> keys) mask k i = Some (Some x).
Proof.
  intros Hj Hs'. pose proof (lookup_lt_Some _ _ _ Hj) as Hlt.
  induction fuel as [|fuel IH]; intros i; simpl; [discriminate|].
  destruct (decide (j = Z.to_nat i)) as [E|E].
  - rewrite <- E, Hj. discriminate.
  - rewrite list_lookup_insert_ne by exact E.
    destruct (keys !! Z.to_nat i) as [[| |k']|]; try discriminate; try apply IH.
    destruct (String.eqb k' k); [auto|apply IH].
Qed.

Lemma present_or_absent (keys : list slot) (k : string) :
  (exists i : nat, keys !! i = Some (Key k)) \/ (forall i : nat, keys !! i <> Some (Key k)).
Proof.
  induction keys as [|s keys IH].
  - right. intros i. rewrite lookup_nil. discriminate.
  - destruct s as [| |k'].
    + destruct IH as [[i Hi]|Hno]; [left; exists (S i); exact Hi|].
      right. intros [|i]; [discriminate|apply Hno].
    + destruct IH as [[i Hi]|Hno]; [left; exists (S i); exact Hi|].
      right. intros [|i]; [discriminate|apply Hno].
    + destruct (String.eqb_spec k' k) as [->|Hne].
      * left. exists 0%nat. reflexivity.
      * destruct IH as [[i Hi]|Hno]; [left; exists (S i); exact Hi|].
        right. intros [|i]; [simpl; congruence|apply Hno].
Qed.

(** The lookup of a settled key that is in the slot [i] reads [val[i]]. *)
Lemma get_present (m : Map) (keys : list slot) (k : string) (i : nat) :
  key m = Some keys -> settled k m -> keys !! i = Some (Key k) ->
  map_get_nostack m k = val m !! i.
Proof.
  unfold settled, map_get_nostack, find. intros -> Hs Hi.
  rewrite get_find, (Hs i Hi). reflexivity.
Qed.

(** The lookup of a key that is in no slot misses. *)
Lemma get_absent (m : Map) (k : string) :
  wf_table m -> absent k m -> map_get_nostack m k = Some 0.
Proof.
  intros Hwf Ha. destruct (map_get_nostack_total m k Hwf) as [r Hr].
  revert Hr Ha. unfold map_get_nostack, absent.
  destruct (key m) as [keys|]; [|intros; reflexivity].
  rewrite get_find.
  destruct (find_loop _ keys _ k _) as [[j|]|] eqn:E; try discriminate; [|reflexivity].
  intros _ Ha. apply find_sound in E. destruct (Ha j E).
Qed.

(** A settled key is in one slot at most. *)
Lemma settled_once (m : Map) (k : string) : settled k m -> once k m.
Proof.
  unfold settled, once. destruct (key m) as [keys|]; [|trivial].
  intros H i j Hi Hj. pose proof (H i Hi) as H1. rewrite (H j Hj) in H1. congruence.
Qed.


(** *** [map_put] and [map_remove] as the lookups see them *)

(** [map_put] writes the slot [j]: it was null and the lookup missed, or a
    tombstone, or it held the key and the lookup found it there.  The lookup
    then finds the key in [j]. *)
Lemma put_loop_view (m : Map) (keys : list slot) (mask : Z) (k : string) (v : Z) :
  forall (fuel : nat) (i : Z) (m' : Map),
    put_loop fuel m keys mask k v i = Some m' ->
    exists (j : nat) (s : slot),
      keys !! j = Some s
      /\ match s with
         | Empty => find_loop fuel keys mask k i = Some None
         | Tombstone => True
         | Key k0 => k0 = k /\ find_loop fuel keys mask k i = Some (Some j)
         end
      /\ parent m' = parent m
      /\ key m' = Some (<[j := Key k]> keys)
      /\ val m' = <[j := v]> (val m)
      /\ size m' = size m
      /\ find_loop fuel (<[j := Key k]> keys) mask k i = Some (Some j).
Proof.
  induction fuel as [|fuel IH]; intros i m'; simpl; [discriminate|].
  destruct (keys !! Z.to_nat i) as [s|] eqn:E; [|discriminate].
  pose proof (lookup_lt_Some _ _ _ E) as Hlt.
  destruct s as [| |k'].
  - intros H. injection H as <-. exists (Z.to_nat i), Empty. simpl.
    rewrite list_lookup_insert_eq by exact Hlt. rewrite String.eqb_refl. auto 10.
  - intros H. injection H as <-. exists (Z.to_nat i), Tombstone. simpl.
    rewrite list_lookup_insert_eq by exact Hlt. rewrite String.eqb_refl. auto 10.
  - destruct (String.eqb k' k) eqn:Ek.
    + intros H. injection H as <-. apply String.eqb_eq in Ek. subst k'.
      exists (Z.to_nat i), (Key k). simpl.
      rewrite (list_insert_id keys _ _ E). rewrite E, String.eqb_refl. auto 10.
    + intros H. destruct (IH _ _ H) as (j & s & Hj & Hs & R). exists j, s.
      assert (Hne : j <> Z.to_nat i).
      { intros ->. rewrite E in Hj. injection Hj as <-. destruct Hs as [-> _].
        rewrite String.eqb_refl in Ek. discriminate. }
      rewrite list_lookup_insert_ne by exact Hne. rewrite E, Ek.
      destruct R as (? & ? & ? & ? & ?). auto 10.
Qed.

(** [map_remove] leaves the map when the lookup misses, and makes a
    tombstone of the slot in which the lookup finds the key. *)
Lemma remove_loop_view (m : Map) (keys : list slot) (mask : Z) (k : string) :
  forall (fuel : nat) (i : Z) (m' : Map),
    remove_loop fuel m keys mask k i = Some m' ->
    (m' = m /\ find_loop fuel keys mask k i = Some None)
    \/ exists j : nat,
         find_loop fuel keys mask k i = Some (Some j)
         /\ keys !! j = Some (Key k)
         /\ parent m' = parent m
         /\ key m' = Some (<[j := Tombstone]> keys)
         /\ val m' = <[j := 0]> (val m)
         /\ size m' = size m.
Proof.
  induction fuel as [|fuel IH]; intros i m'; simpl; [discriminate|].
  destruct (keys !! Z.to_nat i) as [[| |k']|] eqn:E; try discriminate.
  - intros H. injection H as <-. auto.
  - apply IH.
  - destruct (String.eqb k' k) eqn:Ek; [|apply IH].
    intros H. injection H as <-. apply String.eqb_eq in Ek. subst k'.
    right. exists (Z.to_nat i). simpl. auto 10.
Qed.

(** *** Rehashing *)

(** The inner loop of [maybe_rehash] puts the key in a null slot, where the
    lookup finds it if the key was in no slot. *)
Lemma rehash_insert_view (K : list slot) (V : list Z) (mask : Z) (s : string) (x : Z) :
  forall (fuel : nat) (j : Z) (K' : list slot) (V' : list Z),
    rehash_insert fuel K V mask j (Key s) x = Some (K', V') ->
    exists e : nat,
      K !! e = Some Empty /\ K' = <[e := Key s]> K /\ V' = <[e := x]> V
      /\ ((forall e', K !! e' <> Some (Key s)) ->
          find_loop fuel K' mask s j = Some (Some e)).
Proof.
  induction fuel as [|fuel IH]; intros j K' V'; simpl; [discriminate|].
  destruct (K !! Z.to_nat j) as [t|] eqn:E; [|discriminate].
  pose proof (lookup_lt_Some _ _ _ E) as Hlt.
  destruct t as [| |k0].
  - intros H. injection H as <- <-. exists (Z.to_nat j). repeat split; auto.
    intros _. rewrite list_lookup_insert_eq by exact Hlt.
    rewrite String.eqb_refl. reflexivity.
  - intros H. destruct (IH _ _ _ H) as (e & He & -> & -> & Hf). exists e.
    repeat split; auto. intros Hno.
    assert (Hne : e <> Z.to_nat j) by congruence.
    rewrite list_lookup_insert_ne by exact Hne. rewrite E. auto.
  - intros H. destruct (IH _ _ _ H) as (e & He & -> & -> & Hf). exists e.
    repeat split; auto. intros Hno.
    assert (Hne : e <> Z.to_nat j) by congruence.
    rewrite list_lookup_insert_ne by exact Hne. rewrite E.
    destruct (String.eqb_spec k0 s) as [->|_]; [destruct (Hno _ E)|]. auto.
Qed.

(** The outer loop of [maybe_rehash] on a key that is in one slot at most:
    the key is settled in the new table, with the value it had. *)
Lemma rehash_loop_view (keys : list slot) (vals : list Z) (size' : Z) (k : string) :
  (forall i j : nat, keys !! i = Some (Key k) -> keys !! j = Some (Key k) -> i = j) ->
  forall (l pre K : list slot) (V : list Z) (K' : list slot) (V' : list Z),
    keys = pre ++ l ->
    rehash_loop keys vals size' (seq (length pre) (length l)) K V = Some (K', V') ->
    length V = length K ->
    (forall e : nat, K !! e = Some (Key k) ->
       find K size' k = Some (Some e)
       /\ exists i : nat, (i < length pre)%nat /\ keys !! i = Some (Key k)
                          /\ V !! e = vals !! i) ->
    (forall i : nat, (i < length pre)%nat -> keys !! i = Some (Key k) ->
       exists e : nat, K !! e = Some (Key k)) ->
    (forall e : nat, K !! e <> Some Tombstone) ->
    (forall e : nat, K' !! e = Some (Key k) ->
       find K' size' k = Some (Some e)
       /\ exists i : nat, keys !! i = Some (Key k) /\ V' !! e = vals !! i)
    /\ (forall i : nat, keys !! i = Some (Key k) -> exists e : nat, K' !! e = Some (Key k))
    /\ (forall e : nat, K' !! e <> Some Tombstone).
Proof.
  intros Honce l. induction l as [|s l IH]; intros pre K V K' V' Hk Hrun Hlen Ha Hc Hd.
  - simpl in Hrun. injection Hrun as <- <-. rewrite app_nil_r in Hk. subst pre.
    split; [|split; [|exact Hd]].
    + intros e He. destruct (Ha e He) as (Hf & i & _ & Hi & Hv). eauto.
    + intros i Hi. apply (Hc i); [|exact Hi]. apply lookup_lt_Some in Hi. exact Hi.
  - assert (Hs : keys !! length pre = Some s).
    { rewrite Hk. apply list_lookup_middle. reflexivity. }
    assert (Hk' : keys = (pre ++ [s]) ++ l) by (rewrite <- app_assoc; exact Hk).
    assert (Hl' : length (pre ++ [s]) = S (length pre)).
    { rewrite length_app. simpl. lia. }
    simpl length in Hrun. simpl seq in Hrun. simpl rehash_loop in Hrun.
    rewrite Hs in Hrun. rewrite <- Hl' in Hrun.
    assert (Hweak : forall e : nat, K !! e = Some (Key k) ->
       find K size' k = Some (Some e)
       /\ exists i : nat, (i < length (pre ++ [s]))%nat /\ keys !! i = Some (Key k)
                          /\ V !! e = vals !! i).
    { intros e He. destruct (Ha e He) as (Hf & i & Hi & R). split; [exact Hf|].
      exists i. split; [lia|exact R]. }
    destruct s as [| |ks].
    + assert (Hrun' : rehash_loop keys vals size' (seq (length (pre ++ [Empty])) (length l)) K V
                      = Some (K', V')).
      { destruct (vals !! length pre); exact Hrun. }
      apply (IH (pre ++ [Empty]) K V K' V' Hk' Hrun' Hlen Hweak); [|exact Hd].
      intros i Hi Hki. rewrite Hl' in Hi.
      destruct (decide (i = length pre)) as [->|Hne]; [congruence|].
      apply (Hc i); [lia|exact Hki].
    + assert (Hrun' : rehash_loop keys vals size' (seq (length (pre ++ [Tombstone])) (length l)) K V
                      = Some (K', V')).
      { destruct (vals !! length pre); exact Hrun. }
      apply (IH (pre ++ [Tombstone]) K V K' V' Hk' Hrun' Hlen Hweak); [|exact Hd].
      intros i Hi Hki. rewrite Hl' in Hi.
      destruct (decide (i = length pre)) as [->|Hne]; [congruence|].
      apply (Hc i); [lia|exact Hki].
    + destruct (vals !! length pre) as [x|] eqn:Hx; [|discriminate].
      destruct (rehash_insert (Z.to_nat size') K V (size' - 1)
                  (Z.land (hash ks) (size' - 1)) (Key ks) x) as [[K1 V1]|] eqn:Hins;
        [|discriminate].
      destruct (rehash_insert_view _ _ _ _ _ _ _ _ _ Hins) as (e & He & -> & -> & Hfind).
      pose proof (lookup_lt_Some _ _ _ He) as Helt.
      apply (IH (pre ++ [Key ks]) _ _ K' V' Hk' Hrun).
      * rewrite !length_insert. exact Hlen.
      * intros e' He'.
        destruct (decide (e = e')) as [<-|Hne].
        -- rewrite list_lookup_insert_eq in He' by exact Helt. injection He' as ->.
           assert (Hno : forall e', K !! e' <> Some (Key k)).
           { intros e' He'. destruct (Ha e' He') as (_ & i & Hi & Hki & _).
             pose proof (Honce _ _ Hki Hs). lia. }
           split; [exact (Hfind Hno)|].
           exists (length pre). rewrite Hl'. split; [lia|]. split; [exact Hs|].
           rewrite list_lookup_insert_eq by lia. symmetry. exact Hx.
        -- rewrite list_lookup_insert_ne in He' by exact Hne.
           destruct (Hweak e' He') as (Hf & R). split.
           ++ assert (Hp : passes k (Key ks) = true).
              { simpl. apply negb_true_iff. apply String.eqb_neq. intros ->.
                destruct (Ha e' He') as (_ & i & Hi & Hki & _).
                pose proof (Honce _ _ Hki Hs). lia. }
              apply find_loop_fill; assumption.
           ++ rewrite list_lookup_insert_ne by exact Hne. exact R.
      * intros i Hi Hki. rewrite Hl' in Hi.
        destruct (decide (i = length pre)) as [->|Hne].
        -- exists e. rewrite Hs in Hki. injection Hki as ->.
           apply list_lookup_insert_eq. exact Helt.
        -- destruct (Hc i) as [e' He']; [lia|exact Hki|]. exists e'.
           rewrite list_lookup_insert_ne by congruence. exact He'.
      * intros e' He'. destruct (decide (e = e')) as [<-|Hne].
        -- rewrite list_lookup_insert_eq in He' by exact Helt. discriminate.
        -- rewrite list_lookup_insert_ne in He' by exact Hne. exact (Hd e' He').
Qed.


Lemma fresh_no_key (n : nat) (s : slot) (i : nat) :
  s <> Empty -> replicate n Empty !! i <> Some s.
Proof. intros Hs H. apply lookup_replicate in H. destruct H as [H _]. congruence. Qed.

(** [maybe_rehash] keeps a settled key settled, with what its lookup
    returns, and leaves no tombstone when it makes a new table. *)
Lemma maybe_rehash_view (m m1 : Map) (k : string) :
  wf_table m -> settled k m -> maybe_rehash m = Some m1 ->
  wf_table m1
  /\ settled k m1
  /\ map_get_nostack m1 k = map_get_nostack m k
  /\ (no_tombstone m -> no_tombstone m1)
  /\ parent m1 = parent m.
Proof.
  intros Hwf Hs Hr.
  destruct (maybe_rehash_wf m Hwf (maybe_rehash_fits m m1 Hr))
    as (m1' & keys1 & Hr' & Hwf1 & _ & Hpar & _).
  rewrite Hr in Hr'. injection Hr' as <-.
  split; [exact Hwf1|]. cut (settled k m1
    /\ map_get_nostack m1 k = map_get_nostack m k /\ (no_tombstone m -> no_tombstone m1)).
  { tauto. }
  pose proof (settled_once m k Hs) as Honce.
  unfold maybe_rehash in Hr. destruct (key m) as [keys|] eqn:Ekey.
  - destruct (10 * nused m <? 7 * size m); [injection Hr as <-; auto|].
    destruct (negb (20 * nelem m <? 7 * size m) && (INT_MAX <? size m * 2));
      [discriminate|].
    set (newsize := if 20 * nelem m <? 7 * size m then size m else size m * 2) in *.
    destruct (rehash_loop keys (val m) newsize (seq 0 (Z.to_nat (size m)))
                (replicate (Z.to_nat newsize) Empty) (replicate (Z.to_nat newsize) 0))
      as [[K' V']|] eqn:Hloop; [|discriminate].
    assert (Hsz : Z.to_nat (size m) = length keys).
    { unfold wf_table in Hwf. rewrite Ekey in Hwf. lia. }
    rewrite Hsz in Hloop. unfold once in Honce. rewrite Ekey in Honce.
    destruct (rehash_loop_view keys (val m) newsize k Honce keys [] _ _ K' V' eq_refl Hloop)
      as (HA & HC & HD).
    { rewrite !length_replicate. reflexivity. }
    { intros e He. apply fresh_no_key in He; [destruct He|discriminate]. }
    { simpl. intros i Hi. lia. }
    { intros e. apply fresh_no_key. discriminate. }
    injection Hr as <-.
    assert (Hs1 : settled k {| parent := parent m; key := Some K'; val := V';
                               size := newsize; nelem := nelem m; nused := nelem m |}).
    { unfold settled. simpl. intros e He. exact (proj1 (HA e He)). }
    split; [exact Hs1|]. split; [|intros _; exact HD].
    destruct (present_or_absent keys k) as [[i Hi]|Hno].
    + destruct (HC i Hi) as [e He]. destruct (HA e He) as (_ & i' & Hi' & Hv).
      rewrite (Honce i' i Hi' Hi) in Hv.
      transitivity (V' !! e).
      { eapply get_present; [|exact Hs1|exact He]. reflexivity. }
      rewrite Hv. symmetry. exact (get_present m keys k i Ekey Hs Hi).
    + rewrite (get_absent m k Hwf) by (unfold absent; rewrite Ekey; exact Hno).
      apply get_absent; [exact Hwf1|]. unfold absent. simpl.
      intros e He. destruct (HA e He) as (_ & i & Hi & _). exact (Hno i Hi).
  - apply (inj Some) in Hr. subst m1. split; [|split].
    + unfold settled. cbn [key size]. intros i Hi.
      apply fresh_no_key in Hi; [destruct Hi|discriminate].
    + rewrite (get_absent _ k Hwf1).
      * unfold map_get_nostack. rewrite Ekey. reflexivity.
      * unfold absent. cbn [key]. intros i. apply fresh_no_key. discriminate.
    + intros _. unfold no_tombstone. cbn [key]. intros i. apply fresh_no_key. discriminate.
Qed.

(** *** A key and the operations on another key *)

Lemma map_put_other (m m' : Map) (k k' : string) (v' : Z) :
  wf_table m -> settled k m -> k' <> k -> map_put m k' v' = Some m' ->
  wf_table m'
  /\ settled k m'
  /\ map_get_nostack m' k = map_get_nostack m k
  /\ parent m' = parent m.
Proof.
  intros Hwf Hs Hne Hput.
  destruct (map_put_spec m k' v' Hwf (map_put_fits m m' k' v' Hput))
    as (m2 & _ & _ & Hput2 & Hwf' & Hpar & _).
  rewrite Hput in Hput2. injection Hput2 as <-.
  split; [exact Hwf'|]. split; [|split; [|exact Hpar]]; revert Hput; unfold map_put;
    destruct (maybe_rehash m) as [m1|] eqn:Hr; try discriminate;
    destruct (maybe_rehash_view m m1 k Hwf Hs Hr) as (Hwf1 & Hs1 & Hg1 & _ & _);
    destruct (key m1) as [keys1|] eqn:Ek1; try discriminate; intros Hput;
    destruct (put_loop_view _ _ _ _ _ _ _ _ Hput)
      as (j & s & Hj & Hcase & _ & Hkey & Hval & Hsz & _);
    assert (Hpass : passes k (Key k') = true)
      by (simpl; apply negb_true_iff; apply String.eqb_neq; exact Hne).
  - unfold settled. rewrite Hkey, Hsz. intros i Hi.
    assert (Hij : j <> i).
    { intros ->. rewrite list_lookup_insert_eq in Hi by (eapply lookup_lt_Some; eauto).
      congruence. }
    rewrite list_lookup_insert_ne in Hi by exact Hij.
    unfold settled in Hs1. rewrite Ek1 in Hs1. specialize (Hs1 i Hi). unfold find in *.
    destruct s as [| |k0].
    + apply find_loop_fill; assumption.
    + rewrite (find_loop_pass keys1 _ k j Tombstone (Key k') Hj eq_refl Hpass). exact Hs1.
    + destruct Hcase as [-> _].
      rewrite (find_loop_pass keys1 _ k j (Key k') (Key k') Hj Hpass Hpass). exact Hs1.
  - rewrite <- Hg1.
    destruct (present_or_absent keys1 k) as [[i Hi]|Hno].
    + assert (Hij : j <> i).
      { intros ->. rewrite Hj in Hi. injection Hi as ->. destruct Hcase as [-> _].
        congruence. }
      assert (Hs' : settled k m').
      { unfold settled. rewrite Hkey, Hsz. intros i0 Hi0.
        assert (Hij0 : j <> i0).
        { intros ->. rewrite list_lookup_insert_eq in Hi0 by (eapply lookup_lt_Some; eauto).
          congruence. }
        rewrite list_lookup_insert_ne in Hi0 by exact Hij0.
        unfold settled in Hs1. rewrite Ek1 in Hs1. specialize (Hs1 i0 Hi0). unfold find in *.
        destruct s as [| |k0].
        + apply find_loop_fill; assumption.
        + rewrite (find_loop_pass keys1 _ k j Tombstone (Key k') Hj eq_refl Hpass). exact Hs1.
        + destruct Hcase as [-> _].
          rewrite (find_loop_pass keys1 _ k j (Key k') (Key k') Hj Hpass Hpass). exact Hs1. }
      rewrite (get_present m' _ k i Hkey Hs').
      2:{ rewrite list_lookup_insert_ne by exact Hij. exact Hi. }
      rewrite (get_present m1 keys1 k i Ek1 Hs1 Hi).
      rewrite Hval. apply list_lookup_insert_ne. exact Hij.
    + rewrite (get_absent m1 k Hwf1) by (unfold absent; rewrite Ek1; exact Hno).
      apply get_absent; [exact Hwf'|]. unfold absent. rewrite Hkey. intros i Hi.
      destruct (decide (j = i)) as [->|Hij].
      * rewrite list_lookup_insert_eq in Hi by (eapply lookup_lt_Some; eauto). congruence.
      * rewrite list_lookup_insert_ne in Hi by exact Hij. exact (Hno i Hi).
Qed.


Lemma map_remove_other (m m' : Map) (k k' : string) :
  wf_table m -> settled k m -> k' <> k -> map_remove m k' = Some m' ->
  wf_table m'
  /\ settled k m'
  /\ map_get_nostack m' k = map_get_nostack m k
  /\ parent m' = parent m.
Proof.
  intros Hwf Hs Hne Hrem.
  destruct (map_remove_spec m k' Hwf) as (m2 & Hrem2 & Hwf' & Hpar).
  rewrite Hrem in Hrem2. injection Hrem2 as <-.
  split; [exact Hwf'|]. cut (settled k m' /\ map_get_nostack m' k = map_get_nostack m k).
  { tauto. }
  revert Hrem. unfold map_remove. destruct (key m) as [keys|] eqn:Ek.
  2:{ intros H. injection H as <-. auto. }
  intros Hrem.
  destruct (remove_loop_view _ _ _ _ _ _ _ Hrem)
    as [[-> _]|(j & _ & Hj & _ & Hkey & Hval & Hsz)]; [auto|].
  assert (Hpass : passes k (Key k') = true)
    by (simpl; apply negb_true_iff; apply String.eqb_neq; exact Hne).
  assert (Hsame : forall i, <[j := Tombstone]> keys !! i = Some (Key k) ->
                            j <> i /\ keys !! i = Some (Key k)).
  { intros i Hi. destruct (decide (j = i)) as [->|Hij].
    - rewrite list_lookup_insert_eq in Hi by (eapply lookup_lt_Some; eauto). discriminate.
    - rewrite list_lookup_insert_ne in Hi by exact Hij. auto. }
  assert (Hs' : settled k m').
  { unfold settled. rewrite Hkey, Hsz. intros i Hi. destruct (Hsame i Hi) as [_ Hi0].
    unfold settled in Hs. rewrite Ek in Hs. specialize (Hs i Hi0). unfold find in *.
    rewrite (find_loop_pass keys _ k j (Key k') Tombstone Hj Hpass eq_refl). exact Hs. }
  split; [exact Hs'|].
  destruct (present_or_absent keys k) as [[i Hi]|Hno].
  - assert (Hij : j <> i) by (intros ->; congruence).
    rewrite (get_present m' _ k i Hkey Hs').
    2:{ rewrite list_lookup_insert_ne by exact Hij. exact Hi. }
    rewrite (get_present m keys k i Ek Hs Hi).
    rewrite Hval. apply list_lookup_insert_ne. exact Hij.
  - rewrite (get_absent m k Hwf) by (unfold absent; rewrite Ek; exact Hno).
    apply get_absent; [exact Hwf'|]. unfold absent. rewrite Hkey. intros i Hi.
    destruct (Hsame i Hi) as [_ Hi0]. exact (Hno i Hi0).
Qed.

(** [map_get] is [map_get_nostack] and then the parent. *)
Lemma map_get_unfold (m : Map) (k : string) :
  map_get m k
  = match map_get_nostack m k with
    | None => None
    | Some r =>
        if r =? 0 then
          match parent m with
          | Some p => map_get p k
          | None => Some 0
          end
        else Some r
    end.
Proof. destruct m as [[p|] ? ? ? ? ?]; reflexivity. Qed.

Lemma wf_table_of (m : Map) : wf m -> wf_table m.
Proof. destruct m. intros H. exact (proj1 H). Qed.

Lemma wf_of_table (m m' : Map) : wf m -> wf_table m' -> parent m' = parent m -> wf m'.
Proof.
  destruct m as [par ? ? ? ? ?], m' as [par' ? ? ? ? ?]. simpl.
  intros [_ Hp] Ht ->. split; [exact Ht|exact Hp].
Qed.

(** *** Tables that have only been written *)

Lemma map_put_tidy (m m' : Map) (k : string) (v : Z) :
  tidy m -> map_put m k v = Some m' ->
  tidy m'
  /\ parent m' = parent m
  /\ forall k2 : string,
       map_get_nostack m' k2 = if String.eqb k k2 then Some v else map_get_nostack m k2.
Proof.
  intros (Hwf & Hnt & Hs) Hput.
  destruct (map_put_spec m k v Hwf (map_put_fits m m' k v Hput))
    as (m2 & keys' & j' & Hput2 & Hwf' & Hpar & _ & _ & _ & _ & Hget).
  rewrite Hput in Hput2. injection Hput2 as <-.
  assert (Hk : no_tombstone m' /\ settled k m').
  { revert Hput. unfold map_put. destruct (maybe_rehash m) as [m1|] eqn:Hr; [|discriminate].
    destruct (maybe_rehash_view m m1 k Hwf (Hs k) Hr) as (Hwf1 & Hs1 & _ & Hnt1 & _).
    specialize (Hnt1 Hnt).
    destruct (key m1) as [keys1|] eqn:Ek1; [|discriminate]. intros Hput.
    destruct (put_loop_view _ _ _ _ _ _ _ _ Hput)
      as (j & s & Hj & Hcase & _ & Hkey & Hval & Hsz & Hfind).
    pose proof (lookup_lt_Some _ _ _ Hj) as Hlt.
    unfold no_tombstone in Hnt1. rewrite Ek1 in Hnt1.
    unfold settled in Hs1. rewrite Ek1 in Hs1. split.
    - unfold no_tombstone. rewrite Hkey. intros i Hi.
      destruct (decide (j = i)) as [->|Hij].
      + rewrite list_lookup_insert_eq in Hi by exact Hlt. discriminate.
      + rewrite list_lookup_insert_ne in Hi by exact Hij. exact (Hnt1 i Hi).
    - unfold settled. rewrite Hkey, Hsz. intros i Hi.
      destruct (decide (j = i)) as [->|Hij]; [exact Hfind|].
      rewrite list_lookup_insert_ne in Hi by exact Hij.
      specialize (Hs1 i Hi). unfold find in Hs1.
      destruct s as [| |k0].
      + congruence.
      + destruct (Hnt1 j Hj).
      + destruct Hcase as [_ Hf]. congruence. }
  destruct Hk as [Hnt' Hsk].
  assert (Hother : forall k2, k <> k2 ->
            settled k2 m' /\ map_get_nostack m' k2 = map_get_nostack m k2).
  { intros k2 Hne.
    destruct (map_put_other m m' k2 k v Hwf (Hs k2) Hne Hput) as (_ & H1 & H2 & _). auto. }
  split; [|split; [exact Hpar|]].
  - split; [exact Hwf'|]. split; [exact Hnt'|]. intros k2.
    destruct (String.eqb_spec k k2) as [<-|Hne]; [exact Hsk|]. exact (proj1 (Hother k2 Hne)).
  - intros k2. destruct (String.eqb_spec k k2) as [<-|Hne]; [exact Hget|].
    exact (proj2 (Hother k2 Hne)).
Qed.

(** [map_put] keeps a table small for its elements. *)
Lemma map_put_compact (m m' : Map) (k : string) (v : Z) :
  wf_table m -> compact m -> map_put m k v = Some m' ->
  compact m' /\ nelem m <= nelem m' <= nelem m + 1.
Proof.
  intros Hwf Hc Hput. pose proof (map_put_fits m m' k v Hput) as Hfit.
  destruct (map_put_spec m k v Hwf Hfit) as (m2 & _ & _ & Hput2 & _ & _ & _ & _ & _ & Hn & _).
  rewrite Hput in Hput2. injection Hput2 as <-. split; [|exact Hn].
  destruct (maybe_rehash_wf m Hwf Hfit) as (m1 & keys1 & Hr & _ & Ek1 & _ & Hn1 & _ & Hsz).
  unfold map_put in Hput. rewrite Hr, Ek1 in Hput.
  destruct (put_loop_view _ _ _ _ _ _ _ _ Hput) as (j & s & _ & _ & _ & _ & _ & Hsz' & _).
  unfold compact in *. lia.
Qed.

(** A table that is small for fewer than [2 ^ 27] elements can be
    doubled. *)
Lemma compact_fits (m : Map) : compact m -> nelem m <= 2 ^ 27 -> rehash_fits m.
Proof.
  unfold compact, rehash_fits, INT_MAX. intros Hc Hn. do 3 right.
  change (2 ^ 27) with 134217728 in Hn. change (2 ^ 31) with 2147483648. lia.
Qed.

Lemma puts_tidy (ps : list (string * Z)) :
  forall m : Map,
    tidy m -> compact m -> nelem m + Z.of_nat (length ps) <= 2 ^ 27 ->
    exists m' : Map,
      puts m ps = Some m'
      /\ tidy m'
      /\ parent m' = parent m
      /\ forall k : string,
           exists r : Z,
             map_get_nostack m k = Some r
             /\ map_get_nostack m' k = Some (last_put ps k r).
Proof.
  induction ps as [|[k0 v0] ps IH]; intros m Ht Hc Hb.
  - exists m. split; [reflexivity|]. split; [exact Ht|]. split; [reflexivity|]. intros k.
    destruct (map_get_nostack_total m k (proj1 Ht)) as [r Hr]. exists r. auto.
  - simpl length in Hb.
    assert (Hfit : rehash_fits m) by (apply compact_fits; [exact Hc|lia]).
    destruct (map_put_spec m k0 v0 (proj1 Ht) Hfit) as (m1 & _ & _ & Hput & _).
    destruct (map_put_tidy m m1 k0 v0 Ht Hput) as (Ht1 & Hpar1 & Hg1).
    destruct (map_put_compact m m1 k0 v0 (proj1 Ht) Hc Hput) as (Hc1 & Hn1).
    destruct (IH m1 Ht1 Hc1) as (m' & Hps & Ht' & Hpar' & Hg'); [lia|].
    exists m'. simpl. rewrite Hput. split; [exact Hps|]. split; [exact Ht'|].
    split; [congruence|]. intros k.
    destruct (map_get_nostack_total m k (proj1 Ht)) as [r Hr]. exists r.
    split; [exact Hr|]. destruct (Hg' k) as (r1 & Hr1 & Hl). rewrite Hl.
    rewrite Hg1 in Hr1. destruct (String.eqb k0 k); congruence.
Qed.

Lemma do_make_map_tidy (par : option Map) : tidy (do_make_map par INIT_SIZE).
Proof.
  split; [|split].
  - unfold wf_table. cbn [key do_make_map size val nelem nused].
    rewrite !length_replicate, !count_slots_replicate by reflexivity.
    unfold INIT_SIZE. repeat split; try lia. exists 4. split; [lia|reflexivity].
  - unfold no_tombstone. cbn [key do_make_map]. intros i. apply fresh_no_key. discriminate.
  - intros k. unfold settled. cbn [key do_make_map]. intros i Hi.
    apply fresh_no_key in Hi; [destruct Hi|discriminate].
Qed.


Lemma do_make_map_compact (par : option Map) : compact (do_make_map par INIT_SIZE).
Proof. left. simpl. unfold INIT_SIZE. lia. Qed.

(** The invariant of a table given by its fields. *)
Ltac wf_concrete :=
  unfold wf_table; simpl;
  (split; [exists 4; split; [lia|reflexivity]|]); repeat split; lia.

(** The index of a slot in a table given by its slots. *)
Ltac pin_slot i H :=
  do 16 (destruct i as [|i]; [vm_compute in H; first [discriminate H|reflexivity]|]);
  vm_compute in H; discriminate H.

(** X1.  On a well-formed map of fewer than [2 ^ 30] slots, so that
    [m->size * 2] is an [int], [map_put (m, k, v)] with a value that is not
    null returns a well-formed map with the same parent, in which
    [map_get (m, k)] is [v], whatever the parent binds. *)
Theorem map_put_then_get (m : Map) (k : string) (v : Z) :
  wf m -> size m < 2 ^ 30 -> v <> 0 ->
  exists m' : Map,
    map_put m k v = Some m' /\ wf m' /\ parent m' = parent m /\ map_get m' k = Some v.
Proof.
  intros Hwf Hsize Hv.
  destruct (map_put_spec m k v (wf_table_of m Hwf) (size_fits m Hsize))
    as (m' & _ & _ & Hput & Hwf' & Hpar & _ & _ & _ & _ & Hget).
  exists m'. split; [exact Hput|]. split; [exact (wf_of_table m m' Hwf Hwf' Hpar)|].
  split; [exact Hpar|]. rewrite map_get_unfold, Hget.
  destruct (Z.eqb_spec v 0); [contradiction|reflexivity].
Qed.

Lemma map_put_then_get_witness :
  wf (make_map_parent make_map) /\ size (make_map_parent make_map) < 2 ^ 30 /\ 5 <> 0
  /\ exists m' : Map,
       map_put (make_map_parent make_map) "x" 5 = Some m'
       /\ wf m' /\ parent m' = parent (make_map_parent make_map)
       /\ map_get m' "x" = Some 5.
Proof.
  assert (Hwf : wf (make_map_parent make_map)).
  { split; [|split; [|exact I]]; wf_concrete. }
  split; [exact Hwf|]. split; [reflexivity|]. split; [lia|].
  apply (map_put_then_get _ "x" 5 Hwf eq_refl). lia.
Defined.

(** X2.  The operations return on a well-formed map: the probing loops
    end, because a null slot is always left, and no access leaves the
    arrays.  [map_get] and [map_remove] return on every such map, [map_put]
    on a map of fewer than [2 ^ 30] slots; [map_put] and [map_remove] return
    a well-formed map again.  On a table of [2 ^ 30] slots or more that is
    to be doubled, [map_put] has no result: [m->size * 2] overflows. *)
Theorem map_operations_return (m : Map) :
  wf m ->
  (forall k : string, exists r : Z, map_get m k = Some r)
  /\ (size m < 2 ^ 30 ->
      forall (k : string) (v : Z), exists m' : Map, map_put m k v = Some m' /\ wf m')
  /\ (forall k : string, exists m' : Map, map_remove m k = Some m' /\ wf m')
  /\ (key m <> None -> 7 * size m <= 10 * nused m -> 7 * size m <= 20 * nelem m ->
      2 ^ 30 <= size m ->
      forall (k : string) (v : Z), map_put m k v = None).
Proof.
  intros Hwf. split; [|split; [|split]].
  - intros k. exact (map_get_total k m Hwf).
  - intros Hsize k v.
    destruct (map_put_spec m k v (wf_table_of m Hwf) (size_fits m Hsize))
      as (m' & _ & _ & Hput & _).
    exists m'. split; [exact Hput|]. exact (map_put_wf m m' k v Hwf Hput).
  - intros k. destruct (map_remove_spec m k (wf_table_of m Hwf)) as (m' & Hrem & _).
    exists m'. split; [exact Hrem|]. exact (map_remove_wf m m' k Hwf Hrem).
  - intros Hkey Hfull Hmany Hbig k v. unfold map_put, maybe_rehash.
    destruct (key m) as [keys|]; [|contradiction].
    replace (10 * nused m <? 7 * size m) with false by (symmetry; apply Z.ltb_ge; lia).
    replace (20 * nelem m <? 7 * size m) with false by (symmetry; apply Z.ltb_ge; lia).
    replace (INT_MAX <? size m * 2) with true; [reflexivity|].
    symmetry. apply Z.ltb_lt. unfold INT_MAX.
    change (2 ^ 30) with 1073741824 in Hbig. change (2 ^ 31) with 2147483648. lia.
Qed.

Lemma map_operations_return_witness :
  wf make_map
  /\ (forall k : string, exists r : Z, map_get make_map k = Some r)
  /\ (size make_map < 2 ^ 30 ->
      forall (k : string) (v : Z),
        exists m' : Map, map_put make_map k v = Some m' /\ wf m')
  /\ (forall k : string, exists m' : Map, map_remove make_map k = Some m' /\ wf m')
  /\ (key make_map <> None -> 7 * size make_map <= 10 * nused make_map ->
      7 * size make_map <= 20 * nelem make_map -> 2 ^ 30 <= size make_map ->
      forall (k : string) (v : Z), map_put make_map k v = None).
Proof.
  assert (Hwf : wf make_map).
  { split; [|exact I]. wf_concrete. }
  split; [exact Hwf|]. exact (map_operations_return make_map Hwf).
Defined.

(** X3.  A map that has only been written reads as the last value put for
    each key: after a sequence of [2 ^ 27] calls of [map_put] at most on a
    new map (the table then has fewer than [2 ^ 30] slots, and its doubling
    does not overflow), [map_get (m, k)] is the value of the last call for
    [k], and a miss for a key that was not put; in a new map with a parent,
    a key that was not put (or was put with the null value last) reads as in
    the parent.  This holds across the rehashing of the table. *)
Theorem map_puts_read_last (ps : list (string * Z)) :
  Z.of_nat (length ps) <= 2 ^ 27 ->
  (exists m : Map,
     puts make_map ps = Some m
     /\ forall k : string, map_get m k = Some (last_put ps k 0))
  /\ (forall p : Map,
        exists m : Map,
          puts (make_map_parent p) ps = Some m
          /\ parent m = Some p
          /\ forall k : string,
               map_get m k = if last_put ps k 0 =? 0 then map_get p k
                             else Some (last_put ps k 0)).
Proof.
  assert (Hfresh : forall par k, map_get_nostack (do_make_map par INIT_SIZE) k = Some 0).
  { intros par k. apply get_absent; [exact (proj1 (do_make_map_tidy par))|].
    unfold absent. cbn [key do_make_map]. intros i. apply fresh_no_key. discriminate. }
  intros Hlen. split.
  - destruct (puts_tidy ps make_map (do_make_map_tidy None) (do_make_map_compact None))
      as (m & Hps & _ & Hpar & Hg); [simpl; lia|].
    exists m. split; [exact Hps|]. intros k.
    destruct (Hg k) as (r & Hr & Hl). unfold make_map in Hr. rewrite Hfresh in Hr.
    injection Hr as <-. rewrite map_get_unfold, Hl, Hpar. simpl.
    destruct (Z.eqb_spec (last_put ps k 0) 0) as [->|_]; reflexivity.
  - intros p.
    destruct (puts_tidy ps (make_map_parent p) (do_make_map_tidy (Some p))
                (do_make_map_compact (Some p)))
      as (m & Hps & _ & Hpar & Hg); [simpl; lia|].
    exists m. split; [exact Hps|]. split; [exact Hpar|]. intros k.
    destruct (Hg k) as (r & Hr & Hl). unfold make_map_parent in Hr. rewrite Hfresh in Hr.
    injection Hr as <-. rewrite map_get_unfold, Hl, Hpar. reflexivity.
Qed.

(** The keys a and b, the second put twice and the first with the null
    value at last. *)
Lemma map_puts_read_last_witness :
  Z.of_nat (length [("a"%string, 1); ("b"%string, 2); ("b"%string, 3); ("a"%string, 0)])
  <= 2 ^ 27
  /\ (exists m : Map,
        puts make_map [("a"%string, 1); ("b"%string, 2); ("b"%string, 3); ("a"%string, 0)]
        = Some m
        /\ forall k : string,
             map_get m k
             = Some (last_put [("a"%string, 1); ("b"%string, 2); ("b"%string, 3);
                               ("a"%string, 0)] k 0)).
Proof.
  assert (H : Z.of_nat (length [("a"%string, 1); ("b"%string, 2); ("b"%string, 3);
                                 ("a"%string, 0)]) <= 2 ^ 27).
  { simpl length. change (2 ^ 27) with 134217728. lia. }
  split; [exact H|]. exact (proj1 (map_puts_read_last _ H)).
Defined.

(** X4.  When the key is in one slot of the table at most, [map_remove]
    leaves no binding that a lookup finds: [map_get (m, k)] then is what the
    parent gives, or a miss. *)
Theorem map_remove_once (m : Map) (k : string) :
  wf m -> once k m ->
  exists m' : Map,
    map_remove m k = Some m'
    /\ wf m'
    /\ map_get_nostack m' k = Some 0
    /\ map_get m' k = match parent m with
                      | Some p => map_get p k
                      | None => Some 0
                      end.
Proof.
  intros Hwf Honce. pose proof (wf_table_of m Hwf) as Ht.
  destruct (map_remove_spec m k Ht) as (m' & Hrem & Ht' & Hpar).
  exists m'. split; [exact Hrem|]. split; [exact (wf_of_table m m' Hwf Ht' Hpar)|].
  assert (Hg : map_get_nostack m' k = Some 0).
  { revert Hrem. unfold map_remove. destruct (key m) as [keys|] eqn:Ek.
    2:{ intros H. injection H as <-. unfold map_get_nostack. rewrite Ek. reflexivity. }
    intros Hrem.
    destruct (remove_loop_view _ _ _ _ _ _ _ Hrem)
      as [[-> Hf]|(j & _ & Hj & _ & Hkey & _)].
    - unfold map_get_nostack. rewrite Ek, get_find, Hf. reflexivity.
    - apply get_absent; [exact Ht'|]. unfold absent. rewrite Hkey. intros i Hi.
      unfold once in Honce. rewrite Ek in Honce.
      destruct (decide (j = i)) as [->|Hij].
      + rewrite list_lookup_insert_eq in Hi by (eapply lookup_lt_Some; eauto). discriminate.
      + rewrite list_lookup_insert_ne in Hi by exact Hij. exact (Hij (Honce j i Hj Hi)). }
  split; [exact Hg|]. rewrite map_get_unfold, Hg, Hpar. reflexivity.
Qed.

(** The keys "a" and "q" have the same hash modulo 16. *)
Lemma map_remove_once_witness :
  exists m1 m2 : Map,
    map_put make_map "a" 1 = Some m1
    /\ map_put m1 "q" 2 = Some m2
    /\ wf m2 /\ once "q" m2
    /\ exists m' : Map,
         map_remove m2 "q" = Some m'
         /\ wf m'
         /\ map_get_nostack m' "q" = Some 0
         /\ map_get m' "q" = match parent m2 with
                             | Some p => map_get p "q"
                             | None => Some 0
                             end.
Proof.
  do 2 eexists. split; [vm_compute; reflexivity|]. split; [vm_compute; reflexivity|].
  match goal with |- wf ?m /\ _ => assert (Hwf : wf m) end.
  { split; [|exact I]. wf_concrete. }
  match goal with |- _ /\ once ?k ?m /\ _ => assert (Honce : once k m) end.
  { unfold once. cbn [key]. intros i j Hi Hj.
    assert (Ei : i = 13%nat) by pin_slot i Hi.
    assert (Ej : j = 13%nat) by pin_slot j Hj.
    congruence. }
  split; [exact Hwf|]. split; [exact Honce|].
  exact (map_remove_once _ "q" Hwf Honce).
Defined.

(** X5.  On a map of fewer than [2 ^ 30] slots, a call of [map_put] for
    another key, with the rehashing that it may start, leaves a settled key
    settled and what [map_get] returns for it. *)
Theorem map_put_keeps_other_key (m : Map) (k k' : string) (v' : Z) :
  wf m -> size m < 2 ^ 30 -> settled k m -> k' <> k ->
  exists m' : Map,
    map_put m k' v' = Some m'
    /\ wf m' /\ settled k m' /\ map_get m' k = map_get m k.
Proof.
  intros Hwf Hsize Hs Hne. pose proof (wf_table_of m Hwf) as Ht.
  destruct (map_put_spec m k' v' Ht (size_fits m Hsize)) as (m' & _ & _ & Hput & _).
  destruct (map_put_other m m' k k' v' Ht Hs Hne Hput) as (Ht' & Hs' & Hg & Hpar).
  exists m'. split; [exact Hput|]. split; [exact (wf_of_table m m' Hwf Ht' Hpar)|].
  split; [exact Hs'|]. rewrite !map_get_unfold, Hg, Hpar. reflexivity.
Qed.

Lemma map_put_keeps_other_key_witness :
  exists m1 : Map,
    map_put make_map "a" 1 = Some m1
    /\ wf m1 /\ size m1 < 2 ^ 30 /\ settled "a" m1 /\ "q"%string <> "a"%string
    /\ exists m' : Map,
         map_put m1 "q" 2 = Some m'
         /\ wf m' /\ settled "a" m' /\ map_get m' "a" = map_get m1 "a".
Proof.
  eexists. split; [vm_compute; reflexivity|].
  match goal with |- wf ?m /\ _ => assert (Hwf : wf m) end.
  { split; [|exact I]. wf_concrete. }
  match goal with |- _ /\ _ /\ settled ?k ?m /\ _ => assert (Hs : settled k m) end.
  { unfold settled. cbn [key size]. intros i Hi.
    assert (Ei : i = 12%nat) by pin_slot i Hi. subst i. vm_compute. reflexivity. }
  assert (Hne : "q"%string <> "a"%string) by discriminate.
  split; [exact Hwf|]. split; [reflexivity|]. split; [exact Hs|]. split; [exact Hne|].
  exact (map_put_keeps_other_key _ "a" "q" 2 Hwf eq_refl Hs Hne).
Defined.

(** X6.  A call of [map_remove] for another key leaves a settled key
    settled and what [map_get] returns for it: the tombstone keeps the
    probing sequence of the key intact. *)
Theorem map_remove_keeps_other_key (m : Map) (k k' : string) :
  wf m -> settled k m -> k' <> k ->
  exists m' : Map,
    map_remove m k' = Some m'
    /\ wf m' /\ settled k m' /\ map_get m' k = map_get m k.
Proof.
  intros Hwf Hs Hne. pose proof (wf_table_of m Hwf) as Ht.
  destruct (map_remove_spec m k' Ht) as (m' & Hrem & _).
  destruct (map_remove_other m m' k k' Ht Hs Hne Hrem) as (Ht' & Hs' & Hg & Hpar).
  exists m'. split; [exact Hrem|]. split; [exact (wf_of_table m m' Hwf Ht' Hpar)|].
  split; [exact Hs'|]. rewrite !map_get_unfold, Hg, Hpar. reflexivity.
Qed.

(** The key "q" is one slot behind "a", which has the same hash modulo 16;
    it is found behind the tombstone that the removal of "a" leaves. *)
Lemma map_remove_keeps_other_key_witness :
  exists m1 m2 : Map,
    map_put make_map "a" 1 = Some m1
    /\ map_put m1 "q" 2 = Some m2
    /\ wf m2 /\ settled "q" m2 /\ "a"%string <> "q"%string
    /\ exists m' : Map,
         map_remove m2 "a" = Some m'
         /\ wf m' /\ settled "q" m' /\ map_get m' "q" = map_get m2 "q".
Proof.
  do 2 eexists. split; [vm_compute; reflexivity|]. split; [vm_compute; reflexivity|].
  match goal with |- wf ?m /\ _ => assert (Hwf : wf m) end.
  { split; [|exact I]. wf_concrete. }
  match goal with |- _ /\ settled ?k ?m /\ _ => assert (Hs : settled k m) end.
  { unfold settled. cbn [key size]. intros i Hi.
    assert (Ei : i = 13%nat) by pin_slot i Hi. subst i. vm_compute. reflexivity. }
  assert (Hne : "a"%string <> "q"%string) by discriminate.
  split; [exact Hwf|]. split; [exact Hs|]. split; [exact Hne|].
  exact (map_remove_keeps_other_key _ "q" "a" Hwf Hs Hne).
Defined.

End MapViewFacts.

Module VectorFacts.
Import Vector.

Lemma roundup_loop_spec (n : Z) :
  n <= 2 ^ 30 ->
  forall (fuel : nat) (j : Z),
    0 <= j <= 30 -> 30 - j < Z.of_nat fuel -> (j = 0 \/ 2 ^ (j - 1) < n) ->
    exists e : Z,
      j <= e <= 30 /\ roundup_loop fuel n (2 ^ j) = Some (2 ^ e)
      /\ n <= 2 ^ e /\ (e = 0 \/ 2 ^ (e - 1) < n).
Proof.
  intros Hn. induction fuel as [|fuel IH]; intros j Hj Hf Hinv; [lia|].
  simpl. destruct (Z.gtb_spec n (2 ^ j)) as [Hgt|Hle].
  - assert (Hj30 : j < 30).
    { destruct (Z.lt_ge_cases j 30) as [|Hge]; [assumption|].
      assert (j = 30) by lia. subst j. lia. }
    assert (Hpow : 2 ^ j * 2 = 2 ^ (j + 1)).
    { rewrite Z.pow_add_r by lia. lia. }
    assert (Hmono : 2 ^ (j + 1) <= 2 ^ 30) by (apply Z.pow_le_mono_r; lia).
    rewrite Hpow. unfold INT_MAX.
    destruct (Z.leb_spec (2 ^ (j + 1)) (2 ^ 31 - 1)) as [_|Hbad]; [|lia].
    destruct (IH (j + 1)) as (e & He & Hr & R); [lia|lia| |].
    { right. replace (j + 1 - 1) with j by lia. lia. }
    exists e. split; [lia|]. split; [exact Hr|exact R].
  - exists j. split; [lia|]. split; [reflexivity|]. split; [lia|exact Hinv].
Qed.

Lemma roundup_loop_overflow (n : Z) :
  2 ^ 30 < n ->
  forall (fuel : nat) (j : Z),
    0 <= j <= 30 -> 30 - j < Z.of_nat fuel -> roundup_loop fuel n (2 ^ j) = None.
Proof.
  intros Hn. induction fuel as [|fuel IH]; intros j Hj Hf; [lia|].
  simpl.
  assert (Hmono : 2 ^ j <= 2 ^ 30) by (apply Z.pow_le_mono_r; lia).
  destruct (Z.gtb_spec n (2 ^ j)) as [_|Hle]; [|lia].
  assert (Hpow : 2 ^ j * 2 = 2 ^ (j + 1)).
  { rewrite Z.pow_add_r by lia. lia. }
  rewrite Hpow. unfold INT_MAX.
  destruct (Z.leb_spec (2 ^ (j + 1)) (2 ^ 31 - 1)) as [Hok|_]; [|reflexivity].
  apply IH; [|lia].
  destruct (Z.lt_ge_cases j 30) as [|Hge]; [lia|].
  assert (j = 30) by lia. subst j. simpl in Hok. lia.
Qed.

(** The rounding of a size from 1 to [2 ^ 30]. *)
Lemma roundup_pos (n : Z) :
  0 < n <= 2 ^ 30 ->
  exists e : Z, 0 <= e <= 30 /\ roundup n = Some (2 ^ e) /\ n <= 2 ^ e < 2 * n.
Proof.
  intros Hn. unfold roundup. destruct (Z.eqb_spec n 0); [lia|].
  destruct (roundup_loop_spec n (proj2 Hn) 32 0) as (e & He & Hr & Hle & Hlt);
    [lia|lia|auto|].
  exists e. split; [lia|]. split; [exact Hr|]. split; [exact Hle|].
  destruct (Z.eq_dec e 0) as [->|Hne]; [simpl; lia|].
  destruct Hlt as [->|Hlt]; [simpl; lia|].
  assert (Hp : 2 ^ e = 2 ^ (e - 1) * 2).
  { replace e with (e - 1 + 1) at 1 by lia. rewrite Z.pow_add_r by lia. reflexivity. }
  lia.
Qed.

(** X7.  [roundup] gives the least power of two that is not below a size
    from 1 to [2 ^ 30], and 0 for the size 0; for a greater size the
    doubling of its [int] overflows. *)
Theorem roundup_power_of_two (n : Z) :
  0 <= n ->
  (n = 0 -> roundup n = Some 0)
  /\ (0 < n <= 2 ^ 30 ->
      exists e : Z, 0 <= e <= 30 /\ roundup n = Some (2 ^ e) /\ n <= 2 ^ e < 2 * n)
  /\ (2 ^ 30 < n -> roundup n = None).
Proof.
  intros Hn. split; [intros ->; reflexivity|]. split; [apply roundup_pos|].
  intros Hbig. unfold roundup. destruct (Z.eqb_spec n 0); [lia|].
  apply (roundup_loop_overflow n Hbig 32 0); lia.
Qed.

Lemma roundup_power_of_two_witness :
  0 <= 5
  /\ (5 = 0 -> roundup 5 = Some 0)
  /\ (0 < 5 <= 2 ^ 30 ->
      exists e : Z, 0 <= e <= 30 /\ roundup 5 = Some (2 ^ e) /\ 5 <= 2 ^ e < 2 * 5)
  /\ (2 ^ 30 < 5 -> roundup 5 = None).
Proof.
  split; [lia|]. apply (roundup_power_of_two 5). lia.
Defined.

Lemma roundup_ge (n : Z) :
  0 <= n <= 2 ^ 30 -> exists r : Z, roundup n = Some r /\ n <= r.
Proof.
  intros Hn. destruct (Z.eq_dec n 0) as [->|Hne].
  - exists 0. split; [reflexivity|lia].
  - destruct (roundup_pos n) as (e & _ & Hr & Hle & _); [lia|].
    exists (2 ^ e). split; [exact Hr|lia].
Qed.

(** [extend] makes room for [delta] more elements. *)
Lemma extend_spec (v : Vector) (delta : Z) :
  0 <= delta -> vec_len v + delta <= 2 ^ 30 ->
  exists v' : Vector,
    extend v delta = Some v' /\ body v' = body v /\ vec_len v + delta <= nalloc v'.
Proof.
  intros Hd Hn. unfold extend.
  destruct (Z.leb_spec (vec_len v + delta) (nalloc v)) as [Hle|Hgt].
  - exists v. auto.
  - destruct (roundup_ge (vec_len v + delta)) as (r & Hr & Hle);
      [unfold vec_len in *; lia|].
    rewrite Hr. eexists. split; [reflexivity|]. simpl. split; [reflexivity|].
    unfold max. destruct (Z.gtb_spec r MIN_SIZE); lia.
Qed.

Lemma vec_push_spec (v : Vector) (e : Z) :
  vec_len v < 2 ^ 30 ->
  exists v' : Vector,
    vec_push v e = Some v' /\ body v' = body v ++ [e] /\ vec_ok v'.
Proof.
  intros Hn. destruct (extend_spec v 1) as (v1 & He & Hb & Hroom); [lia|lia|].
  unfold vec_push. rewrite He.
  assert (Hl : vec_len v1 = vec_len v) by (unfold vec_len; rewrite Hb; reflexivity).
  destruct (Z.ltb_spec (vec_len v1) (nalloc v1)) as [_|Hbad]; [|lia].
  eexists. split; [reflexivity|]. simpl. rewrite Hb. split; [reflexivity|].
  unfold vec_ok, vec_len. simpl. rewrite length_app. simpl. unfold vec_len in *. lia.
Qed.

(** X8.  The vector is a stack: after [vec_push (v, e)] on a vector of
    fewer than [2 ^ 30] elements, [vec_tail] is [e], the length is one more,
    and [vec_pop] returns [e] and leaves the elements that [v] had.  On an
    empty vector [vec_pop], [vec_head] and [vec_tail] fail their [assert]. *)
Theorem vec_push_pop (v : Vector) (e : Z) :
  vec_len v < 2 ^ 30 ->
  (exists v1 v2 : Vector,
     vec_push v e = Some v1
     /\ vec_len v1 = vec_len v + 1
     /\ vec_tail v1 = Some e
     /\ vec_pop v1 = Some (e, v2)
     /\ body v2 = body v)
  /\ (vec_len v = 0 -> vec_pop v = None /\ vec_head v = None /\ vec_tail v = None).
Proof.
  intros Hn. split.
  - destruct (vec_push_spec v e Hn) as (v1 & Hp & Hb & _).
    assert (Hl : vec_len v1 = vec_len v + 1).
    { unfold vec_len. rewrite Hb, length_app. simpl. lia. }
    assert (Hlast : body v1 !! Z.to_nat (vec_len v1 - 1) = Some e).
    { rewrite Hl, Hb. replace (Z.to_nat (vec_len v + 1 - 1)) with (length (body v))
        by (unfold vec_len; lia).
      apply list_lookup_middle. reflexivity. }
    exists v1. eexists. split; [exact Hp|]. split; [exact Hl|].
    assert (Hpos : (0 <? vec_len v1) = true) by (apply Z.ltb_lt; unfold vec_len in *; lia).
    split; [unfold vec_tail; rewrite Hpos; exact Hlast|].
    split; [unfold vec_pop; rewrite Hpos, Hlast; reflexivity|].
    simpl. rewrite Hl, Hb.
    replace (Z.to_nat (vec_len v + 1 - 1)) with (length (body v)) by (unfold vec_len; lia).
    apply take_app_length.
  - intros H0. unfold vec_pop, vec_head, vec_tail. rewrite H0. auto.
Qed.

Lemma vec_push_pop_witness :
  vec_len {| body := [3; 4]; nalloc := 2 |} < 2 ^ 30
  /\ (exists v1 v2 : Vector,
        vec_push {| body := [3; 4]; nalloc := 2 |} 5 = Some v1
        /\ vec_len v1 = vec_len {| body := [3; 4]; nalloc := 2 |} + 1
        /\ vec_tail v1 = Some 5
        /\ vec_pop v1 = Some (5, v2)
        /\ body v2 = body {| body := [3; 4]; nalloc := 2 |})
  /\ (vec_len {| body := [3; 4]; nalloc := 2 |} = 0 ->
      vec_pop {| body := [3; 4]; nalloc := 2 |} = None
      /\ vec_head {| body := [3; 4]; nalloc := 2 |} = None
      /\ vec_tail {| body := [3; 4]; nalloc := 2 |} = None).
Proof.
  assert (H : vec_len {| body := [3; 4]; nalloc := 2 |} < 2 ^ 30) by (vm_compute; reflexivity).
  split; [exact H|]. exact (vec_push_pop _ 5 H).
Defined.

Lemma reverse_loop_spec (vec : Vector) (room : Z) :
  vec_len vec <= room ->
  forall (n i : nat),
    (i + n = length (body vec))%nat ->
    reverse_loop n (Z.of_nat i) vec (rev (drop (length (body vec) - i) (body vec))) room
    = Some (rev (body vec)).
Proof.
  intros Hroom. induction n as [|n IH]; intros i Hi.
  - simpl. replace (length (body vec) - i)%nat with 0%nat by lia. reflexivity.
  - simpl. destruct (Z.ltb_spec (Z.of_nat i) room) as [_|Hbad]; [|unfold vec_len in *; lia].
    replace (Z.to_nat (vec_len vec - Z.of_nat i - 1)) with (length (body vec) - i - 1)%nat
      by (unfold vec_len; lia).
    destruct (body vec !! (length (body vec) - i - 1)%nat) as [x|] eqn:E.
    2:{ apply lookup_ge_None in E. lia. }
    replace (Z.of_nat i + 1) with (Z.of_nat (S i)) by lia.
    rewrite <- (IH (S i)) by lia. f_equal.
    assert (Hd : drop (length (body vec) - S i) (body vec)
                 = x :: drop (length (body vec) - i) (body vec)).
    { replace (length (body vec) - S i)%nat with (length (body vec) - i - 1)%nat by lia.
      rewrite (drop_S _ _ _ E). do 2 f_equal. lia. }
    rewrite Hd. reflexivity.
Qed.

Lemma do_make_vector_spec (n : Z) :
  0 <= n <= 2 ^ 30 ->
  exists r : Vector, do_make_vector n = Some r /\ body r = [] /\ n <= nalloc r.
Proof.
  intros Hn. unfold do_make_vector.
  destruct (roundup_ge n Hn) as (r & Hr & Hle).
  rewrite Hr. eexists. split; [reflexivity|]. simpl. split; [reflexivity|lia].
Qed.

(** X9.  [vec_reverse] returns a new vector with the elements in the
    opposite order, and the reverse of the reverse has the elements of the
    vector in their order. *)
Theorem vec_reverse_rev (v : Vector) :
  vec_len v <= 2 ^ 30 ->
  exists r r' : Vector,
    vec_reverse v = Some r /\ body r = rev (body v) /\ vec_ok r
    /\ vec_reverse r = Some r' /\ body r' = body v.
Proof.
  assert (H1 : forall w, vec_len w <= 2 ^ 30 ->
            exists r, vec_reverse w = Some r /\ body r = rev (body w) /\ vec_ok r).
  { intros w Hw. unfold vec_reverse.
    destruct (do_make_vector_spec (vec_len w)) as (r0 & Hm & _ & Hroom);
      [unfold vec_len in *; lia|].
    rewrite Hm.
    pose proof (reverse_loop_spec w (nalloc r0) Hroom (length (body w)) 0) as Hl.
    rewrite Nat.sub_0_r, drop_all in Hl. simpl rev in Hl.
    replace (Z.to_nat (vec_len w)) with (length (body w)) by (unfold vec_len; lia).
    change (Z.of_nat 0) with 0 in Hl. rewrite Hl by lia.
    eexists. split; [reflexivity|]. simpl. split; [reflexivity|].
    unfold vec_ok, vec_len in *. simpl. rewrite length_rev. exact Hroom. }
  intros Hn. destruct (H1 v Hn) as (r & Hr & Hb & Hok).
  destruct (H1 r) as (r' & Hr' & Hb' & _).
  { unfold vec_len in *. rewrite Hb, length_rev. exact Hn. }
  exists r, r'. repeat split; try assumption. rewrite Hb', Hb. apply rev_involutive.
Qed.

Lemma vec_reverse_rev_witness :
  vec_len {| body := [1; 2; 3]; nalloc := 4 |} <= 2 ^ 30
  /\ exists r r' : Vector,
       vec_reverse {| body := [1; 2; 3]; nalloc := 4 |} = Some r
       /\ body r = rev (body {| body := [1; 2; 3]; nalloc := 4 |}) /\ vec_ok r
       /\ vec_reverse r = Some r'
       /\ body r' = body {| body := [1; 2; 3]; nalloc := 4 |}.
Proof.
  assert (H : vec_len {| body := [1; 2; 3]; nalloc := 4 |} <= 2 ^ 30)
    by (vm_compute; discriminate).
  split; [exact H|]. exact (vec_reverse_rev _ H).
Defined.

(** X10.  [vec_append (a, b)] leaves in [a] the elements of [a] followed by
    those of [b], in allocated cells, when they are [2 ^ 30] at most. *)
Theorem vec_append_app (a b : Vector) :
  vec_len a + vec_len b <= 2 ^ 30 ->
  exists a' : Vector,
    vec_append a b = Some a' /\ body a' = body a ++ body b /\ vec_ok a'
    /\ vec_len a' = vec_len a + vec_len b.
Proof.
  intros Hn. unfold vec_append.
  assert (Hlen : forall x y, Z.of_nat (length (x ++ y : list Z))
                             = Z.of_nat (length x) + Z.of_nat (length y)).
  { intros x y. rewrite length_app. lia. }
  destruct (extend_spec a (vec_len b)) as (a1 & He & Hb & Hroom);
    [unfold vec_len; lia|lia|].
  rewrite He.
  assert (Hl : vec_len a1 = vec_len a) by (unfold vec_len; rewrite Hb; reflexivity).
  rewrite Hl. destruct (Z.leb_spec (vec_len a + vec_len b) (nalloc a1)); [|lia].
  eexists. split; [reflexivity|]. simpl. rewrite Hb.
  repeat split; unfold vec_ok, vec_len in *; simpl; rewrite ?Hlen; lia.
Qed.

Lemma vec_append_app_witness :
  vec_len {| body := [1]; nalloc := 1 |} + vec_len {| body := [2; 3]; nalloc := 8 |} <= 2 ^ 30
  /\ exists a' : Vector,
       vec_append {| body := [1]; nalloc := 1 |} {| body := [2; 3]; nalloc := 8 |} = Some a'
       /\ body a' = body {| body := [1]; nalloc := 1 |} ++ body {| body := [2; 3]; nalloc := 8 |}
       /\ vec_ok a'
       /\ vec_len a' = vec_len {| body := [1]; nalloc := 1 |}
                       + vec_len {| body := [2; 3]; nalloc := 8 |}.
Proof.
  assert (H : vec_len {| body := [1]; nalloc := 1 |}
              + vec_len {| body := [2; 3]; nalloc := 8 |} <= 2 ^ 30)
    by (vm_compute; discriminate).
  split; [exact H|]. exact (vec_append_app _ _ H).
Defined.

End VectorFacts.

Module FormatFacts.
Import Buffer Format BufferFacts.

Lemma buf_write_spec (b : Buffer) (c : Z) :
  buf_ok b -> body (buf_write b c) = body b ++ [to_char c] /\ buf_ok (buf_write b c).
Proof.
  unfold buf_ok, buf_write, buf_len, realloc_body. intros Hb.
  destruct (Z.eqb_spec (nalloc b) (Z.of_nat (length (body b)) + 1)) as [E|E]; simpl;
    (split; [reflexivity|]); rewrite length_app; simpl; lia.
Qed.

Lemma buf_append_spec (s : list Z) :
  forall b : Buffer,
    buf_ok b ->
    body (buf_append b s) = body b ++ map to_char s /\ buf_ok (buf_append b s).
Proof.
  unfold buf_append. induction s as [|c s IH]; intros b Hb; simpl.
  - rewrite app_nil_r. auto.
  - destruct (buf_write_spec b c Hb) as [H1 H2].
    destruct (IH (buf_write b c) H2) as [H3 H4].
    split; [|exact H4]. rewrite H3, H1, <- app_assoc. reflexivity.
Qed.

Lemma pow_2_30 : 2 ^ 30 = 1073741824.
Proof. reflexivity. Qed.

Lemma pow_2_31 : 2 ^ 31 = 2147483648.
Proof. reflexivity. Qed.

(** With the [int]: a byte is written while the buffer holds fewer than
    [2 ^ 30 - 1] bytes, and it is the byte that [Buffer.buf_write] writes. *)
Lemma buf_write_int (b : Buffer) (c : Z) :
  buf_ok b -> buf_len b + 1 < 2 ^ 30 ->
  IntBuffer.buf_write b c = Some (buf_write b c).
Proof.
  unfold buf_ok, IntBuffer.buf_write, IntBuffer.realloc_body, IntBuffer.INT_MAX,
    buf_write, realloc_body, buf_len.
  rewrite pow_2_30, pow_2_31. intros Hb Hn.
  destruct (Z.eqb_spec (nalloc b) (Z.of_nat (length (body b)) + 1)) as [E|E].
  - destruct (Z.leb_spec (nalloc b * 2) (2147483648 - 1)); [|lia]. simpl.
    destruct (Z.ltb_spec (Z.of_nat (length (body b))) (nalloc b * 2)); [reflexivity|lia].
  - destruct (Z.ltb_spec (Z.of_nat (length (body b))) (nalloc b)); [reflexivity|lia].
Qed.

Lemma buf_append_int (s : list Z) :
  forall b : Buffer,
    buf_ok b -> buf_len b + Z.of_nat (length s) < 2 ^ 30 ->
    IntBuffer.buf_append b s = Some (buf_append b s).
Proof.
  induction s as [|c s IH]; intros b Hb Hn; [reflexivity|].
  simpl length in Hn. simpl IntBuffer.buf_append.
  rewrite buf_write_int by (try assumption; lia).
  destruct (buf_write_spec b c Hb) as [H1 H2].
  rewrite IH; [reflexivity|exact H2|].
  unfold buf_len in *. rewrite H1, length_app. simpl. lia.
Qed.

(** With the [int]: [buf_printf] returns when the bytes of the buffer and
    the output are fewer than [2 ^ 30]. *)
Lemma buf_printf_loop_int (out : list Z) :
  forall (fuel : nat) (b : Buffer),
    buf_ok b -> buf_len b + Z.of_nat (length out) < 2 ^ 30 ->
    Z.of_nat (length out) - (nalloc b - buf_len b) + 1 < Z.of_nat fuel ->
    (0 < fuel)%nat ->
    exists b',
      IntBuffer.buf_printf_loop fuel b out = Some b'
      /\ body b' = body b ++ out
      /\ buf_ok b'.
Proof.
  unfold buf_ok. rewrite pow_2_30.
  induction fuel as [|fuel IH]; intros b Hb Hn Hf Hpos; [lia|].
  simpl. destruct (Z.ltb_spec (nalloc b - buf_len b) 0); [lia|].
  destruct (nalloc b - buf_len b <=? Z.of_nat (length out)) eqn:E.
  - apply Z.leb_le in E. unfold IntBuffer.realloc_body, IntBuffer.INT_MAX.
    rewrite pow_2_31. destruct (Z.leb_spec (nalloc b * 2) (2147483648 - 1)); [|lia].
    destruct (IH {| body := body b; nalloc := nalloc b * 2 |}) as (b' & H1 & H2 & H3).
    + unfold buf_len in *. simpl. lia.
    + unfold buf_len in *. simpl. lia.
    + unfold buf_len in *. simpl. lia.
    + lia.
    + exists b'. auto.
  - apply Z.leb_gt in E. eexists. split; [reflexivity|]. simpl.
    split; [reflexivity|]. unfold buf_len in *. simpl.
    rewrite length_app. lia.
Qed.

Lemma buf_printf_int (b : Buffer) (out : list Z) :
  buf_ok b -> buf_len b + Z.of_nat (length out) < 2 ^ 30 ->
  exists b',
    IntBuffer.buf_printf b out = Some b'
    /\ body b' = body b ++ out
    /\ buf_ok b'.
Proof.
  intros Hb Hn. apply buf_printf_loop_int; try assumption; unfold buf_ok in Hb; lia.
Qed.

(** X11.  The functions that write to a buffer append their bytes and
    leave a free cell behind them, so that no write leaves the array, while
    the bytes of the buffer, those to be written among them, are fewer than
    [2 ^ 30]: [buf_write] one character, [buf_append] the characters of its
    argument, [buf_printf] its output, the array being doubled until the
    output fits with its terminator; [format] returns its output in the
    same way.  In this range the product [nalloc * 2] is an [int], and the
    functions with the [int] are those on unbounded integers.  A full
    array of [2 ^ 30] cells cannot be doubled: [buf_write] has no result. *)
Theorem buffer_appends (b : Buffer) (c : Z) (s out : list Z) :
  buf_ok b ->
  (buf_len b + 1 < 2 ^ 30 ->
   IntBuffer.buf_write b c = Some (buf_write b c)
   /\ body (buf_write b c) = body b ++ [to_char c] /\ buf_ok (buf_write b c))
  /\ (buf_len b + Z.of_nat (length s) < 2 ^ 30 ->
      IntBuffer.buf_append b s = Some (buf_append b s)
      /\ body (buf_append b s) = body b ++ map to_char s /\ buf_ok (buf_append b s))
  /\ (buf_len b + Z.of_nat (length out) < 2 ^ 30 ->
      exists b' : Buffer,
        IntBuffer.buf_printf b out = Some b' /\ body b' = body b ++ out /\ buf_ok b')
  /\ (Z.of_nat (length out) < 2 ^ 30 -> IntBuffer.format out = Some out)
  /\ (nalloc b = buf_len b + 1 -> 2 ^ 30 <= nalloc b -> IntBuffer.buf_write b c = None).
Proof.
  intros Hb. split; [|split; [|split; [|split]]].
  - intros Hn. split; [exact (buf_write_int b c Hb Hn)|exact (buf_write_spec b c Hb)].
  - intros Hn. split; [exact (buf_append_int s b Hb Hn)|exact (buf_append_spec s b Hb)].
  - intros Hn. exact (buf_printf_int b out Hb Hn).
  - intros Hn. unfold IntBuffer.format, IntBuffer.vformat.
    destruct (buf_printf_int make_buffer out) as (b' & H1 & H2 & _).
    { vm_compute. reflexivity. }
    { exact Hn. }
    unfold IntBuffer.buf_printf in H1. rewrite H1. unfold buf_body. rewrite H2.
    reflexivity.
  - intros Hfull Hbig. unfold IntBuffer.buf_write, IntBuffer.realloc_body,
      IntBuffer.INT_MAX.
    rewrite pow_2_30 in Hbig. rewrite pow_2_31.
    destruct (Z.eqb_spec (nalloc b) (buf_len b + 1)); [|contradiction].
    destruct (Z.leb_spec (nalloc b * 2) (2147483648 - 1)); [lia|reflexivity].
Qed.

Lemma buffer_appends_witness :
  buf_ok make_buffer
  /\ (buf_len make_buffer + 1 < 2 ^ 30 ->
      IntBuffer.buf_write make_buffer 65 = Some (buf_write make_buffer 65)
      /\ body (buf_write make_buffer 65) = body make_buffer ++ [to_char 65]
      /\ buf_ok (buf_write make_buffer 65))
  /\ (buf_len make_buffer + Z.of_nat (length [66; 67]) < 2 ^ 30 ->
      IntBuffer.buf_append make_buffer [66; 67] = Some (buf_append make_buffer [66; 67])
      /\ body (buf_append make_buffer [66; 67]) = body make_buffer ++ map to_char [66; 67]
      /\ buf_ok (buf_append make_buffer [66; 67]))
  /\ (buf_len make_buffer
      + Z.of_nat (length [48; 49; 50; 51; 52; 53; 54; 55; 56; 57]) < 2 ^ 30 ->
      exists b' : Buffer,
        IntBuffer.buf_printf make_buffer [48; 49; 50; 51; 52; 53; 54; 55; 56; 57] = Some b'
        /\ body b' = body make_buffer ++ [48; 49; 50; 51; 52; 53; 54; 55; 56; 57]
        /\ buf_ok b')
  /\ (Z.of_nat (length [48; 49; 50; 51; 52; 53; 54; 55; 56; 57]) < 2 ^ 30 ->
      IntBuffer.format [48; 49; 50; 51; 52; 53; 54; 55; 56; 57]
      = Some [48; 49; 50; 51; 52; 53; 54; 55; 56; 57])
  /\ (nalloc make_buffer = buf_len make_buffer + 1 -> 2 ^ 30 <= nalloc make_buffer ->
      IntBuffer.buf_write make_buffer 65 = None).
Proof.
  assert (H : buf_ok make_buffer) by (vm_compute; reflexivity).
  split; [exact H|].
  exact (buffer_appends make_buffer 65 [66; 67] [48; 49; 50; 51; 52; 53; 54; 55; 56; 57] H).
Defined.

(** *** What the quoting functions write *)

Lemma hex_digits_printable (fuel : nat) :
  forall (n : Z) (acc : list Z), printable acc -> printable (hex_digits fuel n acc).
Proof.
  induction fuel as [|fuel IH]; intros n acc Hacc; simpl; [exact Hacc|].
  assert (Hd : isprint (hex_digit (n mod 16)) = true).
  { pose proof (Z.mod_pos_bound n 16 ltac:(lia)) as Hm. unfold hex_digit, isprint.
    destruct (Z.ltb_spec (n mod 16) 10); apply andb_true_iff; split; apply Z.leb_le; lia. }
  destruct (n / 16 =? 0); [constructor; assumption|].
  apply IH. constructor; assumption.
Qed.

Lemma rendered_printable (c : Z) : printable (rendered c).
Proof.
  unfold rendered, quote.
  repeat match goal with
         | |- context [?x =? ?y] =>
              destruct (Z.eqb_spec x y); [repeat constructor|]
         end.
  destruct (isprint c) eqn:E; [repeat constructor; exact E|].
  apply Forall_app. split; [repeat constructor|].
  unfold fmt_02x.
  pose proof (hex_digits_printable 8 (c mod 2 ^ 32) [] (List.Forall_nil _)) as H.
  destruct (length (hex_digits 8 (c mod 2 ^ 32) []) <? 2)%nat; [constructor; [reflexivity|]|];
    exact H.
Qed.

Lemma concat_rendered_printable (p : list Z) : printable (concat (map rendered p)).
Proof.
  induction p as [|c p IH]; simpl; [constructor|].
  apply Forall_app. split; [apply rendered_printable|exact IH].
Qed.

Lemma cstr_nonzero (p : list Z) : Forall (fun c => c <> 0) (Lexer.cstr p).
Proof.
  induction p as [|c p IH]; simpl; [constructor|].
  destruct (Z.eqb_spec c 0); constructor; assumption.
Qed.

Lemma quote_loop_cstr (p : list Z) :
  forall b : Buffer, quote_loop b p = quote_loop b (Lexer.cstr p).
Proof.
  induction p as [|c p IH]; intros b; simpl; [reflexivity|].
  destruct (Z.eqb_spec c 0) as [->|Hc]; [reflexivity|]. simpl.
  destruct (Z.eqb_spec c 0); [contradiction|].
  destruct (print b c); [apply IH|reflexivity].
Qed.

Lemma quote_cstring_cstr (p : list Z) :
  Lexer.cstr p <> [] ->
  quote_cstring p = Some (concat (map rendered (Lexer.cstr p))).
Proof.
  intros Hne. rewrite <- (quote_cstring_spec (Lexer.cstr p) (cstr_nonzero p) Hne).
  unfold quote_cstring. rewrite quote_loop_cstr. reflexivity.
Qed.

Lemma quote_cstring_none (p : list Z) : Lexer.cstr p = [] -> quote_cstring p = None.
Proof.
  intros He. unfold quote_cstring. rewrite quote_loop_cstr, He. reflexivity.
Qed.

Lemma quote_cstring_len_all (p : list Z) :
  p <> [] ->
  quote_cstring_len p (Z.of_nat (length p)) = Some (concat (map rendered p)).
Proof.
  intros Hne. rewrite quote_cstring_len_spec.
  - rewrite Nat2Z.id, firstn_all. reflexivity.
  - destruct p; [contradiction|]. simpl length. lia.
Qed.

(** [print] writes ten characters at most. *)
Lemma hex_digits_length (fuel : nat) :
  forall (n : Z) (acc : list Z),
    (length (hex_digits fuel n acc) <= fuel + length acc)%nat.
Proof.
  induction fuel as [|fuel IH]; intros n acc; simpl; [lia|].
  destruct (n / 16 =? 0); [simpl; lia|].
  pose proof (IH (n / 16) (hex_digit (n mod 16) :: acc)) as H. simpl in H. lia.
Qed.

Lemma rendered_length (c : Z) : (length (rendered c) <= 10)%nat.
Proof.
  unfold rendered. destruct (quote c) as [q|] eqn:E.
  - unfold quote in E.
    repeat match type of E with
           | (if ?x =? ?y then _ else _) = _ =>
               destruct (x =? y); [injection E as <-; simpl; lia|]
           end.
    discriminate.
  - destruct (isprint c); [simpl; lia|]. unfold fmt_02x.
    pose proof (hex_digits_length 8 (c mod 2 ^ 32) []) as H.
    set (X := hex_digits 8 (c mod 2 ^ 32) []) in *. clearbody X.
    destruct (length X <? 2)%nat eqn:E2; simpl in *.
    + apply Nat.ltb_lt in E2. lia.
    + lia.
Qed.

Lemma concat_rendered_length (p : list Z) :
  Z.of_nat (length (concat (map rendered p))) <= 10 * Z.of_nat (length p).
Proof.
  induction p as [|c p IH]; simpl; [lia|].
  rewrite length_app. pose proof (rendered_length c). lia.
Qed.

(** X12.  What [quote_cstring] writes for a string that is not empty is
    the rendering of its characters before the terminator, one after the
    other, and [quote_cstring_len] renders every character of an argument
    that is not empty, null characters too; whatever the characters are,
    what is written is printable ASCII, ten characters for a character at
    most, so that the text of fewer than [2 ^ 30 / 10] characters is written
    without the overflow of [nalloc * 2].  For the empty string nothing is
    printed, and the body that is returned holds no string. *)
Theorem quote_cstring_printable (p : list Z) :
  10 * Z.of_nat (length p) < 2 ^ 30 ->
  (Lexer.cstr p <> [] ->
   quote_cstring p = Some (concat (map rendered (Lexer.cstr p))))
  /\ printable (concat (map rendered (Lexer.cstr p)))
  /\ (p <> [] ->
      quote_cstring_len p (Z.of_nat (length p)) = Some (concat (map rendered p)))
  /\ printable (concat (map rendered p))
  /\ Z.of_nat (length (concat (map rendered p))) < 2 ^ 30
  /\ (Lexer.cstr p = [] -> quote_cstring p = None)
  /\ (p = [] -> quote_cstring_len p (Z.of_nat (length p)) = None).
Proof.
  intros Hlen.
  split; [apply quote_cstring_cstr|]. split; [apply concat_rendered_printable|].
  split; [apply quote_cstring_len_all|]. split; [apply concat_rendered_printable|].
  split; [pose proof (concat_rendered_length p); lia|].
  split; [apply quote_cstring_none|]. intros ->. reflexivity.
Qed.

(** The characters a, double quote and the character -128. *)
Lemma quote_cstring_printable_witness :
  10 * Z.of_nat (length [97; 34; -128]) < 2 ^ 30
  /\ Lexer.cstr [97; 34; -128] <> []
  /\ quote_cstring [97; 34; -128] = Some (concat (map rendered (Lexer.cstr [97; 34; -128])))
  /\ printable (concat (map rendered (Lexer.cstr [97; 34; -128]))).
Proof.
  assert (H : 10 * Z.of_nat (length [97; 34; -128]) < 2 ^ 30) by reflexivity.
  assert (Hne : Lexer.cstr [97; 34; -128] <> []) by discriminate.
  split; [exact H|]. split; [exact Hne|].
  destruct (quote_cstring_printable [97; 34; -128] H) as (H1 & H2 & _).
  split; [exact (H1 Hne)|exact H2].
Defined.

Lemma map_rendered_ascii (p : list Z) :
  Forall (fun b => 0 <= b < 128) p -> map rendered p = map quote_spec p.
Proof.
  induction 1 as [|b p Hb _ IH]; simpl; [reflexivity|]. rewrite IH. f_equal.
  rewrite <- (rendered_ascii b Hb). unfold char_of_byte.
  destruct (Z.leb_spec 128 b); [lia|reflexivity].
Qed.

(** X13.  A string of ASCII characters that does not begin with its
    terminator (and has fewer than [2 ^ 30 / 10] characters, so that no
    [nalloc * 2] overflows) is quoted as the specification says: the seven
    escapes, a printable character as it is, and any other one as
    backslash, x and its two hexadecimal digits; [quote_cstring_len] does so
    for the null character too. *)
Theorem quote_cstring_ascii (p : list Z) :
  Forall (fun b => 0 <= b < 128) p -> Lexer.cstr p <> [] ->
  10 * Z.of_nat (length p) < 2 ^ 30 ->
  quote_cstring p = Some (concat (map quote_spec (Lexer.cstr p)))
  /\ quote_cstring_len p (Z.of_nat (length p)) = Some (concat (map quote_spec p))
  /\ Z.of_nat (length (concat (map quote_spec p))) < 2 ^ 30.
Proof.
  intros Hp Hne Hlen.
  assert (Hp0 : p <> []) by (intros ->; apply Hne; reflexivity).
  rewrite (quote_cstring_cstr p Hne), (quote_cstring_len_all p Hp0).
  rewrite (map_rendered_ascii p Hp). split; [|split; [reflexivity|]].
  - rewrite map_rendered_ascii; [reflexivity|].
    clear -Hp. induction Hp as [|b p Hb _ IH]; simpl; [constructor|].
    destruct (Z.eqb_spec b 0); constructor; assumption.
  - rewrite <- (map_rendered_ascii p Hp). pose proof (concat_rendered_length p). lia.
Qed.

(** The string of the characters a, tab, DEL, double quote. *)
Lemma quote_cstring_ascii_witness :
  Forall (fun b => 0 <= b < 128) [97; 9; 127; 34]
  /\ Lexer.cstr [97; 9; 127; 34] <> []
  /\ 10 * Z.of_nat (length [97; 9; 127; 34]) < 2 ^ 30
  /\ quote_cstring [97; 9; 127; 34]
     = Some (concat (map quote_spec (Lexer.cstr [97; 9; 127; 34])))
  /\ quote_cstring_len [97; 9; 127; 34] (Z.of_nat (length [97; 9; 127; 34]))
     = Some (concat (map quote_spec [97; 9; 127; 34]))
  /\ Z.of_nat (length (concat (map quote_spec [97; 9; 127; 34]))) < 2 ^ 30.
Proof.
  assert (H : Forall (fun b => 0 <= b < 128) [97; 9; 127; 34])
    by (repeat constructor; lia).
  assert (Hne : Lexer.cstr [97; 9; 127; 34] <> []) by discriminate.
  assert (Hlen : 10 * Z.of_nat (length [97; 9; 127; 34]) < 2 ^ 30) by reflexivity.
  split; [exact H|]. split; [exact Hne|]. split; [exact Hlen|].
  exact (quote_cstring_ascii _ H Hne Hlen).
Defined.

(** The head of what is written for a character and a rest stands for the
    character. *)
Lemma unquote_rendered (c : Z) (r : list Z) :
  is_char c -> unquote_head (rendered c ++ r) = Some (c, r).
Proof.
  intros Hc. unfold is_char in Hc.
  assert (Hb : 0 <= c + 128 < 256) by lia.
  replace c with (c + 128 - 128) by lia. revert Hb. generalize (c + 128).
  clear c Hc. intros b Hb. revert b Hb.
  apply (below_256 (fun b => unquote_head (rendered (b - 128) ++ r) = Some (b - 128, r))).
  intros n Hn.
  do 256 (destruct n as [|n]; [vm_compute; reflexivity|]). lia.
Qed.

Lemma concat_rendered_inj (p : list Z) :
  forall q : list Z,
    Forall is_char p -> Forall is_char q ->
    concat (map rendered p) = concat (map rendered q) -> p = q.
Proof.
  induction p as [|c p IH]; intros [|d q] Hp Hq H; simpl in H.
  - reflexivity.
  - inversion Hq as [|? ? Hd _]; subst.
    pose proof (unquote_rendered d (concat (map rendered q)) Hd) as Hu.
    rewrite <- H in Hu. discriminate.
  - inversion Hp as [|? ? Hc _]; subst.
    pose proof (unquote_rendered c (concat (map rendered p)) Hc) as Hu.
    rewrite H in Hu. discriminate.
  - inversion Hp as [|? ? Hc Hp']; inversion Hq as [|? ? Hd Hq']; subst.
    pose proof (unquote_rendered c (concat (map rendered p)) Hc) as Hu.
    rewrite H, (unquote_rendered d _ Hd) in Hu. injection Hu as -> Hr.
    f_equal. apply IH; auto.
Qed.

(** X14.  The quoting loses nothing: two sequences of characters for which
    [quote_cstring_len] writes the same text are the same sequence (the
    renderings of two characters never begin alike, the eight digits of a
    negative character included). *)
Theorem quote_cstring_len_injective (p q : list Z) :
  Forall is_char p -> Forall is_char q ->
  quote_cstring_len p (Z.of_nat (length p)) = quote_cstring_len q (Z.of_nat (length q)) ->
  p = q.
Proof.
  intros Hp Hq.
  assert (He : quote_cstring_len [] (Z.of_nat (length (@nil Z))) = None) by reflexivity.
  destruct p as [|c p], q as [|d q]; [reflexivity| | |].
  - rewrite He, (quote_cstring_len_all (d :: q)) by discriminate. discriminate.
  - rewrite He, (quote_cstring_len_all (c :: p)) by discriminate. discriminate.
  - rewrite (quote_cstring_len_all (c :: p)), (quote_cstring_len_all (d :: q))
      by discriminate.
    intros H. injection H as H. exact (concat_rendered_inj _ _ Hp Hq H).
Qed.

Lemma quote_cstring_len_injective_witness :
  Forall is_char [1; 102; -128] /\ Forall is_char [1; 102; -128]
  /\ quote_cstring_len [1; 102; -128] (Z.of_nat (length [1; 102; -128]))
     = quote_cstring_len [1; 102; -128] (Z.of_nat (length [1; 102; -128]))
  /\ [1; 102; -128] = [1; 102; -128].
Proof.
  assert (H : Forall is_char [1; 102; -128])
    by (repeat constructor; unfold is_char; lia).
  split; [exact H|]. split; [exact H|]. split; [reflexivity|].
  exact (quote_cstring_len_injective _ _ H H eq_refl).
Defined.

End FormatFacts.

Module StreamEndFacts.
Import Stream StreamFacts.

(** The files given by their fields are clean. *)
Ltac clean_concrete :=
  unfold clean, clean_file; simpl;
  repeat (first [apply List.Forall_nil | apply List.Forall_cons | split]);
  unfold EOF, BUF_SIZE; simpl; lia.

Lemma readc_eof_depth :
  forall (n : nat) (fs fs' : files_t),
    (weight fs <= n)%nat -> clean fs -> readc fs = Some (EOF, fs') ->
    length fs' = 1%nat /\ readc fs' = Some (EOF, fs').
Proof.
  induction n as [|n IH]; intros fs fs' Hw Hcl.
  { pose proof (weight_pos fs). lia. }
  rewrite readc_unfold.
  destruct (get fs) as [[c fs1]|] eqn:E1; [|discriminate].
  destruct (get_weight _ _ _ E1) as (Hle & Hlt & Htl & _).
  destruct (get_clean _ _ _ Hcl E1) as [Hcl1 HclT].
  destruct (Z.eqb_spec c EOF) as [Hc|Hc].
  - destruct (Z.eqb_spec (Z.of_nat (length fs1)) 1) as [E|E].
    + intros H. injection H as _ <-. split; [lia|].
      subst c. rewrite readc_unfold, (get_eof_stable _ _ Hcl E1). simpl.
      destruct (Z.eqb_spec (Z.of_nat (length fs1)) 1); [reflexivity|contradiction].
    + apply IH; [lia|exact HclT].
  - destruct (Z.eqb_spec c BACKSLASH) as [Hb|Hb]; simpl.
    2:{ intros H. injection H as -> _. contradiction. }
    destruct (get fs1) as [[c2 fs2]|] eqn:E2; [|discriminate].
    destruct (get_weight _ _ _ E2) as (Hle2 & _).
    destruct (get_clean _ _ _ Hcl1 E2) as [Hcl2 _].
    destruct (c2 =? NL).
    + apply IH; [specialize (Hlt Hc); lia|exact Hcl2].
    + destruct (unreadc c2 fs2); [|discriminate].
      intros H. injection H as -> _. contradiction.
Qed.

(** X15.  On clean files (no byte and no character pushed back is [EOF],
    and at most three characters are pushed back), after [readc] has
    returned a character, [unreadc] of it is accepted and the next [readc]
    returns the character again and leaves the files as the first [readc]
    left them, with their line and their column. *)
Theorem readc_unreadc_round_trip (fs fs1 : files_t) (c : Z) :
  clean fs -> readc fs = Some (c, fs1) -> c <> EOF ->
  exists fs2 : files_t, unreadc c fs1 = Some fs2 /\ readc fs2 = Some (c, fs1).
Proof.
  intros Hcl Hr Hc. exact (readc_unreadc_readc c fs1 Hc (weight fs) fs (le_n _) Hcl Hr).
Qed.

(** The file "a\\\nb": the second character is read behind a splice. *)
Lemma readc_unreadc_round_trip_witness :
  exists fs fs1 : files_t,
    readc [make_file [97; 92; 10; 98]] = Some (97, fs)
    /\ clean fs /\ readc fs = Some (98, fs1) /\ 98 <> EOF
    /\ exists fs2 : files_t, unreadc 98 fs1 = Some fs2 /\ readc fs2 = Some (98, fs1).
Proof.
  do 2 eexists. split; [vm_compute; reflexivity|].
  match goal with |- clean ?fs /\ _ => assert (Hcl : clean fs) end.
  { clean_concrete. }
  match goal with |- _ /\ readc ?fs = Some (?c, ?fs1) /\ _ =>
    assert (Hr : readc fs = Some (c, fs1)) by (vm_compute; reflexivity) end.
  assert (Hc : 98 <> EOF) by (unfold EOF; lia).
  split; [exact Hcl|]. split; [exact Hr|]. split; [exact Hc|].
  exact (readc_unreadc_round_trip _ _ 98 Hcl Hr Hc).
Defined.

(** X16.  On clean files (no byte and no pushed-back character has the
    value of [EOF], and at most three characters are pushed back), [readc]
    returns [EOF] only when one file is left, and then again and again.
    The end of the current file, when another file is below it (the file
    that included it), is not seen: the file is removed and the character
    comes from the file below. *)
Theorem readc_end_of_file :
  (forall fs fs' : files_t,
      clean fs -> readc fs = Some (EOF, fs') ->
      length fs' = 1%nat /\ readc fs' = Some (EOF, fs'))
  /\ (forall (f : File) (fs : files_t),
        fs <> [] -> buf f = [] -> rest f = [] -> at_end (last f) = EOF ->
        readc (f :: fs) = readc fs).
Proof.
  split.
  - intros fs fs' Hcl Hr. exact (readc_eof_depth (weight fs) fs fs' (le_n _) Hcl Hr).
  - intros f fs Hne Hb Hr Hl. rewrite readc_unfold, get_top.
    assert (Hg : get_file f = (EOF, set_last f EOF)).
    { destruct f as [isf rs l col nt la bf]. simpl in Hb, Hr, Hl. subst bf rs.
      unfold get_file, readc_file, readc_string, getc. simpl.
      destruct isf; simpl; rewrite Hl; reflexivity. }
    rewrite Hg. change (EOF =? EOF) with true. cbv iota.
    destruct fs as [|g fs0]; [contradiction|].
    replace (Z.of_nat (length (set_last f EOF :: g :: fs0)) =? 1) with false.
    2:{ symmetry. apply Z.eqb_neq. simpl length. lia. }
    reflexivity.
Qed.

(** A file that has been read to its end, above the file "a". *)
Lemma readc_end_of_file_witness :
  (clean [set_last (make_file []) NL]
   /\ exists fs' : files_t,
        readc [set_last (make_file []) NL] = Some (EOF, fs')
        /\ length fs' = 1%nat /\ readc fs' = Some (EOF, fs'))
  /\ readc [set_last (make_file []) NL; make_file [97]] = readc [make_file [97]].
Proof.
  split.
  - split; [clean_concrete|].
    eexists. split; [vm_compute; reflexivity|].
    apply (proj1 readc_end_of_file [set_last (make_file []) NL]).
    + clean_concrete.
    + vm_compute. reflexivity.
  - apply (proj2 readc_end_of_file); [discriminate|reflexivity|reflexivity|reflexivity].
Defined.

End StreamEndFacts.

Module LexerMoreFacts.
Import Stream Buffer Lexer LexerMore StreamFacts LexerFacts.

(** A statement about given characters. *)
Ltac plain_concrete := vm_compute; repeat constructor; discriminate.

(** *** The token buffers *)

(** X17.  [unget_token] and [lex] are a stack: a token that is not the
    [EOF] token is pushed on the list on top, and the next [lex] returns it
    and leaves the state as it was before [unget_token]; [unget_token] of an
    [EOF] token does nothing. *)
Theorem unget_token_then_lex (s : State) (tok : tokptr) (t : Token)
    (buf : list tokptr) (bs : list (list tokptr)) :
  load s tok = Some t -> buffers s = buf :: bs ->
  (tkind t = TEOF -> unget_token tok s = Ok tt s)
  /\ (tkind t <> TEOF ->
      exists s1 : State,
        unget_token tok s = Ok tt s1
        /\ buffers s1 = (tok :: buf) :: bs
        /\ lex s1 = Ok tok s).
Proof.
  intros Hl Hb. unfold unget_token, bind, deref_tok. rewrite Hl. split.
  - intros ->. reflexivity.
  - intros Hk. replace (is_eof (tkind t)) with false by (destruct (tkind t); simpl; congruence).
    rewrite Hb. eexists. split; [reflexivity|]. split; [reflexivity|].
    destruct s. simpl in Hb. subst. reflexivity.
Qed.

Lemma unget_token_then_lex_witness :
  load (lex_init (make_file [])) NewlineTok = Some (token0 TNEWLINE)
  /\ buffers (lex_init (make_file [])) = [] :: []
  /\ (tkind (token0 TNEWLINE) = TEOF ->
      unget_token NewlineTok (lex_init (make_file [])) = Ok tt (lex_init (make_file [])))
  /\ (tkind (token0 TNEWLINE) <> TEOF ->
      exists s1 : State,
        unget_token NewlineTok (lex_init (make_file [])) = Ok tt s1
        /\ buffers s1 = (NewlineTok :: []) :: []
        /\ lex s1 = Ok NewlineTok (lex_init (make_file []))).
Proof.
  split; [reflexivity|]. split; [reflexivity|].
  exact (unget_token_then_lex (lex_init (make_file [])) NewlineTok (token0 TNEWLINE) [] []
           eq_refl eq_refl).
Defined.

(** *** What [lex] returns *)

Lemma lex_loop_exit :
  forall (n : nat) (tok0 : tokptr) (s1 : State) (tok : tokptr) (s2 : State),
    lex_loop n tok0 s1 = Ok tok s2 ->
    exists t : Token, load s2 tok = Some t /\ is_space (tkind t) = false.
Proof.
  induction n as [|n IH]; intros tok0 s1 tok s2 H; simpl in H; [discriminate|].
  bind_inv H. apply deref_tok_ok in H0. destruct H0 as [-> Hl].
  destruct (is_space (tkind a)) eqn:Es.
  - bind_inv H. bind_inv H. exact (IH _ _ _ _ H).
  - injection H as <- <-. eauto.
Qed.

(** After a space token the loop of [lex] sets the flag [space] of the
    token that it returns. *)
Lemma lex_loop_space :
  forall (n : nat) (tok0 : tokptr) (s1 : State) (tok : tokptr) (s2 : State) (t0 : Token),
    lex_loop n tok0 s1 = Ok tok s2 -> load s1 tok0 = Some t0 ->
    is_space (tkind t0) = true \/ space t0 = true ->
    exists t : Token, load s2 tok = Some t /\ space t = true.
Proof.
  induction n as [|n IH]; intros tok0 s1 tok s2 t0 H Hl0 Hc; simpl in H; [discriminate|].
  bind_inv H. apply deref_tok_ok in H0. destruct H0 as [-> Hl].
  rewrite Hl0 in Hl. injection Hl as <-.
  destruct (is_space (tkind t0)) eqn:Es.
  - bind_inv H. bind_inv H.
    match goal with
    | B : set_space _ _ _ = Ok _ _ |- _ =>
        unfold set_space in B; apply bind_ok in B; destruct B as (t' & sb & Hd & Hst)
    end.
    apply deref_tok_ok in Hd. destruct Hd as [-> Hl'].
    match type of Hst with store _ _ _ = Ok ?u _ => destruct u end.
    apply store_load in Hst. destruct Hst as (Hst & _).
    apply (IH _ _ _ _ _ H Hst). right. reflexivity.
  - injection H as <- <-. destruct Hc as [Hc|Hc]; [discriminate|]. eauto.
Qed.

(** X18.  A token that [lex] reads from the character stream is never a
    space token; when [do_read_token] has first returned the space token,
    for the white space or the comment in front of it, the token that [lex]
    returns has its flag [space] set. *)
Theorem lex_returns_no_space (s s' : State) (p : tokptr) :
  buffers s = [[]] -> lex s = Ok p s' ->
  exists t : Token,
    load s' p = Some t /\ tkind t <> TSPACE
    /\ (forall (p0 : tokptr) (s0 : State) (t0 : Token),
          do_read_token s = Ok p0 s0 -> load s0 p0 = Some t0 -> tkind t0 = TSPACE ->
          space t = true).
Proof.
  intros Hb H. rewrite (lex_from_stream s Hb) in H.
  bind_inv H. bind_inv H. bind_inv H. bind_inv H. injection H as <- <-.
  cbv beta in *.
  match goal with
  | C : current_file _ = Ok _ _ |- _ =>
      unfold current_file in C; destruct (files s); [discriminate|];
      injection C as <- <-
  end.
  match goal with
  | B : set_bol _ _ _ = Ok _ _ |- _ =>
      unfold set_bol in B; apply bind_ok in B; destruct B as (t' & sb & Hd & Hst)
  end.
  apply deref_tok_ok in Hd. destruct Hd as [-> Hl'].
  match type of Hst with store _ _ _ = Ok ?u _ => destruct u end.
  apply store_load in Hst. destruct Hst as (Hst & _).
  match goal with
  | L : lex_loop _ _ _ = Ok _ _ |- _ =>
      pose proof L as L'; destruct (lex_loop_exit _ _ _ _ _ L) as (t & Hl & Hs)
  end.
  rewrite Hl in Hl'. injection Hl' as <-.
  eexists. split; [exact Hst|]. split.
  - simpl. destruct (tkind t); simpl in Hs; congruence.
  - intros p0 s0 t0 Hr Hl0 Hk.
    match goal with
    | R : do_read_token s = Ok _ _ |- _ => rewrite R in Hr; injection Hr as <- <-
    end.
    destruct (lex_loop_space _ _ _ _ _ t0 L' Hl0) as (t1 & Hl1 & Hsp).
    { left. rewrite Hk. reflexivity. }
    rewrite Hl in Hl1. injection Hl1 as <-. exact Hsp.
Qed.

(** The file that holds a comment and the character x. *)
Lemma lex_returns_no_space_witness :
  exists (p : tokptr) (s' : State) (t : Token),
    buffers (lex_init (make_file (str "/**/ x"))) = [[]]
    /\ lex (lex_init (make_file (str "/**/ x"))) = Ok p s'
    /\ load s' p = Some t /\ tkind t <> TSPACE /\ space t = true.
Proof.
  destruct (lex (lex_init (make_file (str "/**/ x")))) as [p s'| | |] eqn:E;
    try (vm_compute in E; discriminate).
  destruct (lex_returns_no_space (lex_init (make_file (str "/**/ x"))) s' p eq_refl E)
    as (t & H1 & H2 & H3).
  exists p, s', t. split; [reflexivity|]. split; [reflexivity|].
  split; [exact H1|]. split; [exact H2|].
  destruct (do_read_token (lex_init (make_file (str "/**/ x")))) as [p0 s0| | |] eqn:E0;
    try (vm_compute in E0; discriminate).
  destruct (load s0 p0) as [t0|] eqn:L0.
  - apply (H3 p0 s0 t0 eq_refl L0).
    vm_compute in E0. injection E0 as <- <-. vm_compute in L0. injection L0 as <-.
    reflexivity.
  - vm_compute in E0. injection E0 as <- <-. vm_compute in L0. discriminate.
Defined.


(** *** The end of the input *)

Lemma readc_at_end (s : State) (f : File) :
  files s = [f] -> buf f = [] -> rest f = [] -> at_end (last f) = EOF ->
  readc s = Ok EOF (set_files s [set_last f EOF]).
Proof.
  intros Hf Hb Hr Hl.
  unfold readc, on_files. rewrite Hf, readc_unfold, get_top.
  destruct f as [isf rs l col nt la bf]. simpl in Hb, Hr, Hl. subst bf rs.
  unfold get_file, readc_file, readc_string, getc. simpl.
  destruct isf; simpl; rewrite Hl; reflexivity.
Qed.

Lemma do_read_token_at_end (s : State) (f : File) :
  files s = [f] -> buf f = [] -> rest f = [] -> at_end (last f) = EOF ->
  do_read_token s
  = Ok EofTok (set_files (set_mark s (mkPos (line f) (column f + 0))) [set_last f EOF]).
Proof.
  intros Hf Hb Hr Hl.
  unfold do_read_token, skip_space, do_skip_space.
  unfold bind at 1. unfold bind at 1. unfold bind at 1.
  rewrite (readc_at_end s f Hf Hb Hr Hl).
  change (EOF =? EOF) with true. cbv iota beta. unfold ret at 1. cbv iota beta.
  change (negb false) with true. cbv iota. unfold ret at 1. cbv iota beta.
  unfold bind at 1. unfold mark, get_pos, current_file, bind, ret. simpl files.
  cbv iota beta.
  rewrite (readc_at_end _ (set_last f EOF)); try reflexivity; try assumption.
Qed.

(** X19.  At the end of the input [lex] returns the [EOF] token, and the
    input is at its end again: every later call returns the [EOF] token
    too. *)
Theorem lex_at_end (s : State) :
  at_end_state s -> buffers s = [[]] -> tkind (eof_token s) = TEOF ->
  exists s' : State,
    lex s = Ok EofTok s'
    /\ at_end_state s' /\ buffers s' = [[]] /\ tkind (eof_token s') = TEOF.
Proof.
  intros (f & Hf & Hb & Hr & Hl) Hbuf Hk.
  rewrite (lex_from_stream s Hbuf).
  unfold bind at 1. unfold current_file. rewrite Hf.
  unfold bind at 1. rewrite (do_read_token_at_end s f Hf Hb Hr Hl).
  unfold bind at 1. unfold fuel_of. simpl lex_loop.
  unfold bind at 1. unfold deref_tok. simpl load. cbv iota beta. rewrite Hk.
  simpl is_space. cbv iota.
  unfold ret at 1. unfold bind, set_bol, deref_tok, bind, store, ret. simpl load.
  eexists. split; [reflexivity|]. simpl.
  split; [|split; [exact Hbuf|exact Hk]].
  exists (set_last f EOF). simpl. auto.
Qed.

(** The empty file after its newline and its end have been read. *)
Lemma lex_at_end_witness :
  exists s' : State,
    at_end_state (lex_init (set_last (make_file []) EOF))
    /\ buffers (lex_init (set_last (make_file []) EOF)) = [[]]
    /\ tkind (eof_token (lex_init (set_last (make_file []) EOF))) = TEOF
    /\ lex (lex_init (set_last (make_file []) EOF)) = Ok EofTok s'
    /\ at_end_state s' /\ buffers s' = [[]] /\ tkind (eof_token s') = TEOF.
Proof.
  assert (H : at_end_state (lex_init (set_last (make_file []) EOF))).
  { eexists. repeat split; reflexivity. }
  destruct (lex_at_end _ H eq_refl eq_refl) as (s' & R).
  exists s'. auto.
Defined.

(** A turn of the loop of [read_ident] at the end of the input: [EOF] is
    read, it passes the test [c & 0x80], and the [char] -1 is written. *)
Lemma read_ident_loop_eof (n : nat) (b : Buffer) (s : State) (f : File) :
  files s = [f] -> buf f = [] -> rest f = [] -> at_end (last f) = EOF ->
  read_ident_loop (S n) b s
  = read_ident_loop n (buf_write b EOF) (set_files s [set_last f EOF]).
Proof.
  intros Hf Hb Hr Hl.
  change (read_ident_loop (S n) b)
    with (do c0 <- readc;
          let c := to_char c0 in
          if isalnum c || negb (Z.land c 128 =? 0) || (c =? 95) || (c =? 36) then
            read_ident_loop n (buf_write b c)
          else
            do ucn <- (if c =? BACKSLASH then peek_ucn else ret false);
            if ucn then
              do r <- read_escaped_char;
              do b' <- write_utf8 b r;
              read_ident_loop n b'
            else
              run unreadc c;
              make_ident (buf_body (buf_write b 0))).
  unfold bind at 1. rewrite (readc_at_end s f Hf Hb Hr Hl). reflexivity.
Qed.

(** X20.  At the end of the input the loop of [read_ident] does not return
    a token: [EOF] passes its test [c & 0x80], so that every turn writes
    the [char] -1 to the buffer and reads [EOF] again.  After [n] turns the
    loop is still running, with [n] more bytes in the buffer, as long as the
    buffer holds fewer than [2 ^ 30] bytes and its [nalloc * 2] is an
    [int]. *)
Theorem read_ident_at_end (s : State) (b : Buffer) (n k : nat) :
  at_end_state s -> Format.buf_ok b -> buf_len b + Z.of_nat n < 2 ^ 30 ->
  exists s' : State,
    at_end_state s' /\ buffers s' = buffers s /\ heap s' = heap s
    /\ IntBuffer.buf_append b (repeat EOF n) = Some (buf_append b (repeat EOF n))
    /\ Buffer.body (buf_append b (repeat EOF n)) = Buffer.body b ++ repeat (-1) n
    /\ read_ident_loop (n + k) b s = read_ident_loop k (buf_append b (repeat EOF n)) s'
    /\ read_ident_loop n b s = Diverge.
Proof.
  intros Hs Hb Hn.
  assert (Hint : IntBuffer.buf_append b (repeat EOF n) = Some (buf_append b (repeat EOF n))).
  { apply FormatFacts.buf_append_int; [exact Hb|]. rewrite repeat_length. exact Hn. }
  assert (Hbody : Buffer.body (buf_append b (repeat EOF n)) = Buffer.body b ++ repeat (-1) n).
  { destruct (FormatFacts.buf_append_spec (repeat EOF n) b Hb) as [H _]. rewrite H.
    f_equal. clear. induction n as [|n IH]; simpl; [reflexivity|]. rewrite IH. reflexivity. }
  assert (Hrun : forall k' : nat,
            exists s' : State,
              at_end_state s' /\ buffers s' = buffers s /\ heap s' = heap s
              /\ read_ident_loop (n + k') b s
                 = read_ident_loop k' (buf_append b (repeat EOF n)) s').
  { clear Hb Hn Hint Hbody. revert b s Hs.
    induction n as [|n IH]; intros b s Hs k'.
    - exists s. auto.
    - destruct Hs as (f & Hf & Hbf & Hr & Hl).
      change (S n + k')%nat with (S (n + k')).
      rewrite (read_ident_loop_eof (n + k') b s f Hf Hbf Hr Hl).
      destruct (IH (buf_write b EOF) (set_files s [set_last f EOF])) with (k' := k')
        as (s' & H1 & H2 & H3 & H4).
      { exists (set_last f EOF). simpl. auto. }
      exists s'. split; [exact H1|]. split; [exact H2|]. split; [exact H3|]. exact H4. }
  destruct (Hrun k) as (s' & H1 & H2 & H3 & H4).
  exists s'. repeat (split; [assumption|]).
  destruct (Hrun 0%nat) as (s0 & _ & _ & _ & H0).
  rewrite Nat.add_0_r in H0. rewrite H0. reflexivity.
Qed.

(** The identifier a at the end of the input: after five turns the buffer
    holds a and five times the [char] -1. *)
Lemma read_ident_at_end_witness :
  at_end_state (lex_init (set_last (make_file []) NL))
  /\ Format.buf_ok (buf_write make_buffer 97)
  /\ buf_len (buf_write make_buffer 97) + Z.of_nat 5 < 2 ^ 30
  /\ exists s' : State,
       at_end_state s'
       /\ Buffer.body (buf_append (buf_write make_buffer 97) (repeat EOF 5))
          = [97; -1; -1; -1; -1; -1]
       /\ read_ident_loop (5 + 0) (buf_write make_buffer 97)
            (lex_init (set_last (make_file []) NL))
          = read_ident_loop 0 (buf_append (buf_write make_buffer 97) (repeat EOF 5)) s'
       /\ read_ident_loop 5 (buf_write make_buffer 97)
            (lex_init (set_last (make_file []) NL)) = Diverge.
Proof.
  assert (H : at_end_state (lex_init (set_last (make_file []) NL))).
  { eexists. repeat split; reflexivity. }
  assert (Hb : Format.buf_ok (buf_write make_buffer 97)) by (vm_compute; reflexivity).
  assert (Hn : buf_len (buf_write make_buffer 97) + Z.of_nat 5 < 2 ^ 30) by reflexivity.
  split; [exact H|]. split; [exact Hb|]. split; [exact Hn|].
  destruct (read_ident_at_end _ (buf_write make_buffer 97) 5 0 H Hb Hn)
    as (s' & H1 & _ & _ & _ & H5 & H6 & H7).
  exists s'. split; [exact H1|]. split; [exact H5|]. split; [exact H6|exact H7].
Defined.


(** *** Reading plain characters *)


Lemma buf_write_plain (b : Buffer) (c : Z) :
  0 <= c < 128 ->
  Buffer.body (buf_write b c) = Buffer.body b ++ [c]
  /\ buf_len (buf_write b c) = buf_len b + 1.
Proof.
  intros Hc. unfold buf_write, buf_len. rewrite to_char_small by lia.
  destruct (nalloc b =? Z.of_nat (length (Buffer.body b)) + 1); simpl;
    rewrite length_app; simpl; split; try reflexivity; lia.
Qed.

(** The file after [readc] has returned the plain character [c] from it. *)
Lemma after_plain (f : File) (c : Z) (r : list Z) :
  buf f = [] ->
  rest (advance c (set_last (set_rest f r) c)) = r
  /\ buf (advance c (set_last (set_rest f r) c)) = []
  /\ ntok (advance c (set_last (set_rest f r) c)) = ntok f
  /\ last (advance c (set_last (set_rest f r) c)) = c.
Proof.
  intros Hb.
  destruct (advance_fields c (set_last (set_rest f r) c)) as (A1 & A2 & A3 & _).
  rewrite A1, A2, A3, advance_ntok. simpl. auto.
Qed.

(** *** String literals *)




(** At the end of a file whose last character was no newline, [readc]
    returns the newline that the reader adds. *)
Lemma readc_added_newline (s : State) (f : File) (fs : files_t) :
  files s = f :: fs -> buf f = [] -> rest f = [] -> at_end (last f) = NL ->
  readc s = Ok NL (set_files s (advance NL (set_last f NL) :: fs)).
Proof.
  intros Hf Hb Hr Hl.
  unfold readc, on_files. rewrite Hf, readc_unfold, get_top.
  destruct f as [isf rs l col nt la bf]. simpl in Hb, Hr, Hl. subst bf rs.
  unfold get_file, readc_file, readc_string, getc. simpl.
  destruct isf; simpl; rewrite Hl; reflexivity.
Qed.

Lemma fuel_of_rest (s : State) (f : File) (fs : files_t) :
  files s = f :: fs -> (2 * length (rest f) + 3 <= fuel_of s)%nat.
Proof.
  intros Hf. unfold fuel_of. rewrite Hf. simpl. unfold weight_file.
  pose proof (weight_pos fs). lia.
Qed.





(** *** Pushing back and reading again *)

Lemma pushed_fields (c : Z) (f : File) :
  rest (pushed c f) = rest f /\ buf (pushed c f) = c :: buf f
  /\ ntok (pushed c f) = ntok f /\ last (pushed c f) = last f
  /\ is_file (pushed c f) = is_file f.
Proof. unfold pushed. destruct (c =? NL); simpl; auto. Qed.

Lemma unreadc_push (s : State) (f : File) (fs : files_t) (c : Z) :
  files s = f :: fs -> c <> EOF -> Z.of_nat (length (buf f)) < BUF_SIZE ->
  unreadc c s = Ok tt (set_files s (pushed c f :: fs)).
Proof.
  intros Hf Hc Hl. unfold unreadc, on_files. rewrite Hf.
  rewrite unreadc_top by exact Hc. unfold unreadc_file, pushed.
  destruct (Z.ltb_spec (Z.of_nat (length (buf f))) BUF_SIZE); [|lia].
  destruct (c =? NL); reflexivity.
Qed.

Lemma readc_buf (s : State) (f : File) (fs : files_t) (c : Z) (b : list Z) :
  files s = f :: fs -> buf f = c :: b -> c <> EOF -> c <> BACKSLASH ->
  readc s = Ok c (set_files s (advance c (set_buf f b) :: fs)).
Proof.
  intros Hf Hb Hc Hbs. unfold readc, on_files. rewrite Hf, readc_unfold, get_top.
  unfold get_file. rewrite Hb.
  destruct (Z.eqb_spec c EOF); [contradiction|].
  destruct (Z.eqb_spec c BACKSLASH); [contradiction|]. reflexivity.
Qed.

Lemma after_buf (c : Z) (f : File) (b : list Z) :
  rest (advance c (set_buf f b)) = rest f /\ buf (advance c (set_buf f b)) = b
  /\ ntok (advance c (set_buf f b)) = ntok f.
Proof.
  destruct (advance_fields c (set_buf f b)) as (A1 & A2 & _).
  rewrite A1, A2, advance_ntok. simpl. auto.
Qed.

Lemma plain_not_eof (c : Z) : plain c -> c <> EOF.
Proof. unfold plain, EOF. lia. Qed.

(** *** Comments *)

Lemma skip_block_comment_loop_S (n : nat) (maybe_end : bool) :
  skip_block_comment_loop (S n) maybe_end
  = (do c <- readc;
     if c =? EOF then errorp "premature end of block comment"
     else if (c =? 47) && maybe_end then ret tt
     else skip_block_comment_loop n (c =? 42)).
Proof. reflexivity. Qed.

Lemma skip_block_comment_loop_closed (tail : list Z) (fs : files_t) :
  forall (chars : list Z) (n : nat) (s : State) (f : File) (maybe_end : bool),
    files s = f :: fs -> buf f = [] -> rest f = chars ++ 42 :: 47 :: tail ->
    Forall plain chars ->
    (forall l1 l2 : list Z, chars <> l1 ++ 42 :: 47 :: l2) ->
    (maybe_end = true -> forall r : list Z, chars <> 47 :: r) ->
    (length chars + 2 <= n)%nat ->
    exists f' : File,
      skip_block_comment_loop n maybe_end s = Ok tt (set_files s (f' :: fs))
      /\ rest f' = tail /\ buf f' = [].
Proof.
  assert (P42 : plain 42) by (unfold plain, BACKSLASH, CR; lia).
  assert (P47 : plain 47) by (unfold plain, BACKSLASH, CR; lia).
  induction chars as [|c0 chars IH]; intros n s f me Hf Hb Hr Hp Hno Hme Hn.
  - destruct n as [|[|n]]; try (simpl in Hn; lia). simpl in Hr.
    rewrite skip_block_comment_loop_S. unfold bind at 1.
    rewrite (readc_plain s f fs 42 _ Hf Hb Hr P42).
    change (42 =? EOF) with false. change (42 =? 47) with false.
    change (42 =? 42) with true. change (false && me) with false. cbv iota beta.
    destruct (after_plain f 42 (47 :: tail) Hb) as (A1 & A2 & _).
    rewrite skip_block_comment_loop_S. unfold bind at 1.
    match goal with
    | |- context [readc (set_files s (?F :: fs))] =>
        rewrite (readc_plain (set_files s (F :: fs)) F fs 47 tail eq_refl A2 A1 P47)
    end.
    change (47 =? EOF) with false. change (47 =? 47) with true.
    change (true && true) with true. cbv iota beta.
    eexists. split; [reflexivity|].
    match goal with
    | |- rest (advance 47 (set_last (set_rest ?F tail) 47)) = _ /\ _ =>
        destruct (after_plain F 47 tail A2) as (A3 & A4 & _)
    end. auto.
  - destruct n as [|n]; [simpl in Hn; lia|]. simpl in Hn, Hr.
    inversion Hp as [|? ? Hc0 Hp']; subst.
    rewrite skip_block_comment_loop_S. unfold bind at 1.
    rewrite (readc_plain s f fs c0 _ Hf Hb Hr Hc0).
    destruct (Z.eqb_spec c0 EOF) as [E|_]; [destruct (plain_not_eof c0 Hc0 E)|].
    assert (Hcont : (c0 =? 47) && me = false).
    { destruct (Z.eqb_spec c0 47) as [->|_]; [|reflexivity].
      destruct me; [|reflexivity]. destruct (Hme eq_refl chars eq_refl). }
    rewrite Hcont. cbv iota beta.
    destruct (after_plain f c0 (chars ++ 42 :: 47 :: tail) Hb) as (A1 & A2 & _).
    destruct (IH n (set_files s (advance c0 (set_last (set_rest f (chars ++ 42 :: 47 :: tail)) c0) :: fs))
                _ (c0 =? 42) eq_refl A2 A1 Hp') as (f' & H1 & H2).
    + intros l1 l2 E. apply (Hno (c0 :: l1) l2). rewrite E. reflexivity.
    + intros E r Er. apply Z.eqb_eq in E. subst c0 chars. apply (Hno [] r). reflexivity.
    + lia.
    + exists f'. split; [exact H1|exact H2].
Qed.

Lemma skip_block_comment_loop_open :
  forall (chars : list Z) (n : nat) (s : State) (f : File) (maybe_end : bool),
    files s = [f] -> buf f = [] -> rest f = chars ->
    Forall plain chars ->
    (forall l1 l2 : list Z, chars <> l1 ++ 42 :: 47 :: l2) ->
    (maybe_end = true -> forall r : list Z, chars <> 47 :: r) ->
    (length chars + 2 <= n)%nat ->
    skip_block_comment_loop n maybe_end s = Fatal "premature end of block comment".
Proof.
  induction chars as [|c0 chars IH]; intros n s f me Hf Hb Hr Hp Hno Hme Hn.
  - destruct n as [|n]; [simpl in Hn; lia|].
    rewrite skip_block_comment_loop_S. unfold bind at 1.
    destruct (at_end_cases (last f)) as [He|He].
    + rewrite (readc_at_end s f Hf Hb Hr He). reflexivity.
    + rewrite (readc_added_newline s f [] Hf Hb Hr He).
      change (NL =? EOF) with false. change (NL =? 47) with false.
      change (NL =? 42) with false. change (false && me) with false. cbv iota beta.
      destruct n as [|n]; [simpl in Hn; lia|].
      rewrite skip_block_comment_loop_S. unfold bind at 1.
      rewrite (readc_at_end _ (advance NL (set_last f NL))); try reflexivity.
      * destruct (advance_fields NL (set_last f NL)) as (_ & A2 & _). rewrite A2. exact Hb.
      * destruct (advance_fields NL (set_last f NL)) as (A1 & _). rewrite A1. exact Hr.
  - destruct n as [|n]; [simpl in Hn; lia|]. simpl in Hn.
    inversion Hp as [|? ? Hc0 Hp']; subst.
    rewrite skip_block_comment_loop_S. unfold bind at 1.
    rewrite (readc_plain s f [] c0 chars Hf Hb Hr Hc0).
    destruct (Z.eqb_spec c0 EOF) as [E|_]; [destruct (plain_not_eof c0 Hc0 E)|].
    assert (Hcont : (c0 =? 47) && me = false).
    { destruct (Z.eqb_spec c0 47) as [->|_]; [|reflexivity].
      destruct me; [|reflexivity]. destruct (Hme eq_refl chars eq_refl). }
    rewrite Hcont. cbv iota beta.
    destruct (after_plain f c0 chars Hb) as (A1 & A2 & _).
    apply (IH n _ (advance c0 (set_last (set_rest f chars) c0))); auto.
    + intros l1 l2 E. apply (Hno (c0 :: l1) l2). rewrite E. reflexivity.
    + intros E r Er. apply Z.eqb_eq in E. subst c0 chars. apply (Hno [] r). reflexivity.
    + lia.
Qed.

(** X22.  A block comment of plain characters: after its opening,
    [skip_block_comment] reads up to the first asterisk that a slash
    follows, and leaves the input behind the slash; nothing but the current
    file changes.  When no such pair comes before the end of the only file
    it ends the compilation with the error "premature end of block
    comment". *)
Theorem skip_block_comment_plain (s : State) (f : File) (fs : files_t) (chars : list Z) :
  files s = f :: fs -> buf f = [] -> Forall plain chars ->
  (forall l1 l2 : list Z, chars <> l1 ++ 42 :: 47 :: l2) ->
  (forall tail : list Z,
      rest f = chars ++ 42 :: 47 :: tail ->
      exists f' : File,
        skip_block_comment s = Ok tt (set_files s (f' :: fs))
        /\ rest f' = tail /\ buf f' = [])
  /\ (rest f = chars -> fs = [] ->
      skip_block_comment s = Fatal "premature end of block comment").
Proof.
  intros Hf Hb Hp Hno.
  assert (Hpos : skip_block_comment s = skip_block_comment_loop (fuel_of s) false s).
  { unfold skip_block_comment, bind, get_pos, current_file, bind, ret.
    rewrite Hf. reflexivity. }
  rewrite Hpos. pose proof (fuel_of_rest s f fs Hf) as Hw. split.
  - intros tail Hr.
    apply (skip_block_comment_loop_closed tail fs chars (fuel_of s) s f); try assumption.
    + discriminate.
    + rewrite Hr, length_app in Hw. simpl in Hw. lia.
  - intros Hr ->.
    apply (skip_block_comment_loop_open chars _ s f); try assumption.
    + discriminate.
    + rewrite Hr in Hw. lia.
Qed.


(** The comment that holds the character a and an asterisk, before the
    character x. *)
Lemma skip_block_comment_plain_witness :
  files (lex_init (make_file [97; 42; 42; 47; 120])) = [make_file [97; 42; 42; 47; 120]]
  /\ buf (make_file [97; 42; 42; 47; 120]) = []
  /\ Forall plain [97; 42]
  /\ (forall l1 l2 : list Z, [97; 42] <> l1 ++ 42 :: 47 :: l2)
  /\ rest (make_file [97; 42; 42; 47; 120]) = [97; 42] ++ 42 :: 47 :: [120]
  /\ exists f' : File,
       skip_block_comment (lex_init (make_file [97; 42; 42; 47; 120]))
       = Ok tt (set_files (lex_init (make_file [97; 42; 42; 47; 120])) [f'])
       /\ rest f' = [120] /\ buf f' = [].
Proof.
  assert (Hp : Forall plain [97; 42]).
  { plain_concrete. }
  assert (Hno : forall l1 l2 : list Z, [97; 42] <> l1 ++ 42 :: 47 :: l2).
  { intros [|x [|y [|z l1]]] l2 E; simpl in E; discriminate E. }
  repeat (split; [first [reflexivity|assumption]|]).
  exact (proj1 (skip_block_comment_plain (lex_init (make_file [97; 42; 42; 47; 120]))
                  (make_file [97; 42; 42; 47; 120]) [] [97; 42] eq_refl eq_refl Hp Hno)
           [120] eq_refl).
Defined.

Lemma skip_line_loop_S (n : nat) :
  skip_line_loop (S n)
  = (do c <- readc;
     if c =? EOF then ret tt
     else if c =? NL then unreadc c
     else skip_line_loop n).
Proof. reflexivity. Qed.

Lemma advance_line (c : Z) (f : File) : c <> NL -> line (advance c f) = line f.
Proof.
  intros Hc. unfold advance. destruct (Z.eqb_spec c NL); [contradiction|].
  destruct (negb (c =? EOF)); reflexivity.
Qed.

Lemma skip_line_loop_spec (tail : list Z) (fs : files_t) :
  forall (chars : list Z) (n : nat) (s : State) (f : File),
    files s = f :: fs -> buf f = [] -> rest f = chars ++ NL :: tail ->
    Forall plain chars -> Forall (fun c => c <> NL) chars ->
    (length chars < n)%nat ->
    exists f' : File,
      skip_line_loop n s = Ok tt (set_files s (f' :: fs))
      /\ rest f' = tail /\ buf f' = [NL] /\ line f' = line f /\ column f' = 1.
Proof.
  assert (PNL : plain NL) by (unfold plain, NL, BACKSLASH, CR; lia).
  induction chars as [|c0 chars IH]; intros n s f Hf Hb Hr Hp Hq Hn.
  - destruct n as [|n]; [simpl in Hn; lia|]. simpl in Hr.
    rewrite skip_line_loop_S. unfold bind at 1.
    rewrite (readc_plain s f fs NL tail Hf Hb Hr PNL).
    change (NL =? EOF) with false. change (NL =? NL) with true. cbv iota beta.
    destruct (after_plain f NL tail Hb) as (A1 & A2 & _).
    rewrite (unreadc_push (set_files s (advance NL (set_last (set_rest f tail) NL) :: fs))
               (advance NL (set_last (set_rest f tail) NL)) fs NL eq_refl).
    + eexists. split; [reflexivity|].
      destruct (pushed_fields NL (advance NL (set_last (set_rest f tail) NL)))
        as (P1 & P2 & _).
      rewrite P1, P2, A1, A2. repeat split.
      unfold pushed, advance. simpl. lia.
    + unfold EOF, NL. lia.
    + rewrite A2. unfold BUF_SIZE. simpl. lia.
  - destruct n as [|n]; [simpl in Hn; lia|]. simpl in Hn, Hr.
    inversion Hp as [|? ? Hc0 Hp']; subst. inversion Hq as [|? ? Hq0 Hq']; subst.
    rewrite skip_line_loop_S. unfold bind at 1.
    rewrite (readc_plain s f fs c0 _ Hf Hb Hr Hc0).
    destruct (Z.eqb_spec c0 EOF) as [E|_]; [destruct (plain_not_eof c0 Hc0 E)|].
    destruct (Z.eqb_spec c0 NL) as [E|_]; [contradiction|]. cbv iota beta.
    destruct (after_plain f c0 (chars ++ NL :: tail) Hb) as (A1 & A2 & _).
    destruct (IH n (set_files s (advance c0 (set_last (set_rest f (chars ++ NL :: tail)) c0) :: fs))
                _ eq_refl A2 A1 Hp' Hq') as (f' & H1 & H2 & H3 & H4 & H5); [lia|].
    exists f'. split; [exact H1|]. rewrite H4, advance_line by exact Hq0. auto.
Qed.

(** X23.  A line comment of plain characters: after its two slashes,
    [skip_line] reads up to the newline and pushes the newline back; the
    line is the one of the comment, the column is 1, and the next [readc]
    returns the newline, which is no part of the comment. *)
Theorem skip_line_plain (s : State) (f : File) (fs : files_t) (chars tail : list Z) :
  files s = f :: fs -> buf f = [] -> rest f = chars ++ NL :: tail ->
  Forall plain chars -> Forall (fun c => c <> NL) chars ->
  exists f' f'' : File,
    skip_line s = Ok tt (set_files s (f' :: fs))
    /\ rest f' = tail /\ buf f' = [NL] /\ line f' = line f /\ column f' = 1
    /\ readc (set_files s (f' :: fs)) = Ok NL (set_files s (f'' :: fs))
    /\ rest f'' = tail /\ buf f'' = [] /\ line f'' = line f + 1 /\ column f'' = 1.
Proof.
  intros Hf Hb Hr Hp Hq. unfold skip_line.
  destruct (skip_line_loop_spec tail fs chars (fuel_of s) s f Hf Hb Hr Hp Hq)
    as (f' & H1 & H2 & H3 & H4 & H5).
  { pose proof (fuel_of_rest s f fs Hf) as Hw. rewrite Hr, length_app in Hw.
    simpl in Hw. lia. }
  exists f', (advance NL (set_buf f' [])).
  split; [exact H1|]. repeat (split; [assumption|]).
  split.
  { apply (readc_buf (set_files s (f' :: fs)) f' fs NL [] eq_refl H3);
      unfold NL, EOF, BACKSLASH; lia. }
  destruct (after_buf NL f' []) as (B1 & B2 & _).
  rewrite B1, B2, H2. unfold advance. simpl. rewrite H4. auto.
Qed.

Lemma skip_line_plain_witness :
  files (lex_init (make_file [97; 98; 10; 120])) = [make_file [97; 98; 10; 120]]
  /\ buf (make_file [97; 98; 10; 120]) = []
  /\ rest (make_file [97; 98; 10; 120]) = [97; 98] ++ NL :: [120]
  /\ Forall plain [97; 98] /\ Forall (fun c => c <> NL) [97; 98]
  /\ exists f' f'' : File,
       skip_line (lex_init (make_file [97; 98; 10; 120]))
       = Ok tt (set_files (lex_init (make_file [97; 98; 10; 120])) [f'])
       /\ rest f' = [120] /\ buf f' = [NL]
       /\ line f' = line (make_file [97; 98; 10; 120]) /\ column f' = 1
       /\ readc (set_files (lex_init (make_file [97; 98; 10; 120])) [f'])
          = Ok NL (set_files (lex_init (make_file [97; 98; 10; 120])) [f''])
       /\ rest f'' = [120] /\ buf f'' = []
       /\ line f'' = line (make_file [97; 98; 10; 120]) + 1 /\ column f'' = 1.
Proof.
  assert (Hp : Forall plain [97; 98]).
  { plain_concrete. }
  assert (Hq : Forall (fun c => c <> NL) [97; 98]).
  { plain_concrete. }
  repeat (split; [first [reflexivity|assumption]|]).
  exact (skip_line_plain (lex_init (make_file [97; 98; 10; 120]))
           (make_file [97; 98; 10; 120]) [] [97; 98] [120] eq_refl eq_refl eq_refl Hp Hq).
Defined.


(** *** Identifiers and numbers *)

Lemma read_ident_loop_S (n : nat) (b : Buffer) :
  read_ident_loop (S n) b
  = (do c0 <- readc;
     if isalnum (to_char c0) || negb (Z.land (to_char c0) 128 =? 0)
        || (to_char c0 =? 95) || (to_char c0 =? 36)
     then read_ident_loop n (buf_write b (to_char c0))
     else
       do ucn <- (if to_char c0 =? BACKSLASH then peek_ucn else ret false);
       if ucn then
         do r <- read_escaped_char;
         do b' <- write_utf8 b r;
         read_ident_loop n b'
       else
         run unreadc (to_char c0);
         make_ident (buf_body (buf_write b 0))).
Proof. reflexivity. Qed.

Lemma land_128 (c : Z) : 0 <= c < 128 -> Z.land c 128 = 0.
Proof.
  intros Hc. assert (H : 0 <= c < 256) by lia. revert c H Hc.
  apply (BufferFacts.below_256 (fun c => 0 <= c < 128 -> Z.land c 128 = 0)).
  intros n Hn.
  do 128 (destruct n as [|n]; [intros _; reflexivity|]). lia.
Qed.

(** The test of [read_ident] on a plain character. *)
Lemma read_ident_test (c : Z) :
  plain c ->
  to_char c = c
  /\ isalnum (to_char c) || negb (Z.land (to_char c) 128 =? 0)
     || (to_char c =? 95) || (to_char c =? 36) = ident_char c.
Proof.
  intros (Hc & _ & _). rewrite to_char_small by lia. split; [reflexivity|].
  rewrite land_128 by lia. unfold ident_char. simpl. rewrite orb_false_r. reflexivity.
Qed.







(** *** White space and header names *)

(** [readc] on a file with at most one character pushed back: the pushed
    character or else the next character of the file, when it is plain. *)
Lemma readc_pending (s : State) (f : File) (fs : files_t) (c : Z) (r : list Z) :
  files s = f :: fs -> (length (buf f) <= 1)%nat -> buf f ++ rest f = c :: r ->
  plain c ->
  exists f' : File,
    readc s = Ok c (set_files s (f' :: fs)) /\ buf f' = [] /\ rest f' = r.
Proof.
  intros Hf Hl Hp Hc. destruct (buf f) as [|c0 [|c1 b]] eqn:Hb; simpl in Hl, Hp; try lia.
  - rewrite (readc_plain s f fs c r Hf Hb Hp Hc). eexists. split; [reflexivity|].
    destruct (after_plain f c r Hb) as (A1 & A2 & _). auto.
  - injection Hp as -> Hr. destruct Hc as (Hc1 & Hc2 & Hc3).
    rewrite (readc_buf s f fs c [] Hf Hb); [|unfold EOF; lia|exact Hc2].
    eexists. split; [reflexivity|].
    destruct (after_buf c f []) as (A1 & A2 & _). rewrite A1, A2. auto.
Qed.


Lemma do_skip_space_white (s : State) (f : File) (fs : files_t) (c : Z) (r : list Z) :
  files s = f :: fs -> (length (buf f) <= 1)%nat -> buf f ++ rest f = c :: r ->
  plain c -> iswhitespace c = true ->
  exists f' : File,
    do_skip_space s = Ok true (set_files s (f' :: fs)) /\ buf f' = [] /\ rest f' = r.
Proof.
  intros Hf Hl Hp Hc Hw.
  destruct (readc_pending s f fs c r Hf Hl Hp Hc) as (f1 & E & B & R).
  unfold do_skip_space, bind. rewrite E.
  destruct (Z.eqb_spec c EOF) as [E0|_]; [destruct (plain_not_eof c Hc E0)|].
  rewrite Hw. exists f1. auto.
Qed.

Lemma do_skip_space_stop (s : State) (f : File) (fs : files_t) (c : Z) (r : list Z) :
  files s = f :: fs -> (length (buf f) <= 1)%nat -> buf f ++ rest f = c :: r ->
  plain c -> iswhitespace c = false -> c <> 47 ->
  exists f' : File,
    do_skip_space s = Ok false (set_files s (f' :: fs)) /\ buf f' = [c] /\ rest f' = r.
Proof.
  intros Hf Hl Hp Hc Hw Hs.
  destruct (readc_pending s f fs c r Hf Hl Hp Hc) as (f1 & E & B & R).
  unfold do_skip_space, bind. rewrite E.
  destruct (Z.eqb_spec c EOF) as [E0|_]; [destruct (plain_not_eof c Hc E0)|].
  rewrite Hw. destruct (Z.eqb_spec c 47) as [E1|_]; [contradiction|].
  rewrite (unreadc_push (set_files s (f1 :: fs)) f1 fs c eq_refl (plain_not_eof c Hc))
    by (rewrite B; unfold BUF_SIZE; simpl; lia).
  exists (pushed c f1). split; [reflexivity|].
  destruct (pushed_fields c f1) as (P1 & P2 & _). rewrite P1, P2, B. auto.
Qed.

Lemma skip_space_loop_S (n : nat) :
  skip_space_loop (S n)
  = (do more <- do_skip_space; if more then skip_space_loop n else ret tt).
Proof. reflexivity. Qed.

Lemma skip_space_loop_spec (fs : files_t) (c : Z) (r : list Z) :
  plain c -> iswhitespace c = false -> c <> 47 ->
  forall (sp : list Z) (n : nat) (s : State) (f : File),
    files s = f :: fs -> (length (buf f) <= 1)%nat ->
    buf f ++ rest f = sp ++ c :: r ->
    Forall plain sp -> Forall (fun x => iswhitespace x = true) sp ->
    (length sp < n)%nat ->
    exists f' : File,
      skip_space_loop n s = Ok tt (set_files s (f' :: fs))
      /\ buf f' = [c] /\ rest f' = r.
Proof.
  intros Hc Hw Hs.
  induction sp as [|x sp IH]; intros n s f Hf Hl Hp Hpl Hsp Hn;
    (destruct n as [|n]; [simpl in Hn; lia|]); simpl in Hp, Hn;
    rewrite skip_space_loop_S; unfold bind at 1.
  - destruct (do_skip_space_stop s f fs c r Hf Hl Hp Hc Hw Hs) as (f1 & E & B & R).
    rewrite E. exists f1. auto.
  - inversion Hpl as [|? ? Hx Hpl']; subst. inversion Hsp as [|? ? Hwx Hsp']; subst.
    destruct (do_skip_space_white s f fs x _ Hf Hl Hp Hx Hwx) as (f1 & E & B & R).
    rewrite E.
    destruct (IH n (set_files s (f1 :: fs)) f1 eq_refl) as (f2 & E2 & B2 & R2);
      try assumption; try lia.
    { rewrite B. simpl. lia. }
    { rewrite B, R. reflexivity. }
    exists f2. auto.
Qed.

(** [skip_space] before a plain character that is no white space and no
    slash: the white space is skipped, the character is pushed back, and the
    result tells whether there was white space. *)
Lemma skip_space_spec (s : State) (f : File) (fs : files_t)
    (sp : list Z) (c : Z) (r : list Z) :
  files s = f :: fs -> (length (buf f) <= 1)%nat ->
  buf f ++ rest f = sp ++ c :: r ->
  Forall plain sp -> Forall (fun x => iswhitespace x = true) sp ->
  plain c -> iswhitespace c = false -> c <> 47 ->
  exists f' : File,
    skip_space s = Ok (negb (Z.of_nat (length sp) =? 0)) (set_files s (f' :: fs))
    /\ buf f' = [c] /\ rest f' = r.
Proof.
  intros Hf Hl Hp Hpl Hsp Hc Hw Hs. unfold skip_space. unfold bind at 1.
  destruct sp as [|x sp]; simpl in Hp.
  - destruct (do_skip_space_stop s f fs c r Hf Hl Hp Hc Hw Hs) as (f1 & E & B & R).
    rewrite E. exists f1. auto.
  - inversion Hpl as [|? ? Hx Hpl']; subst. inversion Hsp as [|? ? Hwx Hsp']; subst.
    destruct (do_skip_space_white s f fs x _ Hf Hl Hp Hx Hwx) as (f1 & E & B & R).
    rewrite E. change (negb true) with false. cbv iota. unfold bind at 1.
    destruct (skip_space_loop_spec fs c r Hc Hw Hs sp
                (fuel_of (set_files s (f1 :: fs))) (set_files s (f1 :: fs)) f1 eq_refl)
      as (f2 & E2 & B2 & R2); try assumption.
    { rewrite B. simpl. lia. }
    { rewrite B, R. reflexivity. }
    { pose proof (fuel_of_rest (set_files s (f1 :: fs)) f1 fs eq_refl) as Hw1.
      rewrite R, length_app in Hw1. simpl in Hw1. lia. }
    rewrite E2. exists f2. split; [|auto].
    replace (Z.of_nat (length (x :: sp)) =? 0) with false; [reflexivity|].
    symmetry. apply Z.eqb_neq. simpl length. lia.
Qed.

(** X26.  [skip_space] skips blanks, tabs, form feeds and vertical tabs up
    to the first plain character that is none of them and no slash, which
    the next [readc] returns; its result tells whether anything was
    skipped. *)
Theorem skip_space_blanks (s : State) (f : File) (fs : files_t)
    (sp : list Z) (c : Z) (r : list Z) :
  files s = f :: fs -> buf f = [] -> rest f = sp ++ c :: r ->
  Forall (fun x => x = 32 \/ x = 9 \/ x = 12 \/ x = 11) sp ->
  plain c -> iswhitespace c = false -> c <> 47 ->
  exists f' f'' : File,
    skip_space s = Ok (negb (Z.of_nat (length sp) =? 0)) (set_files s (f' :: fs))
    /\ readc (set_files s (f' :: fs)) = Ok c (set_files s (f'' :: fs))
    /\ buf f'' = [] /\ rest f'' = r.
Proof.
  intros Hf Hb Hr Hsp Hc Hw Hs.
  destruct (skip_space_spec s f fs sp c r Hf) as (f1 & E & B & R);
    try assumption.
  - rewrite Hb. simpl. lia.
  - rewrite Hb. exact Hr.
  - eapply List.Forall_impl; [|exact Hsp]. simpl. intros x Hx. unfold plain, BACKSLASH, CR. lia.
  - eapply List.Forall_impl; [|exact Hsp]. simpl.
    intros x [->|[->|[->| ->]]]; reflexivity.
  - destruct (readc_pending (set_files s (f1 :: fs)) f1 fs c r eq_refl) as (f2 & E2 & B2 & R2);
      try assumption.
    + rewrite B. simpl. lia.
    + rewrite B, R. reflexivity.
    + exists f1, f2. auto.
Qed.

(** Two blanks and a tab before the character x. *)
Lemma skip_space_blanks_witness :
  files (lex_init (make_file [32; 32; 9; 120; 59])) = [make_file [32; 32; 9; 120; 59]]
  /\ buf (make_file [32; 32; 9; 120; 59]) = []
  /\ rest (make_file [32; 32; 9; 120; 59]) = [32; 32; 9] ++ 120 :: [59]
  /\ Forall (fun x => x = 32 \/ x = 9 \/ x = 12 \/ x = 11) [32; 32; 9]
  /\ plain 120 /\ iswhitespace 120 = false /\ 120 <> 47
  /\ exists f' f'' : File,
       skip_space (lex_init (make_file [32; 32; 9; 120; 59]))
       = Ok true (set_files (lex_init (make_file [32; 32; 9; 120; 59])) [f'])
       /\ readc (set_files (lex_init (make_file [32; 32; 9; 120; 59])) [f'])
          = Ok 120 (set_files (lex_init (make_file [32; 32; 9; 120; 59])) [f''])
       /\ buf f'' = [] /\ rest f'' = [59].
Proof.
  assert (Hsp : Forall (fun x => x = 32 \/ x = 9 \/ x = 12 \/ x = 11) [32; 32; 9]).
  { repeat (apply List.Forall_cons; [lia|]). apply List.Forall_nil. }
  assert (Hc : plain 120) by (unfold plain, BACKSLASH, CR; lia).
  assert (Hs : 120 <> 47) by lia.
  repeat (split; [first [reflexivity|assumption]|]).
  exact (skip_space_blanks (lex_init (make_file [32; 32; 9; 120; 59]))
           (make_file [32; 32; 9; 120; 59]) [] [32; 32; 9] 120 [59]
           eq_refl eq_refl eq_refl Hsp Hc eq_refl Hs).
Defined.







(** *** Escape sequences with digits *)

(** [(r << n) | d] appends the [n] bits of [d] to [r]. *)
Lemma shift_or (r d n : Z) :
  0 <= n -> 0 <= d < 2 ^ n -> Z.lor (Z.shiftl r n) d = r * 2 ^ n + d.
Proof.
  intros Hn Hd. rewrite <- Z.shiftl_mul_pow2 by lia.
  assert (H : Z.land (Z.shiftl r n) d = 0).
  { apply Z.bits_inj'. intros m Hm. rewrite Z.land_spec, Z.bits_0.
    destruct (Z.lt_ge_cases m n) as [Hlt|Hge].
    - rewrite Z.shiftl_spec_low by lia. reflexivity.
    - replace (Z.testbit d m) with false; [apply andb_false_r|]. symmetry.
      destruct (Z.eq_dec d 0) as [->|Hd0]; [apply Z.bits_0|].
      apply Z.bits_above_log2; [lia|]. apply Z.log2_lt_pow2; [lia|].
      eapply Z.lt_le_trans; [apply Hd|]. apply Z.pow_le_mono_r; lia. }
  pose proof (Z.add_lor_land (Z.shiftl r n) d) as Ha. lia.
Qed.

Lemma int32_small (x : Z) : - 2 ^ 31 <= x < 2 ^ 31 -> int32 x = x.
Proof. intros H. unfold int32. rewrite Z.mod_small; lia. Qed.

Lemma xdigit_plain (c : Z) : isxdigit c = true -> plain c.
Proof.
  unfold isxdigit, isdigit, plain, BACKSLASH, CR. intros H.
  apply orb_true_iff in H. destruct H as [H|H]; [apply orb_true_iff in H; destruct H as [H|H]|];
    apply andb_true_iff in H; lia.
Qed.

Lemma octal_plain (c : Z) : octal c = true -> plain c.
Proof.
  unfold octal, plain, BACKSLASH, CR. intros H. apply andb_true_iff in H. lia.
Qed.

Lemma read_hex_loop_S (n : nat) (c r : Z) :
  read_hex_loop (S n) c r
  = (if (48 <=? c) && (c <=? 57) then
       do c' <- readc; read_hex_loop n c' (int32 (Z.lor (Z.shiftl r 4) (c - 48)))
     else if (97 <=? c) && (c <=? 102) then
       do c' <- readc; read_hex_loop n c' (int32 (Z.lor (Z.shiftl r 4) (c - 97 + 10)))
     else if (65 <=? c) && (c <=? 70) then
       do c' <- readc; read_hex_loop n c' (int32 (Z.lor (Z.shiftl r 4) (c - 65 + 10)))
     else run unreadc c; ret r).
Proof. reflexivity. Qed.

(** A turn of the loop of [read_hex_char] on a digit, when the digits read
    so far are fewer than seven. *)
Lemma read_hex_loop_digit (n : nat) (c r : Z) (k : nat) :
  isxdigit c = true -> 0 <= r < 16 ^ Z.of_nat k -> (k < 7)%nat ->
  read_hex_loop (S n) c r
  = (do c' <- readc; read_hex_loop n c' (16 * r + hex_digit c))
  /\ 0 <= 16 * r + hex_digit c < 16 ^ Z.of_nat (S k).
Proof.
  intros Hx Hr Hk.
  assert (Hpow : 16 ^ Z.of_nat k <= 16 ^ 6) by (apply Z.pow_le_mono_r; lia).
  assert (Hs : 16 ^ Z.of_nat (S k) = 16 * 16 ^ Z.of_nat k).
  { rewrite Nat2Z.inj_succ, Z.pow_succ_r by lia. reflexivity. }
  assert (H6 : 16 ^ 6 = 16777216) by reflexivity.
  assert (H31 : 2 ^ 31 = 2147483648) by reflexivity.
  assert (Hstep : forall d, 0 <= d < 16 ->
            int32 (Z.lor (Z.shiftl r 4) d) = 16 * r + d).
  { intros d Hd. rewrite shift_or by (change (2 ^ 4) with 16; lia).
    change (2 ^ 4) with 16. rewrite int32_small; lia. }
  rewrite read_hex_loop_S, Hs. unfold isxdigit, isdigit in Hx. unfold hex_digit.
  destruct ((48 <=? c) && (c <=? 57)) eqn:E1.
  - apply andb_true_iff in E1. rewrite Hstep by lia. split; [reflexivity|lia].
  - destruct ((97 <=? c) && (c <=? 102)) eqn:E2.
    + apply andb_true_iff in E2. rewrite Hstep by lia. split; [reflexivity|lia].
    + simpl in Hx. rewrite Hx. apply andb_true_iff in Hx.
      rewrite Hstep by lia. split; [reflexivity|lia].
Qed.

Lemma read_hex_loop_stop (n : nat) (c r : Z) :
  isxdigit c = false -> read_hex_loop (S n) c r = (run unreadc c; ret r).
Proof.
  intros Hx. rewrite read_hex_loop_S. unfold isxdigit, isdigit in Hx.
  apply orb_false_iff in Hx. destruct Hx as [Hx ->].
  apply orb_false_iff in Hx. destruct Hx as [-> ->]. reflexivity.
Qed.

Lemma read_hex_loop_spec (fs : files_t) (stop : Z) (tail : list Z) :
  plain stop -> isxdigit stop = false ->
  forall (hs : list Z) (n : nat) (s : State) (f : File) (c r : Z) (k : nat),
    files s = f :: fs -> (length (buf f) <= 1)%nat ->
    buf f ++ rest f = hs ++ stop :: tail ->
    isxdigit c = true -> Forall (fun x => isxdigit x = true) hs ->
    0 <= r < 16 ^ Z.of_nat k -> (k + S (length hs) <= 7)%nat ->
    (S (length hs) < n)%nat ->
    exists f' : File,
      read_hex_loop n c r s
      = Ok (fold_left (fun r c => 16 * r + hex_digit c) hs (16 * r + hex_digit c))
           (set_files s (f' :: fs))
      /\ buf f' = [stop] /\ rest f' = tail.
Proof.
  intros Hst Hsx.
  induction hs as [|h hs IH]; intros n s f c r k Hf Hl Hp Hc Hhs Hr Hk Hn;
    (destruct n as [|n]; [simpl in Hn; lia|]); simpl in Hp, Hn, Hk;
    destruct (read_hex_loop_digit n c r k Hc Hr) as [-> Hr']; try lia;
    unfold bind at 1.
  - destruct (readc_pending s f fs stop tail Hf Hl Hp Hst) as (f1 & E & B & R).
    rewrite E. destruct n as [|n]; [lia|].
    rewrite (read_hex_loop_stop n stop _ Hsx). unfold bind.
    rewrite (unreadc_push (set_files s (f1 :: fs)) f1 fs stop eq_refl (plain_not_eof stop Hst))
      by (rewrite B; unfold BUF_SIZE; simpl; lia).
    exists (pushed stop f1). split; [reflexivity|].
    destruct (pushed_fields stop f1) as (P1 & P2 & _). rewrite P1, P2, B. auto.
  - inversion Hhs as [|? ? Hh Hhs']; subst.
    destruct (readc_pending s f fs h _ Hf Hl Hp (xdigit_plain h Hh)) as (f1 & E & B & R).
    rewrite E.
    destruct (IH n (set_files s (f1 :: fs)) f1 h (16 * r + hex_digit c) (S k) eq_refl)
      as (f2 & E2 & B2 & R2); try assumption; try lia.
    { rewrite B. simpl. lia. }
    { rewrite B, R. reflexivity. }
    exists f2. simpl fold_left. auto.
Qed.

(** X29.  [read_hex_char] reads the hexadecimal digits after [\x], seven at
    most here, up to the first plain character that is none, which stays in
    the input, and returns the number that they write; without a digit it
    ends the compilation with an error. *)
Theorem read_hex_char_value (s : State) (f : File) (fs : files_t)
    (hs : list Z) (stop : Z) (tail : list Z) :
  files s = f :: fs -> buf f = [] ->
  Forall (fun x => isxdigit x = true) hs -> (length hs <= 7)%nat ->
  plain stop -> isxdigit stop = false ->
  rest f = hs ++ stop :: tail ->
  (hs <> [] ->
   exists f' : File,
     read_hex_char s = Ok (hex_value hs) (set_files s (f' :: fs))
     /\ buf f' = [stop] /\ rest f' = tail)
  /\ (hs = [] ->
      read_hex_char s = Fatal "\x is not followed by a hexadecimal character").
Proof.
  intros Hf Hb Hhs Hlen Hst Hsx Hr.
  assert (Hl : (length (buf f) <= 1)%nat) by (rewrite Hb; simpl; lia).
  assert (Hp : buf f ++ rest f = hs ++ stop :: tail) by (rewrite Hb; exact Hr).
  assert (Hstart : read_hex_char s
                   = (do c <- readc;
                      if negb (isxdigit c)
                      then errorp "\x is not followed by a hexadecimal character"
                      else fun s => read_hex_loop (fuel_of s) c 0 s) s).
  { unfold read_hex_char, get_pos, current_file, bind. rewrite Hf. reflexivity. }
  rewrite Hstart. unfold bind.
  split.
  - intros Hne. destruct hs as [|h hs]; [contradiction|]. simpl in Hp, Hlen.
    inversion Hhs as [|? ? Hh Hhs']; subst.
    destruct (readc_pending s f fs h _ Hf Hl Hp (xdigit_plain h Hh)) as (f1 & E & B & R).
    rewrite E, Hh. change (negb true) with false. cbv iota.
    destruct (read_hex_loop_spec fs stop tail Hst Hsx hs
                (fuel_of (set_files s (f1 :: fs))) (set_files s (f1 :: fs)) f1 h 0 0%nat eq_refl)
      as (f2 & E2 & B2 & R2); try assumption; try (simpl; lia).
    { rewrite B. simpl. lia. }
    { rewrite B, R. reflexivity. }
    { pose proof (fuel_of_rest (set_files s (f1 :: fs)) f1 fs eq_refl) as Hw.
      rewrite R, length_app in Hw. simpl in Hw. lia. }
    rewrite E2. exists f2. auto.
  - intros ->. simpl in Hp.
    destruct (readc_pending s f fs stop tail Hf Hl Hp Hst) as (f1 & E & B & R).
    rewrite E, Hsx. reflexivity.
Qed.

(** The digits 4 and f before a quote, which write 79. *)
Lemma read_hex_char_value_witness :
  files (lex_init (make_file (str "4f'"))) = [make_file (str "4f'")]
  /\ buf (make_file (str "4f'")) = []
  /\ Forall (fun x => isxdigit x = true) (str "4f") /\ (length (str "4f") <= 7)%nat
  /\ plain 39 /\ isxdigit 39 = false
  /\ rest (make_file (str "4f'")) = str "4f" ++ 39 :: []
  /\ str "4f" <> []
  /\ exists f' : File,
       read_hex_char (lex_init (make_file (str "4f'")))
       = Ok 79 (set_files (lex_init (make_file (str "4f'"))) [f'])
       /\ buf f' = [39] /\ rest f' = [].
Proof.
  assert (Hhs : Forall (fun x => isxdigit x = true) (str "4f")).
  { repeat (apply List.Forall_cons; [reflexivity|]). apply List.Forall_nil. }
  assert (Hlen : (length (str "4f") <= 7)%nat) by (simpl; lia).
  assert (Hst : plain 39) by (unfold plain, BACKSLASH, CR; lia).
  assert (Hne : str "4f" <> []) by discriminate.
  repeat (split; [first [reflexivity|assumption]|]).
  exact (proj1 (read_hex_char_value (lex_init (make_file (str "4f'")))
                  (make_file (str "4f'")) [] (str "4f") 39 []
                  eq_refl eq_refl Hhs Hlen Hst eq_refl eq_refl) Hne).
Defined.

Lemma peek_pending (s : State) (f : File) (fs : files_t) (c : Z) (r : list Z) :
  files s = f :: fs -> (length (buf f) <= 1)%nat -> buf f ++ rest f = c :: r ->
  plain c ->
  exists f' : File,
    peek s = Ok c (set_files s (f' :: fs)) /\ buf f' = [c] /\ rest f' = r.
Proof.
  intros Hf Hl Hp Hc.
  destruct (readc_pending s f fs c r Hf Hl Hp Hc) as (f1 & E & B & R).
  unfold peek, bind. rewrite E.
  rewrite (unreadc_push (set_files s (f1 :: fs)) f1 fs c eq_refl (plain_not_eof c Hc))
    by (rewrite B; unfold BUF_SIZE; simpl; lia).
  exists (pushed c f1). split; [reflexivity|].
  destruct (pushed_fields c f1) as (P1 & P2 & _). rewrite P1, P2, B. auto.
Qed.

Lemma nextoct_pending (s : State) (f : File) (fs : files_t) (c : Z) (r : list Z) :
  files s = f :: fs -> (length (buf f) <= 1)%nat -> buf f ++ rest f = c :: r ->
  plain c ->
  exists f' : File,
    nextoct s = Ok (octal c) (set_files s (f' :: fs)) /\ buf f' = [c] /\ rest f' = r.
Proof.
  intros Hf Hl Hp Hc.
  destruct (peek_pending s f fs c r Hf Hl Hp Hc) as (f1 & E & B & R).
  unfold nextoct, bind. rewrite E. exists f1. auto.
Qed.

(** An octal digit is read after [nextoct] has seen it. *)
Lemma read_octal_digit (s : State) (f : File) (fs : files_t) (d : Z) (r : list Z)
    (x : Z) (k : Z -> M Z) :
  files s = f :: fs -> (length (buf f) <= 1)%nat -> buf f ++ rest f = d :: r ->
  octal d = true -> 0 <= x ->
  exists f' : File,
    (do oct <- nextoct;
     if negb oct then ret x
     else do c1 <- readc; k (Z.lor (Z.shiftl x 3) (c1 - 48))) s
    = k (8 * x + (d - 48)) (set_files s (f' :: fs))
    /\ buf f' = [] /\ rest f' = r.
Proof.
  intros Hf Hl Hp Hd Hx. pose proof (octal_plain d Hd) as Hpl.
  destruct (nextoct_pending s f fs d r Hf Hl Hp Hpl) as (f1 & E & B & R).
  unfold bind at 1. rewrite E, Hd. change (negb true) with false. cbv iota.
  destruct (readc_pending (set_files s (f1 :: fs)) f1 fs d r eq_refl)
    as (f2 & E2 & B2 & R2); try assumption.
  { rewrite B. simpl. lia. }
  { rewrite B, R. reflexivity. }
  unfold bind at 1. rewrite E2.
  unfold octal in Hd. apply andb_true_iff in Hd.
  rewrite shift_or by (change (2 ^ 3) with 8; lia). change (2 ^ 3) with 8.
  replace (x * 8 + (d - 48)) with (8 * x + (d - 48)) by lia.
  exists f2. auto.
Qed.

(** X30.  [read_octal_char] takes three octal digits at most: after the
    digit [c] it reads up to two more, stops before a plain character that
    is no octal digit, and returns the number that the digits write; a
    fourth digit stays in the input. *)
Theorem read_octal_char_value (s : State) (f : File) (fs : files_t)
    (c : Z) (ds tail : list Z) :
  files s = f :: fs -> buf f = [] -> rest f = ds ++ tail ->
  octal c = true -> Forall (fun x => octal x = true) ds ->
  (length ds <= 2)%nat ->
  ((length ds < 2)%nat ->
   exists (stop : Z) (tail' : list Z),
     tail = stop :: tail' /\ plain stop /\ octal stop = false) ->
  exists f' : File,
    read_octal_char c s = Ok (oct_value (c :: ds)) (set_files s (f' :: fs))
    /\ (length (buf f') <= 1)%nat /\ buf f' ++ rest f' = tail.
Proof.
  intros Hf Hb Hr Hc Hds Hlen Hstop.
  assert (Hl : (length (buf f) <= 1)%nat) by (rewrite Hb; simpl; lia).
  assert (Hp : buf f ++ rest f = ds ++ tail) by (rewrite Hb; exact Hr).
  assert (Hc0 : 0 <= c - 48).
  { unfold octal in Hc. apply andb_true_iff in Hc. lia. }
  unfold oct_value. simpl fold_left. replace (8 * 0 + (c - 48)) with (c - 48) by lia.
  unfold read_octal_char.
  destruct ds as [|d1 ds].
  - destruct Hstop as (stop & tail' & -> & Hst & Hso); [simpl; lia|]. simpl in Hp.
    destruct (nextoct_pending s f fs stop tail' Hf Hl Hp Hst) as (f1 & E & B & R).
    unfold bind at 1. rewrite E, Hso. exists f1. split; [reflexivity|].
    rewrite B, R. simpl. split; [lia|reflexivity].
  - inversion Hds as [|? ? Hd1 Hds']; subst. simpl in Hp.
    destruct (read_octal_digit s f fs d1 (ds ++ tail) (c - 48)
                (fun r => do oct <- nextoct;
                          if negb oct then ret r
                          else do c2 <- readc; ret (Z.lor (Z.shiftl r 3) (c2 - 48)))
                Hf Hl Hp Hd1 Hc0) as (f1 & E & B & R).
    rewrite E. simpl fold_left.
    assert (Hx1 : 0 <= 8 * (c - 48) + (d1 - 48)).
    { unfold octal in Hd1. apply andb_true_iff in Hd1. lia. }
    destruct ds as [|d2 ds].
    + destruct Hstop as (stop & tail' & -> & Hst & Hso); [simpl; lia|].
      destruct (nextoct_pending (set_files s (f1 :: fs)) f1 fs stop tail' eq_refl)
        as (f2 & E2 & B2 & R2); try assumption.
      { rewrite B. simpl. lia. }
      { rewrite B, R. reflexivity. }
      unfold bind at 1. rewrite E2, Hso. exists f2. split; [reflexivity|].
      rewrite B2, R2. simpl. split; [lia|reflexivity].
    + inversion Hds' as [|? ? Hd2 Hds'']; subst.
      destruct ds as [|d3 ds]; [|simpl in Hlen; lia].
      destruct (read_octal_digit (set_files s (f1 :: fs)) f1 fs d2 tail
                  (8 * (c - 48) + (d1 - 48)) (fun r => ret r) eq_refl)
        as (f2 & E2 & B2 & R2); try assumption.
      { rewrite B. simpl. lia. }
      { rewrite B, R. reflexivity. }
      rewrite E2. exists f2. split; [reflexivity|].
      rewrite B2, R2. simpl. split; [lia|reflexivity].
Qed.

(** The digits 1, 0 and 1 before the digit 7: they write 65, and the 7
    stays. *)
Lemma read_octal_char_value_witness :
  files (lex_init (make_file (str "017"))) = [make_file (str "017")]
  /\ buf (make_file (str "017")) = []
  /\ rest (make_file (str "017")) = str "01" ++ str "7"
  /\ octal 49 = true /\ Forall (fun x => octal x = true) (str "01")
  /\ (length (str "01") <= 2)%nat
  /\ exists f' : File,
       read_octal_char 49 (lex_init (make_file (str "017")))
       = Ok 65 (set_files (lex_init (make_file (str "017"))) [f'])
       /\ (length (buf f') <= 1)%nat /\ buf f' ++ rest f' = str "7".
Proof.
  assert (Hds : Forall (fun x => octal x = true) (str "01")).
  { repeat (apply List.Forall_cons; [reflexivity|]). apply List.Forall_nil. }
  assert (Hlen : (length (str "01") <= 2)%nat) by (simpl; lia).
  repeat (split; [first [reflexivity|assumption]|]).
  apply (read_octal_char_value (lex_init (make_file (str "017")))
           (make_file (str "017")) [] 49 (str "01") (str "7")
           eq_refl eq_refl eq_refl eq_refl Hds Hlen).
  simpl. lia.
Defined.

End LexerMoreFacts.

Module MapKeysFacts.
Import Map MapView MapKeys MapFacts MapViewFacts.

Lemma existsb_In (k : string) (l : list string) :
  existsb (String.eqb k) l = true <-> In k l.
Proof.
  rewrite existsb_exists. split.
  - intros (x & Hx & E). apply String.eqb_eq in E. subst x. exact Hx.
  - intros H. exists k. split; [exact H|apply String.eqb_refl].
Qed.

Lemma distinct_snoc (k : string) (l : list string) :
  distinct (l ++ [k])
  = (if existsb (String.eqb k) l then distinct l else S (distinct l)).
Proof.
  induction l as [|x l IH]; [reflexivity|].
  simpl. rewrite existsb_app, IH. simpl. rewrite orb_false_r.
  rewrite (String.eqb_sym k x).
  destruct (String.eqb_spec x k) as [->|_].
  - destruct (existsb (String.eqb k) l); reflexivity.
  - destruct (existsb (String.eqb x) l), (existsb (String.eqb k) l); reflexivity.
Qed.

(** [maybe_rehash] keeps the keys of the table. *)
Lemma maybe_rehash_present (m m1 : Map) (k : string) :
  wf_table m -> once k m -> maybe_rehash m = Some m1 ->
  (present k m1 <-> present k m).
Proof.
  intros Hwf Honce Hr.
  unfold maybe_rehash in Hr. destruct (key m) as [keys|] eqn:Ekey.
  - destruct (10 * nused m <? 7 * size m); [injection Hr as <-; tauto|].
    destruct (negb (20 * nelem m <? 7 * size m) && (INT_MAX <? size m * 2));
      [discriminate|].
    set (newsize := if 20 * nelem m <? 7 * size m then size m else size m * 2) in *.
    destruct (rehash_loop keys (val m) newsize (seq 0 (Z.to_nat (size m)))
                (replicate (Z.to_nat newsize) Empty) (replicate (Z.to_nat newsize) 0))
      as [[K' V']|] eqn:Hloop; [|discriminate].
    assert (Hsz : Z.to_nat (size m) = length keys).
    { unfold wf_table in Hwf. rewrite Ekey in Hwf. lia. }
    rewrite Hsz in Hloop. unfold once in Honce. rewrite Ekey in Honce.
    destruct (rehash_loop_view keys (val m) newsize k Honce keys [] _ _ K' V' eq_refl Hloop)
      as (HA & HC & HD).
    { rewrite !length_replicate. reflexivity. }
    { intros e He. apply fresh_no_key in He; [destruct He|discriminate]. }
    { simpl. intros i Hi. lia. }
    { intros e. apply fresh_no_key. discriminate. }
    injection Hr as <-. unfold present. rewrite Ekey. cbn [key]. split.
    + intros [e He]. destruct (HA e He) as (_ & i & Hi & _). eauto.
    + intros [i Hi]. exact (HC i Hi).
  - apply (inj Some) in Hr. subst m1. unfold present. rewrite Ekey. cbn [key].
    split; [|tauto]. intros [i Hi]. apply fresh_no_key in Hi; [destruct Hi|discriminate].
Qed.

(** [map_put] on a table that has only been written: the number of
    elements grows by one when the key is new, and the key is added to the
    keys of the table. *)
Lemma map_put_len (m m' : Map) (k : string) (v : Z) :
  tidy m -> map_put m k v = Some m' ->
  (present k m -> nelem m' = nelem m)
  /\ (~ present k m -> nelem m' = nelem m + 1)
  /\ forall k2 : string, present k2 m' <-> present k2 m \/ k2 = k.
Proof.
  intros (Hwf & Hnt & Hs) Hput.
  pose proof (map_put_fits m m' k v Hput) as Hfit.
  destruct (map_put_spec m k v Hwf Hfit) as (m2 & keys' & j' & Hput2 & Hwf' & _ & Hk' & _).
  rewrite Hput in Hput2. injection Hput2 as <-.
  destruct (maybe_rehash_wf m Hwf Hfit) as (m1 & keys1 & Hr & Hwf1 & Ek1 & _ & Hn1 & _).
  destruct (maybe_rehash_view m m1 k Hwf (Hs k) Hr) as (_ & Hs1 & _ & Hnt1 & _).
  specialize (Hnt1 Hnt).
  assert (Hpres : forall k2, present k2 m1 <-> present k2 m).
  { intros k2. apply maybe_rehash_present; [exact Hwf| |exact Hr].
    apply settled_once. apply Hs. }
  unfold map_put in Hput. rewrite Hr, Ek1 in Hput.
  destruct (put_loop_view _ _ _ _ _ _ _ _ Hput)
    as (j & s & Hj & Hcase & _ & Hkey & _ & _ & _).
  pose proof (lookup_lt_Some _ _ _ Hj) as Hlt.
  rewrite Hk' in Hkey. injection Hkey as ->.
  pose proof (count_slots_insert live keys1 j s (Key k) Hj) as Hcl.
  assert (Hn' : nelem m' = count_slots live (<[j := Key k]> keys1)).
  { unfold wf_table in Hwf'. rewrite Hk' in Hwf'. tauto. }
  assert (Hn1' : nelem m1 = count_slots live keys1).
  { unfold wf_table in Hwf1. rewrite Ek1 in Hwf1. tauto. }
  unfold no_tombstone in Hnt1. rewrite Ek1 in Hnt1.
  unfold settled in Hs1. rewrite Ek1 in Hs1.
  assert (Hp1 : present k m1 <-> s = Key k).
  { unfold present. rewrite Ek1. destruct s as [| |k0].
    - split; [|discriminate]. intros [i Hi]. specialize (Hs1 i Hi). unfold find in Hs1.
      congruence.
    - destruct (Hnt1 j Hj).
    - destruct Hcase as [-> _]. split; [reflexivity|]. intros _. eauto. }
  split; [|split].
  - intros Hp. apply Hpres, Hp1 in Hp. subst s. simpl in Hcl. lia.
  - intros Hnp. rewrite <- Hpres, Hp1 in Hnp.
    destruct s as [| |k0]; simpl in Hcl; try lia.
    destruct Hcase as [-> _]. destruct (Hnp eq_refl).
  - intros k2. rewrite <- Hpres. unfold present. rewrite Hk', Ek1. split.
    + intros [i Hi]. destruct (decide (j = i)) as [->|Hij].
      * rewrite list_lookup_insert_eq in Hi by exact Hlt. right. congruence.
      * rewrite list_lookup_insert_ne in Hi by exact Hij. left. eauto.
    + intros [[i Hi]| ->].
      * destruct (decide (j = i)) as [->|Hij].
        -- exists i. rewrite list_lookup_insert_eq by exact Hlt.
           rewrite Hj in Hi. injection Hi as ->.
           destruct Hcase as [-> _]. reflexivity.
        -- exists i. rewrite list_lookup_insert_ne by exact Hij. exact Hi.
      * exists j. apply list_lookup_insert_eq. exact Hlt.
Qed.

Lemma puts_len (ps : list (string * Z)) :
  forall (m : Map) (l : list string),
    tidy m -> (forall k : string, present k m <-> In k l) ->
    nelem m = Z.of_nat (distinct l) ->
    compact m -> nelem m + Z.of_nat (length ps) <= 2 ^ 27 ->
    exists m' : Map,
      puts m ps = Some m'
      /\ parent m' = parent m
      /\ nelem m' = Z.of_nat (distinct (l ++ map fst ps)).
Proof.
  induction ps as [|[k0 v0] ps IH]; intros m l Ht Hp Hn Hc Hb.
  - exists m. simpl. rewrite app_nil_r. auto.
  - simpl length in Hb.
    assert (Hfit : rehash_fits m) by (apply compact_fits; [exact Hc|lia]).
    destruct (map_put_spec m k0 v0 (proj1 Ht) Hfit) as (m1 & _ & _ & Hput & _).
    destruct (map_put_tidy m m1 k0 v0 Ht Hput) as (Ht1 & Hpar1 & _).
    destruct (map_put_len m m1 k0 v0 Ht Hput) as (Hold & Hnew & Hp1).
    destruct (map_put_compact m m1 k0 v0 (proj1 Ht) Hc Hput) as (Hc1 & Hn1).
    destruct (IH m1 (l ++ [k0]) Ht1) as (m' & Hps & Hpar' & Hn').
    + intros k. rewrite Hp1, Hp, in_app_iff. simpl. intuition congruence.
    + rewrite distinct_snoc.
      destruct (existsb (String.eqb k0) l) eqn:E.
      * apply existsb_In, Hp in E. rewrite (Hold E). exact Hn.
      * rewrite Hnew, Hn; [lia|]. intros Hk. apply Hp, existsb_In in Hk. congruence.
    + exact Hc1.
    + lia.
    + exists m'. simpl. rewrite Hput. split; [exact Hps|]. split; [congruence|].
      rewrite Hn', <- app_assoc. reflexivity.
Qed.

Lemma fresh_not_present (par : option Map) (k : string) :
  ~ present k (do_make_map par INIT_SIZE).
Proof.
  unfold present. cbn [key do_make_map]. intros [i Hi].
  apply fresh_no_key in Hi; [destruct Hi|discriminate].
Qed.

(** X28.  [map_len] counts the different keys that have been put: after a
    sequence of [2 ^ 27] calls of [map_put] at most on a new map (the table
    then has fewer than [2 ^ 30] slots, and its doubling does not overflow),
    [map_len] is the number of different keys of the sequence.  A key that
    is put again counts once, a key put with the null value counts too, and
    the keys of the parent do not count. *)
Theorem map_len_counts_keys (ps : list (string * Z)) :
  Z.of_nat (length ps) <= 2 ^ 27 ->
  (exists m : Map,
     puts make_map ps = Some m /\ map_len m = Z.of_nat (distinct (map fst ps)))
  /\ (forall p : Map,
        exists m : Map,
          puts (make_map_parent p) ps = Some m
          /\ parent m = Some p
          /\ map_len m = Z.of_nat (distinct (map fst ps))).
Proof.
  intros Hlen.
  assert (H : forall par : option Map,
            exists m : Map,
              puts (do_make_map par INIT_SIZE) ps = Some m
              /\ parent m = par
              /\ map_len m = Z.of_nat (distinct (map fst ps))).
  { intros par.
    destruct (puts_len ps (do_make_map par INIT_SIZE) [] (do_make_map_tidy par))
      as (m & Hps & Hpar & Hn).
    - intros k. split; [intros Hk; destruct (fresh_not_present par k Hk)|intros []].
    - reflexivity.
    - exact (do_make_map_compact par).
    - simpl. lia.
    - exists m. auto. }
  split.
  - destruct (H None) as (m & Hps & _ & Hn). exists m. auto.
  - intros p. exact (H (Some p)).
Qed.

(** The key a put twice, once with the null value, and the key b. *)
Lemma map_len_counts_keys_witness :
  Z.of_nat (length [("a"%string, 1); ("b"%string, 2); ("a"%string, 0)]) <= 2 ^ 27
  /\ (exists m : Map,
        puts make_map [("a"%string, 1); ("b"%string, 2); ("a"%string, 0)] = Some m
        /\ map_len m = 2).
Proof.
  assert (H : Z.of_nat (length [("a"%string, 1); ("b"%string, 2); ("a"%string, 0)])
              <= 2 ^ 27).
  { simpl length. change (2 ^ 27) with 134217728. lia. }
  split; [exact H|]. exact (proj1 (map_len_counts_keys _ H)).
Defined.

End MapKeysFacts.

Module LinesFacts.
Import Stream Buffer Lexer LexerMore Lines StreamFacts LexerFacts LexerMoreFacts.

(** *** Characters and positions *)

Lemma blank_plain (c : Z) : blank c -> plain c /\ iswhitespace c = true /\ c <> NL.
Proof.
  intros [->|[->|[->| ->]]]; (split; [unfold plain, BACKSLASH, CR; lia|]);
    (split; [reflexivity|discriminate]).
Qed.

Lemma plain_NL : plain NL.
Proof. unfold plain, NL, BACKSLASH, CR. lia. Qed.

Lemma fuel_of_pending (s : State) (f : File) (fs : files_t) :
  files s = f :: fs -> (length (buf f ++ rest f) + 2 <= fuel_of s)%nat.
Proof.
  intros Hf. unfold fuel_of. rewrite Hf. simpl. unfold weight_file.
  pose proof (weight_pos fs). rewrite length_app. lia.
Qed.


(** [readc] returns the next character, and the counters follow. *)
Lemma readc_at (s : State) (f : File) (fs : files_t) (c : Z) (r : list Z) (ln col : Z) :
  files s = f :: fs -> at_pos f (c :: r) ln col -> plain c ->
  exists f' : File,
    readc s = Ok c (set_files s (f' :: fs))
    /\ buf f' = [] /\ rest f' = r /\ ntok f' = ntok f
    /\ line f' = (if c =? NL then ln + 1 else ln)
    /\ column f' = (if c =? NL then 1 else col + 1).
Proof.
  intros Hf (Hl & Hp & <- & <-) Hc.
  assert (He : c <> EOF) by (apply plain_not_eof; exact Hc).
  destruct (buf f) as [|c0 [|c1 b]] eqn:Hb; simpl in Hl, Hp; try lia.
  - rewrite (readc_plain s f fs c r Hf Hb Hp Hc). eexists. split; [reflexivity|].
    destruct (after_plain f c r Hb) as (A1 & A2 & A3 & _).
    split; [exact A2|]. split; [exact A1|]. split; [exact A3|].
    unfold advance. destruct (Z.eqb_spec c NL); [simpl; auto|].
    destruct (Z.eqb_spec c EOF); [contradiction|]. simpl. auto.
  - injection Hp as -> Hr. destruct Hc as (Hc1 & Hc2 & Hc3).
    rewrite (readc_buf s f fs c [] Hf Hb He Hc2).
    eexists. split; [reflexivity|].
    destruct (after_buf c f []) as (A1 & A2 & A3).
    split; [exact A2|]. split; [rewrite A1; exact Hr|]. split; [exact A3|].
    unfold advance. destruct (Z.eqb_spec c NL); [simpl; auto|].
    destruct (Z.eqb_spec c EOF); [contradiction|]. simpl. auto.
Qed.

(** [unreadc] pushes the character back, and the counters follow. *)
Lemma unreadc_at (s : State) (f : File) (fs : files_t) (c : Z) :
  files s = f :: fs -> buf f = [] -> plain c ->
  exists f' : File,
    unreadc c s = Ok tt (set_files s (f' :: fs))
    /\ buf f' = [c] /\ rest f' = rest f /\ ntok f' = ntok f
    /\ line f' = (if c =? NL then line f - 1 else line f)
    /\ column f' = (if c =? NL then 1 else column f - 1).
Proof.
  intros Hf Hb Hc.
  rewrite (unreadc_push s f fs c Hf (plain_not_eof c Hc))
    by (rewrite Hb; unfold BUF_SIZE; simpl; lia).
  exists (pushed c f). split; [reflexivity|].
  destruct (pushed_fields c f) as (P1 & P2 & P3 & _). rewrite P1, P2, P3, Hb.
  repeat (split; [reflexivity|]).
  unfold pushed. destruct (c =? NL); simpl; auto.
Qed.

(** A character is read and pushed back: the file is as before, with the
    character in the buffer. *)
Lemma read_unread_at (s : State) (f : File) (fs : files_t) (c : Z) (r : list Z)
    (ln col : Z) :
  files s = f :: fs -> at_pos f (c :: r) ln col -> plain c ->
  exists f1 f2 : File,
    readc s = Ok c (set_files s (f1 :: fs))
    /\ unreadc c (set_files s (f1 :: fs)) = Ok tt (set_files s (f2 :: fs))
    /\ buf f2 = [c] /\ rest f2 = r /\ ntok f2 = ntok f
    /\ line f2 = ln /\ column f2 = (if c =? NL then 1 else col).
Proof.
  intros Hf Hat Hc.
  destruct (readc_at s f fs c r ln col Hf Hat Hc) as (f1 & E1 & B1 & R1 & N1 & L1 & C1).
  destruct (unreadc_at (set_files s (f1 :: fs)) f1 fs c eq_refl B1 Hc)
    as (f2 & E2 & B2 & R2 & N2 & L2 & C2).
  exists f1, f2. split; [exact E1|]. split; [exact E2|].
  split; [exact B2|]. split; [congruence|]. split; [congruence|].
  rewrite L2, C2, L1, C1. destruct (c =? NL); split; lia.
Qed.

Lemma at_pos_pushed (f : File) (c : Z) (r : list Z) (ln col : Z) :
  buf f = [c] -> rest f = r -> line f = ln -> column f = col -> at_pos f (c :: r) ln col.
Proof. intros Hb Hr Hl Hc. unfold at_pos. rewrite Hb, Hr. simpl. auto. Qed.

Lemma at_pos_read (f : File) (r : list Z) (ln col : Z) :
  buf f = [] -> rest f = r -> line f = ln -> column f = col -> at_pos f r ln col.
Proof. intros Hb Hr Hl Hc. unfold at_pos. rewrite Hb, Hr. simpl. auto. Qed.

(** *** White space *)

Lemma do_skip_space_blank (s : State) (f : File) (fs : files_t) (c : Z) (r : list Z)
    (ln col : Z) :
  files s = f :: fs -> at_pos f (c :: r) ln col -> blank c ->
  exists f' : File,
    do_skip_space s = Ok true (set_files s (f' :: fs))
    /\ at_pos f' r ln (col + 1) /\ buf f' = [] /\ ntok f' = ntok f.
Proof.
  intros Hf Hat Hc. destruct (blank_plain c Hc) as (Hp & Hw & Hn).
  destruct (readc_at s f fs c r ln col Hf Hat Hp) as (f1 & E & B & R & N & L & C).
  unfold do_skip_space, bind. rewrite E.
  destruct (Z.eqb_spec c EOF) as [E0|_]; [destruct (plain_not_eof c Hp E0)|].
  rewrite Hw. exists f1. split; [reflexivity|].
  destruct (Z.eqb_spec c NL); [contradiction|].
  split; [apply at_pos_read; assumption|auto].
Qed.

Lemma do_skip_space_other (s : State) (f : File) (fs : files_t) (c : Z) (r : list Z)
    (ln col : Z) :
  files s = f :: fs -> at_pos f (c :: r) ln col ->
  plain c -> iswhitespace c = false -> c <> 47 ->
  exists f' : File,
    do_skip_space s = Ok false (set_files s (f' :: fs))
    /\ at_pos f' (c :: r) ln (if c =? NL then 1 else col)
    /\ buf f' = [c] /\ rest f' = r /\ ntok f' = ntok f.
Proof.
  intros Hf Hat Hp Hw Hs.
  destruct (read_unread_at s f fs c r ln col Hf Hat Hp)
    as (f1 & f2 & E1 & E2 & B & R & N & L & C).
  unfold do_skip_space, bind. rewrite E1.
  destruct (Z.eqb_spec c EOF) as [E0|_]; [destruct (plain_not_eof c Hp E0)|].
  rewrite Hw. destruct (Z.eqb_spec c 47) as [E3|_]; [contradiction|].
  rewrite E2. exists f2. split; [reflexivity|].
  split; [apply at_pos_pushed; assumption|auto].
Qed.

Lemma skip_space_loop_at (fs : files_t) (c : Z) (r : list Z) (ln : Z) :
  plain c -> iswhitespace c = false -> c <> 47 ->
  forall (sp : list Z) (n : nat) (s : State) (f : File) (col : Z),
    files s = f :: fs -> at_pos f (sp ++ c :: r) ln col ->
    Forall blank sp -> (length sp < n)%nat ->
    exists f' : File,
      skip_space_loop n s = Ok tt (set_files s (f' :: fs))
      /\ at_pos f' (c :: r) ln (if c =? NL then 1 else col + Z.of_nat (length sp))
      /\ buf f' = [c] /\ rest f' = r /\ ntok f' = ntok f.
Proof.
  intros Hc Hw Hs.
  induction sp as [|x sp IH]; intros n s f col Hf Hat Hsp Hn;
    (destruct n as [|n]; [simpl in Hn; lia|]); simpl in Hat, Hn;
    rewrite skip_space_loop_S; unfold bind at 1.
  - destruct (do_skip_space_other s f fs c r ln col Hf Hat Hc Hw Hs)
      as (f1 & E & A & B & R & N).
    rewrite E. exists f1. split; [reflexivity|]. simpl length.
    rewrite Z.add_0_r. auto.
  - inversion Hsp as [|? ? Hx Hsp']; subst.
    destruct (do_skip_space_blank s f fs x _ ln col Hf Hat Hx) as (f1 & E & A & B & N).
    rewrite E.
    destruct (IH n (set_files s (f1 :: fs)) f1 (col + 1) eq_refl A Hsp')
      as (f2 & E2 & A2 & B2 & R2 & N2); [lia|].
    exists f2. split; [exact E2|].
    replace (col + Z.of_nat (length (x :: sp))) with (col + 1 + Z.of_nat (length sp))
      by (simpl length; lia).
    split; [exact A2|]. split; [exact B2|]. split; [exact R2|]. congruence.
Qed.

(** [skip_space] before a plain character that is no white space and no
    slash: the blanks are skipped and the character is pushed back. *)
Lemma skip_space_at (s : State) (f : File) (fs : files_t)
    (sp : list Z) (c : Z) (r : list Z) (ln col : Z) :
  files s = f :: fs -> at_pos f (sp ++ c :: r) ln col ->
  Forall blank sp -> plain c -> iswhitespace c = false -> c <> 47 ->
  exists f' : File,
    skip_space s = Ok (negb (Z.of_nat (length sp) =? 0)) (set_files s (f' :: fs))
    /\ at_pos f' (c :: r) ln (if c =? NL then 1 else col + Z.of_nat (length sp))
    /\ buf f' = [c] /\ rest f' = r /\ ntok f' = ntok f.
Proof.
  intros Hf Hat Hsp Hc Hw Hs. unfold skip_space. unfold bind at 1.
  destruct sp as [|x sp]; simpl in Hat.
  - destruct (do_skip_space_other s f fs c r ln col Hf Hat Hc Hw Hs)
      as (f1 & E & A & B & R & N).
    rewrite E. exists f1. split; [reflexivity|]. simpl length. rewrite Z.add_0_r. auto.
  - inversion Hsp as [|? ? Hx Hsp']; subst.
    destruct (do_skip_space_blank s f fs x _ ln col Hf Hat Hx) as (f1 & E & A & B & N).
    rewrite E. change (negb true) with false. cbv iota. unfold bind at 1.
    destruct (skip_space_loop_at fs c r ln Hc Hw Hs sp
                (fuel_of (set_files s (f1 :: fs))) (set_files s (f1 :: fs)) f1 (col + 1)
                eq_refl A Hsp')
      as (f2 & E2 & A2 & B2 & R2 & N2).
    { pose proof (fuel_of_pending (set_files s (f1 :: fs)) f1 fs eq_refl) as Hw1.
      destruct A as (_ & A & _). rewrite A, length_app in Hw1. simpl in Hw1. lia. }
    rewrite E2. exists f2. split.
    { replace (Z.of_nat (length (x :: sp)) =? 0) with false; [reflexivity|].
      symmetry. apply Z.eqb_neq. simpl length. lia. }
    replace (col + Z.of_nat (length (x :: sp))) with (col + 1 + Z.of_nat (length sp))
      by (simpl length; lia).
    split; [exact A2|]. split; [exact B2|]. split; [exact R2|]. congruence.
Qed.

(** *** Comments *)

(** The loop of [skip_block_comment] on a body of plain characters without
    a newline: it reads up to the end of the comment, and the column
    follows. *)
Lemma skip_block_comment_loop_at (fs : files_t) (tail : list Z) (ln : Z) :
  forall (chs : list Z) (n : nat) (s : State) (f : File) (maybe_end : bool) (col : Z),
    files s = f :: fs -> buf f = [] -> rest f = chs ++ 42 :: 47 :: tail ->
    line f = ln -> column f = col ->
    Forall plain chs -> Forall (fun c => c <> NL) chs ->
    (forall l1 l2 : list Z, chs <> l1 ++ 42 :: 47 :: l2) ->
    (maybe_end = true -> forall r : list Z, chs <> 47 :: r) ->
    (length chs + 2 <= n)%nat ->
    exists f' : File,
      skip_block_comment_loop n maybe_end s = Ok tt (set_files s (f' :: fs))
      /\ buf f' = [] /\ rest f' = tail /\ ntok f' = ntok f
      /\ line f' = ln /\ column f' = col + Z.of_nat (length chs) + 2.
Proof.
  assert (P42 : plain 42) by (unfold plain, BACKSLASH, CR; lia).
  assert (P47 : plain 47) by (unfold plain, BACKSLASH, CR; lia).
  induction chs as [|c0 chs IH]; intros n s f me col Hf Hb Hr Hl Hc Hp Hnl Hno Hme Hn.
  - destruct n as [|[|n]]; try (simpl in Hn; lia). simpl in Hr.
    rewrite skip_block_comment_loop_S. unfold bind at 1.
    destruct (readc_at s f fs 42 (47 :: tail) ln col Hf) as (f1 & E1 & B1 & R1 & N1 & L1 & C1);
      [apply at_pos_read; assumption|exact P42|].
    rewrite E1.
    change (42 =? EOF) with false. change (42 =? 47) with false.
    change (42 =? 42) with true. change (false && me) with false. cbv iota beta.
    change (42 =? NL) with false in L1, C1. cbv iota in L1, C1.
    rewrite skip_block_comment_loop_S. unfold bind at 1.
    destruct (readc_at (set_files s (f1 :: fs)) f1 fs 47 tail ln (col + 1) eq_refl)
      as (f2 & E2 & B2 & R2 & N2 & L2 & C2);
      [apply at_pos_read; assumption|exact P47|].
    rewrite E2.
    change (47 =? EOF) with false. change (47 =? 47) with true.
    change (true && true) with true. cbv iota beta.
    change (47 =? NL) with false in L2, C2. cbv iota in L2, C2.
    exists f2. split; [reflexivity|]. split; [exact B2|]. split; [exact R2|].
    split; [congruence|]. split; [exact L2|]. simpl length. lia.
  - destruct n as [|n]; [simpl in Hn; lia|]. simpl in Hn, Hr.
    inversion Hp as [|? ? Hc0 Hp']; subst. inversion Hnl as [|? ? Hn0 Hnl']; subst.
    rewrite skip_block_comment_loop_S. unfold bind at 1.
    destruct (readc_at s f fs c0 (chs ++ 42 :: 47 :: tail) (line f) (column f) Hf)
      as (f1 & E1 & B1 & R1 & N1 & L1 & C1);
      [apply at_pos_read; auto|exact Hc0|].
    rewrite E1.
    destruct (Z.eqb_spec c0 EOF) as [E|_]; [destruct (plain_not_eof c0 Hc0 E)|].
    destruct (Z.eqb_spec c0 NL) as [E|_]; [contradiction|].
    assert (Hcont : (c0 =? 47) && me = false).
    { destruct (Z.eqb_spec c0 47) as [->|_]; [|reflexivity].
      destruct me; [|reflexivity]. destruct (Hme eq_refl chs eq_refl). }
    rewrite Hcont. cbv iota beta.
    destruct (IH n (set_files s (f1 :: fs)) f1 (c0 =? 42) (column f + 1) eq_refl B1 R1 L1 C1
                Hp' Hnl')
      as (f' & H1 & H2 & H3 & H4 & H5 & H6).
    + intros l1 l2 E. apply (Hno (c0 :: l1) l2). rewrite E. reflexivity.
    + intros E r Er. apply Z.eqb_eq in E. subst c0 chs. apply (Hno [] r). reflexivity.
    + lia.
    + exists f'. split; [exact H1|]. split; [exact H2|]. split; [exact H3|].
      split; [congruence|]. split; [exact H5|]. rewrite H6. simpl length. lia.
Qed.

(** [do_skip_space] at what stands between tokens. *)
Lemma do_skip_space_gap (s : State) (f : File) (fs : files_t) (g : gap) (r : list Z)
    (ln col : Z) :
  files s = f :: fs -> at_pos f (gap_chars g ++ r) ln col -> wf_gap g ->
  exists f' : File,
    do_skip_space s = Ok true (set_files s (f' :: fs))
    /\ at_pos f' r ln (col + Z.of_nat (length (gap_chars g)))
    /\ buf f' = [] /\ ntok f' = ntok f.
Proof.
  intros Hf Hat Hg. destruct g as [c|chs]; simpl in Hg, Hat.
  - destruct (do_skip_space_blank s f fs c r ln col Hf Hat Hg) as (f' & E & A & B & N).
    exists f'. simpl length. auto.
  - destruct Hg as (Hp & Hnl & Hno).
    assert (P42 : plain 42) by (unfold plain, BACKSLASH, CR; lia).
    assert (P47 : plain 47) by (unfold plain, BACKSLASH, CR; lia).
    destruct (readc_at s f fs 47 _ ln col Hf Hat P47) as (f1 & E1 & B1 & R1 & N1 & L1 & C1).
    change (47 =? NL) with false in L1, C1. cbv iota in L1, C1.
    destruct (readc_at (set_files s (f1 :: fs)) f1 fs 42 ((chs ++ [42; 47]) ++ r) ln (col + 1)
                eq_refl) as (f2 & E2 & B2 & R2 & N2 & L2 & C2);
      [apply at_pos_read; assumption|exact P42|].
    change (42 =? NL) with false in L2, C2. cbv iota in L2, C2.
    rewrite <- app_assoc in R2. simpl in R2.
    destruct (skip_block_comment_loop_at fs r ln chs
                (fuel_of (set_files (set_files s (f1 :: fs)) (f2 :: fs)))
                (set_files (set_files s (f1 :: fs)) (f2 :: fs)) f2 false (col + 1 + 1)
                eq_refl B2 R2 L2 C2 Hp Hnl Hno)
      as (f' & E3 & B3 & R3 & N3 & L3 & C3).
    { intros H. discriminate H. }
    { pose proof (fuel_of_pending (set_files (set_files s (f1 :: fs)) (f2 :: fs)) f2 fs eq_refl)
        as Hw.
      rewrite B2, R2 in Hw. simpl in Hw. rewrite length_app in Hw. simpl in Hw. lia. }
    exists f'. split.
    { unfold do_skip_space. unfold bind at 1. rewrite E1.
      change (47 =? EOF) with false. change (iswhitespace 47) with false.
      change (47 =? 47) with true. cbv iota.
      unfold bind at 1. unfold next. unfold bind at 1. rewrite E2.
      change (42 =? 42) with true. cbv iota. unfold ret at 1. cbv iota.
      unfold bind at 1. unfold skip_block_comment. unfold bind at 1.
      unfold get_pos. unfold bind at 1. unfold current_file at 1. cbn [files set_files].
      unfold ret at 1. rewrite E3. reflexivity. }
    split.
    { apply at_pos_read; try assumption. rewrite C3. simpl length.
      rewrite length_app. simpl length. lia. }
    split; [exact B3|]. congruence.
Qed.

Lemma skip_space_loop_gaps (fs : files_t) (c : Z) (r : list Z) (ln : Z) :
  plain c -> iswhitespace c = false -> c <> 47 ->
  forall (gs : list gap) (n : nat) (s : State) (f : File) (col : Z),
    files s = f :: fs -> at_pos f (gaps_chars gs ++ c :: r) ln col ->
    Forall wf_gap gs -> (length gs < n)%nat ->
    exists f' : File,
      skip_space_loop n s = Ok tt (set_files s (f' :: fs))
      /\ at_pos f' (c :: r) ln
           (if c =? NL then 1 else col + Z.of_nat (length (gaps_chars gs)))
      /\ buf f' = [c] /\ rest f' = r /\ ntok f' = ntok f.
Proof.
  intros Hc Hw Hs.
  induction gs as [|g gs IH]; intros n s f col Hf Hat Hgs Hn;
    (destruct n as [|n]; [simpl in Hn; lia|]); simpl in Hn;
    rewrite skip_space_loop_S; unfold bind at 1.
  - simpl in Hat.
    destruct (do_skip_space_other s f fs c r ln col Hf Hat Hc Hw Hs)
      as (f1 & E & A & B & R & N).
    rewrite E. exists f1. split; [reflexivity|]. simpl length.
    rewrite Z.add_0_r. auto.
  - inversion Hgs as [|? ? Hg Hgs']; subst.
    unfold gaps_chars in Hat. simpl in Hat. rewrite <- app_assoc in Hat.
    fold (gaps_chars gs) in Hat.
    destruct (do_skip_space_gap s f fs g _ ln col Hf Hat Hg) as (f1 & E & A & B & N).
    rewrite E.
    destruct (IH n (set_files s (f1 :: fs)) f1 _ eq_refl A Hgs')
      as (f2 & E2 & A2 & B2 & R2 & N2); [lia|].
    exists f2. split; [exact E2|].
    replace (col + Z.of_nat (length (gaps_chars (g :: gs))))
      with (col + Z.of_nat (length (gap_chars g)) + Z.of_nat (length (gaps_chars gs))).
    2:{ unfold gaps_chars. simpl. rewrite length_app. lia. }
    split; [exact A2|]. split; [exact B2|]. split; [exact R2|]. congruence.
Qed.

(** [skip_space] before a plain character that is no white space and no
    slash: the blanks and the comments are skipped, and the character is
    pushed back. *)
Lemma skip_space_gaps (s : State) (f : File) (fs : files_t)
    (gs : list gap) (c : Z) (r : list Z) (ln col : Z) :
  files s = f :: fs -> at_pos f (gaps_chars gs ++ c :: r) ln col ->
  Forall wf_gap gs -> plain c -> iswhitespace c = false -> c <> 47 ->
  exists f' : File,
    skip_space s = Ok (negb (Z.of_nat (length gs) =? 0)) (set_files s (f' :: fs))
    /\ at_pos f' (c :: r) ln
         (if c =? NL then 1 else col + Z.of_nat (length (gaps_chars gs)))
    /\ buf f' = [c] /\ rest f' = r /\ ntok f' = ntok f.
Proof.
  intros Hf Hat Hgs Hc Hw Hs. unfold skip_space. unfold bind at 1.
  destruct gs as [|g gs].
  - simpl in Hat.
    destruct (do_skip_space_other s f fs c r ln col Hf Hat Hc Hw Hs)
      as (f1 & E & A & B & R & N).
    rewrite E. exists f1. split; [reflexivity|]. simpl length. rewrite Z.add_0_r. auto.
  - inversion Hgs as [|? ? Hg Hgs']; subst.
    unfold gaps_chars in Hat. simpl in Hat. rewrite <- app_assoc in Hat.
    fold (gaps_chars gs) in Hat.
    destruct (do_skip_space_gap s f fs g _ ln col Hf Hat Hg) as (f1 & E & A & B & N).
    rewrite E. change (negb true) with false. cbv iota. unfold bind at 1.
    destruct (skip_space_loop_gaps fs c r ln Hc Hw Hs gs
                (fuel_of (set_files s (f1 :: fs))) (set_files s (f1 :: fs)) f1 _
                eq_refl A Hgs')
      as (f2 & E2 & A2 & B2 & R2 & N2).
    { pose proof (fuel_of_pending (set_files s (f1 :: fs)) f1 fs eq_refl) as Hw1.
      destruct A as (_ & A & _). rewrite A, length_app in Hw1. simpl in Hw1.
      assert (Hlen : (length gs <= length (gaps_chars gs))%nat).
      { clear. induction gs as [|g gs IH]; [simpl; lia|]. unfold gaps_chars in *. simpl.
        rewrite length_app. destruct g; simpl; lia. }
      lia. }
    rewrite E2. exists f2. split.
    { replace (Z.of_nat (length (g :: gs)) =? 0) with false; [reflexivity|].
      symmetry. apply Z.eqb_neq. simpl length. lia. }
    replace (col + Z.of_nat (length (gaps_chars (g :: gs))))
      with (col + Z.of_nat (length (gap_chars g)) + Z.of_nat (length (gaps_chars gs))).
    2:{ unfold gaps_chars. simpl. rewrite length_app. lia. }
    split; [exact A2|]. split; [exact B2|]. split; [exact R2|]. congruence.
Qed.

Lemma gaps_of_blanks (sp : list Z) :
  Forall blank sp ->
  gaps_chars (map Blank sp) = sp /\ Forall wf_gap (map Blank sp)
  /\ length (map Blank sp) = length sp.
Proof.
  intros H. split; [|split; [|apply length_map]].
  - clear H. induction sp as [|x sp IH]; [reflexivity|].
    unfold gaps_chars in *. simpl. rewrite IH. reflexivity.
  - induction H; constructor; assumption.
Qed.

(** *** Identifiers *)

Lemma ident_char_not_NL (c : Z) : ident_char c = true -> c <> NL.
Proof. intros H ->. discriminate H. Qed.

(** The loop of [read_ident] on plain characters: the characters of the
    identifier are taken, the character after them is pushed back, and the
    counters of the file follow. *)
Lemma read_ident_loop_at (fs : files_t) (stop : Z) (tail : list Z) (ln : Z) :
  plain stop -> ident_char stop = false ->
  forall (chars : list Z) (n : nat) (s : State) (f : File) (b : Buffer) (col : Z),
    files s = f :: fs -> buf f = [] -> rest f = chars ++ stop :: tail ->
    line f = ln -> column f = col ->
    Forall plain chars -> Forall (fun c => ident_char c = true) chars ->
    (length chars < n)%nat ->
    exists f' : File,
      read_ident_loop n b s
      = Ok (Ptr (length (heap s)))
           (set_heap (set_files s (f' :: fs))
              (heap s ++ [{| tkind := TIDENT; tline := pline (pos s);
                             tcolumn := pcolumn (pos s); count := ntok f;
                             bol := false; space := false; id := Punct 0;
                             sval := Buffer.body b ++ chars ++ [0]; slen := 0; c := 0;
                             enc := ENC_NONE |}]))
      /\ at_pos f' (stop :: tail) ln
           (if stop =? NL then 1 else col + Z.of_nat (length chars))
      /\ buf f' = [stop] /\ rest f' = tail /\ ntok f' = ntok f + 1.
Proof.
  intros Hstop Hns.
  induction chars as [|c0 chars IH]; intros n s f b col Hf Hb Hr Hl Hc Hp Hi Hn.
  - destruct n as [|n]; [simpl in Hn; lia|]. simpl in Hr.
    destruct (read_ident_test stop Hstop) as [T1 T2].
    rewrite read_ident_loop_S. unfold bind at 1.
    assert (Hat : at_pos f (stop :: tail) ln col) by (apply at_pos_read; assumption).
    destruct (read_unread_at s f fs stop tail ln col Hf Hat Hstop)
      as (f1 & f2 & E1 & E2 & B & R & N & L & C).
    rewrite E1, T2, T1, Hns. cbv iota beta.
    destruct (Z.eqb_spec stop BACKSLASH) as [E|_];
      [destruct Hstop as (_ & H & _); contradiction|].
    unfold bind at 1. unfold ret at 1. cbv iota beta. unfold bind at 1.
    rewrite E2.
    destruct (buf_write_plain b 0) as [B1 _]; [lia|].
    unfold make_ident, make_token. simpl files. cbv iota beta.
    exists (set_ntok f2 (ntok f2 + 1)). split.
    { unfold buf_body. rewrite B1, N. reflexivity. }
    simpl length. rewrite Z.add_0_r.
    split; [apply at_pos_pushed; assumption|]. simpl. rewrite N. auto.
  - destruct n as [|n]; [simpl in Hn; lia|]. simpl in Hn, Hr.
    inversion Hp as [|? ? Hc0 Hp']; subst. inversion Hi as [|? ? Hi0 Hi']; subst.
    destruct (read_ident_test c0 Hc0) as [T1 T2].
    rewrite read_ident_loop_S. unfold bind at 1.
    assert (Hat : at_pos f (c0 :: chars ++ stop :: tail) (line f) (column f))
      by (apply at_pos_read; auto).
    destruct (readc_at s f fs c0 _ _ _ Hf Hat Hc0) as (f1 & E1 & B & R & N & L & C).
    rewrite E1, T2, T1, Hi0. cbv iota beta.
    destruct (Z.eqb_spec c0 NL) as [E|_]; [destruct (ident_char_not_NL c0 Hi0 E)|].
    destruct (buf_write_plain b c0) as [B1 _]; [destruct Hc0; lia|].
    destruct (IH n (set_files s (f1 :: fs)) f1 (buf_write b c0) (column f + 1))
      as (f' & H1 & H2 & H3); try assumption; try reflexivity; try lia.
    exists f'. split.
    { rewrite H1. simpl heap. simpl pos. rewrite B1, N, <- app_assoc. reflexivity. }
    replace (column f + Z.of_nat (length (c0 :: chars)))
      with (column f + 1 + Z.of_nat (length chars)) by (simpl length; lia).
    split; [exact H2|]. destruct H3 as (H3 & H4 & H5). rewrite H5, N. auto.
Qed.

(** The first character of an identifier, other than u, L and U, takes
    [do_read_token] to [read_ident]. *)
Lemma ident_start_tests (c : Z) :
  ident_start c = true ->
  (c =? NL) = false /\ (c =? 58) = false /\ (c =? 35) = false /\ (c =? 43) = false
  /\ (c =? 42) = false /\ (c =? 61) = false /\ (c =? 33) = false /\ (c =? 38) = false
  /\ (c =? 124) = false /\ (c =? 94) = false /\ (c =? 34) = false /\ (c =? 39) = false
  /\ (c =? 47) = false.
Proof.
  intros H.
  repeat match goal with
         | |- _ /\ _ => split
         | |- (c =? ?k) = false =>
             destruct (Z.eqb_spec c k) as [E|_]; [subst c; discriminate H|reflexivity]
         end.
Qed.

Lemma ident_start_char (c : Z) :
  ident_start c = true -> plain c -> ident_char c = true /\ iswhitespace c = false.
Proof.
  intros H (Hc & _ & _). assert (Hr : 0 <= c < 256) by lia. revert c Hr H Hc.
  apply (BufferFacts.below_256
           (fun c => ident_start c = true -> 0 < c < 128 ->
                     ident_char c = true /\ iswhitespace c = false)).
  intros n Hn.
  do 128 (destruct n as [|n];
          [first [intros H; discriminate H | intros _ _; split; reflexivity | intros _ H; lia]|]).
  intros _ H. lia.
Qed.

(** *** One token *)

Lemma lex_loop_S (n : nat) (tok : tokptr) :
  lex_loop (S n) tok
  = (do t <- deref_tok tok;
     if is_space (tkind t) then
       do tok' <- do_read_token;
       run set_space tok' true;
       lex_loop n tok'
     else ret tok).
Proof. reflexivity. Qed.

Lemma fuel_of_S (s : State) : exists n : nat, fuel_of s = S (S n).
Proof.
  unfold fuel_of. pose proof (weight_pos (files s)).
  destruct (weight (files s)) as [|n]; [lia|]. eauto.
Qed.

(** [do_read_token] at an identifier. *)
Lemma do_read_token_ident (s : State) (f : File) (fs : files_t)
    (c0 : Z) (chars : list Z) (stop : Z) (tail : list Z) (ln col : Z) :
  files s = f :: fs -> at_pos f (c0 :: chars ++ stop :: tail) ln col ->
  plain c0 -> ident_start c0 = true ->
  Forall plain chars -> Forall (fun c => ident_char c = true) chars ->
  plain stop -> ident_char stop = false ->
  exists f' : File,
    do_read_token s
    = Ok (Ptr (length (heap s)))
         (set_heap (set_files (set_mark s (mkPos ln col)) (f' :: fs))
            (heap s ++ [ident_token ln col (ntok f) false false (c0 :: chars)]))
    /\ at_pos f' (stop :: tail) ln
         (if stop =? NL then 1 else col + 1 + Z.of_nat (length chars))
    /\ buf f' = [stop] /\ rest f' = tail /\ ntok f' = ntok f + 1.
Proof.
  intros Hf Hat Hc0 Hs0 Hp Hi Hstop Hns.
  destruct (ident_start_char c0 Hs0 Hc0) as [Hic Hw].
  destruct (ident_start_tests c0 Hs0)
    as (T1 & T2 & T3 & T4 & T5 & T6 & T7 & T8 & T9 & T10 & T11 & T12 & T13).
  assert (H47 : c0 <> 47) by (apply Z.eqb_neq; exact T13).
  destruct (skip_space_at s f fs [] c0 _ ln col Hf Hat (List.Forall_nil _) Hc0 Hw H47)
    as (f1 & E1 & A1 & B1 & R1 & N1).
  rewrite T1 in A1. simpl length in A1. rewrite Z.add_0_r in A1.
  unfold do_read_token. unfold bind at 1. rewrite E1.
  change (negb (Z.of_nat (length (@nil Z)) =? 0)) with false. cbv iota beta.
  unfold bind at 1. unfold mark, get_pos, current_file. unfold bind at 1.
  unfold bind at 1. simpl files. cbv iota beta. unfold ret at 1. cbv iota beta.
  unfold bind at 1.
  destruct A1 as (A1a & A1b & A1c & A1d).
  rewrite A1c, A1d, Z.add_0_r.
  destruct (readc_at (set_mark (set_files s (f1 :: fs)) (mkPos ln col)) f1 fs c0 _ ln col
              eq_refl (conj A1a (conj A1b (conj A1c A1d))) Hc0)
    as (f2 & E2 & B2 & R2 & N2 & L2 & C2).
  rewrite E2. rewrite T1 in L2, C2.
  rewrite T1, T2, T3, T4, T5, T6, T7, T8, T9, T10, T11, T12, T13, Hs0. cbv iota.
  unfold read_ident.
  destruct (read_ident_loop_at fs stop tail ln Hstop Hns chars
              (fuel_of (set_files (set_mark (set_files s (f1 :: fs)) (mkPos ln col)) (f2 :: fs)))
              (set_files (set_mark (set_files s (f1 :: fs)) (mkPos ln col)) (f2 :: fs))
              f2 (buf_write make_buffer c0) (col + 1) eq_refl B2 R2 L2 C2 Hp Hi)
    as (f3 & E3 & A3 & B3 & R3 & N3).
  { pose proof (fuel_of_pending
                  (set_files (set_mark (set_files s (f1 :: fs)) (mkPos ln col)) (f2 :: fs))
                  f2 fs eq_refl) as Hw1.
    rewrite B2, R2 in Hw1. simpl in Hw1. rewrite length_app in Hw1. lia. }
  exists f3. split.
  { rewrite E3. destruct (buf_write_plain make_buffer c0) as [W1 _]; [destruct Hc0; lia|].
    rewrite W1, N2, N1. reflexivity. }
  split; [exact A3|]. split; [exact B3|]. split; [exact R3|]. lia.
Qed.

Lemma deref_last (s : State) (h : list Token) (t : Token) :
  heap s = h ++ [t] -> deref_tok (Ptr (length h)) s = Ok t s.
Proof.
  intros Hh. unfold deref_tok, load. rewrite Hh.
  rewrite lookup_app_r by lia. rewrite Nat.sub_diag. reflexivity.
Qed.

Lemma store_last (s : State) (h : list Token) (t t' : Token) :
  heap s = h ++ [t] -> store (Ptr (length h)) t' s = Ok tt (set_heap s (h ++ [t'])).
Proof.
  intros Hh. unfold store. rewrite Hh.
  assert (Hlt : (length h <? length (h ++ [t]))%nat = true).
  { apply Nat.ltb_lt. rewrite length_app. simpl. lia. }
  rewrite Hlt. do 2 f_equal.
  rewrite insert_app_r_alt by lia. rewrite Nat.sub_diag. reflexivity.
Qed.

Lemma set_bol_last (s : State) (h : list Token) (t : Token) (b : bool) :
  heap s = h ++ [t] ->
  set_bol (Ptr (length h)) b s = Ok tt (set_heap s (h ++ [with_bol t b])).
Proof.
  intros Hh. unfold set_bol, bind. rewrite (deref_last s h t Hh).
  apply (store_last s h t _ Hh).
Qed.

Lemma set_space_last (s : State) (h : list Token) (t : Token) (b : bool) :
  heap s = h ++ [t] ->
  set_space (Ptr (length h)) b s = Ok tt (set_heap s (h ++ [with_space t b])).
Proof.
  intros Hh. unfold set_space, bind. rewrite (deref_last s h t Hh).
  apply (store_last s h t _ Hh).
Qed.

Lemma with_space_same (t : Token) : space t = false -> with_space t false = t.
Proof. destruct t. simpl. intros ->. reflexivity. Qed.

(** [lex] before a token that [do_read_token] makes anew: the blanks and
    the comments in front of it are skipped, and the token gets its
    flags. *)
Lemma lex_token (s : State) (f : File) (fs : files_t) (gs : list gap) (c0 : Z)
    (r : list Z) (ln col : Z) (mk : Z -> Token) (post : File -> Prop) :
  buffers s = [[]] -> static_ok s -> files s = f :: fs ->
  at_pos f (gaps_chars gs ++ c0 :: r) ln col -> Forall wf_gap gs ->
  plain c0 -> iswhitespace c0 = false -> c0 <> 47 -> c0 <> NL ->
  (forall cnt : Z, is_space (tkind (mk cnt)) = false /\ space (mk cnt) = false) ->
  (forall (s0 : State) (f0 : File),
      files s0 = f0 :: fs ->
      at_pos f0 (c0 :: r) ln (col + Z.of_nat (length (gaps_chars gs))) ->
      exists f' : File,
        do_read_token s0
        = Ok (Ptr (length (heap s0)))
             (set_heap
                (set_files
                   (set_mark s0 (mkPos ln (col + Z.of_nat (length (gaps_chars gs)))))
                   (f' :: fs))
                (heap s0 ++ [mk (ntok f0)]))
        /\ post f' /\ ntok f' = ntok f0 + 1) ->
  exists f' : File,
    lex s
    = Ok (Ptr (length (heap s)))
         (set_heap
            (set_files (set_mark s (mkPos ln (col + Z.of_nat (length (gaps_chars gs)))))
               (f' :: fs))
            (heap s ++ [with_bol (with_space (mk (ntok f))
                                    (negb (Z.of_nat (length gs) =? 0)))
                          (col =? 1)]))
    /\ post f' /\ ntok f' = ntok f + 1.
Proof.
  intros Hb (Hsp & Hnl) Hf Hat Hbl Hc0 Hw H47 Hn Hmk Hread.
  rewrite (lex_from_stream s Hb).
  unfold bind at 1. unfold current_file. rewrite Hf.
  assert (Hcol : column f = col) by (destruct Hat as (_ & _ & _ & H); exact H).
  rewrite Hcol.
  destruct gs as [|g gs].
  - simpl in Hat. change (gaps_chars []) with (@nil Z) in *.
    simpl length in *. rewrite Z.add_0_r in *.
    destruct (Hread s f Hf Hat) as (f' & E & P & N).
    exists f'. split; [|auto].
    unfold bind at 1. rewrite E. unfold bind at 1.
    destruct (fuel_of_S (set_heap (set_files (set_mark s (mkPos ln col)) (f' :: fs))
                           (heap s ++ [mk (ntok f)]))) as (n & ->).
    rewrite lex_loop_S. unfold bind at 1.
    rewrite (deref_last _ (heap s) (mk (ntok f))) by reflexivity.
    destruct (Hmk (ntok f)) as [K1 K2]. rewrite K1. unfold ret at 1.
    unfold bind at 1.
    rewrite (set_bol_last _ (heap s) (mk (ntok f)) (col =? 1)) by reflexivity.
    change (negb (Z.of_nat 0 =? 0)) with false. rewrite (with_space_same _ K2). reflexivity.
  - assert (Hnc : (c0 =? NL) = false) by (apply Z.eqb_neq; exact Hn).
    destruct (skip_space_gaps s f fs (g :: gs) c0 r ln col Hf Hat Hbl Hc0 Hw H47)
      as (f1 & E1 & A1 & B1 & R1 & N1).
    rewrite Hnc in A1.
    destruct (Hread (set_files s (f1 :: fs)) f1 eq_refl A1) as (f' & E & P & N).
    exists f'. split; [|split; [exact P|lia]].
    unfold bind at 1. unfold do_read_token at 1. unfold bind at 1. rewrite E1.
    replace (negb (Z.of_nat (length (g :: gs)) =? 0)) with true
      by (symmetry; apply negb_true_iff, Z.eqb_neq; simpl length; lia).
    cbv iota. unfold ret at 1. unfold bind at 1.
    destruct (fuel_of_S (set_files s (f1 :: fs))) as (n & ->).
    rewrite lex_loop_S. unfold bind at 1. unfold deref_tok at 1.
    cbn [load space_token set_files].
    rewrite Hsp. change (is_space TSPACE) with true. cbv iota. unfold bind at 1. rewrite E.
    unfold bind at 1.
    rewrite (set_space_last _ (heap s) (mk (ntok f1)) true) by reflexivity.
    rewrite lex_loop_S. unfold bind at 1.
    rewrite (deref_last _ (heap s) (with_space (mk (ntok f1)) true)) by reflexivity.
    destruct (Hmk (ntok f1)) as [K1 K2].
    change (tkind (with_space ?t ?b)) with (tkind t). rewrite K1.
    unfold ret at 1. unfold bind at 1.
    rewrite (set_bol_last _ (heap s) (with_space (mk (ntok f1)) true) (col =? 1))
      by reflexivity.
    rewrite N1. reflexivity.
Qed.

(** [lex] before an identifier. *)
Lemma lex_ident (s : State) (f : File) (fs : files_t) (gs : list gap)
    (c0 : Z) (chars : list Z) (stop : Z) (tail : list Z) (ln col : Z) :
  buffers s = [[]] -> static_ok s -> files s = f :: fs ->
  at_pos f (gaps_chars gs ++ c0 :: chars ++ stop :: tail) ln col -> Forall wf_gap gs ->
  plain c0 -> ident_start c0 = true ->
  Forall plain chars -> Forall (fun c => ident_char c = true) chars ->
  plain stop -> ident_char stop = false ->
  exists f' : File,
    lex s
    = Ok (Ptr (length (heap s)))
         (set_heap
            (set_files (set_mark s (mkPos ln (col + Z.of_nat (length (gaps_chars gs)))))
               (f' :: fs))
            (heap s ++ [ident_token ln (col + Z.of_nat (length (gaps_chars gs))) (ntok f)
                          (col =? 1) (negb (Z.of_nat (length gs) =? 0)) (c0 :: chars)]))
    /\ (at_pos f' (stop :: tail) ln
          (if stop =? NL then 1
           else col + Z.of_nat (length (gaps_chars gs)) + 1 + Z.of_nat (length chars))
        /\ buf f' = [stop] /\ rest f' = tail)
    /\ ntok f' = ntok f + 1.
Proof.
  intros Hb Hst Hf Hat Hbl Hc0 Hs0 Hp Hi Hstop Hns.
  destruct (ident_start_char c0 Hs0 Hc0) as [Hic Hw].
  destruct (ident_start_tests c0 Hs0) as (T1 & _ & _ & _ & _ & _ & _ & _ & _ & _ & _ & _ & T13).
  apply (lex_token s f fs gs c0 (chars ++ stop :: tail) ln col
           (fun cnt => ident_token ln (col + Z.of_nat (length (gaps_chars gs))) cnt
                         false false (c0 :: chars)));
    try assumption.
  - apply Z.eqb_neq. exact T13.
  - apply Z.eqb_neq. exact T1.
  - intros cnt. split; reflexivity.
  - intros s0 f0 Hf0 Hat0.
    destruct (do_read_token_ident s0 f0 fs c0 chars stop tail ln _ Hf0 Hat0 Hc0 Hs0 Hp Hi
                Hstop Hns) as (f' & E & A & B & R & N).
    exists f'. auto.
Qed.

(** *** Lines and literals that are passed over *)

Lemma skip_line_loop_at (fs : files_t) (tail : list Z) (ln : Z) :
  forall (chars : list Z) (n : nat) (s : State) (f : File) (col : Z),
    files s = f :: fs -> at_pos f (chars ++ NL :: tail) ln col ->
    Forall plain chars -> Forall (fun c => c <> NL) chars ->
    (length chars < n)%nat ->
    exists f' : File,
      skip_line_loop n s = Ok tt (set_files s (f' :: fs))
      /\ at_pos f' (NL :: tail) ln 1 /\ buf f' = [NL] /\ rest f' = tail
      /\ ntok f' = ntok f.
Proof.
  induction chars as [|c0 chars IH]; intros n s f col Hf Hat Hp Hq Hn;
    (destruct n as [|n]; [simpl in Hn; lia|]); simpl in Hat, Hn;
    rewrite skip_line_loop_S; unfold bind at 1.
  - destruct (read_unread_at s f fs NL tail ln col Hf Hat plain_NL)
      as (f1 & f2 & E1 & E2 & B & R & N & L & C).
    rewrite E1. change (NL =? EOF) with false. change (NL =? NL) with true. cbv iota.
    rewrite E2. exists f2. split; [reflexivity|].
    change (NL =? NL) with true in C. cbv iota in C.
    split; [apply at_pos_pushed; assumption|auto].
  - inversion Hp as [|? ? Hc0 Hp']; subst. inversion Hq as [|? ? Hq0 Hq']; subst.
    destruct (readc_at s f fs c0 _ ln col Hf Hat Hc0) as (f1 & E1 & B & R & N & L & C).
    rewrite E1.
    destruct (Z.eqb_spec c0 EOF) as [E|_]; [destruct (plain_not_eof c0 Hc0 E)|].
    destruct (Z.eqb_spec c0 NL) as [E|_]; [contradiction|]. cbv iota.
    destruct (IH n (set_files s (f1 :: fs)) f1 (col + 1) eq_refl) as (f' & H1 & H2 & H3 & H4 & H5);
      try assumption; try lia.
    { apply at_pos_read; assumption. }
    exists f'. split; [exact H1|]. split; [exact H2|]. split; [exact H3|].
    split; [exact H4|]. congruence.
Qed.

Lemma skip_line_at (s : State) (f : File) (fs : files_t) (chars tail : list Z)
    (ln col : Z) :
  files s = f :: fs -> at_pos f (chars ++ NL :: tail) ln col ->
  Forall plain chars -> Forall (fun c => c <> NL) chars ->
  exists f' : File,
    skip_line s = Ok tt (set_files s (f' :: fs))
    /\ at_pos f' (NL :: tail) ln 1 /\ buf f' = [NL] /\ rest f' = tail
    /\ ntok f' = ntok f.
Proof.
  intros Hf Hat Hp Hq. unfold skip_line.
  apply (skip_line_loop_at fs tail ln chars (fuel_of s) s f col Hf Hat Hp Hq).
  pose proof (fuel_of_pending s f fs Hf) as Hw.
  destruct Hat as (_ & Hat & _). rewrite Hat, length_app in Hw. simpl in Hw. lia.
Qed.

Lemma skip_string_loop_S (n : nat) (c : Z) :
  skip_string_loop (S n) c
  = if negb (c =? EOF) && negb (c =? 34) then
      run (if c =? BACKSLASH then do _ <- readc; ret tt else ret tt);
      do c' <- readc; skip_string_loop n c'
    else ret tt.
Proof. reflexivity. Qed.

Lemma column_after (c : Z) (col : Z) : 1 <= col -> 1 <= (if c =? NL then 1 else col + 1).
Proof. intros H. destruct (c =? NL); lia. Qed.

(** The loop of [skip_string] with the character [c] of the chs in hand:
    it reads up to the closing quote. *)
Lemma skip_string_loop_at (fs : files_t) (tail : list Z) :
  forall (chs : list Z) (n : nat) (s : State) (f : File) (c : Z),
    files s = f :: fs -> buf f = [] -> rest f = chs ++ 34 :: tail ->
    1 <= column f -> plain c -> c <> 34 ->
    Forall plain chs -> Forall (fun c => c <> 34) chs ->
    (length chs + 1 < n)%nat ->
    exists f' : File,
      skip_string_loop n c s = Ok tt (set_files s (f' :: fs))
      /\ buf f' = [] /\ rest f' = tail /\ 2 <= column f' /\ ntok f' = ntok f.
Proof.
  assert (P34 : plain 34) by (unfold plain, BACKSLASH, CR; lia).
  induction chs as [|x chs IH]; intros n s f c Hf Hb Hr Hcol Hc Hq Hp Hn34 Hn;
    (destruct n as [|n]; [simpl in Hn; lia|]); simpl in Hr, Hn;
    rewrite skip_string_loop_S;
    (destruct (Z.eqb_spec c EOF) as [E|_]; [destruct (plain_not_eof c Hc E)|]);
    (destruct (Z.eqb_spec c 34) as [E|_]; [contradiction|]);
    (destruct (Z.eqb_spec c BACKSLASH) as [E|_];
     [destruct Hc as (_ & Hc & _); contradiction|]);
    change (negb false && negb false) with true; cbv iota;
    unfold bind at 1; unfold ret at 1; unfold bind at 1.
  - destruct (readc_at s f fs 34 tail (line f) (column f) Hf) as (f1 & E1 & B & R & N & L & C);
      [apply at_pos_read; auto|exact P34|].
    rewrite E1. destruct n as [|n]; [lia|]. rewrite skip_string_loop_S.
    change (negb (34 =? EOF) && negb (34 =? 34)) with false. cbv iota.
    exists f1. split; [reflexivity|]. change (34 =? NL) with false in C. cbv iota in C.
    split; [exact B|]. split; [exact R|]. split; [lia|exact N].
  - inversion Hp as [|? ? Hx Hp']; subst. inversion Hn34 as [|? ? Hx34 Hn34']; subst.
    destruct (readc_at s f fs x (chs ++ 34 :: tail) (line f) (column f) Hf) as (f1 & E1 & B & R & N & L & C);
      [apply at_pos_read; auto|exact Hx|].
    rewrite E1.
    destruct (IH n (set_files s (f1 :: fs)) f1 x eq_refl B R) as (f' & H1 & H2 & H3 & H4 & H5);
      try assumption; try lia.
    { rewrite C. apply column_after. exact Hcol. }
    exists f'. split; [exact H1|]. split; [exact H2|]. split; [exact H3|].
    split; [exact H4|]. congruence.
Qed.

(** [skip_string] after the opening quote of a string literal of plain
    characters. *)
Lemma skip_string_at (s : State) (f : File) (fs : files_t) (chs tail : list Z) :
  files s = f :: fs -> buf f = [] -> rest f = chs ++ 34 :: tail ->
  1 <= column f ->
  Forall plain chs -> Forall (fun c => c <> 34) chs ->
  exists f' : File,
    skip_string s = Ok tt (set_files s (f' :: fs))
    /\ buf f' = [] /\ rest f' = tail /\ 2 <= column f' /\ ntok f' = ntok f.
Proof.
  assert (P34 : plain 34) by (unfold plain, BACKSLASH, CR; lia).
  intros Hf Hb Hr Hcol Hp Hq. unfold skip_string. unfold bind at 1.
  destruct chs as [|x chs]; simpl in Hr.
  - destruct (readc_at s f fs 34 tail (line f) (column f) Hf) as (f1 & E1 & B & R & N & L & C);
      [apply at_pos_read; auto|exact P34|].
    rewrite E1. destruct (fuel_of_S (set_files s (f1 :: fs))) as (n & ->).
    rewrite skip_string_loop_S.
    change (negb (34 =? EOF) && negb (34 =? 34)) with false. cbv iota.
    exists f1. split; [reflexivity|]. change (34 =? NL) with false in C. cbv iota in C.
    split; [exact B|]. split; [exact R|]. split; [lia|exact N].
  - inversion Hp as [|? ? Hx Hp']; subst. inversion Hq as [|? ? Hx34 Hq']; subst.
    destruct (readc_at s f fs x (chs ++ 34 :: tail) (line f) (column f) Hf) as (f1 & E1 & B & R & N & L & C);
      [apply at_pos_read; auto|exact Hx|].
    rewrite E1.
    destruct (skip_string_loop_at fs tail chs (fuel_of (set_files s (f1 :: fs)))
                (set_files s (f1 :: fs)) f1 x eq_refl B R)
      as (f' & H1 & H2 & H3 & H4 & H5); try assumption.
    { rewrite C. apply column_after. exact Hcol. }
    { pose proof (fuel_of_pending (set_files s (f1 :: fs)) f1 fs eq_refl) as Hw.
      rewrite B, R in Hw. simpl in Hw. rewrite length_app in Hw. simpl in Hw. lia. }
    exists f'. split; [exact H1|]. split; [exact H2|]. split; [exact H3|].
    split; [exact H4|]. congruence.
Qed.

Lemma skip_char_loop_S (n : nat) (c : Z) :
  skip_char_loop (S n) c
  = if negb (c =? EOF) && negb (c =? 39) then
      do c' <- readc; skip_char_loop n c'
    else ret tt.
Proof. reflexivity. Qed.

(** The loop of [skip_char] with the character [c] in hand. *)
Lemma skip_char_loop_at (fs : files_t) (tail : list Z) :
  forall (chs : list Z) (n : nat) (s : State) (f : File) (c : Z),
    files s = f :: fs -> buf f = [] -> rest f = chs ++ 39 :: tail ->
    1 <= column f -> plain c -> c <> 39 ->
    Forall plain chs -> Forall (fun c => c <> 39) chs ->
    (length chs + 1 < n)%nat ->
    exists f' : File,
      skip_char_loop n c s = Ok tt (set_files s (f' :: fs))
      /\ buf f' = [] /\ rest f' = tail /\ 2 <= column f' /\ ntok f' = ntok f.
Proof.
  assert (P39 : plain 39) by (unfold plain, BACKSLASH, CR; lia).
  induction chs as [|x chs IH]; intros n s f c Hf Hb Hr Hcol Hc Hq Hp Hn39 Hn;
    (destruct n as [|n]; [simpl in Hn; lia|]); simpl in Hr, Hn;
    rewrite skip_char_loop_S;
    (destruct (Z.eqb_spec c EOF) as [E|_]; [destruct (plain_not_eof c Hc E)|]);
    (destruct (Z.eqb_spec c 39) as [E|_]; [contradiction|]);
    change (negb false && negb false) with true; cbv iota;
    unfold bind at 1.
  - destruct (readc_at s f fs 39 tail (line f) (column f) Hf) as (f1 & E1 & B & R & N & L & C);
      [apply at_pos_read; auto|exact P39|].
    rewrite E1. destruct n as [|n]; [lia|]. rewrite skip_char_loop_S.
    change (negb (39 =? EOF) && negb (39 =? 39)) with false. cbv iota.
    exists f1. split; [reflexivity|]. change (39 =? NL) with false in C. cbv iota in C.
    split; [exact B|]. split; [exact R|]. split; [lia|exact N].
  - inversion Hp as [|? ? Hx Hp']; subst. inversion Hn39 as [|? ? Hx39 Hn39']; subst.
    destruct (readc_at s f fs x (chs ++ 39 :: tail) (line f) (column f) Hf) as (f1 & E1 & B & R & N & L & C);
      [apply at_pos_read; auto|exact Hx|].
    rewrite E1.
    destruct (IH n (set_files s (f1 :: fs)) f1 x eq_refl B R) as (f' & H1 & H2 & H3 & H4 & H5);
      try assumption; try lia.
    { rewrite C. apply column_after. exact Hcol. }
    exists f'. split; [exact H1|]. split; [exact H2|]. split; [exact H3|].
    split; [exact H4|]. congruence.
Qed.

(** [skip_char] after the opening quote of a character literal of plain
    characters: the first character is passed whatever it is. *)
Lemma skip_char_at (s : State) (f : File) (fs : files_t) (c1 : Z) (chs tail : list Z) :
  files s = f :: fs -> buf f = [] -> rest f = c1 :: chs ++ 39 :: tail ->
  1 <= column f -> plain c1 ->
  Forall plain chs -> Forall (fun c => c <> 39) chs ->
  exists f' : File,
    skip_char s = Ok tt (set_files s (f' :: fs))
    /\ buf f' = [] /\ rest f' = tail /\ 2 <= column f' /\ ntok f' = ntok f.
Proof.
  assert (P39 : plain 39) by (unfold plain, BACKSLASH, CR; lia).
  intros Hf Hb Hr Hcol Hc1 Hp Hq. unfold skip_char. unfold bind at 1.
  destruct (readc_at s f fs c1 (chs ++ 39 :: tail) (line f) (column f) Hf) as (f0 & E0 & B0 & R0 & N0 & L0 & C0);
    [apply at_pos_read; auto|exact Hc1|].
  rewrite E0.
  destruct (Z.eqb_spec c1 BACKSLASH) as [E|_]; [destruct Hc1 as (_ & Hc1 & _); contradiction|].
  unfold bind at 1. unfold ret at 1. unfold bind at 1.
  assert (Hcol0 : 1 <= column f0) by (rewrite C0; apply column_after; exact Hcol).
  destruct chs as [|x chs]; simpl in R0.
  - destruct (readc_at (set_files s (f0 :: fs)) f0 fs 39 tail (line f0) (column f0) eq_refl)
      as (f1 & E1 & B & R & N & L & C);
      [apply at_pos_read; auto|exact P39|].
    rewrite E1. destruct (fuel_of_S (set_files (set_files s (f0 :: fs)) (f1 :: fs))) as (n & ->).
    rewrite skip_char_loop_S.
    change (negb (39 =? EOF) && negb (39 =? 39)) with false. cbv iota.
    exists f1. split; [reflexivity|]. change (39 =? NL) with false in C. cbv iota in C.
    split; [exact B|]. split; [exact R|]. split; [lia|congruence].
  - inversion Hp as [|? ? Hx Hp']; subst. inversion Hq as [|? ? Hx39 Hq']; subst.
    destruct (readc_at (set_files s (f0 :: fs)) f0 fs x (chs ++ 39 :: tail) (line f0) (column f0) eq_refl)
      as (f1 & E1 & B & R & N & L & C);
      [apply at_pos_read; auto|exact Hx|].
    rewrite E1.
    destruct (skip_char_loop_at fs tail chs
                (fuel_of (set_files (set_files s (f0 :: fs)) (f1 :: fs)))
                (set_files (set_files s (f0 :: fs)) (f1 :: fs)) f1 x eq_refl B R)
      as (f' & H1 & H2 & H3 & H4 & H5); try assumption.
    { rewrite C. apply column_after. exact Hcol0. }
    { pose proof (fuel_of_pending (set_files (set_files s (f0 :: fs)) (f1 :: fs)) f1 fs eq_refl)
        as Hw.
      rewrite B, R in Hw. simpl in Hw. rewrite length_app in Hw. simpl in Hw. lia. }
    exists f'. split; [exact H1|]. split; [exact H2|]. split; [exact H3|].
    split; [exact H4|]. congruence.
Qed.

(** *** The loop of [skip_cond_incl] *)

Lemma skip_cond_incl_loop_S (n : nat) (nest : Z) :
  skip_cond_incl_loop (S n) nest
  = (do f <- current_file;
     do _ <- skip_space;
     do c <- readc;
     if c =? EOF then ret tt
     else if c =? 39 then run skip_char; skip_cond_incl_loop n nest
     else if c =? 34 then run skip_string; skip_cond_incl_loop n nest
     else if negb (c =? 35) || negb (column f =? 1) then skip_cond_incl_loop n nest
     else
       do f1 <- current_file;
       do tok <- lex;
       do t <- deref_tok tok;
       match tkind t with
       | TIDENT =>
           if (nest =? 0)
              && (is_ident t "else" || is_ident t "elif" || is_ident t "endif")
           then
             run unget_token tok;
             do hash <- make_keyword (Punct 35);
             run set_bol hash true;
             run set_column hash (column f1 - 1);
             unget_token hash
           else
             run skip_line;
             skip_cond_incl_loop n
               (if is_ident t "if" || is_ident t "ifdef" || is_ident t "ifndef"
                then nest + 1
                else if negb (nest =? 0) && is_ident t "endif" then nest - 1
                else nest)
       | _ => skip_cond_incl_loop n nest
       end).
Proof. reflexivity. Qed.

(** The first steps of a turn of the loop: the blanks are skipped and the
    character after them is read. *)
Lemma loop_head (s : State) (f : File) (fs : files_t) (sp : list Z) (c : Z)
    (r : list Z) (ln col : Z) :
  files s = f :: fs -> at_pos f (sp ++ c :: r) ln col -> Forall blank sp ->
  plain c -> iswhitespace c = false -> c <> 47 ->
  exists f' : File,
    (forall k : File -> Z -> M unit,
        (do f0 <- current_file; do _ <- skip_space; do c0 <- readc; k f0 c0) s
        = k f c (set_files s (f' :: fs)))
    /\ buf f' = [] /\ rest f' = r /\ ntok f' = ntok f
    /\ line f' = (if c =? NL then ln + 1 else ln)
    /\ column f' = (if c =? NL then 1 else col + Z.of_nat (length sp) + 1).
Proof.
  intros Hf Hat Hsp Hc Hw H47.
  destruct (skip_space_at s f fs sp c r ln col Hf Hat Hsp Hc Hw H47)
    as (f1 & E1 & A1 & B1 & R1 & N1).
  destruct (readc_at (set_files s (f1 :: fs)) f1 fs c r ln _ eq_refl A1 Hc)
    as (f2 & E2 & B2 & R2 & N2 & L2 & C2).
  exists f2. split.
  { intros k. unfold bind at 1. unfold current_file. rewrite Hf. unfold bind at 1.
    rewrite E1. unfold bind at 1. rewrite E2. reflexivity. }
  split; [exact B2|]. split; [exact R2|]. split; [congruence|]. split; [exact L2|].
  rewrite C2. destruct (c =? NL); reflexivity.
Qed.

(** A turn of the loop at a character that starts nothing. *)
Lemma loop_char (s : State) (f : File) (fs : files_t) (sp : list Z) (c : Z)
    (r : list Z) (ln col : Z) :
  files s = f :: fs -> at_pos f (sp ++ c :: r) ln col -> Forall blank sp ->
  plain c -> iswhitespace c = false -> c <> 47 -> c <> 39 -> c <> 34 ->
  c <> 35 \/ col <> 1 ->
  exists f' : File,
    (forall (m : nat) (nest : Z),
        skip_cond_incl_loop (S m) nest s
        = skip_cond_incl_loop m nest (set_files s (f' :: fs)))
    /\ buf f' = [] /\ rest f' = r /\ ntok f' = ntok f
    /\ line f' = (if c =? NL then ln + 1 else ln)
    /\ column f' = (if c =? NL then 1 else col + Z.of_nat (length sp) + 1).
Proof.
  intros Hf Hat Hsp Hc Hw H47 H39 H34 Hh.
  assert (Hcol : column f = col) by (destruct Hat as (_ & _ & _ & H); exact H).
  destruct (loop_head s f fs sp c r ln col Hf Hat Hsp Hc Hw H47) as (f' & E & Hrest).
  exists f'. split; [|exact Hrest].
  intros m nest. rewrite skip_cond_incl_loop_S.
  match goal with
  | |- (do f0 <- current_file; do _ <- skip_space; do c0 <- readc; @?k f0 c0) s = _ =>
      rewrite (E k)
  end.
  cbv beta.
  destruct (Z.eqb_spec c EOF) as [E0|_]; [destruct (plain_not_eof c Hc E0)|].
  destruct (Z.eqb_spec c 39) as [E0|_]; [contradiction|].
  destruct (Z.eqb_spec c 34) as [E0|_]; [contradiction|].
  rewrite Hcol.
  destruct (Z.eqb_spec c 35) as [E0|_]; [|reflexivity].
  destruct (Z.eqb_spec col 1) as [E1|_]; [|reflexivity].
  destruct Hh; contradiction.
Qed.

(** A turn of the loop at a string literal. *)
Lemma loop_string (s : State) (f : File) (fs : files_t) (sp chs r : list Z) (ln col : Z) :
  files s = f :: fs -> at_pos f (sp ++ 34 :: chs ++ 34 :: r) ln col -> Forall blank sp ->
  1 <= col -> Forall plain chs -> Forall (fun c => c <> 34) chs ->
  exists f' : File,
    (forall (m : nat) (nest : Z),
        skip_cond_incl_loop (S m) nest s
        = skip_cond_incl_loop m nest (set_files s (f' :: fs)))
    /\ buf f' = [] /\ rest f' = r /\ ntok f' = ntok f /\ 2 <= column f'.
Proof.
  intros Hf Hat Hsp Hcol Hp Hq.
  assert (P34 : plain 34) by (unfold plain, BACKSLASH, CR; lia).
  destruct (loop_head s f fs sp 34 _ ln col Hf Hat Hsp P34 eq_refl)
    as (f1 & E & B1 & R1 & N1 & L1 & C1); [lia|].
  change (34 =? NL) with false in C1. cbv iota in C1.
  destruct (skip_string_at (set_files s (f1 :: fs)) f1 fs chs r eq_refl B1 R1)
    as (f' & E2 & B2 & R2 & C2 & N2); try assumption; [lia|].
  exists f'. split; [|split; [exact B2|split; [exact R2|split; [congruence|exact C2]]]].
  intros m nest. rewrite skip_cond_incl_loop_S.
  match goal with
  | |- (do f0 <- current_file; do _ <- skip_space; do c0 <- readc; @?k f0 c0) s = _ =>
      rewrite (E k)
  end.
  cbv beta. change (34 =? EOF) with false. change (34 =? 39) with false.
  change (34 =? 34) with true. cbv iota. unfold bind at 1. rewrite E2. reflexivity.
Qed.

(** A turn of the loop at a character literal. *)
Lemma loop_chr (s : State) (f : File) (fs : files_t) (sp : list Z) (c1 : Z)
    (chs r : list Z) (ln col : Z) :
  files s = f :: fs -> at_pos f (sp ++ 39 :: c1 :: chs ++ 39 :: r) ln col ->
  Forall blank sp -> 1 <= col ->
  plain c1 -> Forall plain chs -> Forall (fun c => c <> 39) chs ->
  exists f' : File,
    (forall (m : nat) (nest : Z),
        skip_cond_incl_loop (S m) nest s
        = skip_cond_incl_loop m nest (set_files s (f' :: fs)))
    /\ buf f' = [] /\ rest f' = r /\ ntok f' = ntok f /\ 2 <= column f'.
Proof.
  intros Hf Hat Hsp Hcol Hc1 Hp Hq.
  assert (P39 : plain 39) by (unfold plain, BACKSLASH, CR; lia).
  destruct (loop_head s f fs sp 39 _ ln col Hf Hat Hsp P39 eq_refl)
    as (f1 & E & B1 & R1 & N1 & L1 & C1); [lia|].
  change (39 =? NL) with false in C1. cbv iota in C1.
  destruct (skip_char_at (set_files s (f1 :: fs)) f1 fs c1 chs r eq_refl B1 R1)
    as (f' & E2 & B2 & R2 & C2 & N2); try assumption; [lia|].
  exists f'. split; [|split; [exact B2|split; [exact R2|split; [congruence|exact C2]]]].
  intros m nest. rewrite skip_cond_incl_loop_S.
  match goal with
  | |- (do f0 <- current_file; do _ <- skip_space; do c0 <- readc; @?k f0 c0) s = _ =>
      rewrite (E k)
  end.
  cbv beta. change (39 =? EOF) with false. change (39 =? 39) with true.
  cbv iota. unfold bind at 1. rewrite E2. reflexivity.
Qed.

Lemma whitespace_blank (c : Z) : iswhitespace c = true -> blank c.
Proof.
  unfold iswhitespace, blank. intros H.
  destruct (Z.eqb_spec c 32); [auto|]. destruct (Z.eqb_spec c 9); [auto|].
  destruct (Z.eqb_spec c 12); [auto|]. destruct (Z.eqb_spec c 11); [auto|].
  discriminate H.
Qed.

(** The loop passes a line of text. *)
Lemma loop_text (fs : files_t) (more : list Z) :
  forall (its : list item) (sp0 : list Z) (s : State) (f : File),
    files s = f :: fs -> buf f = [] ->
    rest f = sp0 ++ concat (map item_chars its) ++ NL :: more ->
    Forall blank sp0 -> Forall wf_item its ->
    (column f = 1 /\ starts_directive its = false) \/ 2 <= column f ->
    exists (k : nat) (f' : File),
      (k <= S (length its))%nat
      /\ (forall (m : nat) (nest : Z),
             skip_cond_incl_loop (k + m) nest s
             = skip_cond_incl_loop m nest (set_files s (f' :: fs)))
      /\ buf f' = [] /\ rest f' = more /\ column f' = 1 /\ ntok f' = ntok f.
Proof.
  induction its as [|it its IH]; intros sp0 s f Hf Hb Hr Hsp Hwf Hcol.
  - simpl in Hr.
    destruct (loop_char s f fs sp0 NL more (line f) (column f) Hf) as (f' & E & B & R & N & L & C);
      try assumption; try discriminate; try reflexivity.
    { apply at_pos_read; auto. }
    { exact plain_NL. }
    { left. discriminate. }
    exists 1%nat, f'. split; [simpl; lia|]. split; [exact E|].
    change (NL =? NL) with true in C. auto.
  - inversion Hwf as [|? ? Hit Hwf']; subst.
    assert (Hc1 : 1 <= column f) by (destruct Hcol as [[-> _]|H]; lia).
    destruct it as [c|chs|c1 chs]; simpl in Hit, Hr.
    + destruct Hit as (Hc & Hn & H47 & H34 & H39).
      destruct (iswhitespace c) eqn:Hw.
      * destruct (IH (sp0 ++ [c]) s f Hf Hb) as (k & f' & Hk & E & Hrest).
        { rewrite <- app_assoc. exact Hr. }
        { apply Forall_app. split; [exact Hsp|].
          constructor; [apply whitespace_blank; exact Hw|constructor]. }
        { exact Hwf'. }
        { destruct Hcol as [[H1 H2]|H]; [left|right; exact H].
          split; [exact H1|]. simpl in H2. rewrite Hw in H2. exact H2. }
        exists k, f'. split; [simpl; lia|]. split; [exact E|exact Hrest].
      * destruct (loop_char s f fs sp0 c (concat (map item_chars its) ++ NL :: more)
                    (line f) (column f) Hf)
          as (f1 & E1 & B1 & R1 & N1 & L1 & C1); try assumption.
        { apply at_pos_read; auto. }
        { destruct Hcol as [[H1 H2]|H]; [left|right; lia].
          simpl in H2. rewrite Hw in H2. apply Z.eqb_neq. exact H2. }
        destruct (Z.eqb_spec c NL) as [E0|_]; [contradiction|].
        destruct (IH [] (set_files s (f1 :: fs)) f1 eq_refl B1 R1) as (k & f' & Hk & E & Hrest);
          [constructor|exact Hwf'|right; lia|].
        exists (S k), f'. split; [simpl; lia|]. split.
        { intros m nest. change (S k + m)%nat with (S (k + m)). rewrite E1. apply E. }
        destruct Hrest as (H1 & H2 & H3 & H4). rewrite H4. auto.
    + destruct Hit as (Hp & Hq).
      destruct (loop_string s f fs sp0 chs (concat (map item_chars its) ++ NL :: more)
                  (line f) (column f) Hf)
        as (f1 & E1 & B1 & R1 & N1 & C1); try assumption.
      { apply at_pos_read; auto. rewrite Hr. rewrite <- !app_assoc. reflexivity. }
      destruct (IH [] (set_files s (f1 :: fs)) f1 eq_refl B1 R1) as (k & f' & Hk & E & Hrest);
        [constructor|exact Hwf'|right; lia|].
      exists (S k), f'. split; [simpl; lia|]. split.
      { intros m nest. change (S k + m)%nat with (S (k + m)). rewrite E1. apply E. }
      destruct Hrest as (H1 & H2 & H3 & H4). rewrite H4. auto.
    + destruct Hit as (Hc & Hp & Hq).
      destruct (loop_chr s f fs sp0 c1 chs (concat (map item_chars its) ++ NL :: more)
                  (line f) (column f) Hf)
        as (f1 & E1 & B1 & R1 & N1 & C1); try assumption.
      { apply at_pos_read; auto. rewrite Hr. rewrite <- !app_assoc. reflexivity. }
      destruct (IH [] (set_files s (f1 :: fs)) f1 eq_refl B1 R1) as (k & f' & Hk & E & Hrest);
        [constructor|exact Hwf'|right; lia|].
      exists (S k), f'. split; [simpl; lia|]. split.
      { intros m nest. change (S k + m)%nat with (S (k + m)). rewrite E1. apply E. }
      destruct Hrest as (H1 & H2 & H3 & H4). rewrite H4. auto.
Qed.

(** *** Directives *)

Lemma cstr_name (name : list Z) : Forall plain name -> cstr (name ++ [0]) = name.
Proof.
  induction 1 as [|c name Hc _ IH]; [reflexivity|]. simpl.
  destruct (Z.eqb_spec c 0) as [E|_]; [destruct Hc; lia|]. rewrite IH. reflexivity.
Qed.

Lemma is_ident_name (ln col cnt : Z) (b sp : bool) (name : list Z) (s : string) :
  Forall plain name -> is_ident (ident_token ln col cnt b sp name) s = is_name name s.
Proof.
  intros Hp. unfold is_ident, is_name. cbn [tkind sval ident_token].
  rewrite (cstr_name name Hp). reflexivity.
Qed.

(** A turn of the loop at a directive, up to the test of its name: the #
    is read at the beginning of the line, and [lex] makes the token of the
    name, which is not at the beginning of the line. *)
Lemma loop_directive (s : State) (f : File) (fs : files_t) (sp1 sp2 : list Z)
    (c0 : Z) (chars : list Z) (stop : Z) (tail : list Z) :
  buffers s = [[]] -> static_ok s -> files s = f :: fs ->
  buf f = [] -> column f = 1 ->
  rest f = sp1 ++ 35 :: sp2 ++ (c0 :: chars) ++ stop :: tail ->
  Forall blank sp1 -> Forall blank sp2 ->
  plain c0 -> ident_start c0 = true ->
  Forall plain chars -> Forall (fun c => ident_char c = true) chars ->
  plain stop -> ident_char stop = false ->
  exists (f' : File) (p : Pos),
    (forall (m : nat) (nest : Z),
        skip_cond_incl_loop (S m) nest s
        = (if (nest =? 0)
              && (is_name (c0 :: chars) "else" || is_name (c0 :: chars) "elif"
                  || is_name (c0 :: chars) "endif")
           then
             run unget_token (Ptr (length (heap s)));
             do hash <- make_keyword (Punct 35);
             run set_bol hash true;
             run set_column hash (1 + Z.of_nat (length sp1));
             unget_token hash
           else
             run skip_line;
             skip_cond_incl_loop m
               (if is_name (c0 :: chars) "if" || is_name (c0 :: chars) "ifdef"
                   || is_name (c0 :: chars) "ifndef"
                then nest + 1
                else if negb (nest =? 0) && is_name (c0 :: chars) "endif" then nest - 1
                else nest))
            (set_heap (set_files (set_mark s p) (f' :: fs))
               (heap s ++ [ident_token (line f) (2 + Z.of_nat (length sp1 + length sp2))
                             (ntok f) false (negb (Z.of_nat (length sp2) =? 0))
                             (c0 :: chars)])))
    /\ pline p = line f
    /\ at_pos f' (stop :: tail) (line f)
         (if stop =? NL then 1
          else 3 + Z.of_nat (length sp1 + length sp2 + length chars))
    /\ buf f' = [stop] /\ rest f' = tail /\ ntok f' = ntok f + 1.
Proof.
  intros Hb Hst Hf Hbf Hcol Hr Hsp1 Hsp2 Hc0 Hs0 Hp Hi Hstop Hns.
  assert (P35 : plain 35) by (unfold plain, BACKSLASH, CR; lia).
  assert (Hname : Forall plain (c0 :: chars)) by (constructor; assumption).
  destruct (loop_head s f fs sp1 35 (sp2 ++ (c0 :: chars) ++ stop :: tail) (line f) 1 Hf)
    as (f1 & E & B1 & R1 & N1 & L1 & C1); try assumption; try reflexivity; try lia.
  { apply at_pos_read; auto. }
  change (35 =? NL) with false in L1, C1. cbv iota in L1, C1.
  destruct (gaps_of_blanks sp2 Hsp2) as (G1 & G2 & G3).
  destruct (lex_ident (set_files s (f1 :: fs)) f1 fs (map Blank sp2) c0 chars stop tail (line f)
              (1 + Z.of_nat (length sp1) + 1) Hb Hst eq_refl)
    as (f' & E2 & (A2 & B2 & R2) & N2); try assumption.
  { rewrite G1. apply at_pos_read; auto. }
  rewrite G1, G3 in E2. rewrite G1 in A2.
  exists f', (mkPos (line f) (1 + Z.of_nat (length sp1) + 1 + Z.of_nat (length sp2))).
  split.
  - intros m nest. rewrite skip_cond_incl_loop_S.
    match goal with
    | |- (do f0 <- current_file; do _ <- skip_space; do c0 <- readc; @?k f0 c0) s = _ =>
        rewrite (E k)
    end.
    cbv beta. change (35 =? EOF) with false. change (35 =? 39) with false.
    change (35 =? 34) with false. change (35 =? 35) with true. rewrite Hcol.
    change (negb true || negb (1 =? 1)) with false. cbv iota.
    unfold bind at 1. unfold current_file at 1. cbn [files set_files].
    unfold bind at 1. rewrite E2. unfold bind at 1.
    cbn [heap set_files].
    rewrite (deref_last _ (heap s)
               (ident_token (line f) (1 + Z.of_nat (length sp1) + 1 + Z.of_nat (length sp2))
                  (ntok f1) (1 + Z.of_nat (length sp1) + 1 =? 1)
                  (negb (Z.of_nat (length sp2) =? 0)) (c0 :: chars))) by reflexivity.
    cbn [tkind ident_token]. rewrite !is_ident_name by exact Hname.
    replace (1 + Z.of_nat (length sp1) + 1 =? 1) with false by (symmetry; apply Z.eqb_neq; lia).
    replace (1 + Z.of_nat (length sp1) + 1 + Z.of_nat (length sp2))
      with (2 + Z.of_nat (length sp1 + length sp2)) by lia.
    replace (column f1 - 1) with (1 + Z.of_nat (length sp1)) by lia.
    rewrite N1. reflexivity.
  - split; [reflexivity|].
    replace (3 + Z.of_nat (length sp1 + length sp2 + length chars))
      with (1 + Z.of_nat (length sp1) + 1 + Z.of_nat (length sp2) + 1 + Z.of_nat (length chars))
      by lia.
    split; [exact A2|]. split; [exact B2|]. split; [exact R2|]. lia.
Qed.

Lemma set_column_last (s : State) (h : list Token) (t : Token) (n : Z) :
  heap s = h ++ [t] ->
  set_column (Ptr (length h)) n s = Ok tt (set_heap s (h ++ [with_column t n])).
Proof.
  intros Hh. unfold set_column, bind. rewrite (deref_last s h t Hh).
  apply (store_last s h t _ Hh).
Qed.

(** The end of the skipping: the token of the name and a token # are
    pushed back. *)
Lemma unget_directive_at (s : State) (f : File) (fs : files_t) (h : list Token)
    (t : Token) (col : Z) :
  buffers s = [[]] -> files s = f :: fs -> heap s = h ++ [t] -> tkind t = TIDENT ->
  (run unget_token (Ptr (length h));
   do hash <- make_keyword (Punct 35);
   run set_bol hash true;
   run set_column hash col;
   unget_token hash) s
  = Ok tt (set_buffers
             (set_heap (set_files s (set_ntok f (ntok f + 1) :: fs))
                (h ++ [t; keyword_token (pline (pos s)) col (ntok f) true false (Punct 35)]))
             [[Ptr (S (length h)); Ptr (length h)]]).
Proof.
  intros Hb Hf Hh Hk.
  unfold bind at 1. unfold unget_token at 1. unfold bind at 1.
  rewrite (deref_last s h t Hh). rewrite Hk. cbn [is_eof]. rewrite Hb.
  unfold bind at 1. unfold make_keyword, make_token. cbn [files set_buffers]. rewrite Hf.
  cbn [heap set_buffers tkind bol space id sval slen c enc]. rewrite Hh.
  assert (Hlen : length (h ++ [t]) = S (length h)) by (rewrite length_app; simpl; lia).
  rewrite <- Hlen.
  unfold bind at 1.
  match goal with
  | |- context [set_bol (Ptr (length ?hh)) true ?st] =>
      match st with
      | context [hh ++ [?tk]] => rewrite (set_bol_last st hh tk true) by reflexivity
      end
  end.
  unfold bind at 1.
  match goal with
  | |- context [set_column (Ptr (length ?hh)) col ?st] =>
      match st with
      | context [hh ++ [?tk]] => rewrite (set_column_last st hh tk col) by reflexivity
      end
  end.
  unfold unget_token, bind.
  match goal with
  | |- context [deref_tok (Ptr (length ?hh)) ?st] =>
      match st with
      | context [hh ++ [?tk]] => rewrite (deref_last st hh tk) by reflexivity
      end
  end.
  cbn [tkind with_column with_bol is_eof buffers set_heap set_files set_buffers].
  rewrite Hlen. f_equal. unfold set_buffers, set_heap, set_files.
  cbn [files buffers pos heap space_token newline_token eof_token warnings].
  f_equal. rewrite <- app_assoc. reflexivity.
Qed.

(** The counter of the code after a directive that does not end the
    skipping is the counter of the specification. *)
Lemma nest_step_code (nest nest' : nat) (name : list Z) :
  nest_step nest name = Some nest' ->
  (Z.of_nat nest =? 0)
  && (is_name name "else" || is_name name "elif" || is_name name "endif") = false
  /\ (if is_name name "if" || is_name name "ifdef" || is_name name "ifndef"
      then Z.of_nat nest + 1
      else if negb (Z.of_nat nest =? 0) && is_name name "endif" then Z.of_nat nest - 1
      else Z.of_nat nest) = Z.of_nat nest'.
Proof.
  unfold nest_step. destruct nest as [|n].
  - change (Z.of_nat 0 =? 0) with true. cbn [andb negb].
    destruct (is_name name "else" || is_name name "elif" || is_name name "endif");
      [discriminate|].
    destruct (is_name name "if" || is_name name "ifdef" || is_name name "ifndef");
      intros H; injection H as <-; split; reflexivity.
  - replace (Z.of_nat (S n) =? 0) with false by (symmetry; apply Z.eqb_neq; lia).
    cbn [andb negb].
    destruct (is_name name "if" || is_name name "ifdef" || is_name name "ifndef").
    + intros H; injection H as <-. split; [reflexivity|lia].
    + destruct (is_name name "endif"); intros H; injection H as <-;
        (split; [reflexivity|lia]).
Qed.

Lemma nest_step_stop (name : list Z) :
  nest_step 0 name = None <->
  is_name name "else" || is_name name "elif" || is_name name "endif" = true.
Proof.
  unfold nest_step.
  destruct (is_name name "else" || is_name name "elif" || is_name name "endif").
  - split; reflexivity.
  - destruct (is_name name "if" || is_name name "ifdef" || is_name name "ifndef");
      split; discriminate.
Qed.

(** The directive that ends the skipping. *)
Lemma loop_directive_stop (s : State) (f : File) (fs : files_t) (sp1 sp2 : list Z)
    (name : list Z) (stop : Z) (tail : list Z) :
  buffers s = [[]] -> static_ok s -> files s = f :: fs ->
  buf f = [] -> column f = 1 ->
  rest f = sp1 ++ 35 :: sp2 ++ name ++ stop :: tail ->
  Forall blank sp1 -> Forall blank sp2 -> wf_name name ->
  plain stop -> ident_char stop = false ->
  nest_step 0 name = None ->
  exists (s' : State) (f' : File),
    (forall m : nat, skip_cond_incl_loop (S m) 0 s = Ok tt s')
    /\ buffers s' = [[Ptr (S (length (heap s))); Ptr (length (heap s))]]
    /\ heap s'
       = heap s
         ++ [ident_token (line f) (2 + Z.of_nat (length sp1 + length sp2)) (ntok f)
               false (negb (Z.of_nat (length sp2) =? 0)) name;
             keyword_token (line f) (1 + Z.of_nat (length sp1)) (ntok f + 1)
               true false (Punct 35)]
    /\ static_ok s'
    /\ files s' = f' :: fs /\ buf f' = [stop] /\ rest f' = tail /\ line f' = line f.
Proof.
  intros Hb Hst Hf Hbf Hcol Hr Hsp1 Hsp2 (c0 & chars & -> & Hc0 & Hs0 & Hp & Hi)
    Hstop Hns Hstep.
  apply nest_step_stop in Hstep.
  destruct (loop_directive s f fs sp1 sp2 c0 chars stop tail Hb Hst Hf Hbf Hcol Hr Hsp1 Hsp2
              Hc0 Hs0 Hp Hi Hstop Hns)
    as (f' & p & E & Hp1 & A & B & R & N).
  eexists _, (set_ntok f' (ntok f' + 1)). split.
  - intros m. rewrite (E m 0). rewrite Hstep. change ((0 =? 0) && true) with true. cbv iota.
    apply (unget_directive_at _ f' fs (heap s)); try reflexivity. exact Hb.
  - cbn [buffers set_buffers heap set_heap files set_files pos set_mark].
    split; [reflexivity|]. split; [rewrite Hp1, N; reflexivity|].
    split; [exact Hst|]. split; [reflexivity|].
    cbn [buf rest line set_ntok]. destruct A as (_ & _ & A & _). auto.
Qed.

(** A directive that does not end the skipping: the counter is updated,
    the rest of the line is passed, and the next turn reads the newline. *)
Lemma loop_directive_pass (s : State) (f : File) (fs : files_t) (sp1 sp2 : list Z)
    (name tail more : list Z) (nest nest' : nat) :
  buffers s = [[]] -> static_ok s -> files s = f :: fs ->
  buf f = [] -> column f = 1 ->
  rest f = line_chars (Directive sp1 sp2 name tail) ++ more ->
  wf_line (Directive sp1 sp2 name tail) ->
  nest_step nest name = Some nest' ->
  exists (s' : State) (f' : File),
    (forall m : nat,
        skip_cond_incl_loop (2 + m) (Z.of_nat nest) s
        = skip_cond_incl_loop m (Z.of_nat nest') s')
    /\ buffers s' = [[]] /\ static_ok s'
    /\ files s' = f' :: fs /\ buf f' = [] /\ column f' = 1 /\ rest f' = more
    /\ exists t : Token,
         heap s' = heap s ++ [t] /\ tkind t = TIDENT /\ sval t = name ++ [0].
Proof.
  intros Hb Hst Hf Hbf Hcol Hr (Hsp1 & Hsp2 & Hname & Hpt & Hnt & Hhd) Hstep.
  pose proof Hname as (c0 & chars & -> & Hc0 & Hs0 & Hp & Hi).
  destruct (nest_step_code nest nest' (c0 :: chars) Hstep) as [K1 K2].
  assert (Hsplit : exists (stop : Z) (tail' : list Z),
             tail ++ NL :: more = stop :: tail' /\ plain stop /\ ident_char stop = false).
  { destruct tail as [|x tail].
    - exists NL, more. split; [reflexivity|]. split; [exact plain_NL|reflexivity].
    - exists x, (tail ++ NL :: more). split; [reflexivity|].
      inversion Hpt; subst. split; [assumption|exact Hhd]. }
  destruct Hsplit as (stop & tail' & Ht & Hstop & Hns).
  assert (Hr' : rest f = sp1 ++ 35 :: sp2 ++ (c0 :: chars) ++ stop :: tail').
  { rewrite Hr. unfold line_chars. rewrite <- Ht.
    repeat (rewrite <- ?app_assoc, <- ?app_comm_cons; simpl). reflexivity. }
  destruct (loop_directive s f fs sp1 sp2 c0 chars stop tail' Hb Hst Hf Hbf Hcol Hr' Hsp1 Hsp2
              Hc0 Hs0 Hp Hi Hstop Hns)
    as (f1 & p & E & Hp1 & A & B & R & N).
  rewrite <- Ht in A.
  match type of E with
  | forall m nest, _ = _ ?st => set (s1 := st) in *
  end.
  destruct (skip_line_at s1 f1 fs tail more (line f) _ eq_refl A Hpt Hnt)
    as (f2 & E2 & A2 & B2 & R2 & N2).
  destruct (loop_char (set_files s1 (f2 :: fs)) f2 fs [] NL more (line f) 1 eq_refl A2)
    as (f3 & E3 & B3 & R3 & N3 & L3 & C3);
    try discriminate; try reflexivity; try exact plain_NL; try constructor; try discriminate.
  exists (set_files (set_files s1 (f2 :: fs)) (f3 :: fs)), f3. split.
  - intros m. change (2 + m)%nat with (S (S m)). rewrite (E (S m) (Z.of_nat nest)).
    rewrite K1. cbv iota. unfold bind at 1. rewrite E2. rewrite K2. apply E3.
  - split; [exact Hb|]. split; [exact Hst|]. split; [reflexivity|].
    split; [exact B3|]. split; [exact C3|]. split; [exact R3|].
    eexists. split; [reflexivity|]. split; reflexivity.
Qed.

Lemma items_length (its : list item) :
  (length its <= length (concat (map item_chars its)))%nat.
Proof.
  induction its as [|it its IH]; [simpl; lia|]. simpl. rewrite length_app.
  destruct it; simpl; lia.
Qed.

(** The loop passes the lines that do not end the skipping, and keeps the
    nesting counter of the specification. *)
Lemma loop_lines (fs : files_t) (more : list Z) :
  forall (ls : list cline) (nest nest' : nat) (s : State) (f : File),
    nesting nest ls = Some nest' -> Forall wf_line ls ->
    buffers s = [[]] -> static_ok s -> files s = f :: fs ->
    buf f = [] -> column f = 1 -> rest f = text_of ls ++ more ->
    exists (k : nat) (s' : State) (f' : File) (toks : list Token),
      (k <= length (text_of ls))%nat
      /\ (forall m : nat,
             skip_cond_incl_loop (k + m) (Z.of_nat nest) s
             = skip_cond_incl_loop m (Z.of_nat nest') s')
      /\ buffers s' = [[]] /\ static_ok s'
      /\ files s' = f' :: fs /\ buf f' = [] /\ column f' = 1 /\ rest f' = more
      /\ heap s' = heap s ++ toks
      /\ map (fun t => (tkind t, sval t)) toks
         = map (fun n => (TIDENT, n ++ [0])) (directive_names ls).
Proof.
  induction ls as [|l ls IH]; intros nest nest' s f Hn Hwf Hb Hst Hf Hbf Hcol Hr.
  - injection Hn as <-. exists 0%nat, s, f, []. split; [simpl; lia|].
    split; [reflexivity|]. rewrite app_nil_r. repeat (split; [assumption|]).
    split; reflexivity.
  - inversion Hwf as [|? ? Hl Hwf']; subst.
    unfold text_of in Hr. simpl in Hr. rewrite <- app_assoc in Hr. fold (text_of ls) in Hr.
    destruct l as [its|sp1 sp2 name tail].
    + destruct Hl as [Hits Hsd]. simpl in Hn.
      destruct (loop_text fs (text_of ls ++ more) its [] s f Hf Hbf) as (k1 & f1 & Hk1 & E1 & B1 & R1 & C1 & N1);
        [simpl; unfold line_chars in Hr; rewrite <- app_assoc in Hr; exact Hr
        |constructor|exact Hits|left; auto|].
      destruct (IH nest nest' (set_files s (f1 :: fs)) f1 Hn Hwf' Hb Hst eq_refl B1 C1 R1)
        as (k2 & s' & f' & toks & Hk2 & E2 & Hrest).
      exists (k1 + k2)%nat, s', f', toks. split.
      { unfold text_of. simpl. rewrite !length_app. fold (text_of ls).
        pose proof (items_length its). simpl. lia. }
      split; [|exact Hrest].
      intros m. rewrite <- Nat.add_assoc, E1. apply E2.
    + simpl in Hn. destruct (nest_step nest name) as [n1|] eqn:Hstep; [|discriminate].
      destruct (loop_directive_pass s f fs sp1 sp2 name tail (text_of ls ++ more) nest n1
                  Hb Hst Hf Hbf Hcol Hr Hl Hstep)
        as (s1 & f1 & E1 & Hb1 & Hst1 & Hf1 & B1 & C1 & R1 & t & Hh1 & Hk & Hsv).
      destruct (IH n1 nest' s1 f1 Hn Hwf' Hb1 Hst1 Hf1 B1 C1 R1)
        as (k2 & s' & f' & toks & Hk2 & E2 & Hb2 & Hst2 & Hf2 & B2 & C2 & R2 & Hh2 & Hm).
      exists (2 + k2)%nat, s', f', (t :: toks). split.
      { unfold text_of. simpl. rewrite !length_app. fold (text_of ls). simpl.
        rewrite !length_app. simpl. destruct Hl as (_ & _ & (c0 & chars & -> & _) & _).
        simpl. lia. }
      split.
      { intros m. rewrite <- Nat.add_assoc, E1. apply E2. }
      repeat (split; [assumption|]). split.
      { rewrite Hh2, Hh1, <- app_assoc. reflexivity. }
      simpl. rewrite Hk, Hsv, Hm. reflexivity.
Qed.

(** At the end of the input the loop returns, with nothing pushed back. *)
Lemma loop_eof (s : State) (f : File) :
  files s = [f] -> buf f = [] -> rest f = [] ->
  exists (s' : State) (f' : File),
    (forall (m : nat) (nest : Z), skip_cond_incl_loop (2 + m) nest s = Ok tt s')
    /\ buffers s' = buffers s /\ heap s' = heap s
    /\ files s' = [f'] /\ buf f' = [] /\ rest f' = [].
Proof.
  assert (Hend : forall (s : State) (f : File),
             files s = [f] -> buf f = [] -> rest f = [] -> at_end (last f) = EOF ->
             forall (m : nat) (nest : Z),
               skip_cond_incl_loop (S m) nest s = Ok tt (set_files s [set_last f EOF])).
  { clear s f. intros s f Hf Hb Hr Hl m nest. rewrite skip_cond_incl_loop_S.
    unfold bind at 1. unfold current_file. rewrite Hf.
    unfold bind at 1. unfold skip_space, do_skip_space. unfold bind at 1. unfold bind at 1.
    rewrite (readc_at_end s f Hf Hb Hr Hl).
    change (EOF =? EOF) with true. cbv iota. unfold ret at 1. cbv iota beta.
    change (negb false) with true. cbv iota. unfold ret at 1. unfold bind at 1.
    rewrite (readc_at_end (set_files s [set_last f EOF]) (set_last f EOF));
      try reflexivity; try assumption.
  }
  intros Hf Hb Hr.
  destruct (Z.eq_dec (at_end (last f)) EOF) as [Hl|Hl].
  - exists (set_files s [set_last f EOF]), (set_last f EOF). split.
    + intros m nest. apply (Hend s f Hf Hb Hr Hl).
    + simpl. auto.
  - assert (Hl' : at_end (last f) = NL).
    { unfold at_end in *. destruct ((last f =? NL) || (last f =? EOF)); [contradiction|reflexivity]. }
    pose (f1 := advance NL (set_last f NL)).
    assert (E1 : readc s = Ok NL (set_files s [f1])) by (apply readc_added_newline; assumption).
    assert (F1 : buf f1 = [] /\ rest f1 = [] /\ last f1 = NL).
    { unfold f1, advance. simpl. auto. }
    destruct F1 as (B1 & R1 & L1).
    destruct (unreadc_at (set_files s [f1]) f1 [] NL eq_refl B1 plain_NL)
      as (f2 & E2 & B2 & R2 & N2 & L2 & C2).
    assert (L2' : last f2 = NL).
    { rewrite (unreadc_push (set_files s [f1]) f1 [] NL eq_refl) in E2;
        [|discriminate|rewrite B1; unfold BUF_SIZE; simpl; lia].
      injection E2 as E2. rewrite <- E2.
      destruct (pushed_fields NL f1) as (_ & _ & _ & P & _). rewrite P. exact L1. }
    assert (E3 : readc (set_files s [f2]) = Ok NL (set_files s [advance NL (set_buf f2 [])])).
    { apply (readc_buf (set_files s [f2]) f2 [] NL []); [reflexivity|exact B2| |];
        discriminate. }
    pose (f3 := advance NL (set_buf f2 [])).
    assert (F3 : buf f3 = [] /\ rest f3 = [] /\ last f3 = NL).
    { destruct (after_buf NL f2 []) as (A1 & A2 & _).
      destruct (advance_fields NL (set_buf f2 [])) as (_ & _ & A3 & _).
      unfold f3. rewrite A1, A2, A3, R2, R1. simpl. auto. }
    destruct F3 as (B3 & R3 & L3).
    exists (set_files s [set_last f3 EOF]), (set_last f3 EOF). split.
    + intros m nest. change (2 + m)%nat with (S (S m)).
      rewrite skip_cond_incl_loop_S.
      unfold bind at 1. unfold current_file. rewrite Hf.
      unfold bind at 1. unfold skip_space, do_skip_space. unfold bind at 1. unfold bind at 1.
      rewrite E1. change (NL =? EOF) with false. change (iswhitespace NL) with false.
      change (NL =? 47) with false. cbv iota. unfold bind at 1. rewrite E2.
      unfold ret at 1. cbv iota beta. change (negb false) with true. cbv iota.
      unfold ret at 1. unfold bind at 1.
      change (set_files (set_files s [f1]) [f2]) with (set_files s [f2]). rewrite E3.
      change (NL =? EOF) with false. change (NL =? 39) with false.
      change (NL =? 34) with false. change (negb (NL =? 35)) with true. cbv iota.
      cbn [orb].
      apply (Hend (set_files s [f3]) f3 eq_refl B3 R3).
      rewrite L3. reflexivity.
    + simpl. auto.
Qed.

(** *** Punctuators and newlines *)









(** *** Lines of words *)
















(** C7.  [skip_cond_incl] keeps a nesting counter.  On lines of text and
    directives (text of plain characters with string and character
    literals, which may hold newlines, quotes and #; directives with white
    space before and after the #), in a file of a size that the integers of
    the code hold, the loop, entered at the beginning of a line with the
    counter [nest], passes the lines [ls] while the counter follows
    [nesting]: #if, #ifdef and #ifndef increment it, #endif
    decrements it at positive nesting, and an #else or #elif at positive
    nesting, another directive, or text (a # that is not first on its
    line, or within a literal, included) leaves it as it is.  At an
    #else, #elif or #endif at nesting 0 it makes the token of the name,
    pushes it back, pushes back on top of it a keyword token # with [bol]
    set and the column of the #, and returns: the next two calls of [lex]
    return the # and then the name, and the rest of the line is still to be
    read.  At the end of the input it returns with nothing pushed back.
    The only tokens made are those of the names of the directives.
    Whatever the input, what is pushed back when [skip_cond_incl] returns is
    nothing or such a pair of tokens.  On the input of the specification,
    entered after the tokens of the first line, it counts the inner #if and
    its #endif and stops at the outer #endif, and no token foo or bar is
    ever made. *)
Theorem skip_cond_incl_spec :
  (forall (ls : list cline) (sp1 sp2 name : list Z) (stop : Z) (tail : list Z)
          (nest : nat) (s : State) (f : File) (fs : files_t),
      buffers s = [[]] -> static_ok s -> files s = f :: fs ->
      buf f = [] -> column f = 1 -> int_sized f ->
      Forall wf_line ls -> nesting nest ls = Some 0%nat ->
      Z.of_nat nest + Z.of_nat (length ls) < 2 ^ 31 ->
      Forall blank sp1 -> Forall blank sp2 -> wf_name name ->
      is_name name "else" || is_name name "elif" || is_name name "endif" = true ->
      plain stop -> ident_char stop = false ->
      rest f = text_of ls ++ sp1 ++ 35 :: sp2 ++ name ++ stop :: tail ->
      exists (s' : State) (f' : File) (toks : list Token) (tok hash : tokptr) (cnt : Z),
        (forall fuel : nat,
            (length (rest f) < fuel)%nat ->
            skip_cond_incl_loop fuel (Z.of_nat nest) s = Ok tt s')
        /\ (nest = 0%nat -> skip_cond_incl s = Ok tt s')
        /\ buffers s' = [[hash; tok]]
        /\ lex s' = Ok hash (set_buffers s' [[tok]])
        /\ lex (set_buffers s' [[tok]]) = Ok tok (set_buffers s' [[]])
        /\ load s' hash
           = Some (keyword_token (line f') (1 + Z.of_nat (length sp1)) (cnt + 1)
                     true false (Punct 35))
        /\ load s' tok
           = Some (ident_token (line f') (2 + Z.of_nat (length sp1 + length sp2)) cnt
                     false (negb (Z.of_nat (length sp2) =? 0)) name)
        /\ heap s' = heap s ++ toks ++ [ident_token (line f')
                                          (2 + Z.of_nat (length sp1 + length sp2)) cnt
                                          false (negb (Z.of_nat (length sp2) =? 0)) name;
                                        keyword_token (line f') (1 + Z.of_nat (length sp1))
                                          (cnt + 1) true false (Punct 35)]
        /\ map (fun t => (tkind t, sval t)) toks
           = map (fun n => (TIDENT, n ++ [0])) (directive_names ls)
        /\ files s' = f' :: fs /\ buf f' = [stop] /\ rest f' = tail)
  /\ (forall (ls : list cline) (nest nest' : nat) (s : State) (f : File),
         buffers s = [[]] -> static_ok s -> files s = [f] ->
         buf f = [] -> column f = 1 -> int_sized f ->
         Forall wf_line ls -> nesting nest ls = Some nest' ->
         Z.of_nat nest + Z.of_nat (length ls) < 2 ^ 31 ->
         rest f = text_of ls ->
         exists (s' : State) (f' : File) (toks : list Token),
           (forall fuel : nat,
               (length (rest f) + 2 <= fuel)%nat ->
               skip_cond_incl_loop fuel (Z.of_nat nest) s = Ok tt s')
           /\ (nest = 0%nat -> skip_cond_incl s = Ok tt s')
           /\ buffers s' = [[]]
           /\ heap s' = heap s ++ toks
           /\ map (fun t => (tkind t, sval t)) toks
              = map (fun n => (TIDENT, n ++ [0])) (directive_names ls)
           /\ files s' = [f'] /\ buf f' = [] /\ rest f' = [])
  /\ (forall s s' : State,
         buffers s = [[]] ->
         skip_cond_incl s = Ok tt s' ->
         buffers s' = [[]]
         \/ exists (hash tok : tokptr) (th ti : Token),
              buffers s' = [[hash; tok]]
              /\ load s' hash = Some th
              /\ tkind th = TKEYWORD /\ id th = Punct 35 /\ bol th = true
              /\ load s' tok = Some ti
              /\ (is_ident ti "else" || is_ident ti "elif" || is_ident ti "endif") = true
              /\ lex s' = Ok hash (set_buffers s' [[tok]])
              /\ lex (set_buffers s' [[tok]]) = Ok tok (set_buffers s' [[]]))
  /\ (exists (ts0 ts : list Token) (s1 s2 s3 : State) (f2 : File),
         lex_n 4 (lex_init (make_file
                    (str "#if 0" ++ [NL] ++ str "foo" ++ [NL] ++ str "#if 1" ++ [NL]
                     ++ str "bar" ++ [NL] ++ str "#endif" ++ [NL] ++ str "#endif"
                     ++ [NL]))) = Ok ts0 s1
         /\ map tkind ts0 = [TKEYWORD; TIDENT; TNUMBER; TNEWLINE]
         /\ skip_cond_incl s1 = Ok tt s2
         /\ files s2 = [f2] /\ rest f2 = [] /\ buf f2 = [NL] /\ line f2 = 6
         /\ lex_n 4 s2 = Ok ts s3
         /\ map (fun t => (tkind t, id t, cstr (sval t), bol t, tline t, tcolumn t)) ts
            = [(TKEYWORD, Punct 35, [], true, 6, 1);
               (TIDENT, Punct 0, str "endif", false, 6, 2);
               (TNEWLINE, Punct 0, [], true, 0, 0);
               (TEOF, Punct 0, [], true, 0, 0)]
         /\ map (fun t => cstr (sval t)) (heap s3)
            = [[]; str "if"; str "0"; str "if"; str "endif"; str "endif"; []]).
Proof.
  split; [|split; [|split]].
  - intros ls sp1 sp2 name stop tail nest s f fs Hb Hst Hf Hbf Hcol _ Hwf Hn _
      Hsp1 Hsp2 Hname Hend Hstop Hns Hr.
    destruct (loop_lines fs (sp1 ++ 35 :: sp2 ++ name ++ stop :: tail) ls nest 0%nat s f
                Hn Hwf Hb Hst Hf Hbf Hcol Hr)
      as (k & s1 & f1 & toks & Hk & E1 & Hb1 & Hst1 & Hf1 & B1 & C1 & R1 & Hh1 & Hm).
    destruct (loop_directive_stop s1 f1 fs sp1 sp2 name stop tail Hb1 Hst1 Hf1 B1 C1 R1
                Hsp1 Hsp2 Hname Hstop Hns)
      as (s' & f' & E2 & Hb2 & Hh2 & Hst2 & Hf2 & B2 & R2 & L2).
    { apply nest_step_stop. exact Hend. }
    assert (Hloop : forall fuel : nat,
               (length (rest f) < fuel)%nat ->
               skip_cond_incl_loop fuel (Z.of_nat nest) s = Ok tt s').
    { intros fuel Hfuel. rewrite Hr, length_app in Hfuel.
      replace fuel with (k + S (fuel - k - 1))%nat by lia.
      rewrite E1. apply E2. }
    exists s', f', toks, (Ptr (length (heap s1))), (Ptr (S (length (heap s1)))), (ntok f1).
    split; [exact Hloop|]. split.
    { intros ->. unfold skip_cond_incl. apply Hloop.
      pose proof (fuel_of_pending s f fs Hf) as Hw. rewrite length_app in Hw. lia. }
    split; [exact Hb2|].
    destruct (lex_pushed_back s' _ _ Hb2) as [X1 X2].
    split; [exact X1|]. split; [exact X2|].
    assert (Hlen : length (heap s1) = length (heap s ++ toks)) by (rewrite Hh1; reflexivity).
    rewrite L2.
    split.
    { unfold load. rewrite Hh2. rewrite lookup_app_r by lia.
      replace (S (length (heap s1)) - length (heap s1))%nat with 1%nat by lia. reflexivity. }
    split.
    { unfold load. rewrite Hh2. rewrite lookup_app_r by lia.
      rewrite Nat.sub_diag. reflexivity. }
    split; [rewrite Hh2, Hh1, <- app_assoc; reflexivity|].
    split; [exact Hm|]. auto.
  - intros ls nest nest' s f Hb Hst Hf Hbf Hcol _ Hwf Hn _ Hr.
    rewrite <- (app_nil_r (text_of ls)) in Hr.
    destruct (loop_lines [] [] ls nest nest' s f Hn Hwf Hb Hst Hf Hbf Hcol Hr)
      as (k & s1 & f1 & toks & Hk & E1 & Hb1 & Hst1 & Hf1 & B1 & C1 & R1 & Hh1 & Hm).
    destruct (loop_eof s1 f1 Hf1 B1 R1) as (s' & f' & E2 & Hb2 & Hh2 & Hf2 & B2 & R2).
    assert (Hloop : forall fuel : nat,
               (length (rest f) + 2 <= fuel)%nat ->
               skip_cond_incl_loop fuel (Z.of_nat nest) s = Ok tt s').
    { intros fuel Hfuel. rewrite Hr, length_app in Hfuel. simpl in Hfuel.
      replace fuel with (k + (2 + (fuel - k - 2)))%nat by lia.
      rewrite E1. apply E2. }
    exists s', f', toks.
    split; [exact Hloop|]. split.
    { intros ->. unfold skip_cond_incl. apply Hloop.
      pose proof (fuel_of_pending s f [] Hf) as Hw. rewrite length_app in Hw. lia. }
    split; [congruence|]. split; [congruence|]. auto.
  - intros s s' Hb H. unfold skip_cond_incl in H.
    destruct (skip_cond_incl_loop_exit _ _ _ _ Hb H)
      as [H1|(hash & tok & th & ti & B1 & B2 & B3 & B4 & B5 & B6 & B7)].
    + left. exact H1.
    + right. exists hash, tok, th, ti.
      destruct (lex_pushed_back s' hash tok B1) as [L1 L2].
      repeat split; assumption.
  - do 6 eexists.
    split; [vm_compute; reflexivity|].
    split; [reflexivity|].
    split; [vm_compute; reflexivity|].
    split; [reflexivity|].
    split; [reflexivity|].
    split; [reflexivity|].
    split; [reflexivity|].
    split; [vm_compute; reflexivity|].
    split; vm_compute; reflexivity.
Qed.

(** The group of the specification, entered at the beginning of the line
    of foo: the inner #if and its #endif are counted, and the skipping ends
    at the outer #endif. *)
Lemma skip_cond_incl_spec_witness :
  Forall wf_line
    [Text [Ch 102; Ch 111; Ch 111]; Directive [] [] (str "if") (str " 1");
     Text [Ch 98; Ch 97; Ch 114]; Directive [] [] (str "endif") []]
  /\ nesting 0
       [Text [Ch 102; Ch 111; Ch 111]; Directive [] [] (str "if") (str " 1");
        Text [Ch 98; Ch 97; Ch 114]; Directive [] [] (str "endif") []]
     = Some 0%nat
  /\ exists (s' : State) (f' : File),
       skip_cond_incl
         (lex_init (make_file
            (str "foo" ++ [NL] ++ str "#if 1" ++ [NL] ++ str "bar" ++ [NL]
             ++ str "#endif" ++ [NL] ++ str "#endif" ++ [NL])))
       = Ok tt s'
       /\ buffers s' = [[Ptr 3; Ptr 2]]
       /\ map (fun t => (tkind t, cstr (sval t), bol t)) (heap s')
          = [(TIDENT, str "if", false); (TIDENT, str "endif", false);
             (TIDENT, str "endif", false); (TKEYWORD, [], true)]
       /\ files s' = [f'] /\ buf f' = [NL] /\ rest f' = [].
Proof.
  assert (Hp : forall c : Z, 0 < c < 92 \/ 92 < c < 128 -> c <> 13 -> plain c).
  { intros c H1 H2. unfold plain, BACKSLASH, CR. lia. }
  assert (Hwf : Forall wf_line
                  [Text [Ch 102; Ch 111; Ch 111]; Directive [] [] (str "if") (str " 1");
                   Text [Ch 98; Ch 97; Ch 114]; Directive [] [] (str "endif") []]).
  { repeat apply List.Forall_cons; try apply List.Forall_nil.
    - split; [|reflexivity].
      repeat apply List.Forall_cons; try apply List.Forall_nil;
        (split; [apply Hp; lia|unfold NL; lia]).
    - split; [constructor|]. split; [constructor|]. split.
      { exists 105, [102]. split; [reflexivity|]. split; [apply Hp; lia|].
        split; [reflexivity|].
        split; repeat apply List.Forall_cons; try apply List.Forall_nil;
          first [apply Hp; lia|reflexivity]. }
      change (str " 1") with [32; 49].
      split; [repeat apply List.Forall_cons; try apply List.Forall_nil; apply Hp; lia|].
      split; [repeat apply List.Forall_cons; try apply List.Forall_nil; discriminate|].
      reflexivity.
    - split; [|reflexivity].
      repeat apply List.Forall_cons; try apply List.Forall_nil;
        (split; [apply Hp; lia|unfold NL; lia]).
    - split; [constructor|]. split; [constructor|]. split.
      { exists 101, [110; 100; 105; 102]. split; [reflexivity|]. split; [apply Hp; lia|].
        split; [reflexivity|].
        split; repeat apply List.Forall_cons; try apply List.Forall_nil;
          first [apply Hp; lia|reflexivity]. }
      split; [constructor|]. split; [constructor|]. reflexivity. }
  assert (Hname : wf_name (str "endif")).
  { exists 101, [110; 100; 105; 102]. split; [reflexivity|]. split; [apply Hp; lia|].
    split; [reflexivity|].
    split; repeat apply List.Forall_cons; try apply List.Forall_nil;
      first [apply Hp; lia|reflexivity]. }
  assert (Hsz : int_sized (make_file
                             (str "foo" ++ [NL] ++ str "#if 1" ++ [NL] ++ str "bar" ++ [NL]
                              ++ str "#endif" ++ [NL] ++ str "#endif" ++ [NL]))).
  { split; [|split]; vm_compute; first [reflexivity|split; [discriminate|reflexivity]]. }
  split; [exact Hwf|]. split; [reflexivity|].
  destruct (proj1 skip_cond_incl_spec
              [Text [Ch 102; Ch 111; Ch 111]; Directive [] [] (str "if") (str " 1");
               Text [Ch 98; Ch 97; Ch 114]; Directive [] [] (str "endif") []]
              [] [] (str "endif") NL [] 0%nat
              (lex_init (make_file
                 (str "foo" ++ [NL] ++ str "#if 1" ++ [NL] ++ str "bar" ++ [NL]
                  ++ str "#endif" ++ [NL] ++ str "#endif" ++ [NL])))
              (make_file
                 (str "foo" ++ [NL] ++ str "#if 1" ++ [NL] ++ str "bar" ++ [NL]
                  ++ str "#endif" ++ [NL] ++ str "#endif" ++ [NL]))
              [] eq_refl (conj eq_refl eq_refl) eq_refl eq_refl eq_refl Hsz Hwf eq_refl
              eq_refl
              (List.Forall_nil _) (List.Forall_nil _) Hname eq_refl plain_NL eq_refl eq_refl)
    as (s' & f' & toks & tok & hash & cnt & _ & E & Hb & _ & _ & _ & _ & Hh & Hm & Hf & B & R).
  exists s', f'. split; [exact (E eq_refl)|].
  specialize (E eq_refl). vm_compute in E. injection E as <-.
  vm_compute in Hf. injection Hf as <-.
  split; [reflexivity|]. split; [reflexivity|]. split; [reflexivity|].
  split; reflexivity.
Defined.

End LinesFacts.
